(* ===== verification/_CoqProject ===== *)
-Q . S2P
Prelude.v
GoString.v
Unicode.v
Rules.v
Merge.v
Verifiers.v
Complexity.v
Aho.v
Literals.v
Engine.v
Compile.v
Scanner.v
Load.v
ScanIO.v
Setters.v
Rulesets.v
Decisions.v
Moderation.v
Check.v
Loader.v
Validate.v
Jobs.v
Repos.v
PolicyRepo.v
RulepackSvc.v
EventBus.v
Policies.v
Redact.v
ExtProc.v
Streams.v
Backoff.v
Updates.v
AuditTrail.v
Config.v
Http.v
PolicyApi.v
Hub.v
AsyncScan.v
JobQueue.v
Server.v
SystemApi.v
RulepacksApi.v
PgRulepacks.v
AuditApi.v
Tenants.v
Tokens.v
Assignments.v
ControlPlane.v
Usage.v
UsageStores.v
Errors.v
Middleware.v
KafkaProducer.v
Telemetry.v
UpdateGroup.v
Dashboard.v
Diagnostics.v
DecisionsApi.v
LiveUpdates.v
