(* ===== verification/Prelude.v ===== *)
(** * PromptShield: a verification development

    PromptShield is a gateway that scans prompts against rule packs and decides
    whether to allow, quarantine or deny a request.  Rule packs are YAML files;
    they are loaded with their imports (internal/rules), merged into one rule
    per id, compiled (internal/scanner) and installed into a scanner.  A
    scanner reads a request line by line and evaluates every rule on every
    line: keywords, regular expressions with optional content verifiers, and
    semantic rules that ask an external analyzer.  The enforcement endpoints
    (internal/interfaces/http) and the external processor of Envoy
    (internal/interfaces/grpc) turn the violations of a scan into a decision,
    answer the request and record the decision; jobs scan asynchronously.
    Rule packs and policies are managed over HTTP, stored in memory or in
    PostgreSQL with redis caches in front, and announced to running gateways
    over an event bus or NATS; audit events, usage and quotas are kept beside.

    ** The files, in dependency order

    Foundations
    - [Prelude]: results of fallible functions and their notation (scope
      [ps_scope]), 64-bit wrap-around, the hint database [ps], shared tactics.
    - [GoString], [Unicode]: the parts of Go's strings, strconv, unicode and
      utf8 packages that the program uses, on byte strings, with their lemmas.

    Rules and scanning (internal/rules, internal/scanner)
    - [Rules]: the structs of types.go.  [Merge]: merge.go; the recursion over
      Extends has fuel equal to the number of packs, proved sufficient.
    - [Verifiers]: verifiers.go.  [Complexity]: complexity.go and
      regex_complexity.go.  [Aho], [Literals], [Engine]: aho.go,
      regex_literals.go, and the interfaces of the expression engine and the
      LRU cache.
    - [Compile]: rule_eval.go, with the global expression cache as state.
    - [Scanner]: evaluate.go, semantic.go, util.go and pkg/types; evaluation
      threads a state of violations, metrics, keys already reported, semantic
      caches and oracle positions.
    - [Load]: loader.go of the scanner.  [ScanIO]: io.go and the windows of
      long lines, whose fuel is one more than the length of the line, proved
      sufficient.  [Setters]: the setters of scanner.go.
    - [Loader]: loading with imports; the recursion has fuel, and more fuel than
      rule packs on disk is proved sufficient.  [Validate]: validate.go.
    - [Moderation]: semantic/openai/openai.go, as functions on one call and as a
      step relation over the cache operations of overlapping calls.

    Enforcement
    - [Rulesets]: application/rulesets and scanner_pool.go: the gateway under
      interleaved requests, releases and reloads, as a step relation.
    - [Decisions]: application/decisions and the query parsing of
      api/decisions.go.  [DecisionsApi]: how a decision reaches the log and the
      event hub, and the routes over the log.  [Check]: check.go, auth.go and
      api/enforcement.go.
    - [ExtProc], [Streams]: the external processor, one stream as a function
      over its messages, and all streams over the shared account of bytes in
      flight as a step relation.
    - [Jobs], [AsyncScan], [JobQueue]: jobs/manager.go as a step relation over
      its critical sections, the scan processor with the job routes, and the
      queue on a redis stream with its consumers.

    Policies and rule packs
    - [Repos], [PolicyRepo]: the in-memory repositories.  [PgRulepacks]: the
      tables of rule packs with the constraints of the migrations.  Both
      repositories implement the class [RulepackRepo].
    - [RulepackSvc], [RulepacksApi], [ControlPlane]: the rule pack service, its
      endpoints, and the control plane with services/validation.go.
    - [EventBus], [Policies], [PolicyApi]: the event bus, the policy services
      with the scanner manager and the policy sync, and the policy endpoints.
    - [Backoff], [Updates], [UpdateGroup]: delays, the publisher and subscriber
      of rule updates (messaging/nats, on redis streams), and the consumer group
      the subscriber reads with, as a step relation.  [LiveUpdates]: external
      processors that reload their rules on an update, as a fleet.

    Platform
    - [Http]: requests, answers and the guards in front of handlers.  [Hub]: the
      event hub and the event stream.  [Server]: how the gateway starts, listens
      and stops.  [SystemApi], [Diagnostics]: diagnostics, administration and
      metrics, the debug routes, and the update stream of the control plane.
      [Dashboard]: the handler of the operator dashboard.
      [Config]: the runtime configuration and the path validators.
    - [Redact], [AuditTrail], [AuditApi]: redaction, the audit loggers with
      their hash chain, and the audit endpoints.
    - [Tenants], [Tokens], [Assignments]: tables with their redis caches, and
      the endpoints over them.  [Usage], [UsageStores]: the in-memory usage
      store and the quotas, and the stores on redis and SQLite.
    - [Errors]: the domain errors of internal/shared.  [Middleware]: the errors,
      answers and middleware of internal/interfaces/http/api on one request,
      with panics.
    - [KafkaProducer]: messaging/kafka/producer.go, whose concurrent calls are a
      step relation.  [Telemetry]: the collector of observability/telemetry and
      how the programs build it.

    ** How the code is modelled

    A struct is a record, a pure function a function, a function that returns
    an error returns a [result] or an option, and code that changes state
    takes and returns it.  Strings are byte strings; [int] and [int64] are
    integers, wrapped where an overflow is possible; [float64] values that are
    computed with are [spec_float].  A loop that may stop early is a
    [Fixpoint], a loop that does not a fold.  Code that runs concurrently is a
    step relation whose steps are its critical sections or the commands it
    sends; a handler is written against the class of the repository it uses.

    Libraries that are not part of the repository are type classes whose
    fields state what the code relies on: [RegexpSyntax] (regexp/syntax with
    its simplifier), [RegexpEngine], [LruLib], [AhoLib], [SchemaLib], [Digest]
    (SHA-256), [Limiter], [YamlRules], [JsonUpdates], [JsonMessages],
    [JsonResults], [Host] (network and certificates), [RedisScan] (SCAN),
    [Sqlite] (which statements it refuses), and the outside world,
    [Platform] (environment, durations), [World] (semantic analyzer, clock),
    [ScanEnv] (cancellation, memory), [Sources] (files, globs, YAML, HTTP) and
    [RangeOrder] (the order of a range over a map).  Decoders of request bodies
    are arguments.  Each class has an instance on which the examples and
    witnesses compute.  PostgreSQL and redis are their tables and keys with the
    documented effect of the statements and commands the code sends, and may
    be down.

    ** What is proved

    - Scanning: a scan without violations has read its whole input and no
      rule fires on any line ([ScanReader_fail_closed],
      [clean_scan_no_rule_fires]); evaluation reports exactly the rules that
      fire ([evaluateLine_iff_fires], [loaded_scanner_exact]), only violations
      of applicable rules and none twice ([evaluateLine_reports]); chunked
      reading does not depend on the chunks
      ([scanChunked_chunking_independent]); windows cover long lines.
    - Enforcement: an authorized check always gets a decision and a record,
      allow means clean, the status follows the mode ([check_fails_closed]);
      the records hold no text of the prompt ([records_hold_no_prompt]); a body
      the external processor forwards holds no forbidden keyword, also across
      its chunks ([forwarded_body_has_no_keyword]), every message is answered
      according to the protocol ([stream_protocol]), and the bytes in flight
      are accounted for ([inflight_accounting]).
    - Decision log: the ring buffer implements the list of all decisions
      ([log_refines_history]); paging is complete and stable while records are
      added ([pages_enumerate]); the statistics are right to the rounding
      ([Stats_correct]; the ranks are checked for every size up to the maximal
      capacity of 50,000); what is recorded is published and found by its
      identifier, whatever overtakes what ([decisions_shown]).
    - Rule packs: import resolution computes the import closure and terminates
      ([LoadPacks_closure], [LoadPacks_terminates]); what it loads compiles;
      validation is exact and sufficient; merging respects order, overrides and
      priorities ([MergePacks_correct]).  The repositories keep their
      invariants ([repository_invariant], [pg_purge_exact]), the service
      announces what it activates (lemma [activation_announced]), uploads are
      idempotent, and the active version is guarded by its tag
      ([upload_idempotent], [active_version_guarded]); the control plane moves
      a version through its states ([control_plane_lifecycle]).
    - Policies: the scanners enforce the active policies
      ([manager_follows_service]), and a request to activate or deactivate one
      reaches the gateway ([policy_requests_enforced]); rule updates are given
      out in the order of publication once the group exists
      ([updates_read_in_order]), and applied in order and once
      ([updates_applied_in_order]).
    - Concurrency: requests scan with the active packs when reloads are
      serialised ([request_scans_active_packs]); a job's status only advances
      and no job is processed twice ([job_lifecycle]), the workers drain the
      queue ([jobs_drain]), a scan job answers for its own request
      ([async_scan_result]), the durable queue delivers every message once
      ([queue_delivery]), and the event hub neither panics nor reorders
      ([hub_delivery]); an event stream is read back as it was sent
      ([event_stream_roundtrip]).
    - Caches and tables: the caches in front of tenants, tokens and assignments
      answer like the tables, under the conditions their theorems state
      ([tenant_cache_coherent], [token_lookup_sound],
      [assignment_lists_coherent]); usage is aggregated exactly, in memory
      ([usage_query_exact]) and from the counters in redis
      ([redis_usage_exact]); tampering with the audit trail is detected
      ([audit_tamper_evident]).
    - Operation: the gateway is not exposed by default ([gateway_not_exposed]),
      accepted paths are safe, failures of polls stay within the bounds of the
      breaker ([accepted_paths_safe], [breaker_bounds]), and the external
      processor keeps its invariant over reloads ([server_invariant]).  Every
      request is answered, also when its handler panics ([requests_answered]);
      the statistics of the Kafka producer are exact under concurrent use
      ([producer_accounts]); every domain error has the status and the retry
      advice of its code ([domain_errors_consistent]), a collector gives its
      connection back ([collector_connections]), and the dashboard serves nothing
      but its build, hardened ([dashboard_pages]).
    - Semantic analysis: a verdict flags exactly what the service flags or what
      reaches the threshold, in whatever order the categories are ranged over
      ([verdict_exact]); overlapping calls respect the limit on concurrency,
      and the cache repeats fresh verdicts on the same key
      ([moderation_served]).
    - Verifiers, complexity limits, literal tokens and matchers have functional
      specifications.

    Behaviour that deviates from what a comment or a document says is shown by
    lemmas beside the model of the code in question, mostly in the modules of
    witnesses at the end of a file: for instance [automaton_survives_reload],
    [gate_skips_match], [concurrent_reloads_stale], [events_out_of_order],
    [lost_update], [revoked_token_accepted], [purge_blocked],
    [uploaded_version_not_activated], [default_scan_blind],
    [failed_message_not_retried], [client_auth_dropped], [p95_of_sums],
    [padded_prompt_allowed], [audit_never_published], [sqlite_store_unusable],
    [early_subscriber_deaf], [panic_ids_differ], [file_sink_never_written],
    [debug_audited_once], [stream_cut], [one_gateway_updated].

    ** What is not modelled

    Logging, metrics and the attributes of spans; JSON and YAML encodings
    (decoders and encoders are arguments); the wiring of entry points, demos,
    test fixtures and the assets of the dashboard; and the types and interfaces
    of internal/shared that no code uses, which have no behaviour.  Redis,
    PostgreSQL, SQLite, Kafka and the OpenTelemetry SDK are not verified: the
    model states what the code sends them and what they are documented to
    answer.  The scanner is proved for every analyzer, the class [World], and
    not composed with the one of [Moderation]. *)

From stdpp Require Export base tactics list numbers gmap strings sorting pretty.
From Stdlib Require Export ZArith Lia ZifyBool.
From Stdlib Require Import Ascii String.

(** ** Results of fallible Go functions *)

(** [result E A] is what a Go function returning [(A, error)] returns:
    a value, or an error of type [E]. *)
Inductive result (E A : Type) : Type :=
  | Ok (a : A)
  | Err (e : E).
Arguments Ok {E A} a.
Arguments Err {E A} e.

Definition is_ok {E A} (r : result E A) : bool :=
  match r with Ok _ => true | Err _ => false end.

Declare Scope ps_scope.
Delimit Scope ps_scope with ps.

(** [x <-? c ; k]: the [if err != nil { return err }] idiom. *)
Notation "x <-? c ; k" :=
  (match c with Ok x => k | Err e => Err e end)
  (at level 100, c at next level, right associativity) : ps_scope.

(** ** Machine integers

    Go's [int] and [int64] are 64-bit two's complement on the platforms the
    gateway is built for; [wrap64] writes the wrap-around out.  [rune] is a
    32-bit signed integer, [byte] an unsigned 8-bit one. *)
Definition wrap64 (z : Z) : Z := ((z + 2^63) mod 2^64 - 2^63)%Z.
Definition wrap_u8 (z : Z) : Z := (z mod 256)%Z.
Definition int64_range (z : Z) : Prop := (- 2^63 <= z < 2^63)%Z.

Lemma wrap64_id z : int64_range z -> wrap64 z = z.
Proof. unfold int64_range, wrap64. intros. rewrite Z.mod_small; lia. Qed.

Lemma wrap64_add_l a b : wrap64 (wrap64 a + b) = wrap64 (a + b).
Proof.
  unfold wrap64. f_equal.
  replace ((a + 2^63) mod 2^64 - 2^63 + b + 2^63)%Z with ((a + 2^63) mod 2^64 + b)%Z by lia.
  rewrite Zplus_mod_idemp_l. f_equal. lia.
Qed.

Lemma wrap64_range z : int64_range (wrap64 z).
Proof.
  unfold int64_range, wrap64.
  pose proof (Z.mod_pos_bound (z + 2^63) (2^64) ltac:(lia)). lia.
Qed.

(** ** Shared proof automation *)

(** Facts that close the routine side conditions of the components. *)
Create HintDb ps discriminated.
#[export] Hint Resolve wrap64_range : ps.
#[export] Hint Constructors rtc : ps.

(** Splits every boolean test of the context and the goal into the
    propositions it decides. *)
Ltac bool_cases :=
  repeat match goal with
  | H : _ && _ = true |- _ => apply andb_true_iff in H as [? ?]
  | H : _ && _ = false |- _ => apply andb_false_iff in H
  | H : _ || _ = false |- _ => apply orb_false_iff in H as [? ?]
  | H : _ || _ = true |- _ => apply orb_true_iff in H
  | H : negb _ = true |- _ => apply negb_true_iff in H
  | H : negb _ = false |- _ => apply negb_false_iff in H
  | H : bool_decide _ = true |- _ => apply bool_decide_eq_true in H
  | H : bool_decide _ = false |- _ => apply bool_decide_eq_false in H
  end.

(** Case analysis on the next [if]/[match] of the goal, keeping equations. *)
Ltac step_match := case_match; simplify_eq/=.

(** Case analysis on a boolean test of the goal. *)
Ltac case_if :=
  match goal with
  | |- context [if ?b then _ else _] =>
    lazymatch type of b with bool => let E := fresh "E" in destruct b eqn:E end
  end.

(** ** Generic lemmas *)

Section lists.
Context {A B : Type}.
Implicit Types (l : list A).

Lemma Forall_flat_map (P : B -> Prop) (f : A -> list B) l :
  Forall P (flat_map f l) <-> Forall (fun a => Forall P (f a)) l.
Proof.
  induction l as [|a l IH]; simpl; [by split; constructor|].
  by rewrite Forall_app, Forall_cons, IH.
Qed.
End lists.

Lemma StronglySorted_snoc {A} (R : A -> A -> Prop) (l : list A) (x : A) :
  StronglySorted R l -> Forall (fun y => R y x) l -> StronglySorted R (l ++ [x]).
Proof.
  intros Hs Hf. induction Hs as [|y l Hs IH Hy]; simpl; [by repeat constructor|].
  apply Forall_cons in Hf as [Hyx Hf]. constructor; [by apply IH|]. apply Forall_app. split; [done|by constructor].
Qed.
