(* ===== verification/GoString.v ===== *)
(** * Go strings

    A Go [string] is a sequence of bytes; it is modelled by Rocq's [string],
    whose characters are bytes.  This file models the functions of Go's
    [strings] and [strconv] packages that the program uses on bytes
    ([Index], [Contains], [HasPrefix], [Count], [Split], [Join], [Atoi], ...)
    with their specifications.  Functions that look at code points are in
    Unicode.v. *)

From Stdlib Require Import Ascii String.
From S2P Require Import Prelude.

Local Open Scope string_scope.
#[global] Arguments String.append !s1 s2 : simpl nomatch.

(** ** Bytes *)

Definition byte_of (c : ascii) : Z := Z.of_N (N_of_ascii c).
Definition of_byte (b : Z) : ascii := ascii_of_N (Z.to_N b).

Fixpoint bytes (s : string) : list Z :=
  match s with
  | EmptyString => []
  | String c s => byte_of c :: bytes s
  end.

Fixpoint of_bytes (l : list Z) : string :=
  match l with
  | [] => EmptyString
  | b :: l => String (of_byte b) (of_bytes l)
  end.

Lemma byte_of_range c : (0 <= byte_of c < 256)%Z.
Proof. unfold byte_of. pose proof (N_ascii_bounded c). lia. Qed.

Lemma of_byte_of c : of_byte (byte_of c) = c.
Proof. unfold of_byte, byte_of. by rewrite N2Z.id, ascii_N_embedding. Qed.

Lemma byte_of_byte b : (0 <= b < 256)%Z -> byte_of (of_byte b) = b.
Proof. intros. unfold of_byte, byte_of. rewrite N_ascii_embedding; lia. Qed.

Lemma byte_of_inj c d : byte_of c = byte_of d -> c = d.
Proof. intros E. by rewrite <- (of_byte_of c), E, of_byte_of. Qed.

Lemma of_bytes_bytes s : of_bytes (bytes s) = s.
Proof. induction s as [|c s IH]; simpl; [done|]. by rewrite of_byte_of, IH. Qed.

Lemma length_bytes s : List.length (bytes s) = String.length s.
Proof. induction s; simpl; congruence. Qed.

Lemma bytes_app s t : bytes (s ++ t) = (bytes s ++ bytes t)%list.
Proof. induction s as [|c s IH]; simpl; [done|]. by rewrite IH. Qed.

Lemma bytes_inj s t : bytes s = bytes t -> s = t.
Proof. intros E. by rewrite <- (of_bytes_bytes s), E, of_bytes_bytes. Qed.

Lemma length_sapp s t : String.length (s ++ t) = String.length s + String.length t.
Proof. induction s; simpl; congruence. Qed.

Lemma same_starts s1 s2 t1 t2 : String.length s1 = String.length s2 -> s1 +:+ t1 = s2 +:+ t2 -> s1 = s2 /\ t1 = t2.
Proof.
  revert s2. induction s1 as [|c s1 IH]; intros [|d s2]; simpl; [done..|]. intros [= Hl] [= -> E].
  destruct (IH s2 Hl E) as [-> ->]. done.
Qed.

Lemma same_ends s1 s2 t1 t2 : String.length t1 = String.length t2 -> s1 +:+ t1 = s2 +:+ t2 -> t1 = t2.
Proof.
  intros Hl E. apply same_starts in E as [_ E]; [done|].
  apply (f_equal String.length) in E. rewrite !length_sapp in E. lia.
Qed.

Lemma sapp_assoc (s t u : string) : (s ++ t) ++ u = s ++ (t ++ u).
Proof. induction s; simpl; congruence. Qed.

Lemma sapp_nil_r (s : string) : s ++ "" = s.
Proof. induction s; simpl; congruence. Qed.

Lemma sapp_inv_head (s t u : string) : s ++ t = s ++ u -> t = u.
Proof. induction s as [|c s IH]; simpl; [done|]. intros [= E]. auto. Qed.

(** ** Slices: [s[n:]], [s[:n]] and [s[i:j]] *)

Fixpoint sdrop (n : nat) (s : string) : string :=
  match n, s with
  | O, _ => s
  | S n, EmptyString => EmptyString
  | S n, String _ s => sdrop n s
  end.

Fixpoint stake (n : nat) (s : string) : string :=
  match n, s with
  | O, _ => EmptyString
  | S n, EmptyString => EmptyString
  | S n, String c s => String c (stake n s)
  end.

(** [s[i:j]] for [i <= j <= len(s)] (Go panics outside that range). *)
Definition slice (s : string) (i j : nat) : string := stake (j - i) (sdrop i s).

Lemma length_sdrop n s : String.length (sdrop n s) = String.length s - n.
Proof. revert s. induction n as [|n IH]; intros [|c s]; simpl; auto; lia. Qed.

Lemma length_stake n s : String.length (stake n s) = n `min` String.length s.
Proof. revert s. induction n as [|n IH]; intros [|c s]; simpl; auto. Qed.

Lemma length_slice s i j :
  i <= j <= String.length s -> String.length (slice s i j) = j - i.
Proof. intros. unfold slice. rewrite length_stake, length_sdrop. lia. Qed.

Lemma stake_sdrop n s : stake n s ++ sdrop n s = s.
Proof. revert s. induction n as [|n IH]; intros [|c s]; simpl; auto. by rewrite IH. Qed.

Lemma sdrop_app s t n :
  n <= String.length s -> sdrop n (s ++ t) = sdrop n s ++ t.
Proof. revert s. induction n as [|n IH]; intros [|c s]; simpl; intros; auto; [lia|]. apply IH. lia. Qed.

Lemma sdrop_app_length s t n : sdrop (String.length s + n) (s ++ t) = sdrop n t.
Proof. induction s; simpl; auto. Qed.

Lemma sdrop_sdrop m n s : sdrop m (sdrop n s) = sdrop (n + m) s.
Proof. revert s. induction n as [|n IH]; intros [|c s]; simpl; auto. by destruct m. Qed.

Lemma sdrop_ge n s : String.length s <= n -> sdrop n s = "".
Proof. revert s. induction n as [|n IH]; intros [|c s]; simpl; intros; auto; [lia|]. apply IH. lia. Qed.

Lemma stake_app_length s t : stake (String.length s) (s ++ t) = s.
Proof. induction s; simpl; congruence. Qed.

Lemma stake_ge n s : String.length s <= n -> stake n s = s.
Proof. revert s. induction n as [|n IH]; intros [|c s]; simpl; intros; auto; [lia|]. f_equal. apply IH. lia. Qed.

(** ** Prefixes and occurrences *)

(** [strings.HasPrefix(s, p)]. *)
Fixpoint HasPrefix (p s : string) : bool :=
  match p, s with
  | EmptyString, _ => true
  | String a p, String b s => bool_decide (a = b) && HasPrefix p s
  | String _ _, EmptyString => false
  end.

Lemma HasPrefix_spec p s : HasPrefix p s = true <-> exists t, s = p ++ t.
Proof.
  revert s. induction p as [|a p IH]; intros s; simpl.
  - split; [by exists s|done].
  - destruct s as [|b s]; [split; [done|by intros [??]]|].
    rewrite andb_true_iff, bool_decide_eq_true, IH. split.
    + intros [-> [t ->]]. by exists t.
    + intros [t [= <- ->]]. split; [done|by exists t].
Qed.

Lemma HasPrefix_length p s : HasPrefix p s = true -> String.length p <= String.length s.
Proof. intros [t ->]%HasPrefix_spec. rewrite length_sapp. lia. Qed.

Lemma HasPrefix_refl p t : HasPrefix p (p ++ t) = true.
Proof. apply HasPrefix_spec. eauto. Qed.

Lemma HasPrefix_app p s t :
  String.length p <= String.length s -> HasPrefix p (s ++ t) = HasPrefix p s.
Proof.
  revert s. induction p as [|c p IH]; intros [|d s]; simpl; try done; [lia|].
  intros Hl. by rewrite IH by lia.
Qed.

Lemma sdrop_app_le s t n : n <= String.length s -> sdrop n (s ++ t) = sdrop n s ++ t.
Proof.
  revert n. induction s as [|c s IH]; intros [|n]; simpl; try done; [lia|].
  intros Hl. apply IH. lia.
Qed.

(** [p] occurs in [s] at byte offset [i]. *)
Definition occurs_at (p s : string) (i : nat) : Prop :=
  i <= String.length s /\ HasPrefix p (sdrop i s) = true.

#[export] Instance occurs_at_dec p s i : Decision (occurs_at p s i).
Proof. unfold occurs_at. apply _. Defined.

Lemma occurs_at_bound p s i : occurs_at p s i -> i + String.length p <= String.length s.
Proof. intros [? H%HasPrefix_length]. rewrite length_sdrop in H. lia. Qed.

Lemma occurs_at_split p s i :
  occurs_at p s i <-> exists u v, s = u ++ p ++ v /\ String.length u = i.
Proof.
  split.
  - intros [Hi [v Hv]%HasPrefix_spec]. exists (stake i s), v. split.
    + rewrite <- Hv. by rewrite stake_sdrop.
    + rewrite length_stake. lia.
  - intros (u & v & -> & <-). split; [rewrite length_sapp; lia|].
    rewrite <- (Nat.add_0_r (String.length u)), sdrop_app_length. simpl.
    apply HasPrefix_refl.
Qed.

Lemma occurs_at_S p c s i : occurs_at p (String c s) (S i) <-> occurs_at p s i.
Proof. unfold occurs_at. simpl. intuition lia. Qed.

(** [strings.Index(s, p)]; [None] stands for [-1]. *)
Fixpoint Index (s p : string) : option nat :=
  if HasPrefix p s then Some O
  else match s with
       | EmptyString => None
       | String _ s => S <$> Index s p
       end.

Lemma Index_Some s p i :
  Index s p = Some i <-> occurs_at p s i /\ forall j, j < i -> ~ occurs_at p s j.
Proof.
  revert i. induction s as [|c s IH]; intros i.
  - simpl. destruct (HasPrefix p "") eqn:E; split.
    + intros [= <-]. split; [by split|lia].
    + intros [[Hi _] _]. simpl in Hi. f_equal. lia.
    + done.
    + intros [[Hi Hp] _]. simpl in Hi. assert (i = 0) as -> by lia. simpl in Hp. congruence.
  - cbn [Index]. destruct (HasPrefix p (String c s)) eqn:E; split.
    + intros [= <-]. split; [split; [simpl; lia|done]|lia].
    + intros [_ Hmin]. destruct i as [|i]; [done|]. exfalso. apply (Hmin 0); [lia|]. split; [lia|done].
    + intros (j & Hj & ->)%fmap_Some. apply IH in Hj as [Hj Hmin]. split; [by apply occurs_at_S|].
      intros [|k] Hk; [intros [_ Hp]; simpl in Hp; congruence|].
      rewrite occurs_at_S. apply Hmin. lia.
    + intros [Hi Hmin]. destruct i as [|i]; [destruct Hi as [_ Hp]; simpl in Hp; congruence|].
      apply fmap_Some. exists i. split; [|done]. apply IH. split; [by apply occurs_at_S in Hi|].
      intros j Hj Ho. apply (Hmin (S j)); [lia|]. by apply occurs_at_S.
Qed.

Lemma Index_None s p : Index s p = None <-> forall i, ~ occurs_at p s i.
Proof.
  split.
  - intros HN i Hi. induction i as [i IHi] using lt_wf_ind.
    assert (Index s p = Some i); [|congruence]. apply Index_Some. eauto.
  - intros Hno. destruct (Index s p) eqn:E; [|done]. apply Index_Some in E as [? _]. naive_solver.
Qed.

(** [strings.Contains(s, p)]. *)
Definition Contains (s p : string) : bool :=
  match Index s p with Some _ => true | None => false end.

Lemma Contains_spec s p : Contains s p = true <-> exists i, occurs_at p s i.
Proof.
  unfold Contains. destruct (Index s p) as [i|] eqn:E; split; [|done|done|].
  - apply Index_Some in E as [? _]. eauto.
  - intros [i Hi]. by apply (proj1 (Index_None s p) E i) in Hi.
Qed.

Lemma Contains_app_l s t p : Contains s p = true -> Contains (s ++ t) p = true.
Proof.
  rewrite !Contains_spec. intros [i (u & v & -> & ?)%occurs_at_split].
  exists i. apply occurs_at_split. exists u, (v ++ t). by rewrite !sapp_assoc.
Qed.

Lemma Contains_app_r s t p : Contains t p = true -> Contains (s ++ t) p = true.
Proof.
  rewrite !Contains_spec. intros [i (u & v & -> & ?)%occurs_at_split].
  exists (String.length s + i). apply occurs_at_split. exists (s ++ u), v.
  rewrite length_sapp, sapp_assoc. split; [done|lia].
Qed.

(** ** Byte classes and searches for one byte *)

Definition is_digit_byte (c : ascii) : bool := (48 <=? byte_of c)%Z && (byte_of c <=? 57)%Z.
Definition is_lower_byte (c : ascii) : bool := (97 <=? byte_of c)%Z && (byte_of c <=? 122)%Z.
Definition is_upper_byte (c : ascii) : bool := (65 <=? byte_of c)%Z && (byte_of c <=? 90)%Z.

Fixpoint forallb_str (f : ascii -> bool) (s : string) : bool :=
  match s with EmptyString => true | String c s => f c && forallb_str f s end.

Fixpoint map_str (f : ascii -> ascii) (s : string) : string :=
  match s with EmptyString => EmptyString | String c s => String (f c) (map_str f s) end.

(** [strings.Count(s, string(c))]. *)
Fixpoint CountByte (c : ascii) (s : string) : nat :=
  match s with
  | EmptyString => 0
  | String d s => (if bool_decide (d = c) then 1 else 0) + CountByte c s
  end.

(** [bytes.IndexByte(s, c)]. *)
Fixpoint IndexByte (s : string) (c : ascii) : option nat :=
  match s with
  | EmptyString => None
  | String d s => if bool_decide (d = c) then Some O else S <$> IndexByte s c
  end.

(** [strings.Split(s, string(c))]: one piece more than [c] occurs in [s]. *)
Fixpoint SplitByte (c : ascii) (s : string) : list string :=
  match s with
  | EmptyString => [""]
  | String d s =>
      if bool_decide (d = c) then "" :: SplitByte c s
      else match SplitByte c s with
           | [] => [String d ""]
           | p :: ps => String d p :: ps
           end
  end.

(** [strings.Cut(s, string(c))]: text before and after the first [c]. *)
Definition CutByte (c : ascii) (s : string) : option (string * string) :=
  match IndexByte s c with
  | Some i => Some (stake i s, sdrop (S i) s)
  | None => None
  end.

(** [strings.Join(l, sep)]. *)
Fixpoint Join (sep : string) (l : list string) : string :=
  match l with
  | [] => ""
  | [p] => p
  | p :: ps => p ++ sep ++ Join sep ps
  end.

Lemma CountByte_app c s t : CountByte c (s ++ t) = CountByte c s + CountByte c t.
Proof. induction s as [|d s IH]; simpl; [done|]. rewrite IH. lia. Qed.

Lemma SplitByte_nonempty c s : SplitByte c s <> [].
Proof. destruct s; simpl; repeat case_match; done. Qed.

Lemma length_SplitByte c s : List.length (SplitByte c s) = S (CountByte c s).
Proof.
  induction s as [|d s IH]; simpl; [done|].
  destruct (SplitByte c s) eqn:E; [by apply SplitByte_nonempty in E|].
  case_bool_decide; simpl in *; lia.
Qed.

Lemma Join_cons sep p ps : ps <> [] -> Join sep (p :: ps) = p ++ sep ++ Join sep ps.
Proof. by destruct ps. Qed.

Lemma Join_SplitByte c s : Join (String c "") (SplitByte c s) = s.
Proof.
  induction s as [|d s IH]; simpl; [done|].
  pose proof (SplitByte_nonempty c s) as Hne. case_bool_decide; subst.
  - rewrite Join_cons by done. by rewrite IH.
  - destruct (SplitByte c s) as [|p [|q qs]] eqn:E; [done| |]; simpl in *; by rewrite IH.
Qed.

Lemma SplitByte_no_sep c s : Forall (fun p => CountByte c p = 0) (SplitByte c s).
Proof.
  induction s as [|d s IH]; simpl; [by repeat constructor|].
  case_bool_decide; [by constructor|].
  destruct (SplitByte c s); inversion IH; subst; constructor; simpl; auto;
    by rewrite bool_decide_eq_false_2.
Qed.

Lemma IndexByte_Some s c i :
  IndexByte s c = Some i ->
  exists u v, s = u ++ String c v /\ String.length u = i /\ CountByte c u = 0.
Proof.
  revert i. induction s as [|d s IH]; simpl; intros i; [done|]. case_bool_decide as Hd; subst.
  - intros [= <-]. by exists "", s.
  - intros (j & Hj & ->)%fmap_Some. destruct (IH _ Hj) as (u & v & -> & <- & Hc).
    exists (String d u), v. simpl. by rewrite bool_decide_eq_false_2.
Qed.

Lemma IndexByte_None s c : IndexByte s c = None <-> CountByte c s = 0.
Proof.
  induction s as [|d s IH]; simpl; [done|]. case_bool_decide; simpl; [split; done|].
  by rewrite fmap_None.
Qed.

Lemma CountByte_Contains s c : Contains s (String c "") = true <-> (0 < CountByte c s)%nat.
Proof.
  rewrite Contains_spec. split.
  - intros (i & (u & v & -> & _)%occurs_at_split). rewrite !CountByte_app. simpl.
    rewrite bool_decide_eq_true_2 by done. lia.
  - intros Hc. destruct (IndexByte s c) as [i|] eqn:E; [|apply IndexByte_None in E; lia].
    apply IndexByte_Some in E as (u & v & -> & <- & _). exists (String.length u).
    apply occurs_at_split. exists u, v. done.
Qed.

Lemma SplitByte_single c s : CountByte c s = 0 -> SplitByte c s = [s].
Proof.
  induction s as [|d s IH]; simpl; [done|]. case_bool_decide; [lia|]. intros H0. by rewrite IH.
Qed.

Lemma SplitByte_cons c s t :
  CountByte c s = 0 -> SplitByte c (s ++ String c t) = s :: SplitByte c t.
Proof.
  induction s as [|d s IH]; simpl; [by rewrite bool_decide_eq_true_2|].
  case_bool_decide; [lia|]. intros H0. by rewrite IH.
Qed.

(** Splitting undoes joining, for pieces that do not contain the separator. *)
Lemma SplitByte_Join c l :
  l <> [] -> Forall (fun p => CountByte c p = 0) l -> SplitByte c (Join (String c "") l) = l.
Proof.
  intros Hne H. induction H as [|p [|q l] Hp H IH]; [done|by apply SplitByte_single|].
  rewrite Join_cons by done. change (String c "" ++ ?x)%string with (String c x).
  by rewrite SplitByte_cons, IH.
Qed.

Lemma CountByte_Join c d l :
  c <> d -> Forall (fun p => CountByte c p = 0) l -> CountByte c (Join (String d "") l) = 0.
Proof.
  intros Hcd H. induction H as [|p [|q l] Hp H IH]; [done|done|].
  rewrite Join_cons by done. rewrite !CountByte_app, Hp, IH. simpl.
  by rewrite bool_decide_eq_false_2.
Qed.

Lemma HasPrefix_before c p a t :
  CountByte c p = 0 -> HasPrefix p (a +:+ String c t) = true -> HasPrefix p a = true.
Proof.
  revert a. induction p as [|x p IH]; intros [|y a] Hc; simpl in *; [done..| |];
    (destruct (bool_decide (x = c)) eqn:Hx; [lia|]); rewrite !andb_true_iff.
  - by intros [? _].
  - intros [? ?]. split; [done|]. by apply IH.
Qed.

Lemma Contains_cons c s p : Contains s p = true -> Contains (String c s) p = true.
Proof. apply (Contains_app_r (String c "")). Qed.

(** A text without the separator lies on one side of it. *)
Lemma Contains_sep c a t p :
  CountByte c p = 0 -> p <> "" -> Contains (a +:+ String c t) p = true ->
  Contains a p = true \/ Contains t p = true.
Proof.
  intros Hc Hp. induction a as [|x a IH]; intros [[|i] Hi]%Contains_spec.
  - destruct Hi as [_ Hi]. apply (HasPrefix_before c p "") in Hi; [|done]. by destruct p.
  - right. apply Contains_spec. exists i. by apply occurs_at_S in Hi.
  - left. apply Contains_spec. exists 0. destruct Hi as [_ Hi]. split; [lia|].
    by apply (HasPrefix_before c p (String x a) t).
  - apply occurs_at_S in Hi. destruct IH as [?|?]; [apply Contains_spec; by exists i| |by right].
    left. by apply Contains_cons.
Qed.

Lemma Contains_pieces c s p :
  CountByte c p = 0 -> p <> "" -> Contains s p = true -> exists x, x ∈ SplitByte c s /\ Contains x p = true.
Proof.
  intros Hc Hp. rewrite <-(Join_SplitByte c s) at 1. induction (SplitByte c s) as [|x xs IH]; [by destruct p|].
  destruct xs as [|y xs].
  - exists x. split; [left|done].
  - rewrite Join_cons by done. intros [?|Ht]%Contains_sep; [exists x; split; [left|done]| |done|done].
    destruct (IH Ht) as (z & Hz & ?). exists z. split; [by right|done].
Qed.

Lemma CountByte_forallb c f s : forallb_str f s = true -> f c = false -> CountByte c s = 0.
Proof.
  intros Hs Hc. induction s as [|d s IH]; simpl in *; [done|].
  apply andb_true_iff in Hs as [Hd Hs]. rewrite IH by done.
  rewrite bool_decide_eq_false_2; [done|congruence].
Qed.

(** ** Integers in decimal *)

(** [fmt.Sprintf("%d", z)]. *)
Definition Itoa (z : Z) : string := pretty z.

#[export] Instance Itoa_inj : Inj (=) (=) Itoa.
Proof. unfold Itoa. apply _. Qed.

Fixpoint digits_val (acc : Z) (s : string) : option Z :=
  match s with
  | EmptyString => Some acc
  | String c s =>
      if is_digit_byte c then digits_val (acc * 10 + (byte_of c - 48)) s else None
  end.

(** [strconv.Atoi] and [strconv.ParseInt(_, 10, 64)]: an optional sign, at
    least one decimal digit and nothing else, in the range of [int64].  Both
    report an error otherwise ([None]). *)
Definition ParseInt (s : string) : option Z :=
  let '(neg, d) := match s with
                   | String c r =>
                       if bool_decide (c = "-"%char) then (true, r)
                       else if bool_decide (c = "+"%char) then (false, r) else (false, s)
                   | EmptyString => (false, s)
                   end in
  match d with
  | EmptyString => None
  | _ => match digits_val 0 d with
         | None => None
         | Some v => let n := if (neg : bool) then (- v)%Z else v in
                     if (- 2^63 <=? n)%Z && (n <? 2^63)%Z then Some n else None
         end
  end.

Definition Atoi := ParseInt.

Lemma ParseInt_range s n : ParseInt s = Some n -> int64_range n.
Proof.
  unfold ParseInt, int64_range. intros H. repeat case_match; simplify_eq; bool_cases; lia.
Qed.

Lemma digits_val_char x s acc :
  (x < 10)%N -> digits_val acc (String (pretty_N_char x) s) = digits_val (acc * 10 + Z.of_N x) s.
Proof.
  intros Hx. assert (x = 0 \/ x = 1 \/ x = 2 \/ x = 3 \/ x = 4 \/ x = 5 \/ x = 6 \/ x = 7 \/ x = 8 \/ x = 9)%N as Hc by lia.
  repeat (destruct Hc as [->|Hc]); subst; done.
Qed.

Lemma digits_val_go x : forall s, digits_val 0 (pretty_N_go x s) = digits_val (Z.of_N x) s.
Proof.
  induction (N.lt_wf_0 x) as [x _ IH]; intros s. destruct (decide (x = 0)%N) as [->|Hx]; [done|].
  rewrite pretty_N_go_step, IH, digits_val_char by (lia || apply N.div_lt || apply N.mod_lt; lia).
  f_equal. rewrite (N.div_mod x 10) at 3 by done. lia.
Qed.

Lemma digits_val_pretty n : digits_val 0 (pretty n) = Some (Z.of_N n).
Proof. unfold pretty, pretty_N. case_decide; [by subst|]. apply digits_val_go. Qed.

Lemma digits_no c s : is_digit_byte c = false -> forall acc v, digits_val acc s = Some v -> CountByte c s = 0.
Proof.
  intros Hc. induction s as [|d s IH]; intros acc v; [done|]. simpl. destruct (is_digit_byte d) eqn:Ed; [|done].
  intros Hv. rewrite bool_decide_false by congruence. by rewrite (IH _ _ Hv).
Qed.

Lemma Itoa_no c z : is_digit_byte c = false -> c <> "-"%char -> CountByte c (Itoa z) = 0.
Proof.
  intros Hc Hm. destruct z as [|p|p];
    [change (Itoa 0) with "0"|change (Itoa (Zpos p)) with (pretty (Npos p))|change (Itoa (Zneg p)) with (String "-" (pretty (Npos p)))];
    simpl; rewrite ?bool_decide_false by (intros <-; done); simpl; [done| |];
    (eapply digits_no; [done|apply digits_val_pretty]).
Qed.

(** Two texts cut at the first separator. *)
Lemma cut_at c a b x y :
  CountByte c a = 0 -> CountByte c b = 0 -> a +:+ String c x = b +:+ String c y -> a = b /\ x = y.
Proof.
  revert b. induction a as [|d a IH]; intros [|e b]; simpl; intros Ha Hb E.
  - by injection E as ->.
  - injection E as <- _. by rewrite bool_decide_true in Hb.
  - injection E as -> _. by rewrite bool_decide_true in Ha.
  - injection E as -> E. destruct (IH b) as [-> ->]; [lia|lia|done|done].
Qed.

Lemma pretty_N_digit (n : N) : exists c s, pretty n = String c s /\ is_digit_byte c = true.
Proof.
  pose proof (digits_val_pretty n) as H. destruct (pretty n) as [|c s] eqn:E.
  - unfold pretty, pretty_N in E. case_decide; [done|]. simpl in H. injection H as H. lia.
  - exists c, s. split; [done|]. simpl in H. by destruct (is_digit_byte c).
Qed.

(** A decimal number is read back. *)
Lemma ParseInt_Itoa z : int64_range z -> ParseInt (Itoa z) = Some z.
Proof.
  unfold int64_range. intros Hz. destruct z as [|p|p]; [done| |].
  - change (Itoa (Zpos p)) with (pretty (Npos p)). pose proof (digits_val_pretty (Npos p)) as Hv.
    destruct (pretty_N_digit (Npos p)) as (c & s & E & Hc). rewrite E in *. unfold ParseInt.
    rewrite !bool_decide_false by (intros ->; discriminate Hc). rewrite Hv. simpl.
    rewrite (proj2 (Z.ltb_lt _ _)) by lia. done.
  - change (Itoa (Zneg p)) with (String "-" (pretty (Npos p))). pose proof (digits_val_pretty (Npos p)) as Hv.
    destruct (pretty_N_digit (Npos p)) as (c & s & E & Hc). rewrite E in *. unfold ParseInt.
    rewrite bool_decide_true by done. rewrite Hv. cbn [negb Z.opp Z.of_N].
    rewrite (proj2 (Z.leb_le _ _)) by lia. done.
Qed.

(** [strings.ReplaceAll(s, a, b)] for strings of one byte. *)
Fixpoint ReplaceByte (a b : ascii) (s : string) : string :=
  match s with
  | EmptyString => EmptyString
  | String c s => String (if bool_decide (c = a) then b else c) (ReplaceByte a b s)
  end.

Lemma ReplaceByte_gone a b s : a <> b -> CountByte a (ReplaceByte a b s) = 0.
Proof.
  intros Hab. induction s as [|c s IH]; [done|]. simpl. repeat case_bool_decide; simplify_eq; done.
Qed.

Lemma ReplaceByte_id a b s : CountByte a s = 0 -> ReplaceByte a b s = s.
Proof.
  induction s as [|c s IH]; [done|]. simpl. case_bool_decide; [done|]. intros ?. by rewrite IH.
Qed.

Lemma ReplaceByte_undo a b s : CountByte b s = 0 -> ReplaceByte b a (ReplaceByte a b s) = s.
Proof.
  induction s as [|c s IH]; [done|]. simpl. intros H. repeat case_bool_decide; simplify_eq; try done; by rewrite IH.
Qed.

(** ** Byte-wise order, the order of Go's [<] on strings *)

Fixpoint str_leb (s t : string) : bool :=
  match s, t with
  | EmptyString, _ => true
  | String _ _, EmptyString => false
  | String a s, String b t =>
      (byte_of a <? byte_of b)%Z || (bool_decide (a = b) && str_leb s t)
  end.

Definition str_le (s t : string) : Prop := str_leb s t = true.
Definition str_ltb (s t : string) : bool := str_leb s t && negb (bool_decide (s = t)).
Definition str_lt (s t : string) : Prop := str_le s t /\ s <> t.

#[export] Instance str_le_dec : RelDecision str_le.
Proof. intros s t. unfold str_le. apply _. Defined.

#[export] Instance str_le_refl : Reflexive str_le.
Proof.
  intros s. unfold str_le. induction s as [|a s IH]; simpl; [done|].
  by rewrite bool_decide_eq_true_2, IH, orb_true_r.
Qed.

#[export] Instance str_le_trans : Transitive str_le.
Proof.
  unfold str_le. intros s. induction s as [|a s IH]; intros [|b t] [|c u]; simpl; try done.
  rewrite !orb_true_iff, !andb_true_iff, !bool_decide_eq_true, !Z.ltb_lt.
  intros [?|[-> ?]] [?|[-> ?]]; try (left; lia). right. eauto.
Qed.

#[export] Instance str_le_antisymm : AntiSymm (=) str_le.
Proof.
  unfold str_le. intros s. induction s as [|a s IH]; intros [|b t]; simpl; try done.
  rewrite !orb_true_iff, !andb_true_iff, !bool_decide_eq_true, !Z.ltb_lt.
  intros [?|[-> ?]] [?|[? ?]]; try lia; try (subst; lia). f_equal. auto.
Qed.

#[export] Instance str_le_total : Total str_le.
Proof.
  unfold str_le. intros s. induction s as [|a s IH]; intros [|b t]; simpl; auto.
  rewrite !orb_true_iff, !andb_true_iff, !bool_decide_eq_true, !Z.ltb_lt.
  destruct (Z.lt_total (byte_of a) (byte_of b)) as [?|[E%byte_of_inj|?]]; auto.
  subst. destruct (IH t); auto.
Qed.

#[export] Instance str_lt_strict : StrictOrder str_lt.
Proof.
  split.
  - by intros s [_ ?].
  - intros s t u [Hst Hne] [Htu Hne']. split; [by etrans|].
    intros ->. apply Hne. by apply (anti_symm str_le).
Qed.

(** [sort.Strings]. *)
Definition sort_strings (l : list string) : list string := merge_sort str_le l.

Lemma sort_strings_perm l : sort_strings l ≡ₚ l.
Proof. apply merge_sort_Permutation. Qed.

Lemma sort_strings_sorted l : StronglySorted str_le (sort_strings l).
Proof. apply StronglySorted_merge_sort; apply _. Qed.

Lemma sort_strings_proper l1 l2 : l1 ≡ₚ l2 -> sort_strings l1 = sort_strings l2.
Proof.
  intros H. apply (StronglySorted_unique str_le); [apply sort_strings_sorted..|].
  by rewrite !sort_strings_perm.
Qed.

Lemma elem_of_sort_strings x l : x ∈ sort_strings l <-> x ∈ l.
Proof. by rewrite sort_strings_perm. Qed.

Lemma sort_strings_NoDup_lt l : NoDup l -> StronglySorted str_lt (sort_strings l).
Proof.
  intros Hnd. assert (NoDup (sort_strings l)) as Hnd' by by rewrite sort_strings_perm.
  pose proof (sort_strings_sorted l) as Hs. revert Hnd' Hs.
  generalize (sort_strings l). clear. intros l Hnd Hs.
  induction Hs as [|a l Hs IH Ha]; [constructor|]. apply NoDup_cons in Hnd as [Hna Hnd].
  constructor; [auto|]. rewrite Forall_forall in Ha |- *. intros x Hx. split; [auto|].
  by intros ->.
Qed.
