(* ===== verification/Unicode.v ===== *)
(** * Code points: UTF-8 and the case tables

    Go's [range] over a string, [strings.Map], [strings.ToLower],
    [strings.ToUpper], [strings.EqualFold], [strings.TrimSpace] and
    [unicode.IsDigit] work on code points.  This file models UTF-8 decoding
    as [unicode/utf8] does it (an invalid byte is U+FFFD of width one),
    encoding, and the simple case mappings, case folding, decimal-digit and
    white-space properties of Unicode 15.0, the version of Go 1.24's
    [unicode] tables, as ranges [(lo, hi, step, delta)]. *)

From Stdlib Require Import Ascii String Wf_nat.
From S2P Require Import Prelude GoString.

Local Open Scope Z_scope.

(** ** Tables *)

Definition lower_ranges : list (Z * Z * Z * Z) := [
  (192, 214, 1, 32); (216, 222, 1, 32); (256, 302, 2, 1); (304, 304, 1, -199);
  (306, 310, 2, 1); (313, 327, 2, 1); (330, 374, 2, 1); (376, 376, 1, -121);
  (377, 381, 2, 1); (385, 385, 1, 210); (386, 388, 2, 1); (390, 390, 1, 206);
  (391, 391, 1, 1); (393, 394, 1, 205); (395, 395, 1, 1); (398, 398, 1, 79);
  (399, 399, 1, 202); (400, 400, 1, 203); (401, 401, 1, 1); (403, 403, 1, 205);
  (404, 404, 1, 207); (406, 406, 1, 211); (407, 407, 1, 209); (408, 408, 1, 1);
  (412, 412, 1, 211); (413, 413, 1, 213); (415, 415, 1, 214); (416, 420, 2, 1);
  (422, 422, 1, 218); (423, 423, 1, 1); (425, 425, 1, 218); (428, 428, 1, 1);
  (430, 430, 1, 218); (431, 431, 1, 1); (433, 434, 1, 217); (435, 437, 2, 1);
  (439, 439, 1, 219); (440, 440, 1, 1); (444, 444, 1, 1); (452, 452, 1, 2);
  (453, 453, 1, 1); (455, 455, 1, 2); (456, 456, 1, 1); (458, 458, 1, 2);
  (459, 475, 2, 1); (478, 494, 2, 1); (497, 497, 1, 2); (498, 500, 2, 1);
  (502, 502, 1, -97); (503, 503, 1, -56); (504, 542, 2, 1); (544, 544, 1, -130);
  (546, 562, 2, 1); (570, 570, 1, 10795); (571, 571, 1, 1); (573, 573, 1, -163);
  (574, 574, 1, 10792); (577, 577, 1, 1); (579, 579, 1, -195); (580, 580, 1, 69);
  (581, 581, 1, 71); (582, 590, 2, 1); (880, 882, 2, 1); (886, 886, 1, 1);
  (895, 895, 1, 116); (902, 902, 1, 38); (904, 906, 1, 37); (908, 908, 1, 64);
  (910, 911, 1, 63); (913, 929, 1, 32); (931, 939, 1, 32); (975, 975, 1, 8);
  (984, 1006, 2, 1); (1012, 1012, 1, -60); (1015, 1015, 1, 1); (1017, 1017, 1, -7);
  (1018, 1018, 1, 1); (1021, 1023, 1, -130); (1024, 1039, 1, 80); (1040, 1071, 1, 32);
  (1120, 1152, 2, 1); (1162, 1214, 2, 1); (1216, 1216, 1, 15); (1217, 1229, 2, 1);
  (1232, 1326, 2, 1); (1329, 1366, 1, 48); (4256, 4293, 1, 7264); (4295, 4295, 1, 7264);
  (4301, 4301, 1, 7264); (5024, 5103, 1, 38864); (5104, 5109, 1, 8); (7312, 7354, 1, -3008);
  (7357, 7359, 1, -3008); (7680, 7828, 2, 1); (7838, 7838, 1, -7615); (7840, 7934, 2, 1);
  (7944, 7951, 1, -8); (7960, 7965, 1, -8); (7976, 7983, 1, -8); (7992, 7999, 1, -8);
  (8008, 8013, 1, -8); (8025, 8031, 2, -8); (8040, 8047, 1, -8); (8072, 8079, 1, -8);
  (8088, 8095, 1, -8); (8104, 8111, 1, -8); (8120, 8121, 1, -8); (8122, 8123, 1, -74);
  (8124, 8124, 1, -9); (8136, 8139, 1, -86); (8140, 8140, 1, -9); (8152, 8153, 1, -8);
  (8154, 8155, 1, -100); (8168, 8169, 1, -8); (8170, 8171, 1, -112); (8172, 8172, 1, -7);
  (8184, 8185, 1, -128); (8186, 8187, 1, -126); (8188, 8188, 1, -9); (8486, 8486, 1, -7517);
  (8490, 8490, 1, -8383); (8491, 8491, 1, -8262); (8498, 8498, 1, 28); (8544, 8559, 1, 16);
  (8579, 8579, 1, 1); (9398, 9423, 1, 26); (11264, 11311, 1, 48); (11360, 11360, 1, 1);
  (11362, 11362, 1, -10743); (11363, 11363, 1, -3814); (11364, 11364, 1, -10727); (11367, 11371, 2, 1);
  (11373, 11373, 1, -10780); (11374, 11374, 1, -10749); (11375, 11375, 1, -10783); (11376, 11376, 1, -10782);
  (11378, 11378, 1, 1); (11381, 11381, 1, 1); (11390, 11391, 1, -10815); (11392, 11490, 2, 1);
  (11499, 11501, 2, 1); (11506, 11506, 1, 1); (42560, 42604, 2, 1); (42624, 42650, 2, 1);
  (42786, 42798, 2, 1); (42802, 42862, 2, 1); (42873, 42875, 2, 1); (42877, 42877, 1, -35332);
  (42878, 42886, 2, 1); (42891, 42891, 1, 1); (42893, 42893, 1, -42280); (42896, 42898, 2, 1);
  (42902, 42920, 2, 1); (42922, 42922, 1, -42308); (42923, 42923, 1, -42319); (42924, 42924, 1, -42315);
  (42925, 42925, 1, -42305); (42926, 42926, 1, -42308); (42928, 42928, 1, -42258); (42929, 42929, 1, -42282);
  (42930, 42930, 1, -42261); (42931, 42931, 1, 928); (42932, 42946, 2, 1); (42948, 42948, 1, -48);
  (42949, 42949, 1, -42307); (42950, 42950, 1, -35384); (42951, 42953, 2, 1); (42960, 42960, 1, 1);
  (42966, 42968, 2, 1); (42997, 42997, 1, 1); (65313, 65338, 1, 32); (66560, 66599, 1, 40);
  (66736, 66771, 1, 40); (66928, 66938, 1, 39); (66940, 66954, 1, 39); (66956, 66962, 1, 39);
  (66964, 66965, 1, 39); (68736, 68786, 1, 64); (71840, 71871, 1, 32); (93760, 93791, 1, 32);
  (125184, 125217, 1, 34)
].

Definition upper_ranges : list (Z * Z * Z * Z) := [
  (181, 181, 1, 743); (224, 246, 1, -32); (248, 254, 1, -32); (255, 255, 1, 121);
  (257, 303, 2, -1); (305, 305, 1, -232); (307, 311, 2, -1); (314, 328, 2, -1);
  (331, 375, 2, -1); (378, 382, 2, -1); (383, 383, 1, -300); (384, 384, 1, 195);
  (387, 389, 2, -1); (392, 392, 1, -1); (396, 396, 1, -1); (402, 402, 1, -1);
  (405, 405, 1, 97); (409, 409, 1, -1); (410, 410, 1, 163); (414, 414, 1, 130);
  (417, 421, 2, -1); (424, 424, 1, -1); (429, 429, 1, -1); (432, 432, 1, -1);
  (436, 438, 2, -1); (441, 441, 1, -1); (445, 445, 1, -1); (447, 447, 1, 56);
  (453, 453, 1, -1); (454, 454, 1, -2); (456, 456, 1, -1); (457, 457, 1, -2);
  (459, 459, 1, -1); (460, 460, 1, -2); (462, 476, 2, -1); (477, 477, 1, -79);
  (479, 495, 2, -1); (498, 498, 1, -1); (499, 499, 1, -2); (501, 501, 1, -1);
  (505, 543, 2, -1); (547, 563, 2, -1); (572, 572, 1, -1); (575, 576, 1, 10815);
  (578, 578, 1, -1); (583, 591, 2, -1); (592, 592, 1, 10783); (593, 593, 1, 10780);
  (594, 594, 1, 10782); (595, 595, 1, -210); (596, 596, 1, -206); (598, 599, 1, -205);
  (601, 601, 1, -202); (603, 603, 1, -203); (604, 604, 1, 42319); (608, 608, 1, -205);
  (609, 609, 1, 42315); (611, 611, 1, -207); (613, 613, 1, 42280); (614, 614, 1, 42308);
  (616, 616, 1, -209); (617, 617, 1, -211); (618, 618, 1, 42308); (619, 619, 1, 10743);
  (620, 620, 1, 42305); (623, 623, 1, -211); (625, 625, 1, 10749); (626, 626, 1, -213);
  (629, 629, 1, -214); (637, 637, 1, 10727); (640, 640, 1, -218); (642, 642, 1, 42307);
  (643, 643, 1, -218); (647, 647, 1, 42282); (648, 648, 1, -218); (649, 649, 1, -69);
  (650, 651, 1, -217); (652, 652, 1, -71); (658, 658, 1, -219); (669, 669, 1, 42261);
  (670, 670, 1, 42258); (837, 837, 1, 84); (881, 883, 2, -1); (887, 887, 1, -1);
  (891, 893, 1, 130); (940, 940, 1, -38); (941, 943, 1, -37); (945, 961, 1, -32);
  (962, 962, 1, -31); (963, 971, 1, -32); (972, 972, 1, -64); (973, 974, 1, -63);
  (976, 976, 1, -62); (977, 977, 1, -57); (981, 981, 1, -47); (982, 982, 1, -54);
  (983, 983, 1, -8); (985, 1007, 2, -1); (1008, 1008, 1, -86); (1009, 1009, 1, -80);
  (1010, 1010, 1, 7); (1011, 1011, 1, -116); (1013, 1013, 1, -96); (1016, 1016, 1, -1);
  (1019, 1019, 1, -1); (1072, 1103, 1, -32); (1104, 1119, 1, -80); (1121, 1153, 2, -1);
  (1163, 1215, 2, -1); (1218, 1230, 2, -1); (1231, 1231, 1, -15); (1233, 1327, 2, -1);
  (1377, 1414, 1, -48); (4304, 4346, 1, 3008); (4349, 4351, 1, 3008); (5112, 5117, 1, -8);
  (7296, 7296, 1, -6254); (7297, 7297, 1, -6253); (7298, 7298, 1, -6244); (7299, 7300, 1, -6242);
  (7301, 7301, 1, -6243); (7302, 7302, 1, -6236); (7303, 7303, 1, -6181); (7304, 7304, 1, 35266);
  (7545, 7545, 1, 35332); (7549, 7549, 1, 3814); (7566, 7566, 1, 35384); (7681, 7829, 2, -1);
  (7835, 7835, 1, -59); (7841, 7935, 2, -1); (7936, 7943, 1, 8); (7952, 7957, 1, 8);
  (7968, 7975, 1, 8); (7984, 7991, 1, 8); (8000, 8005, 1, 8); (8017, 8023, 2, 8);
  (8032, 8039, 1, 8); (8048, 8049, 1, 74); (8050, 8053, 1, 86); (8054, 8055, 1, 100);
  (8056, 8057, 1, 128); (8058, 8059, 1, 112); (8060, 8061, 1, 126); (8064, 8071, 1, 8);
  (8080, 8087, 1, 8); (8096, 8103, 1, 8); (8112, 8113, 1, 8); (8115, 8115, 1, 9);
  (8126, 8126, 1, -7205); (8131, 8131, 1, 9); (8144, 8145, 1, 8); (8160, 8161, 1, 8);
  (8165, 8165, 1, 7); (8179, 8179, 1, 9); (8526, 8526, 1, -28); (8560, 8575, 1, -16);
  (8580, 8580, 1, -1); (9424, 9449, 1, -26); (11312, 11359, 1, -48); (11361, 11361, 1, -1);
  (11365, 11365, 1, -10795); (11366, 11366, 1, -10792); (11368, 11372, 2, -1); (11379, 11379, 1, -1);
  (11382, 11382, 1, -1); (11393, 11491, 2, -1); (11500, 11502, 2, -1); (11507, 11507, 1, -1);
  (11520, 11557, 1, -7264); (11559, 11559, 1, -7264); (11565, 11565, 1, -7264); (42561, 42605, 2, -1);
  (42625, 42651, 2, -1); (42787, 42799, 2, -1); (42803, 42863, 2, -1); (42874, 42876, 2, -1);
  (42879, 42887, 2, -1); (42892, 42892, 1, -1); (42897, 42899, 2, -1); (42900, 42900, 1, 48);
  (42903, 42921, 2, -1); (42933, 42947, 2, -1); (42952, 42954, 2, -1); (42961, 42961, 1, -1);
  (42967, 42969, 2, -1); (42998, 42998, 1, -1); (43859, 43859, 1, -928); (43888, 43967, 1, -38864);
  (65345, 65370, 1, -32); (66600, 66639, 1, -40); (66776, 66811, 1, -40); (66967, 66977, 1, -39);
  (66979, 66993, 1, -39); (66995, 67001, 1, -39); (67003, 67004, 1, -39); (68800, 68850, 1, -64);
  (71872, 71903, 1, -32); (93792, 93823, 1, -32); (125218, 125251, 1, -34)
].

Definition fold_ranges : list (Z * Z * Z * Z) := [
  (181, 181, 1, 775); (192, 214, 1, 32); (216, 222, 1, 32); (256, 302, 2, 1);
  (306, 310, 2, 1); (313, 327, 2, 1); (330, 374, 2, 1); (376, 376, 1, -121);
  (377, 381, 2, 1); (383, 383, 1, -268); (385, 385, 1, 210); (386, 388, 2, 1);
  (390, 390, 1, 206); (391, 391, 1, 1); (393, 394, 1, 205); (395, 395, 1, 1);
  (398, 398, 1, 79); (399, 399, 1, 202); (400, 400, 1, 203); (401, 401, 1, 1);
  (403, 403, 1, 205); (404, 404, 1, 207); (406, 406, 1, 211); (407, 407, 1, 209);
  (408, 408, 1, 1); (412, 412, 1, 211); (413, 413, 1, 213); (415, 415, 1, 214);
  (416, 420, 2, 1); (422, 422, 1, 218); (423, 423, 1, 1); (425, 425, 1, 218);
  (428, 428, 1, 1); (430, 430, 1, 218); (431, 431, 1, 1); (433, 434, 1, 217);
  (435, 437, 2, 1); (439, 439, 1, 219); (440, 440, 1, 1); (444, 444, 1, 1);
  (452, 452, 1, 2); (453, 453, 1, 1); (455, 455, 1, 2); (456, 456, 1, 1);
  (458, 458, 1, 2); (459, 475, 2, 1); (478, 494, 2, 1); (497, 497, 1, 2);
  (498, 500, 2, 1); (502, 502, 1, -97); (503, 503, 1, -56); (504, 542, 2, 1);
  (544, 544, 1, -130); (546, 562, 2, 1); (570, 570, 1, 10795); (571, 571, 1, 1);
  (573, 573, 1, -163); (574, 574, 1, 10792); (577, 577, 1, 1); (579, 579, 1, -195);
  (580, 580, 1, 69); (581, 581, 1, 71); (582, 590, 2, 1); (837, 837, 1, 116);
  (880, 882, 2, 1); (886, 886, 1, 1); (895, 895, 1, 116); (902, 902, 1, 38);
  (904, 906, 1, 37); (908, 908, 1, 64); (910, 911, 1, 63); (913, 929, 1, 32);
  (931, 939, 1, 32); (962, 962, 1, 1); (975, 975, 1, 8); (976, 976, 1, -30);
  (977, 977, 1, -25); (981, 981, 1, -15); (982, 982, 1, -22); (984, 1006, 2, 1);
  (1008, 1008, 1, -54); (1009, 1009, 1, -48); (1012, 1012, 1, -60); (1013, 1013, 1, -64);
  (1015, 1015, 1, 1); (1017, 1017, 1, -7); (1018, 1018, 1, 1); (1021, 1023, 1, -130);
  (1024, 1039, 1, 80); (1040, 1071, 1, 32); (1120, 1152, 2, 1); (1162, 1214, 2, 1);
  (1216, 1216, 1, 15); (1217, 1229, 2, 1); (1232, 1326, 2, 1); (1329, 1366, 1, 48);
  (4256, 4293, 1, 7264); (4295, 4295, 1, 7264); (4301, 4301, 1, 7264); (5112, 5117, 1, -8);
  (7296, 7296, 1, -6222); (7297, 7297, 1, -6221); (7298, 7298, 1, -6212); (7299, 7300, 1, -6210);
  (7301, 7301, 1, -6211); (7302, 7302, 1, -6204); (7303, 7303, 1, -6180); (7304, 7304, 1, 35267);
  (7312, 7354, 1, -3008); (7357, 7359, 1, -3008); (7680, 7828, 2, 1); (7835, 7835, 1, -58);
  (7838, 7838, 1, -7615); (7840, 7934, 2, 1); (7944, 7951, 1, -8); (7960, 7965, 1, -8);
  (7976, 7983, 1, -8); (7992, 7999, 1, -8); (8008, 8013, 1, -8); (8025, 8031, 2, -8);
  (8040, 8047, 1, -8); (8072, 8079, 1, -8); (8088, 8095, 1, -8); (8104, 8111, 1, -8);
  (8120, 8121, 1, -8); (8122, 8123, 1, -74); (8124, 8124, 1, -9); (8126, 8126, 1, -7173);
  (8136, 8139, 1, -86); (8140, 8140, 1, -9); (8152, 8153, 1, -8); (8154, 8155, 1, -100);
  (8168, 8169, 1, -8); (8170, 8171, 1, -112); (8172, 8172, 1, -7); (8184, 8185, 1, -128);
  (8186, 8187, 1, -126); (8188, 8188, 1, -9); (8486, 8486, 1, -7517); (8490, 8490, 1, -8383);
  (8491, 8491, 1, -8262); (8498, 8498, 1, 28); (8544, 8559, 1, 16); (8579, 8579, 1, 1);
  (9398, 9423, 1, 26); (11264, 11311, 1, 48); (11360, 11360, 1, 1); (11362, 11362, 1, -10743);
  (11363, 11363, 1, -3814); (11364, 11364, 1, -10727); (11367, 11371, 2, 1); (11373, 11373, 1, -10780);
  (11374, 11374, 1, -10749); (11375, 11375, 1, -10783); (11376, 11376, 1, -10782); (11378, 11378, 1, 1);
  (11381, 11381, 1, 1); (11390, 11391, 1, -10815); (11392, 11490, 2, 1); (11499, 11501, 2, 1);
  (11506, 11506, 1, 1); (42560, 42604, 2, 1); (42624, 42650, 2, 1); (42786, 42798, 2, 1);
  (42802, 42862, 2, 1); (42873, 42875, 2, 1); (42877, 42877, 1, -35332); (42878, 42886, 2, 1);
  (42891, 42891, 1, 1); (42893, 42893, 1, -42280); (42896, 42898, 2, 1); (42902, 42920, 2, 1);
  (42922, 42922, 1, -42308); (42923, 42923, 1, -42319); (42924, 42924, 1, -42315); (42925, 42925, 1, -42305);
  (42926, 42926, 1, -42308); (42928, 42928, 1, -42258); (42929, 42929, 1, -42282); (42930, 42930, 1, -42261);
  (42931, 42931, 1, 928); (42932, 42946, 2, 1); (42948, 42948, 1, -48); (42949, 42949, 1, -42307);
  (42950, 42950, 1, -35384); (42951, 42953, 2, 1); (42960, 42960, 1, 1); (42966, 42968, 2, 1);
  (42997, 42997, 1, 1); (43888, 43967, 1, -38864); (65313, 65338, 1, 32); (66560, 66599, 1, 40);
  (66736, 66771, 1, 40); (66928, 66938, 1, 39); (66940, 66954, 1, 39); (66956, 66962, 1, 39);
  (66964, 66965, 1, 39); (68736, 68786, 1, 64); (71840, 71871, 1, 32); (93760, 93791, 1, 32);
  (125184, 125217, 1, 34)
].

Definition digit_ranges : list (Z * Z) := [
  (48, 57); (1632, 1641); (1776, 1785); (1984, 1993); (2406, 2415); (2534, 2543);
  (2662, 2671); (2790, 2799); (2918, 2927); (3046, 3055); (3174, 3183); (3302, 3311);
  (3430, 3439); (3558, 3567); (3664, 3673); (3792, 3801); (3872, 3881); (4160, 4169);
  (4240, 4249); (6112, 6121); (6160, 6169); (6470, 6479); (6608, 6617); (6784, 6793);
  (6800, 6809); (6992, 7001); (7088, 7097); (7232, 7241); (7248, 7257); (42528, 42537);
  (43216, 43225); (43264, 43273); (43472, 43481); (43504, 43513); (43600, 43609); (44016, 44025);
  (65296, 65305); (66720, 66729); (68912, 68921); (69734, 69743); (69872, 69881); (69942, 69951);
  (70096, 70105); (70384, 70393); (70736, 70745); (70864, 70873); (71248, 71257); (71360, 71369);
  (71472, 71481); (71904, 71913); (72016, 72025); (72784, 72793); (73040, 73049); (73120, 73129);
  (73552, 73561); (92768, 92777); (92864, 92873); (93008, 93017); (120782, 120831); (123200, 123209);
  (123632, 123641); (124144, 124153); (125264, 125273); (130032, 130041)
].

(** The code points with an upper-case mapping that are not letters. *)
Definition cased_nonletter_ranges : list (Z * Z) := [(837, 837); (8560, 8575); (9424, 9449)].

(** White space above U+007F. *)
Definition space_ranges : list (Z * Z) :=
  [(133, 133); (160, 160); (5760, 5760); (8192, 8202); (8232, 8233); (8239, 8239);
   (8287, 8287); (12288, 12288)].

Fixpoint map_in (t : list (Z * Z * Z * Z)) (r : Z) : Z :=
  match t with
  | [] => r
  | (lo, hi, step, d) :: t =>
      if (lo <=? r) && (r <=? hi) && ((r - lo) mod step =? 0) then r + d else map_in t r
  end.

Fixpoint in_ranges (t : list (Z * Z)) (r : Z) : bool :=
  match t with
  | [] => false
  | (lo, hi) :: t => ((lo <=? r) && (r <=? hi)) || in_ranges t r
  end.

(** ** [unicode] *)

Definition MaxASCII : Z := 127.
Definition RuneError : Z := 65533.

Definition unicode_ToLower (r : Z) : Z :=
  if r <=? MaxASCII then (if (65 <=? r) && (r <=? 90) then r + 32 else r)
  else map_in lower_ranges r.

Definition unicode_ToUpper (r : Z) : Z :=
  if r <=? MaxASCII then (if (97 <=? r) && (r <=? 122) then r - 32 else r)
  else map_in upper_ranges r.

(** Two code points are in the same orbit of [unicode.SimpleFold] when this
    representative is the same. *)
Definition fold_rune (r : Z) : Z :=
  if r <=? MaxASCII then (if (65 <=? r) && (r <=? 90) then r + 32 else r)
  else map_in fold_ranges r.

Definition unicode_IsDigit (r : Z) : bool := in_ranges digit_ranges r.

Definition unicode_IsSpace (r : Z) : bool :=
  if r <=? MaxASCII then ((9 <=? r) && (r <=? 13)) || (r =? 32)
  else in_ranges space_ranges r.

(** [if unicode.IsLetter(r) { r = unicode.ToUpper(r) }]: [unicode.ToUpper]
    moves a code point that is not a letter only on
    [cased_nonletter_ranges]. *)
Definition upper_if_letter (r : Z) : Z :=
  if in_ranges cased_nonletter_ranges r then r else unicode_ToUpper r.

(** ** [unicode/utf8] *)

Definition cont (b : Z) : bool := (128 <=? b) && (b <=? 191).

(** The code points of [l], each with the bytes it was decoded from. *)
Fixpoint rune_chunks (l : list Z) : list (Z * list Z) :=
  match l with
  | [] => []
  | b0 :: t0 =>
    if b0 <=? 127 then (b0, [b0]) :: rune_chunks t0
    else if (194 <=? b0) && (b0 <=? 223) then
      match t0 with
      | b1 :: t1 =>
        if cont b1 then ((b0 - 192) * 64 + (b1 - 128), [b0; b1]) :: rune_chunks t1
        else (RuneError, [b0]) :: rune_chunks t0
      | [] => [(RuneError, [b0])]
      end
    else if (224 <=? b0) && (b0 <=? 239) then
      match t0 with
      | b1 :: b2 :: t2 =>
        if ((if b0 =? 224 then 160 else 128) <=? b1) && (b1 <=? (if b0 =? 237 then 159 else 191))
           && cont b2
        then ((b0 - 224) * 4096 + (b1 - 128) * 64 + (b2 - 128), [b0; b1; b2]) :: rune_chunks t2
        else (RuneError, [b0]) :: rune_chunks t0
      | _ => (RuneError, [b0]) :: rune_chunks t0
      end
    else if (240 <=? b0) && (b0 <=? 244) then
      match t0 with
      | b1 :: b2 :: b3 :: t3 =>
        if ((if b0 =? 240 then 144 else 128) <=? b1) && (b1 <=? (if b0 =? 244 then 143 else 191))
           && cont b2 && cont b3
        then ((b0 - 240) * 262144 + (b1 - 128) * 4096 + (b2 - 128) * 64 + (b3 - 128),
              [b0; b1; b2; b3]) :: rune_chunks t3
        else (RuneError, [b0]) :: rune_chunks t0
      | _ => (RuneError, [b0]) :: rune_chunks t0
      end
    else (RuneError, [b0]) :: rune_chunks t0
  end.

(** [for _, r := range s]: the code points of [s]. *)
Definition runes (s : string) : list Z := map fst (rune_chunks (bytes s)).

(** [utf8.AppendRune]: surrogates and out-of-range values encode U+FFFD. *)
Definition encode_rune (r : Z) : list Z :=
  if (0 <=? r) && (r <=? 127) then [r]
  else if (128 <=? r) && (r <=? 2047) then [192 + r / 64; 128 + r mod 64]
  else if (r <? 0) || ((55296 <=? r) && (r <=? 57343)) || (1114111 <? r)
       then [239; 191; 189]
  else if r <=? 65535
       then [224 + r / 4096; 128 + (r / 64) mod 64; 128 + r mod 64]
  else [240 + r / 262144; 128 + (r / 4096) mod 64; 128 + (r / 64) mod 64; 128 + r mod 64].

(** [utf8.ValidString]: nothing is lost by decoding. *)
Definition ValidString (s : string) : bool := bool_decide (of_bytes (flat_map encode_rune (runes s)) = s).

(** ** [strings] *)

Definition is_ascii_str (s : string) : bool := forallb_str (fun c => byte_of c <=? MaxASCII) s.

Definition lower_byte (c : ascii) : ascii :=
  if is_upper_byte c then of_byte (byte_of c + 32) else c.
Definition upper_byte (c : ascii) : ascii :=
  if is_lower_byte c then of_byte (byte_of c - 32) else c.

(** [strings.Map(f, s)] for a mapping that drops nothing. *)
Definition Map (f : Z -> Z) (s : string) : string :=
  of_bytes (flat_map (fun r => encode_rune (f r)) (runes s)).

Definition ToLower (s : string) : string :=
  if is_ascii_str s then map_str lower_byte s else Map unicode_ToLower s.

Definition ToUpper (s : string) : string :=
  if is_ascii_str s then map_str upper_byte s else Map unicode_ToUpper s.

Definition EqualFold (s t : string) : bool :=
  bool_decide (map fold_rune (runes s) = map fold_rune (runes t)).

Fixpoint drop_spaces (l : list (Z * list Z)) : list (Z * list Z) :=
  match l with
  | [] => []
  | c :: l' => if unicode_IsSpace (fst c) then drop_spaces l' else l
  end.

(** [strings.TrimSpace]: the leading and trailing white space is cut off. *)
Definition TrimSpace (s : string) : string :=
  of_bytes (concat (map snd (rev (drop_spaces (rev (drop_spaces (rune_chunks (bytes s)))))))).

(** ** Facts *)

Lemma rune_chunks_concat l : concat (map snd (rune_chunks l)) = l.
Proof.
  induction l as [l IH] using (induction_ltof1 _ (@List.length Z)).
  destruct l as [|b0 t0]; [done|]. unfold ltof in IH.
  cbn [rune_chunks]. repeat case_match; subst; cbn [map snd concat app];
    rewrite ?IH by (simpl; lia); reflexivity.
Qed.

Lemma is_ascii_str_app s t :
  is_ascii_str (s ++ t) = is_ascii_str s && is_ascii_str t.
Proof. unfold is_ascii_str. induction s as [|c s IH]; simpl; [done|]. by rewrite IH, andb_assoc. Qed.

Lemma runes_ascii s : is_ascii_str s = true -> runes s = bytes s.
Proof.
  unfold runes, is_ascii_str. induction s as [|c s IH]; simpl; [done|].
  unfold MaxASCII. intros [Hc Hs]%andb_true_iff. rewrite Hc. simpl. by rewrite IH.
Qed.

Lemma length_map_str f s : String.length (map_str f s) = String.length s.
Proof. induction s; simpl; congruence. Qed.

Lemma ToLower_ascii s : is_ascii_str s = true -> ToLower s = map_str lower_byte s.
Proof. unfold ToLower. by intros ->. Qed.

Lemma length_ToLower_ascii s :
  is_ascii_str s = true -> String.length (ToLower s) = String.length s.
Proof. intros. by rewrite ToLower_ascii, length_map_str. Qed.

Lemma lower_byte_idem c : lower_byte (lower_byte c) = lower_byte c.
Proof.
  unfold lower_byte, is_upper_byte. pose proof (byte_of_range c).
  destruct ((65 <=? byte_of c) && (byte_of c <=? 90)) eqn:E; [|by rewrite E].
  bool_cases. rewrite byte_of_byte by lia.
  by replace ((65 <=? byte_of c + 32) && (byte_of c + 32 <=? 90)) with false by lia.
Qed.

Lemma lower_byte_ascii c :
  (byte_of c <=? MaxASCII) = true -> (byte_of (lower_byte c) <=? MaxASCII) = true.
Proof.
  unfold lower_byte, is_upper_byte, MaxASCII. pose proof (byte_of_range c).
  case_match; [|done]. bool_cases. rewrite byte_of_byte by lia. lia.
Qed.

Lemma is_ascii_ToLower s : is_ascii_str s = true -> is_ascii_str (map_str lower_byte s) = true.
Proof.
  unfold is_ascii_str. induction s as [|c s IH]; simpl; [done|].
  intros [Hc Hs]%andb_true_iff. by rewrite lower_byte_ascii, IH.
Qed.

Lemma ToLower_idem_ascii s : is_ascii_str s = true -> ToLower (ToLower s) = ToLower s.
Proof.
  intros H. rewrite (ToLower_ascii s H), (ToLower_ascii _ (is_ascii_ToLower s H)).
  clear H. induction s as [|c s IH]; simpl; [done|]. by rewrite lower_byte_idem, IH.
Qed.

#[export] Instance EqualFold_equiv : Equivalence (fun s t => EqualFold s t = true).
Proof.
  unfold EqualFold. split.
  - intros s. by apply bool_decide_eq_true_2.
  - intros s t. rewrite !bool_decide_eq_true. congruence.
  - intros s t u. rewrite !bool_decide_eq_true. congruence.
Qed.

(** *** ASCII text in a longer one *)

(** One step of the decoder does not reach past an ASCII byte. *)
Lemma rune_chunks_step b0 t b y :
  b <= 127 -> exists r k, (k <= List.length t)%nat /\
    rune_chunks (b0 :: t) = (r, b0 :: take k t) :: rune_chunks (drop k t) /\
    rune_chunks (b0 :: t ++ b :: y) = (r, b0 :: take k t) :: rune_chunks (drop k t ++ b :: y).
Proof.
  intros Hb. assert (Hc : cont b = false) by (unfold cont; lia).
  assert (H3 : forall (c : bool), (if c then 160 else 128) <=? b = false) by (intros []; lia).
  assert (H4 : forall (c : bool), (if c then 144 else 128) <=? b = false) by (intros []; lia).
  assert (Hone : forall r, (0 <= List.length t)%nat /\ (r, [b0]) :: rune_chunks t = (r, b0 :: take 0 t) :: rune_chunks (drop 0 t) /\
    (r, [b0]) :: rune_chunks (t ++ b :: y) = (r, b0 :: take 0 t) :: rune_chunks (drop 0 t ++ b :: y))
    by (intros r; rewrite take_0, drop_0; repeat split; lia).
  destruct (b0 <=? 127) eqn:E1; [exists b0, 0%nat; cbn [rune_chunks]; rewrite E1; apply Hone|].
  pose proof (Hone RuneError) as Hbad. clear Hone.
  destruct ((194 <=? b0) && (b0 <=? 223)) eqn:E2; [|destruct ((224 <=? b0) && (b0 <=? 239)) eqn:E3;
    [|destruct ((240 <=? b0) && (b0 <=? 244)) eqn:E4]].
  - destruct t as [|b1 t]; [exists RuneError, 0%nat|]; cbn [app] in *.
    + revert Hbad. cbn [rune_chunks]. by rewrite E1, E2, Hc.
    + revert Hbad. cbn [rune_chunks]. rewrite E1, E2. 
      destruct (cont b1); [|intros Hbad; by exists RuneError, 0%nat].
      intros _. eexists _, 1%nat. split_and!; [simpl; lia|done..].
  - destruct t as [|b1 [|b2 t]]; [exists RuneError, 0%nat..|]; cbn [app] in *.
    + revert Hbad. cbn [rune_chunks]. rewrite E1, E2, E3, H3. by destruct y.
    + revert Hbad. cbn [rune_chunks]. rewrite E1, E2, E3, Hc, ?andb_false_r, ?H3, ?H4. done.
    + revert Hbad. cbn [rune_chunks]. rewrite E1, E2, E3. 
      destruct (((if b0 =? 224 then 160 else 128) <=? b1) && (b1 <=? (if b0 =? 237 then 159 else 191)) && cont b2); [|intros Hbad; by exists RuneError, 0%nat].
      intros _. eexists _, 2%nat. split_and!; [simpl; lia|done..].
  - destruct t as [|b1 [|b2 [|b3 t]]]; [exists RuneError, 0%nat..|]; cbn [app] in *.
    + revert Hbad. cbn [rune_chunks]. rewrite E1, E2, E3, E4, H4. by destruct y as [|? [|? ?]].
    + revert Hbad. cbn [rune_chunks]. rewrite E1, E2, E3, E4, Hc, ?andb_false_r, ?H3, ?H4. by destruct y.
    + revert Hbad. cbn [rune_chunks]. rewrite E1, E2, E3, E4, Hc, ?andb_false_r, ?H3, ?H4. done.
    + revert Hbad. cbn [rune_chunks]. rewrite E1, E2, E3, E4. 
      destruct (((if b0 =? 240 then 144 else 128) <=? b1) && (b1 <=? (if b0 =? 244 then 143 else 191)) && cont b2 && cont b3); [|intros Hbad; by exists RuneError, 0%nat].
      intros _. eexists _, 3%nat. split_and!; [simpl; lia|done..].
  - exists RuneError, 0%nat. cbn [rune_chunks]. by rewrite E1, E2, E3, E4.
Qed.

Lemma rune_chunks_ascii_r x b y :
  b <= 127 -> rune_chunks (x ++ b :: y) = rune_chunks x ++ rune_chunks (b :: y).
Proof.
  intros Hb. induction x as [x IH] using (induction_ltof1 _ (@List.length Z)). unfold ltof in IH.
  destruct x as [|b0 t]; [done|]. destruct (rune_chunks_step b0 t b y Hb) as (r & k & Hk & -> & E).
  cbn [app]. rewrite E, IH; [done|]. rewrite length_drop. simpl. lia.
Qed.

(** The runes of an ASCII text are found whatever surrounds it. *)
Lemma runes_around x p y :
  is_ascii_str p = true -> p <> "" -> runes (x +:+ p +:+ y) = (runes x ++ bytes p ++ runes y)%list.
Proof.
  intros Ha Hp. unfold runes. rewrite !bytes_app. destruct p as [|c p]; [done|]. unfold is_ascii_str in Ha.
  cbn [bytes app forallb_str] in *. unfold MaxASCII in Ha. apply andb_true_iff in Ha as [Hc Ha].
  rewrite rune_chunks_ascii_r, map_app by lia. f_equal. cbn [rune_chunks]. rewrite Hc. cbn [map fst]. f_equal.
  clear Hc. induction p as [|d p IH]; [done|]. cbn [bytes app forallb_str] in *. apply andb_true_iff in Ha as [Hd Ha].
  cbn [rune_chunks]. rewrite Hd. cbn [map fst]. f_equal. by apply IH.
Qed.

Lemma of_bytes_app l k : of_bytes (l ++ k) = of_bytes l +:+ of_bytes k.
Proof. induction l as [|b l IH]; simpl; congruence. Qed.

Lemma Map_ToLower_ascii p :
  is_ascii_str p = true -> of_bytes (flat_map (fun r => encode_rune (unicode_ToLower r)) (bytes p)) = map_str lower_byte p.
Proof.
  unfold is_ascii_str. induction p as [|c p IH]; [done|]. cbn [forallb_str bytes flat_map map_str]. intros [Hc Hp]%andb_true_iff.
  rewrite of_bytes_app, IH by done. unfold unicode_ToLower, lower_byte, is_upper_byte, encode_rune. rewrite Hc.
  unfold MaxASCII in Hc. pose proof (byte_of_range c).
  destruct ((65 <=? byte_of c) && (byte_of c <=? 90)) eqn:E.
  - replace ((0 <=? byte_of c + 32) && (byte_of c + 32 <=? 127)) with true by lia. done.
  - replace ((0 <=? byte_of c) && (byte_of c <=? 127)) with true by lia. simpl. by rewrite of_byte_of.
Qed.

Lemma map_str_app f s t : map_str f (s +:+ t) = map_str f s +:+ map_str f t.
Proof. induction s as [|c s IH]; simpl; congruence. Qed.

(** Lowering keeps an ASCII text in its place, whatever surrounds it. *)
Lemma Contains_ToLower s p : is_ascii_str p = true -> p <> "" -> Contains s p = true -> Contains (ToLower s) (ToLower p) = true.
Proof.
  intros Ha Hp. rewrite !Contains_spec. intros (i & (x & y & -> & _)%occurs_at_split).
  rewrite (ToLower_ascii p Ha). unfold ToLower. case_match.
  - exists (String.length (map_str lower_byte x)). apply occurs_at_split.
    exists (map_str lower_byte x), (map_str lower_byte y). by rewrite !map_str_app.
  - unfold Map. rewrite runes_around, !flat_map_app, !of_bytes_app, (Map_ToLower_ascii p) by done.
    eexists. apply occurs_at_split. by eexists _, _.
Qed.

(** A byte that is not ASCII starts a rune that is not. *)
Lemma rune_chunks_high b0 t :
  127 < b0 -> exists r bs rest, rune_chunks (b0 :: t) = (r, b0 :: bs) :: rest /\ 127 < r.
Proof.
  intros Hb. cbn [rune_chunks]. unfold cont, RuneError. repeat case_match; bool_cases; eexists _, _, _; (split; [done|lia]).
Qed.
