(* ===== verification/Rules.v ===== *)
(** * RulePacks: the data model of internal/rules

    The records of src/internal/rules/types.go with their Go field names,
    prefixed by the record.  A Go pointer that is only read is an [option];
    a [float64] that is only passed on is kept as its 64 bits. *)

From Stdlib Require Import Ascii String.
From S2P Require Import Prelude GoString Unicode.

(** The bits of an IEEE-754 double; no arithmetic is done on it here. *)
Definition float64 : Type := Z.

Record Metadata := {
  md_Name : string;
  md_Version : string;
  md_Description : string;
  md_Author : string;
  md_License : string;
  md_Homepage : string;
  md_Repository : string;
  md_Tags : list string;
}.

Record Options := {
  opt_CaseSensitive : bool;
  opt_WholeWord : bool;
}.

Record Pattern := {
  pat_Name : string;
  pat_Regex : string;
  pat_Flags : list string;
  pat_Verifier : string;
}.

(** [Match map[string][]string]: the order of the keys is never observed. *)
Record Condition := { cond_Match : gmap string (list string) }.

Record Semantic := {
  sem_Model : string;
  sem_Temperature : float64;
  sem_MaxTokens : Z;
  sem_AnalysisPrompt : string;
  sem_ConfidenceThreshold : float64;
  sem_FallbackOnError : bool;
}.

Record Fallback := {
  fb_Patterns : list Pattern;
  fb_Action : string;
}.

Record Response := {
  resp_Action : string;
  resp_Message : string;
  resp_Replacement : string;
}.

Record Cache := {
  cache_Enabled : bool;
  cache_TTL : string;
  cache_MaxEntries : Z;
}.

Record Composition := {
  comp_Strategy : string;
  comp_Priority : Z;
}.

Record Gate := {
  gate_Enabled : bool;
  gate_MinTokenLen : Z;
}.

Record Performance := {
  perf_MaxLength : Z;
  perf_Timeout : string;
  perf_PerRuleTimeout : string;
  perf_TotalScanTimeout : string;
  perf_Gate : Gate;
}.

Record Override := {
  ov_RuleID : string;
  ov_Severity : string;
  ov_Enabled : option bool;
}.

Record Rule := {
  r_ID : string;
  r_Name : string;
  r_Level : Z;
  r_Severity : string;
  r_Category : string;
  r_Enabled : option bool;
  r_Verifier : string;
  r_Keywords : list string;
  r_Patterns : list Pattern;
  r_Semantic : option Semantic;
  r_Fallback : option Fallback;
  r_Logic : string;
  r_Options : Options;
  r_Response : option Response;
  r_Cache : option Cache;
  r_When : option Condition;
  r_Unless : option Condition;
  r_Timeout : string;
}.

Record RulePack := {
  rp_APIVersion : string;
  rp_Kind : string;
  rp_Metadata : Metadata;
  rp_Rules : list Rule;
  rp_Extends : list string;
  rp_Imports : list string;
  rp_Composition : option Composition;
  rp_Performance : option Performance;
  rp_Overrides : list Override;
  rp_Context : gmap string string;
  rp_SourcePath : string;
}.

Definition rp_Name (p : RulePack) : string := md_Name (rp_Metadata p).

(** Field updates, for the assignments [r.Severity = ...] of the code. *)
Definition set_Severity (r : Rule) (s : string) : Rule :=
  {| r_ID := r_ID r; r_Name := r_Name r; r_Level := r_Level r; r_Severity := s;
     r_Category := r_Category r; r_Enabled := r_Enabled r; r_Verifier := r_Verifier r;
     r_Keywords := r_Keywords r; r_Patterns := r_Patterns r; r_Semantic := r_Semantic r;
     r_Fallback := r_Fallback r; r_Logic := r_Logic r; r_Options := r_Options r;
     r_Response := r_Response r; r_Cache := r_Cache r; r_When := r_When r;
     r_Unless := r_Unless r; r_Timeout := r_Timeout r |}.

Definition set_Enabled (r : Rule) (e : option bool) : Rule :=
  {| r_ID := r_ID r; r_Name := r_Name r; r_Level := r_Level r; r_Severity := r_Severity r;
     r_Category := r_Category r; r_Enabled := e; r_Verifier := r_Verifier r;
     r_Keywords := r_Keywords r; r_Patterns := r_Patterns r; r_Semantic := r_Semantic r;
     r_Fallback := r_Fallback r; r_Logic := r_Logic r; r_Options := r_Options r;
     r_Response := r_Response r; r_Cache := r_Cache r; r_When := r_When r;
     r_Unless := r_Unless r; r_Timeout := r_Timeout r |}.

Definition set_Patterns (r : Rule) (ps : list Pattern) (fb : option Fallback) : Rule :=
  {| r_ID := r_ID r; r_Name := r_Name r; r_Level := r_Level r; r_Severity := r_Severity r;
     r_Category := r_Category r; r_Enabled := r_Enabled r; r_Verifier := r_Verifier r;
     r_Keywords := r_Keywords r; r_Patterns := ps; r_Semantic := r_Semantic r;
     r_Fallback := fb; r_Logic := r_Logic r; r_Options := r_Options r;
     r_Response := r_Response r; r_Cache := r_Cache r; r_When := r_When r;
     r_Unless := r_Unless r; r_Timeout := r_Timeout r |}.

(** [r.Enabled != nil && !*r.Enabled]. *)
Definition rule_disabled (r : Rule) : bool :=
  match r_Enabled r with Some false => true | _ => false end.

(** The zero value of [Rule] with an id, used to build examples. *)
Definition rule0 (id : string) : Rule :=
  {| r_ID := id; r_Name := ""; r_Level := 0; r_Severity := ""; r_Category := "";
     r_Enabled := None; r_Verifier := ""; r_Keywords := []; r_Patterns := [];
     r_Semantic := None; r_Fallback := None; r_Logic := "";
     r_Options := {| opt_CaseSensitive := false; opt_WholeWord := false |};
     r_Response := None; r_Cache := None; r_When := None; r_Unless := None;
     r_Timeout := "" |}.

Definition metadata0 (name : string) : Metadata :=
  {| md_Name := name; md_Version := ""; md_Description := ""; md_Author := "";
     md_License := ""; md_Homepage := ""; md_Repository := ""; md_Tags := [] |}.

Definition pack0 (name : string) (extends : list string) (rs : list Rule) : RulePack :=
  {| rp_APIVersion := ""; rp_Kind := ""; rp_Metadata := metadata0 name; rp_Rules := rs;
     rp_Extends := extends; rp_Imports := []; rp_Composition := None;
     rp_Performance := None; rp_Overrides := []; rp_Context := ∅; rp_SourcePath := "" |}.
