(* ===== verification/Merge.v ===== *)
(** * Merging RulePacks: internal/rules/merge.go

    [MergePacks] and [MergePacksPriorityOrder] order the packs by a
    depth-first walk over [Extends], merge the rules by id and apply the
    overrides.  The walk is a fuelled function whose fuel, one more than the
    number of packs, is shown to be enough. *)

From Stdlib Require Import Ascii String.
From S2P Require Import Prelude GoString Unicode Rules.

(** ** The walk over [Extends] *)

Section Walk.
Context (byName : gmap string RulePack).

(** [visited] and [order] of the closures. *)
Record walk_state := { visited : gset string; order : list string }.

Fixpoint visit (fuel : nat) (n : string) (st : walk_state) : option walk_state :=
  match fuel with
  | O => None
  | S fuel =>
      if decide (n ∈ visited st) then Some st
      else
        let st := {| visited := {[n]} ∪ visited st; order := order st |} in
        match byName !! n with
        | None => Some st
        | Some p =>
            st ← foldl (fun acc dep =>
                          acc ≫= fun st =>
                            match byName !! dep with
                            | Some _ => visit fuel dep st
                            | None => Some st
                            end)
                       (Some st) (rp_Extends p);
            Some {| visited := visited st; order := order st ++ [n] |}
        end
  end.

Definition visit_deps (fuel : nat) (deps : list string) (o : option walk_state) :
    option walk_state :=
  foldl (fun acc dep =>
           acc ≫= fun st =>
             match byName !! dep with
             | Some _ => visit fuel dep st
             | None => Some st
             end) o deps.

(** [for _, n := range names { visit(n) }] from the empty state. *)
Definition visit_all (fuel : nat) (names : list string) : option walk_state :=
  foldl (fun acc n => acc ≫= visit fuel n) (Some {| visited := ∅; order := [] |}) names.

Definition walk_order (names : list string) : list string :=
  match visit_all (S (size byName)) names with
  | Some st => order st
  | None => []
  end.
End Walk.

(** ** [MergePacks] *)

Definition index_by_name (packs : list RulePack) : gmap string RulePack :=
  foldl (fun m p => <[rp_Name p := p]> m) ∅ packs.

Definition apply_override (r : Rule) (ov : Override) : Rule :=
  let r := if decide (ov_Severity ov = "") then r else set_Severity r (ov_Severity ov) in
  match ov_Enabled ov with None => r | Some e => set_Enabled r (Some e) end.

Definition rules_of (byName : gmap string RulePack) (n : string) : list Rule :=
  match byName !! n with Some p => rp_Rules p | None => [] end.
Definition overrides_of (byName : gmap string RulePack) (n : string) : list Override :=
  match byName !! n with Some p => rp_Overrides p | None => [] end.

(** [byID[r.ID] = r] for every rule of every pack in processing order. *)
Definition merge_rules (byName : gmap string RulePack) (ord : list string) : gmap string Rule :=
  foldl (fun m r => <[r_ID r := r]> m) ∅ (flat_map (rules_of byName) ord).

Definition override_step (m : gmap string Rule) (ov : Override) : gmap string Rule :=
  match m !! ov_RuleID ov with
  | None => m
  | Some r => <[ov_RuleID ov := apply_override r ov]> m
  end.

Definition apply_overrides (byName : gmap string RulePack) (ord : list string)
    (m : gmap string Rule) : gmap string Rule :=
  foldl override_step m (flat_map (overrides_of byName) ord).

(** The final loop: the ids of the enabled rules, sorted, and their rules. *)
Definition materialize (m : gmap string Rule) : list Rule :=
  let ids := (map_to_list (filter (fun kv => rule_disabled kv.2 = false) m)).*1 in
  omap (fun id => m !! id) (sort_strings ids).

Definition MergePacks (packs : list RulePack) : list Rule :=
  let byName := index_by_name packs in
  let names := sort_strings (map rp_Name packs) in
  let ord := walk_order byName names in
  materialize (apply_overrides byName ord (merge_rules byName ord)).

(** ** [MergePacksPriorityOrder] *)

Definition getPriority (p : RulePack) : Z :=
  match rp_Composition p with Some c => comp_Priority c | None => 0%Z end.

(** The order of [sort.Slice]: priority descending, then name. *)
Definition pack_le (p q : RulePack) : Prop :=
  (getPriority q < getPriority p)%Z \/
  (getPriority p = getPriority q /\ str_le (rp_Name p) (rp_Name q)).

#[export] Instance pack_le_dec : RelDecision pack_le.
Proof. intros p q. unfold pack_le. apply _. Defined.

Definition sort_packs (packs : list RulePack) : list RulePack := merge_sort pack_le packs.

(** The first-wins loop: [seen] and [out]. *)
Definition first_wins_step (acc : gset string * list Rule) (r : Rule) : gset string * list Rule :=
  if decide (r_ID r ∈ acc.1) then acc else ({[r_ID r]} ∪ acc.1, acc.2 ++ [r]).

Definition first_wins (rs : list Rule) : list Rule :=
  (foldl first_wins_step (∅, []) rs).2.

(** The inner loops of the override pass, for one element [out[i]]. *)
Definition override_rule (ovs : list Override) (r : Rule) : Rule :=
  foldl (fun r ov => if decide (r_ID r = ov_RuleID ov) then apply_override r ov else r) r ovs.

Definition MergePacksPriorityOrder (packs : list RulePack) : list Rule :=
  let sorted := sort_packs packs in
  let byName := index_by_name sorted in
  let ord := walk_order byName (map rp_Name sorted) in
  let out := first_wins (flat_map (rules_of byName) ord) in
  let out := foldl (fun out n => map (override_rule (overrides_of byName n)) out) out ord in
  filter (fun r => rule_disabled r = false) out.

(** ** Correctness of the walk *)

Section WalkFacts.
Context (byName : gmap string RulePack).
Implicit Types (st : walk_state) (n d x : string).

(** What one call may do to the state: mark names, and append to [order]
    exactly the newly marked names that are packs, each once. *)
Definition walk_ext st st' : Prop :=
  visited st ⊆ visited st' /\
  exists new, order st' = order st ++ new /\ NoDup new /\
    forall x, x ∈ new <-> x ∈ visited st' /\ x ∉ visited st /\ x ∈ dom byName.

Lemma walk_ext_refl st : walk_ext st st.
Proof.
  split; [done|]. exists []. rewrite app_nil_r. split_and!; [done|constructor|set_solver].
Qed.

Lemma walk_ext_trans st1 st2 st3 : walk_ext st1 st2 -> walk_ext st2 st3 -> walk_ext st1 st3.
Proof.
  intros [H12 (n1 & E1 & D1 & M1)] [H23 (n2 & E2 & D2 & M2)]. split; [set_solver|].
  exists (n1 ++ n2). rewrite E2, E1, app_assoc. split_and!; [done| |].
  - apply NoDup_app. split_and!; [done| |done]. intros x ?%M1 ?%M2. set_solver.
  - intros x. rewrite elem_of_app, M1, M2. destruct (decide (x ∈ visited st2)); set_solver.
Qed.

(** Names of packs not yet marked: the measure of the walk. *)
Definition unvisited st : nat := size (dom byName ∖ visited st).

Lemma unvisited_ext st st' : walk_ext st st' -> unvisited st' <= unvisited st.
Proof. intros [H _]. unfold unvisited. apply subseteq_size. set_solver. Qed.

Lemma unvisited_mark st n p :
  byName !! n = Some p -> n ∉ visited st ->
  unvisited {| visited := {[n]} ∪ visited st; order := order st |} < unvisited st.
Proof.
  intros Hp Hn. unfold unvisited. apply subset_size. simpl.
  assert (n ∈ dom byName) by by eapply elem_of_dom_2. set_solver.
Qed.

Lemma visit_deps_None fuel deps : visit_deps byName fuel deps None = None.
Proof. by induction deps. Qed.

(** Termination: enough fuel makes the walk return, for every cycle of
    [Extends]; and what it returns extends the state. *)
Lemma visit_total fuel n st :
  unvisited st < fuel ->
  exists st', visit byName fuel n st = Some st' /\ walk_ext st st' /\ n ∈ visited st'.
Proof.
  revert n st. induction fuel as [|fuel IH]; intros n st Hf; [lia|]. simpl.
  case_decide as Hn; [eauto using walk_ext_refl|].
  set (st1 := {| visited := {[n]} ∪ visited st; order := order st |}).
  destruct (byName !! n) as [p|] eqn:Hp.
  2:{ exists st1. split_and!; [done| |set_solver]. split; [set_solver|]. exists [].
      rewrite app_nil_r. split_and!; [done|constructor|]. intros x.
      rewrite elem_of_dom. simpl. split; [set_solver|]. intros (Hx & Hnx & Hd).
      assert (x = n) as -> by set_solver. by rewrite Hp in Hd; destruct Hd. }
  assert (Hlt : unvisited st1 < unvisited st) by by eapply unvisited_mark.
  assert (Hdeps : exists st2, visit_deps byName fuel (rp_Extends p) (Some st1) = Some st2
                     /\ walk_ext st1 st2).
  { assert (Hs1 : unvisited st1 < fuel) by lia. clearbody st1. clear Hlt Hf Hn Hp.
    revert st1 Hs1. induction (rp_Extends p) as [|d deps IHd]; intros s Hs;
      [eauto using walk_ext_refl|]. simpl. destruct (byName !! d); [|by apply IHd].
    destruct (IH d s Hs) as (s' & -> & He & _).
    destruct (IHd s') as (s2 & ? & ?); [apply unvisited_ext in He; lia|].
    eauto using walk_ext_trans. }
  destruct Hdeps as (st2 & Hd & [Hsub (new & E & D & M)]).
  unfold visit_deps in Hd. rewrite Hd. simpl in *.
  eexists. split; [reflexivity|]. split; [|simpl; set_solver]. split; [simpl; set_solver|].
  exists (new ++ [n]). simpl. rewrite E, app_assoc. split_and!; [done| |].
  - apply NoDup_app. split_and!; [done| |apply NoDup_singleton]. intros x Hx%M.
    rewrite list_elem_of_singleton. set_solver.
  - assert (n ∈ dom byName) by by eapply elem_of_dom_2.
    intros x. rewrite elem_of_app, list_elem_of_singleton, M.
    destruct (decide (x = n)) as [->|]; set_solver.
Qed.

Lemma visit_all_total fuel names st :
  unvisited st < fuel ->
  exists st', foldl (fun acc n => acc ≫= visit byName fuel n) (Some st) names = Some st' /\
    walk_ext st st' /\ forall n, n ∈ names -> n ∈ visited st'.
Proof.
  revert st. induction names as [|n names IH]; intros st Hf.
  - exists st. split_and!; [done|apply walk_ext_refl|]. intros n Hn. by apply elem_of_nil in Hn.
  - simpl. destruct (visit_total fuel n st Hf) as (st1 & -> & He1 & Hn1).
    destruct (IH st1) as (st2 & -> & He2 & Hn2); [apply unvisited_ext in He1; lia|].
    exists st2. split_and!; [done|by eapply walk_ext_trans|].
    intros x [->|Hx]%elem_of_cons; [|by apply Hn2]. by apply He2.
Qed.

Lemma walk_order_total names :
  exists st, visit_all byName (S (size byName)) names = Some st /\
    walk_ext {| visited := ∅; order := [] |} st /\ forall n, n ∈ names -> n ∈ visited st.
Proof.
  apply visit_all_total. unfold unvisited. simpl. rewrite difference_empty_L, size_dom. lia.
Qed.

Lemma walk_order_NoDup names : NoDup (walk_order byName names).
Proof.
  unfold walk_order. destruct (walk_order_total names) as (st & -> & [_ (new & -> & Hnd & _)] & _).
  done.
Qed.

Lemma elem_of_walk_order names n :
  (forall m, m ∈ names -> m ∈ dom byName) -> (forall m, m ∈ dom byName -> m ∈ names) ->
  n ∈ walk_order byName names <-> n ∈ names.
Proof.
  intros H1 H2. unfold walk_order.
  destruct (walk_order_total names) as (st & -> & [_ (new & -> & _ & Hm)] & Hv). simpl.
  rewrite Hm. simpl. split; [intros (_ & _ & ?); auto|]. set_solver.
Qed.

(** *** Dependencies come first when [Extends] has no cycle *)

(** [d] stands before [x] in [l]. *)
Definition before (l : list string) d x : Prop := exists l1 l2, l = l1 ++ x :: l2 /\ d ∈ l1.

Lemma before_app_l l l' d x : before l d x -> before (l ++ l') d x.
Proof. intros (l1 & l2 & -> & ?). exists l1, (l2 ++ l'). by rewrite <- app_assoc. Qed.

Lemma before_snoc l d x : d ∈ l -> before (l ++ [x]) d x.
Proof. intros ?. by exists l, []. Qed.

(** [Extends] between the packs at hand. *)
Definition extends n d : Prop :=
  exists p, byName !! n = Some p /\ d ∈ rp_Extends p /\ d ∈ dom byName.

Definition deps_first (l : list string) : Prop :=
  forall x d, x ∈ l -> extends x d -> before l d x.

(** Marked names whose call has not returned yet. *)
Definition open st x : Prop := x ∈ visited st /\ x ∈ dom byName /\ x ∉ order st.

Section Acyclic.
Context (rank : string -> nat).
Hypothesis Hrank : forall n d, extends n d -> rank d < rank n.

(** Everything in [order] is marked. *)
Definition order_visited st : Prop := forall x, x ∈ order st -> x ∈ visited st.

(** After a call: dependencies first, the same calls still open, nothing
    lost from [order], and the name itself in [order]. *)
Definition topo_post st st' n : Prop :=
  deps_first (order st') /\ (forall x, open st' x <-> open st x) /\
  (forall x, x ∈ order st -> x ∈ order st') /\ (n ∈ dom byName -> n ∈ order st') /\
  order_visited st'.

Definition visit_ok fuel : Prop :=
  forall n st st', visit byName fuel n st = Some st' ->
  deps_first (order st) -> (forall x, open st x -> rank n < rank x) ->
  order_visited st -> topo_post st st' n.

(** The loop over the dependencies of [n], whose open calls all have at
    least the rank of [n]. *)
Lemma visit_deps_topo fuel n deps s s' :
  visit_ok fuel -> (forall d, d ∈ deps -> d ∈ dom byName -> extends n d) ->
  visit_deps byName fuel deps (Some s) = Some s' ->
  deps_first (order s) -> (forall x, open s x -> rank n <= rank x) -> order_visited s ->
  deps_first (order s') /\ (forall x, open s' x <-> open s x) /\
  (forall x, x ∈ order s -> x ∈ order s') /\
  (forall d, d ∈ deps -> d ∈ dom byName -> d ∈ order s') /\ order_visited s'.
Proof.
  intros IH. revert s. induction deps as [|d deps IHd]; intros s Hext Hv Hs Ho Hsv.
  { simpl in Hv. injection Hv as <-. split_and!; auto. intros d Hd. by apply elem_of_nil in Hd. }
  simpl in Hv. destruct (byName !! d) as [q|] eqn:Hq.
  - assert (Hdd : d ∈ dom byName) by by eapply elem_of_dom_2.
    destruct (visit byName fuel d s) as [s1|] eqn:Hv1;
      [|simpl in Hv; by rewrite visit_deps_None in Hv].
    assert (rank d < rank n) by (apply Hrank, Hext; [left|done]).
    destruct (IH d s s1 Hv1) as (? & Ho1 & Hm1 & Hd1 & ?); auto.
    { intros x ?%Ho. lia. }
    destruct (IHd s1) as (? & Ho2 & Hm2 & Hd2 & ?); auto.
    { intros; apply Hext; [by right|done]. }
    { intros x Hx%Ho1. auto. }
    split_and!; auto.
    + intros x. by rewrite Ho2.
    + intros x [->|Hx]%elem_of_cons Hxd; auto.
  - destruct (IHd s) as (? & ? & ? & Hin & ?); auto; [intros; apply Hext; [by right|done]|].
    split_and!; auto. intros x [->|Hx]%elem_of_cons Hxd; [|by auto].
    by apply elem_of_dom in Hxd as [? ?]; congruence.
Qed.

Lemma visit_topo fuel : visit_ok fuel.
Proof.
  induction fuel as [|fuel IH]; intros n st st'; [done|]. simpl. case_decide as Hn.
  { intros [= <-] Hdf Hop Hov. split_and!; auto. intros Hd.
    destruct (decide (n ∈ order st)); [done|]. exfalso.
    assert (open st n) as ?%Hop by done. lia. }
  set (st1 := {| visited := {[n]} ∪ visited st; order := order st |}).
  destruct (byName !! n) as [p|] eqn:Hp.
  2:{ intros [= <-] Hdf Hop Hov. assert (n ∉ dom byName) by by apply not_elem_of_dom.
      split_and!; [done| |done|done|].
      - intros x. unfold open. simpl. set_solver.
      - intros x Hx%Hov. simpl. set_solver. }
  intros (st2 & Hdeps & [= <-])%bind_Some Hdf Hop Hov.
  assert (Hnd : n ∈ dom byName) by by eapply elem_of_dom_2.
  destruct (visit_deps_topo fuel n (rp_Extends p) st1 st2) as (Hdf2 & Ho2 & Hm2 & Hd2 & Hov2); auto.
  { intros d ??. by exists p. }
  { intros x (Hx & Hxd & Hxo). simpl in *. destruct (decide (x = n)) as [->|]; [done|].
    assert (open st x) as ?%Hop by (split_and!; set_solver). lia. }
  { intros x ?%Hov. simpl. set_solver. }
  assert (open st1 n) as Hn2%Ho2 by (split_and!; simpl; [set_solver|done|auto]).
  assert (Hopen : forall x, open st1 x <-> open st x \/ x = n).
  { intros x. unfold open. simpl. destruct (decide (x = n)) as [->|]; set_solver. }
  split_and!; simpl.
  - intros x d [Hx|Hx]%elem_of_app Hxd; [by apply before_app_l, Hdf2|].
    apply list_elem_of_singleton in Hx as ->. apply before_snoc.
    destruct Hxd as (q & Hq & ? & ?). simplify_eq. auto.
  - intros x. transitivity (open st2 x /\ x <> n).
    + unfold open. simpl. rewrite elem_of_app, list_elem_of_singleton. tauto.
    + rewrite Ho2, Hopen. split; [tauto|]. intros Hx. split; [tauto|].
      intros ->. by destruct Hx.
  - intros x Hx. apply elem_of_app. auto.
  - intros _. apply elem_of_app. right. by left.
  - intros x [Hx%Hov2|Hx]%elem_of_app; [done|].
    apply list_elem_of_singleton in Hx as ->. by destruct Hn2.
Qed.

Lemma visit_all_topo fuel names st st' :
  foldl (fun acc n => acc ≫= visit byName fuel n) (Some st) names = Some st' ->
  deps_first (order st) -> (forall x, ~ open st x) -> order_visited st ->
  deps_first (order st').
Proof.
  revert st. induction names as [|n names IH]; intros st Hf Hdf Hop Hov; simpl in Hf; [by simplify_eq|].
  destruct (visit byName fuel n st) as [st1|] eqn:Hv.
  - destruct (visit_topo fuel n st st1 Hv Hdf) as (? & Ho & _ & _ & ?); [intros x Hx; by destruct (Hop x)|done|].
    eapply IH; eauto. intros x. by rewrite Ho.
  - assert (forall l, foldl (fun acc n => acc ≫= visit byName fuel n) None l = None) as HN by by induction l.
    by rewrite HN in Hf.
Qed.

Lemma walk_order_topo names : deps_first (walk_order byName names).
Proof.
  unfold walk_order. destruct (walk_order_total names) as (st & E & _). rewrite E.
  apply visit_all_topo in E; [done| | |].
  - intros x d Hx. by apply elem_of_nil in Hx.
  - intros x (Hx & _). simpl in Hx. set_solver.
  - intros x Hx. by apply elem_of_nil in Hx.
Qed.
End Acyclic.
End WalkFacts.

(** ** Correctness of the merge *)

Lemma index_by_name_dom packs n : n ∈ dom (index_by_name packs) <-> n ∈ map rp_Name packs.
Proof.
  unfold index_by_name. induction packs as [|p packs IH] using rev_ind.
  - set_solver.
  - rewrite foldl_snoc, dom_insert_L, map_app. set_solver.
Qed.

Lemma index_by_name_lookup packs n p :
  NoDup (map rp_Name packs) ->
  index_by_name packs !! n = Some p <-> p ∈ packs /\ rp_Name p = n.
Proof.
  unfold index_by_name. induction packs as [|q packs IH] using rev_ind; intros Hnd; [set_solver|].
  rewrite map_app in Hnd. apply NoDup_app in Hnd as (Hnd & Hq & _). specialize (IH Hnd).
  rewrite foldl_snoc, lookup_insert, elem_of_app, list_elem_of_singleton. case_decide as Hn; subst.
  - split; [intros [= <-]; auto|]. intros [[Hp| ->] E]; [|done]. exfalso.
    apply (Hq (rp_Name p)); [by apply list_elem_of_fmap; eauto|]. rewrite E. by left.
  - rewrite IH. naive_solver.
Qed.

Lemma index_by_name_proper packs1 packs2 :
  NoDup (map rp_Name packs1) -> packs1 ≡ₚ packs2 -> index_by_name packs1 = index_by_name packs2.
Proof.
  intros Hnd Hp. assert (Hnd2 : NoDup (map rp_Name packs2)) by by rewrite <- Hp.
  apply map_eq. intros n. apply option_eq. intros p.
  by rewrite !index_by_name_lookup, Hp.
Qed.

(** A rule map keeps every rule under its own id. *)
Definition keyed (m : gmap string Rule) : Prop := map_Forall (fun id r => r_ID r = id) m.

Lemma apply_override_ID r ov : r_ID (apply_override r ov) = r_ID r.
Proof. unfold apply_override. by repeat case_match. Qed.

Lemma override_step_lookup m ov id :
  override_step m ov !! id =
  if decide (ov_RuleID ov = id) then (fun r => apply_override r ov) <$> m !! id else m !! id.
Proof.
  unfold override_step. case_decide as E; subst.
  - destruct (m !! ov_RuleID ov) eqn:Hm; simpl; [by rewrite lookup_insert_eq|done].
  - destruct (m !! ov_RuleID ov); [by rewrite lookup_insert_ne|done].
Qed.

(** The override pass acts on each rule separately. *)
Lemma foldl_override_lookup ovs m id :
  foldl override_step m ovs !! id =
  (fun r => foldl apply_override r (filter (fun ov => ov_RuleID ov = id) ovs)) <$> m !! id.
Proof.
  revert m. induction ovs as [|ov ovs IH]; intros m; simpl.
  - by destruct (m !! id).
  - rewrite IH, override_step_lookup, filter_cons. case_decide; [|done].
    by destruct (m !! id).
Qed.

Lemma foldl_override_ID ovs r : r_ID (foldl apply_override r ovs) = r_ID r.
Proof. revert r. induction ovs as [|ov ovs IH]; intros r; simpl; [done|]. by rewrite IH, apply_override_ID. Qed.

(** Later definitions replace earlier ones. *)
Lemma foldl_insert_rules rs id :
  foldl (fun m r => <[r_ID r := r]> m) (∅ : gmap string Rule) rs !! id =
  last (filter (fun r => r_ID r = id) rs).
Proof.
  induction rs as [|r rs IH] using rev_ind; [done|].
  rewrite foldl_snoc, filter_app, filter_cons, filter_nil, lookup_insert.
  case_decide; [by rewrite last_snoc|]. by rewrite app_nil_r, IH.
Qed.

(** *** What the merge promises

    The rule a merged set gives to an id: its last definition in processing
    order, with every override of that id applied in processing order. *)
Definition effective (byName : gmap string RulePack) (ord : list string) (id : string) :
    option Rule :=
  (fun r => foldl apply_override r
              (filter (fun ov => ov_RuleID ov = id) (flat_map (overrides_of byName) ord)))
  <$> last (filter (fun r => r_ID r = id) (flat_map (rules_of byName) ord)).

Lemma merged_lookup byName ord id :
  apply_overrides byName ord (merge_rules byName ord) !! id = effective byName ord id.
Proof.
  unfold apply_overrides, merge_rules, effective.
  by rewrite foldl_override_lookup, foldl_insert_rules.
Qed.

Lemma effective_ID byName ord id r : effective byName ord id = Some r -> r_ID r = id.
Proof.
  unfold effective. intros (r' & Hl & ->)%fmap_Some. rewrite foldl_override_ID.
  apply last_Some in Hl as [l Hl]. assert (r' ∈ filter (fun r => r_ID r = id) (flat_map (rules_of byName) ord)) as Hr.
  { rewrite Hl. apply elem_of_app. right. by left. }
  by apply list_elem_of_filter in Hr as [? _].
Qed.

Lemma merged_keyed byName ord : keyed (apply_overrides byName ord (merge_rules byName ord)).
Proof. intros id r. rewrite merged_lookup. apply effective_ID. Qed.

Lemma materialize_ids m :
  keyed m ->
  map r_ID (materialize m) =
  sort_strings (map_to_list (filter (fun kv => rule_disabled kv.2 = false) m)).*1.
Proof.
  intros Hk. unfold materialize. set (ids := sort_strings _).
  assert (Hin : forall id, id ∈ ids -> is_Some (m !! id)).
  { intros id Hid. unfold ids in Hid. rewrite elem_of_sort_strings in Hid.
    apply list_elem_of_fmap in Hid as ([k r] & -> & Hkr%elem_of_map_to_list).
    apply map_lookup_filter_Some in Hkr as [? _]. eauto. }
  clearbody ids. induction ids as [|id ids IH]; [done|]. simpl.
  destruct (Hin id) as [r Hr]; [by left|]. rewrite Hr. simpl.
  f_equal; [by apply Hk|]. apply IH. intros. apply Hin. by right.
Qed.

Lemma elem_of_materialize m r :
  keyed m -> r ∈ materialize m <-> m !! r_ID r = Some r /\ rule_disabled r = false.
Proof.
  intros Hk. unfold materialize. rewrite list_elem_of_omap. setoid_rewrite elem_of_sort_strings.
  setoid_rewrite list_elem_of_fmap. split.
  - intros (id & ([k r'] & -> & Hkr%elem_of_map_to_list) & Hr). simpl in *.
    apply map_lookup_filter_Some in Hkr as [Hm Hd]. simplify_eq. by rewrite (Hk _ _ Hm).
  - intros [Hm Hd]. exists (r_ID r). split; [|done]. exists (r_ID r, r). split; [done|].
    by apply elem_of_map_to_list, map_lookup_filter_Some.
Qed.

(** The processing order of [MergePacks]. *)
Definition merge_order (packs : list RulePack) : list string :=
  walk_order (index_by_name packs) (sort_strings (map rp_Name packs)).

Lemma merge_names_dom packs n :
  n ∈ sort_strings (map rp_Name packs) <-> n ∈ dom (index_by_name packs).
Proof. by rewrite elem_of_sort_strings, index_by_name_dom. Qed.

Lemma MergePacks_sorted packs : StronglySorted str_lt (map r_ID (MergePacks packs)).
Proof.
  unfold MergePacks. rewrite materialize_ids by apply merged_keyed.
  apply sort_strings_NoDup_lt, NoDup_fst_map_to_list.
Qed.

Lemma MergePacks_NoDup packs : NoDup (map r_ID (MergePacks packs)).
Proof.
  induction (MergePacks_sorted packs) as [|x l _ IH Hx]; constructor; [|done].
  intros Hin. rewrite Forall_forall in Hx. destruct (Hx x Hin) as [_ Hne]. done.
Qed.

(** C31. [MergePacks] returns exactly the enabled rules that the packs give to
    their ids: a rule is in the result if and only if it is the last
    definition of its id in processing order with every override of that id
    applied, and it is not disabled; the result is sorted by id, strictly, so
    no id occurs twice. *)
Theorem MergePacks_correct packs :
  (forall r, r ∈ MergePacks packs <->
     effective (index_by_name packs) (merge_order packs) (r_ID r) = Some r /\
     rule_disabled r = false) /\
  StronglySorted str_lt (map r_ID (MergePacks packs)).
Proof.
  unfold MergePacks. fold (merge_order packs). split.
  - intros r. rewrite elem_of_materialize by apply merged_keyed. by rewrite merged_lookup.
  - apply MergePacks_sorted.
Qed.

(** The processing order holds every pack once, whatever cycles [Extends]
    has; and when [Extends] has no cycle (some rank decreases along it) every
    pack comes after all the packs it extends. *)
Theorem merge_order_topological packs (rank : string -> nat) :
  (forall n d, extends (index_by_name packs) n d -> rank d < rank n) ->
  NoDup (merge_order packs) /\
  (forall n, n ∈ merge_order packs <-> n ∈ map rp_Name packs) /\
  (forall n d, extends (index_by_name packs) n d -> before (merge_order packs) d n).
Proof.
  intros Hrank. unfold merge_order.
  assert (Hin : forall n, n ∈ walk_order (index_by_name packs) (sort_strings (map rp_Name packs))
                  <-> n ∈ map rp_Name packs).
  { intros n. rewrite elem_of_walk_order; [by rewrite elem_of_sort_strings|..];
      intros m; by rewrite merge_names_dom. }
  split_and!; [apply walk_order_NoDup|done|]. intros n d Hnd.
  apply (walk_order_topo (index_by_name packs) rank); [done| |done].
  apply Hin, index_by_name_dom, elem_of_dom. destruct Hnd as (p & ? & _). eauto.
Qed.

(** Three packs, [c] extending [b] extending [a], given in another order. *)
Definition demo_packs : list RulePack :=
  [pack0 "b" ["a"] [rule0 "r1"; rule0 "r2"]; pack0 "c" ["b"; "missing"] [rule0 "r2"];
   pack0 "a" [] [rule0 "r3"; rule0 "r1"]].

Definition demo_rank (n : string) : nat :=
  if decide (n = "c") then 2 else if decide (n = "b") then 1 else 0.

Lemma merge_order_topological_witness :
  merge_order demo_packs = ["a"; "b"; "c"] /\ before (merge_order demo_packs) "a" "b".
Proof.
  split; [reflexivity|].
  apply (merge_order_topological demo_packs demo_rank).
  - intros n d (p & Hp & Hd & _).
    apply (index_by_name_lookup demo_packs) in Hp as [Hp <-]; [|by repeat constructor; set_solver].
    unfold demo_packs in Hp. rewrite !elem_of_cons, elem_of_nil in Hp.
    destruct Hp as [E|[E|[E|[]]]]; subst p; simpl in Hd.
    + apply list_elem_of_singleton in Hd as ->. vm_compute. lia.
    + rewrite !elem_of_cons, elem_of_nil in Hd. destruct Hd as [E|[E|[]]]; subst d; vm_compute; lia.
    + by apply elem_of_nil in Hd.
  - exists (pack0 "b" ["a"] [rule0 "r1"; rule0 "r2"]). split_and!; [reflexivity|left|].
    apply index_by_name_dom. vm_compute. set_solver.
Defined.

(** [MergePacks] does not depend on the order in which the packs are
    given, as long as their names differ. *)
Theorem MergePacks_deterministic packs1 packs2 :
  NoDup (map rp_Name packs1) -> packs1 ≡ₚ packs2 -> MergePacks packs1 = MergePacks packs2.
Proof.
  intros Hnd Hp. unfold MergePacks. rewrite (index_by_name_proper _ _ Hnd Hp).
  by rewrite (sort_strings_proper (map rp_Name packs1) (map rp_Name packs2)) by by rewrite Hp.
Qed.

Lemma MergePacks_deterministic_witness :
  MergePacks demo_packs = MergePacks (rev demo_packs) /\
  map r_ID (MergePacks demo_packs) = ["r1"; "r2"; "r3"].
Proof.
  split; [|reflexivity]. apply MergePacks_deterministic.
  - by repeat constructor; set_solver.
  - apply Permutation_rev.
Defined.

(** ** Correctness of the priority merge *)

Lemma first_wins_app rs r :
  foldl first_wins_step (∅, []) (rs ++ [r]) =
  first_wins_step (foldl first_wins_step (∅, []) rs) r.
Proof. apply foldl_snoc. Qed.

Lemma first_wins_inv rs :
  let acc := foldl first_wins_step (∅, []) rs in
  (forall id, id ∈ acc.1 <-> id ∈ map r_ID rs) /\
  acc.2 `sublist_of` rs /\ NoDup (map r_ID acc.2) /\
  (forall r, r ∈ acc.2 <-> head (filter (fun x => r_ID x = r_ID r) rs) = Some r).
Proof.
  induction rs as [|r rs IH] using rev_ind; simpl.
  { split_and!; [set_solver|constructor|constructor|set_solver]. }
  rewrite first_wins_app. destruct (foldl first_wins_step (∅, []) rs) as [seen out].
  simpl in *. destruct IH as (Hseen & Hsub & Hnd & Hin).
  assert (Hhead : forall x, head (filter (fun y => r_ID y = r_ID x) (rs ++ [r])) =
     match head (filter (fun y => r_ID y = r_ID x) rs) with
     | Some y => Some y
     | None => if decide (r_ID r = r_ID x) then Some r else None
     end).
  { intros x. rewrite filter_app, filter_cons, filter_nil.
    destruct (filter _ rs); simpl; [by case_decide|done]. }
  assert (Hnone : forall x, head (filter (fun y => r_ID y = r_ID x) rs) = None <-> r_ID x ∉ seen).
  { intros x. rewrite Hseen, list_elem_of_fmap. destruct (filter _ rs) as [|y l] eqn:E; simpl.
    - split; [|done]. intros _ (y & Ey & Hy).
      assert (y ∈ filter (fun z => r_ID z = r_ID x) rs) as Hy' by by apply list_elem_of_filter.
      rewrite E in Hy'. by apply elem_of_nil in Hy'.
    - split; [done|]. intros Hn. exfalso. apply Hn.
      assert (y ∈ filter (fun z => r_ID z = r_ID x) rs) as Hy by (rewrite E; left).
      apply list_elem_of_filter in Hy as [<- Hy]. eauto. }
  unfold first_wins_step. simpl. case_decide as Hr; simpl.
  - split_and!; [|by apply sublist_inserts_r|done|].
    + intros id. rewrite map_app. simpl. rewrite elem_of_app, <- Hseen, list_elem_of_singleton. naive_solver.
    + intros x. rewrite Hhead, Hin. destruct (head _) eqn:E; [done|].
      case_decide as E'; [|done]. apply Hnone in E. by rewrite <- E' in E.
  - split_and!.
    + intros id. rewrite map_app. simpl. rewrite elem_of_app, <- Hseen, list_elem_of_singleton. set_solver.
    + by apply sublist_app.
    + rewrite map_app. simpl. apply NoDup_app. split_and!; [done| |apply NoDup_singleton].
      intros id (y & -> & Hy)%list_elem_of_fmap. rewrite list_elem_of_singleton. intros E.
      apply Hr. rewrite <- E. apply Hseen. apply list_elem_of_fmap. exists y. split; [done|].
      by eapply elem_of_sublist.
    + intros x. rewrite Hhead, elem_of_app, Hin, list_elem_of_singleton.
      destruct (head (filter _ rs)) eqn:E.
      * split; [intros [?| ->]; [done|]|auto]. exfalso.
        apply Hr. destruct (decide (r_ID r ∈ seen)) as [|Hn]; [done|]. apply Hnone in Hn. congruence.
      * split; [intros [?| ->]; [done|by rewrite decide_True]|].
        case_decide; [|done]. intros [= <-]. auto.
Qed.

Lemma override_rule_eq ovs r :
  override_rule ovs r = foldl apply_override r (filter (fun ov => ov_RuleID ov = r_ID r) ovs).
Proof.
  unfold override_rule. revert r. induction ovs as [|ov ovs IH]; intros r; simpl; [done|].
  rewrite filter_cons. case_decide as E; case_decide as E'; try congruence; rewrite IH; [|done].
  by rewrite apply_override_ID.
Qed.

Lemma override_rule_app ovs1 ovs2 r :
  override_rule (ovs1 ++ ovs2) r = override_rule ovs2 (override_rule ovs1 r).
Proof. unfold override_rule. apply foldl_app. Qed.

Lemma override_passes byName ord out :
  foldl (fun out n => map (override_rule (overrides_of byName n)) out) out ord =
  map (override_rule (flat_map (overrides_of byName) ord)) out.
Proof.
  revert out. induction ord as [|n ord IH]; intros out; simpl.
  - by rewrite map_id.
  - rewrite IH, map_map. apply map_ext. intros r. by rewrite override_rule_app.
Qed.

(** The processing order of [MergePacksPriorityOrder]. *)
Definition priority_order (packs : list RulePack) : list string :=
  walk_order (index_by_name (sort_packs packs)) (map rp_Name (sort_packs packs)).

Lemma override_rule_ID ovs r : r_ID (override_rule ovs r) = r_ID r.
Proof. rewrite override_rule_eq. apply foldl_override_ID. Qed.

(** The rules and the overrides in processing order. *)
Definition priority_rules (packs : list RulePack) : list Rule :=
  flat_map (rules_of (index_by_name (sort_packs packs))) (priority_order packs).
Definition priority_overrides (packs : list RulePack) : list Override :=
  flat_map (overrides_of (index_by_name (sort_packs packs))) (priority_order packs).

Lemma MergePacksPriorityOrder_eq packs :
  MergePacksPriorityOrder packs =
  filter (fun r => rule_disabled r = false)
    (map (override_rule (priority_overrides packs)) (first_wins (priority_rules packs))).
Proof. unfold MergePacksPriorityOrder. by rewrite override_passes. Qed.

Lemma elem_of_priority_merge packs r :
  r ∈ MergePacksPriorityOrder packs <->
  rule_disabled r = false /\
  exists r0, head (filter (fun x => r_ID x = r_ID r) (priority_rules packs)) = Some r0 /\
    r = foldl apply_override r0
          (filter (fun ov => ov_RuleID ov = r_ID r) (priority_overrides packs)).
Proof.
  destruct (first_wins_inv (priority_rules packs)) as (_ & _ & _ & Hin).
  fold (first_wins (priority_rules packs)) in Hin.
  rewrite MergePacksPriorityOrder_eq, list_elem_of_filter. apply and_iff_compat_l.
  rewrite list_elem_of_fmap. split.
  - intros (r0 & -> & Hr0). exists r0. rewrite override_rule_ID, <- override_rule_eq.
    by apply Hin in Hr0.
  - intros (r0 & Hh & Hr).
    assert (r_ID r0 = r_ID r) as E by by rewrite Hr, foldl_override_ID.
    exists r0. rewrite override_rule_eq, E. split; [done|]. by rewrite Hin, E.
Qed.

Lemma priority_merge_sublist packs :
  map r_ID (MergePacksPriorityOrder packs) `sublist_of` map r_ID (first_wins (priority_rules packs)).
Proof.
  assert (Hids : map r_ID (map (override_rule (priority_overrides packs))
                   (first_wins (priority_rules packs))) = map r_ID (first_wins (priority_rules packs))).
  { rewrite map_map. apply map_ext. intros r. apply override_rule_ID. }
  rewrite MergePacksPriorityOrder_eq, <- Hids. apply (fmap_sublist r_ID), sublist_filter.
Qed.

Lemma MergePacksPriorityOrder_NoDup packs : NoDup (map r_ID (MergePacksPriorityOrder packs)).
Proof.
  destruct (first_wins_inv (priority_rules packs)) as (_ & _ & Hnd & _).
  eapply sublist_NoDup; [exact Hnd|]. apply priority_merge_sublist.
Qed.

(** The priority merge is first-wins: a rule is in the result if and only
    if it is the first definition of its id in processing order, with every
    override of that id applied, and is not disabled.  No id occurs twice and
    the rules keep their processing order. *)
Theorem MergePacksPriorityOrder_first_wins packs :
  (forall r, r ∈ MergePacksPriorityOrder packs <->
     rule_disabled r = false /\
     exists r0, head (filter (fun x => r_ID x = r_ID r) (priority_rules packs)) = Some r0 /\
       r = foldl apply_override r0
             (filter (fun ov => ov_RuleID ov = r_ID r) (priority_overrides packs))) /\
  NoDup (map r_ID (MergePacksPriorityOrder packs)) /\
  map r_ID (MergePacksPriorityOrder packs) `sublist_of` map r_ID (priority_rules packs).
Proof.
  split_and!.
  - intros r. apply elem_of_priority_merge.
  - apply MergePacksPriorityOrder_NoDup.
  - etrans; [apply priority_merge_sublist|].
    apply (fmap_sublist r_ID). apply (first_wins_inv (priority_rules packs)).
Qed.

(** *** Priorities decide when no pack extends another *)

#[export] Instance pack_le_total : Total pack_le.
Proof.
  intros p q. unfold pack_le. destruct (total str_le (rp_Name p) (rp_Name q));
    destruct (Z.lt_total (getPriority p) (getPriority q)) as [?|[?|?]]; intuition.
Qed.

#[export] Instance pack_le_trans : Transitive pack_le.
Proof.
  intros p q r [H1|[H1 H1']] [H2|[H2 H2']]; unfold pack_le; [left; lia..|].
  right. split; [lia|by etrans].
Qed.

Lemma sort_packs_perm packs : sort_packs packs ≡ₚ packs.
Proof. apply merge_sort_Permutation. Qed.

Lemma sort_packs_sorted packs : StronglySorted pack_le (sort_packs packs).
Proof. apply StronglySorted_merge_sort; apply _. Qed.

Lemma visit_all_no_extends byName fuel names st :
  (forall n p, byName !! n = Some p -> rp_Extends p = []) ->
  NoDup names -> (forall n, n ∈ names -> n ∉ visited st /\ n ∈ dom byName) ->
  exists st', foldl (fun acc n => acc ≫= visit byName (S fuel) n) (Some st) names = Some st' /\
    order st' = order st ++ names.
Proof.
  intros Hne. revert st. induction names as [|n names IH]; intros st Hnd Hin.
  { exists st. by rewrite app_nil_r. }
  apply NoDup_cons in Hnd as [Hn Hnd]. destruct (Hin n) as [Hv [p Hp]%elem_of_dom]; [by left|].
  cbn [foldl mbind option_bind]. simpl. rewrite decide_False by done. rewrite Hp, (Hne _ _ Hp). simpl.
  destruct (IH {| visited := {[n]} ∪ visited st; order := order st ++ [n] |}) as (st' & E & Ho).
  - done.
  - intros m Hm. destruct (Hin m); [by right|]. simpl. split; [set_solver|done].
  - exists st'. simpl in E. rewrite E, Ho. simpl. by rewrite <- app_assoc.
Qed.

Lemma flat_map_names (m : gmap string RulePack) l :
  (forall p, p ∈ l -> m !! rp_Name p = Some p) ->
  flat_map (rules_of m) (map rp_Name l) = flat_map rp_Rules l.
Proof.
  induction l as [|p l IH]; intros Hm; simpl; [done|].
  rewrite IH by (intros; apply Hm; by right). f_equal.
  unfold rules_of. by rewrite (Hm p) by by left.
Qed.

Lemma priority_rules_no_extends packs :
  NoDup (map rp_Name packs) -> Forall (fun p => rp_Extends p = []) packs ->
  priority_rules packs = flat_map rp_Rules (sort_packs packs).
Proof.
  intros Hnd Hne. unfold priority_rules, priority_order.
  assert (Hnd' : NoDup (map rp_Name (sort_packs packs))) by by rewrite sort_packs_perm.
  assert (HL : forall n p, index_by_name (sort_packs packs) !! n = Some p <->
                 p ∈ sort_packs packs /\ rp_Name p = n) by (intros; by apply index_by_name_lookup).
  assert (Ho : walk_order (index_by_name (sort_packs packs)) (map rp_Name (sort_packs packs)) =
               map rp_Name (sort_packs packs)).
  { unfold walk_order, visit_all.
    edestruct (visit_all_no_extends (index_by_name (sort_packs packs))) as (st' & -> & ->); [..|done].
    - intros n p [Hp _]%HL. rewrite sort_packs_perm in Hp. rewrite Forall_forall in Hne. auto.
    - done.
    - intros n Hn. simpl. split; [set_solver|]. by apply index_by_name_dom. }
  rewrite Ho. clear Ho Hnd'. revert HL. generalize (index_by_name (sort_packs packs)) as m.
  intros m HL. apply flat_map_names. intros p Hp. by apply HL.
Qed.

Lemma index_by_name_in packs n p : index_by_name packs !! n = Some p -> p ∈ packs.
Proof.
  unfold index_by_name. induction packs as [|q packs IH] using rev_ind; [done|].
  rewrite foldl_snoc, lookup_insert_Some, elem_of_app, list_elem_of_singleton. naive_solver.
Qed.

Lemma priority_overrides_nil packs :
  Forall (fun p => rp_Overrides p = []) packs -> priority_overrides packs = [].
Proof.
  intros Hno. unfold priority_overrides. induction (priority_order packs) as [|n l IH]; simpl; [done|].
  rewrite IH, app_nil_r. unfold overrides_of.
  destruct (index_by_name (sort_packs packs) !! n) as [p|] eqn:E; [|done].
  apply index_by_name_in in E. rewrite sort_packs_perm in E.
  rewrite Forall_forall in Hno. auto.
Qed.

Lemma head_filter_flat_map {A B} (P : B -> Prop) `{!forall b, Decision (P b)} (f : A -> list B) l1 a l2 b :
  (forall a', a' ∈ l1 -> filter P (f a') = []) -> head (filter P (f a)) = Some b ->
  head (filter P (flat_map f (l1 ++ a :: l2))) = Some b.
Proof.
  intros Hl1 Hb. rewrite flat_map_app. simpl. rewrite !filter_app.
  induction l1 as [|a' l1 IH]; simpl.
  - destruct (filter P (f a)); simplify_eq/=. done.
  - rewrite filter_app, (Hl1 a') by by left. apply IH. intros. apply Hl1. by right.
Qed.

Lemma head_filter_NoDup rs r :
  NoDup (map r_ID rs) -> r ∈ rs -> head (filter (fun x => r_ID x = r_ID r) rs) = Some r.
Proof.
  induction rs as [|x rs IH]; simpl; [by intros ? ?%elem_of_nil|].
  intros [Hx Hnd]%NoDup_cons [->|Hr]%elem_of_cons; rewrite filter_cons.
  - by rewrite decide_True.
  - rewrite decide_False; [auto|]. intros E. apply Hx. rewrite E. by apply (list_elem_of_fmap_2 r_ID).
Qed.

(** When no pack extends or overrides another, the priorities decide: a
    rule of a pack is in effect when every other pack that defines its id has
    a strictly smaller priority. *)
Theorem priority_highest_wins packs p r :
  NoDup (map rp_Name packs) ->
  Forall (fun q => rp_Extends q = []) packs -> Forall (fun q => rp_Overrides q = []) packs ->
  p ∈ packs -> r ∈ rp_Rules p -> NoDup (map r_ID (rp_Rules p)) -> rule_disabled r = false ->
  (forall q, q ∈ packs -> q <> p -> r_ID r ∈ map r_ID (rp_Rules q) -> (getPriority q < getPriority p)%Z) ->
  r ∈ MergePacksPriorityOrder packs.
Proof.
  intros Hnd Hne Hno Hp Hr Hids Hen Hprio. apply elem_of_priority_merge. split; [done|].
  exists r. rewrite priority_overrides_nil, priority_rules_no_extends by done. split; [|done].
  pose proof (sort_packs_sorted packs) as Hs.
  assert (Hin : forall q, q ∈ sort_packs packs <-> q ∈ packs) by (intros; by rewrite sort_packs_perm).
  assert (Hnd' : NoDup (map rp_Name (sort_packs packs))) by by rewrite sort_packs_perm.
  apply Hin, list_elem_of_split in Hp as (l1 & l2 & E). rewrite E in *.
  apply head_filter_flat_map; [|by apply head_filter_NoDup].
  intros q Hq. destruct (filter _ (rp_Rules q)) as [|x l] eqn:Ef; [done|exfalso].
  assert (x ∈ rp_Rules q /\ r_ID x = r_ID r) as [Hx Ex].
  { assert (x ∈ filter (fun x => r_ID x = r_ID r) (rp_Rules q)) as Hx by (rewrite Ef; left).
    by apply list_elem_of_filter in Hx as [??]. }
  rewrite map_app in Hnd'. apply NoDup_app in Hnd' as (_ & Hdisj & _).
  assert (getPriority q < getPriority p)%Z as Hlt.
  { apply Hprio.
    - apply Hin, elem_of_app. auto.
    - intros ->. apply (Hdisj (rp_Name p)); [by apply (list_elem_of_fmap_2 rp_Name)|left].
    - rewrite <- Ex. by apply (list_elem_of_fmap_2 r_ID). }
  apply StronglySorted_app in Hs as (Hs & _). destruct (Hs q p); [done|left|lia..].
Qed.

(** Two packs that define the same id, the second with the larger priority. *)
Definition prioritised (name sev : string) (prio : Z) : RulePack :=
  {| rp_APIVersion := ""; rp_Kind := ""; rp_Metadata := metadata0 name;
     rp_Rules := [set_Severity (rule0 "r") sev]; rp_Extends := []; rp_Imports := [];
     rp_Composition := Some {| comp_Strategy := ""; comp_Priority := prio |};
     rp_Performance := None; rp_Overrides := []; rp_Context := ∅; rp_SourcePath := "" |}.

Lemma priority_highest_wins_witness :
  set_Severity (rule0 "r") "high" ∈
    MergePacksPriorityOrder [prioritised "a" "low" 1; prioritised "b" "high" 2].
Proof.
  apply (priority_highest_wins _ (prioritised "b" "high" 2)).
  - by repeat constructor; set_solver.
  - by repeat constructor.
  - by repeat constructor.
  - set_solver.
  - set_solver.
  - by repeat constructor; set_solver.
  - reflexivity.
  - intros q [->|[->|[]%elem_of_nil]%elem_of_cons]%elem_of_cons Hq _; [vm_compute; reflexivity|done].
Defined.
