(* ===== verification/Verifiers.v ===== *)
(** * Verifiers: the checksum and structure checks of internal/scanner

    The functions of src/internal/scanner/verifiers.go.  A match of a
    pattern with a [verifier] is reported only when its check accepts the
    matched text.  The Go loops range over the code points of the string
    ([runes]); the theorems relate each loop to the standard the check
    implements: the Luhn formula, the structure of a Social Security Number,
    the ISO 13616 mod-97 test and the shape of an email address. *)

From Stdlib Require Import Ascii String.
From S2P Require Import Prelude GoString Unicode.
Local Open Scope Z_scope.

(** ** LuhnCheck *)

(** The digits the loop collects: [int(r-'0')] for every [unicode.IsDigit]. *)
Definition digits_of (s : string) : list Z :=
  map (fun r => r - 48) (filter (fun r => unicode_IsDigit r = true) (runes s)).

(** One turn of the checksum loop, on [(sum, alt)]. *)
Definition luhn_step (st : Z * bool) (d : Z) : Z * bool :=
  let '(sum, alt) := st in
  let d := if alt then (let d2 := d * 2 in if 9 <? d2 then d2 - 9 else d2) else d in
  (sum + d, negb alt).

(** The loop runs from the last digit to the first. *)
Definition luhn_sum (ds : list Z) : Z := (foldl luhn_step (0, false) (rev ds)).1.

Definition LuhnCheck (s : string) : bool :=
  let digits := digits_of s in
  if (List.length digits <? 13)%nat || (19 <? List.length digits)%nat then false
  else Z.rem (luhn_sum digits) 10 =? 0.

(** ** SSN checks *)

(** The [range] loop of [SSNAreaValid], on [(n, area)], with its [break]. *)
Fixpoint ssn_area_loop (rs : list Z) (n : nat) (area : Z) : nat * Z :=
  match rs with
  | [] => (n, area)
  | r :: rs =>
    if unicode_IsDigit r then
      let area := area * 10 + (r - 48) in
      if (S n =? 3)%nat then (S n, area) else ssn_area_loop rs (S n) area
    else ssn_area_loop rs n area
  end.

(** [area == 0 || area == 666 || area >= 900]. *)
Definition bad_area (area : Z) : bool := (area =? 0) || (area =? 666) || (900 <=? area).

Definition SSNAreaValid (s : string) : bool :=
  let '(n, area) := ssn_area_loop (runes s) 0 0 in
  if (n <? 3)%nat then false else negb (bad_area area).

(** The [range] loop of [SSNValid]: the digits collected in [d], or [None]
    when a tenth digit makes the function return false. *)
Fixpoint ssn_loop (rs : list Z) (d : list Z) : option (list Z) :=
  match rs with
  | [] => Some d
  | r :: rs =>
    if negb (unicode_IsDigit r) then ssn_loop rs d
    else if (List.length d =? 9)%nat then None
    else ssn_loop rs (d ++ [r - 48])
  end.

Definition SSNValid (s : string) : bool :=
  match ssn_loop (runes s) [] with
  | Some [d0; d1; d2; d3; d4; d5; d6; d7; d8] =>
    let area := d0 * 100 + d1 * 10 + d2 in
    let group := d3 * 10 + d4 in
    let serial := d5 * 1000 + d6 * 100 + d7 * 10 + d8 in
    if bad_area area then false else negb (group =? 0) && negb (serial =? 0)
  | _ => false
  end.

(** ** IBANValid *)

(** The normalisation loop: separators dropped, letters in upper case. *)
Definition iban_normalize (s : string) : list Z :=
  map upper_if_letter
    (filter (fun r => negb ((r =? 32) || (r =? 9) || (r =? 45)) = true) (runes s)).

Definition is_upper_rune (r : Z) : bool := (65 <=? r) && (r <=? 90).

(** The bytes of [itoa2(v)]. *)
Definition itoa2 (v : Z) : list Z := [wrap_u8 (48 + Z.quot v 10); wrap_u8 (48 + Z.rem v 10)].

(** The bytes of [chunk]; [None] is the [return false] of the letter branch. *)
Definition iban_chunk (r : Z) : option (list Z) :=
  if unicode_IsDigit r then Some (encode_rune r)
  else let v := r - 65 + 10 in
       if (v <? 10) || (35 <? v) then None else Some (itoa2 v).

Definition mod97_byte (mod_ b : Z) : Z := Z.rem (mod_ * 10 + wrap_u8 (b - 48)) 97.

(** The mod-97 loop over the rearranged code points. *)
Fixpoint iban_mod (rs : list Z) (mod_ : Z) : option Z :=
  match rs with
  | [] => Some mod_
  | r :: rs =>
    match iban_chunk r with
    | None => None
    | Some chunk => iban_mod rs (foldl mod97_byte mod_ chunk)
    end
  end.

Definition IBANValid (s : string) : bool :=
  let n := iban_normalize s in
  if (List.length n <? 15)%nat || (34 <? List.length n)%nat then false
  else if negb (forallb (fun r => unicode_IsDigit r || is_upper_rune r) n) then false
  else if (List.length n <? 4)%nat then false
  else match iban_mod (drop 4 n ++ take 4 n) 0 with
       | None => false
       | Some m => m =? 1
       end.

(** ** EmailValid *)

Definition is_alnum_byte (c : ascii) : bool :=
  is_upper_byte c || is_lower_byte c || is_digit_byte c.

(** The body of the loop over the labels: false where it returns false. *)
Definition label_ok (lab : string) : bool :=
  if (String.length lab =? 0)%nat || (63 <? String.length lab)%nat then false
  else if bool_decide (String.get 0 lab = Some "-"%char)
       || bool_decide (String.get (String.length lab - 1) lab = Some "-"%char) then false
  else forallb_str (fun c => is_alnum_byte c || bool_decide (c = "-"%char)) lab.

Definition EmailValid (s : string) : bool :=
  let s := TrimSpace s in
  if (String.length s =? 0)%nat || (254 <? String.length s)%nat then false
  else if negb (CountByte "@" s =? 1)%nat then false
  else match CutByte "@" s with
  | None => false
  | Some (local, domain) =>
    if (String.length local =? 0)%nat || (64 <? String.length local)%nat
       || (String.length domain =? 0)%nat then false
    else if negb (Contains domain ".") then false
    else forallb label_ok (SplitByte "." domain)
  end.

(** ** Digits of an ASCII string *)

Lemma IsDigit_ascii r : 0 <= r <= 127 -> unicode_IsDigit r = (48 <=? r) && (r <=? 57).
Proof.
  intros Hr. unfold unicode_IsDigit, digit_ranges. cbn [in_ranges].
  replace (((1632 <=? r) && (r <=? 1641))) with false by lia.
  match goal with |- _ || ?X = _ => replace X with false; [by rewrite orb_false_r|] end.
  simpl. symmetry. repeat (apply orb_false_iff; split; [lia|]). done.
Qed.

Lemma runes_range s : is_ascii_str s = true -> Forall (fun r => 0 <= r <= 127) (runes s).
Proof.
  intros H. rewrite runes_ascii by done. unfold is_ascii_str, MaxASCII in H.
  induction s as [|c s IH]; simpl in *; [constructor|]. bool_cases.
  pose proof (byte_of_range c). constructor; [lia|auto].
Qed.

Lemma runes_app_ascii s t :
  is_ascii_str s = true -> is_ascii_str t = true -> (runes (s +:+ t) = runes s ++ runes t)%list.
Proof.
  intros Hs Ht. rewrite !runes_ascii; [apply bytes_app|done..|].
  by rewrite is_ascii_str_app, Hs, Ht.
Qed.

Definition is_digit_val (d : Z) : Prop := 0 <= d <= 9.

Lemma digits_of_range s : is_ascii_str s = true -> Forall is_digit_val (digits_of s).
Proof.
  intros H%runes_range. unfold digits_of. induction H as [|r rs Hr _ IH]; [constructor|].
  rewrite filter_cons. case_decide as E; [|done]. simpl. constructor; [|done].
  rewrite IsDigit_ascii in E by done. unfold is_digit_val. lia.
Qed.

Lemma digits_of_app s t :
  is_ascii_str s = true -> is_ascii_str t = true -> (digits_of (s +:+ t) = digits_of s ++ digits_of t)%list.
Proof. intros. unfold digits_of. by rewrite runes_app_ascii, filter_app, map_app. Qed.

Lemma is_ascii_digit c : is_digit_byte c = true -> is_ascii_str (String c "") = true.
Proof.
  unfold is_digit_byte, is_ascii_str, MaxASCII. simpl. intros. lia.
Qed.

Lemma digits_of_digit c : is_digit_byte c = true -> digits_of (String c "") = [byte_of c - 48].
Proof.
  intros Hc. unfold digits_of. rewrite runes_ascii by by apply is_ascii_digit. simpl.
  rewrite filter_cons, filter_nil. pose proof (byte_of_range c). unfold is_digit_byte in Hc.
  rewrite decide_True by (rewrite IsDigit_ascii; lia). done.
Qed.

(** ** The Luhn formula *)

(** What one digit adds to the sum, doubled or not. *)
Definition luhn_weight (alt : bool) (d : Z) : Z :=
  if alt then (let d2 := d * 2 in if 9 <? d2 then d2 - 9 else d2) else d.

Fixpoint luhn_total (alt : bool) (l : list Z) : Z :=
  match l with [] => 0 | d :: l => luhn_weight alt d + luhn_total (negb alt) l end.

Lemma luhn_fold l sum alt : (foldl luhn_step (sum, alt) l).1 = sum + luhn_total alt l.
Proof.
  revert sum alt. induction l as [|d l IH]; intros sum alt; simpl; [lia|].
  rewrite IH. unfold luhn_weight. simpl. lia.
Qed.

Lemma luhn_sum_eq ds : luhn_sum ds = luhn_total false (rev ds).
Proof. unfold luhn_sum. by rewrite luhn_fold. Qed.

Lemma luhn_total_app alt l1 l2 :
  luhn_total alt (l1 ++ l2) = luhn_total alt l1 + luhn_total (xorb alt (Nat.odd (List.length l1))) l2.
Proof.
  revert alt. induction l1 as [|d l1 IH]; intros alt; simpl.
  - by rewrite xorb_false_r.
  - rewrite IH, Nat.odd_succ, <- Nat.negb_odd.
    destruct alt, (Nat.odd (List.length l1)); simpl; lia.
Qed.

Lemma luhn_weight_nonneg alt d : is_digit_val d -> 0 <= luhn_weight alt d.
Proof. unfold luhn_weight, is_digit_val. destruct alt; [case_match; lia|lia]. Qed.

Lemma luhn_total_nonneg alt l : Forall is_digit_val l -> 0 <= luhn_total alt l.
Proof.
  intros H. revert alt. induction H as [|d l Hd _ IH]; intros alt; simpl; [lia|].
  pose proof (luhn_weight_nonneg alt d Hd). specialize (IH (negb alt)). lia.
Qed.

(** Doubling with casting out nines permutes the ten digits. *)
Lemma luhn_weight_inj alt d e :
  is_digit_val d -> is_digit_val e ->
  luhn_weight alt d mod 10 = luhn_weight alt e mod 10 -> d = e.
Proof.
  unfold is_digit_val. intros Hd He.
  assert (Hc : forall x, 0 <= x <= 9 ->
    x = 0 \/ x = 1 \/ x = 2 \/ x = 3 \/ x = 4 \/ x = 5 \/ x = 6 \/ x = 7 \/ x = 8 \/ x = 9) by lia.
  apply Hc in Hd. apply Hc in He. clear Hc.
  destruct alt; repeat (destruct Hd as [->|Hd] || subst d);
    repeat (destruct He as [->|He] || subst e); vm_compute; congruence.
Qed.

(** The reference: the digits are numbered from the right, those at odd
    positions are doubled and the decimal digits of everything are added up. *)
Definition decimal_sum (n : Z) : Z := n / 10 + n mod 10.
Fixpoint luhn_reference (from_right : list Z) : Z :=
  match from_right with
  | [] => 0
  | [d] => d
  | d :: e :: l => d + decimal_sum (2 * e) + luhn_reference l
  end.

Lemma luhn_total_reference l : Forall is_digit_val l -> luhn_total false l = luhn_reference l.
Proof.
  induction l as [l IH] using (induction_ltof1 _ (@List.length Z)). unfold ltof in IH.
  destruct l as [|d [|e l]]; intros H; cbn [luhn_total luhn_reference luhn_weight negb]; [lia..|].
  inversion H as [|? ? _ H']; subst. inversion H' as [|? ? He H'']; subst.
  rewrite IH by (simpl; auto with lia).
  unfold decimal_sum, luhn_weight, is_digit_val in *. cbv zeta. case_match.
  - assert (2 * e / 10 = 1) as -> by (symmetry; apply (Z.div_unique _ _ _ (2 * e - 10)); lia).
    rewrite Z.mod_eq by lia.
    assert (2 * e / 10 = 1) as -> by (symmetry; apply (Z.div_unique _ _ _ (2 * e - 10)); lia). lia.
  - rewrite Z.div_small, Z.mod_small by lia. lia.
Qed.

Lemma LuhnCheck_true s :
  is_ascii_str s = true ->
  LuhnCheck s = true <->
  (13 <= List.length (digits_of s) <= 19)%nat /\ luhn_total false (rev (digits_of s)) mod 10 = 0.
Proof.
  intros Hs. unfold LuhnCheck. rewrite luhn_sum_eq.
  pose proof (digits_of_range s Hs) as Hd. apply Forall_rev in Hd.
  apply (luhn_total_nonneg false) in Hd. rewrite Z.rem_mod_nonneg by lia.
  case_match; lia.
Qed.

Lemma cancel_mod10 x y z z' :
  (x + (z + y)) mod 10 = 0 -> (x + (z' + y)) mod 10 = 0 -> z mod 10 = z' mod 10.
Proof.
  intros [k Hk]%Z.mod_divide [k' Hk']%Z.mod_divide; [|done..].
  replace z with (z' + (k - k') * 10) by lia. apply Z.mod_add. lia.
Qed.

(** On an ASCII string [LuhnCheck] is the Luhn formula on the digits the
    string contains: it accepts exactly 13 to 19 digits whose reference sum
    is a multiple of 10. *)
Theorem LuhnCheck_spec s :
  is_ascii_str s = true ->
  LuhnCheck s = true <->
  (13 <= List.length (digits_of s) <= 19)%nat /\ luhn_reference (rev (digits_of s)) mod 10 = 0.
Proof.
  intros Hs. rewrite LuhnCheck_true by done.
  by rewrite luhn_total_reference by (apply Forall_rev, digits_of_range, Hs).
Qed.

Lemma LuhnCheck_spec_witness : luhn_reference (rev (digits_of "4111-1111 11111111")) mod 10 = 0.
Proof. apply (LuhnCheck_spec "4111-1111 11111111"); reflexivity. Defined.

(** The checksum detects every single-digit error: replacing one digit
    of an accepted number, separators or not around it, makes it rejected. *)
Theorem LuhnCheck_detects_substitution a b c d :
  is_ascii_str a = true -> is_ascii_str b = true ->
  is_digit_byte c = true -> is_digit_byte d = true -> c <> d ->
  LuhnCheck (a +:+ String c b) = true -> LuhnCheck (a +:+ String d b) = false.
Proof.
  intros Ha Hb Hc Hd Hne Hok.
  assert (Hasc : forall x, is_digit_byte x = true -> is_ascii_str (a +:+ String x b) = true).
  { intros x Hx. change (String x b) with (String x "" +:+ b).
    by rewrite !is_ascii_str_app, Ha, Hb, is_ascii_digit. }
  assert (Hdig : forall x, is_digit_byte x = true ->
    (digits_of (a +:+ String x b) = digits_of a ++ (byte_of x - 48) :: digits_of b)%list).
  { intros x Hx. change (String x b) with (String x "" +:+ b).
    rewrite digits_of_app, digits_of_app, digits_of_digit; rewrite ?is_ascii_str_app, ?is_ascii_digit; auto. }
  apply not_true_is_false. intros Hok'.
  apply LuhnCheck_true in Hok as [_ Hok], Hok' as [_ Hok']; [|by auto..].
  rewrite Hdig, rev_app_distr in Hok, Hok' by done. simpl in Hok, Hok'.
  rewrite <- app_assoc, luhn_total_app in Hok, Hok'. cbn [luhn_total app] in Hok, Hok'.
  apply Hne, byte_of_inj. unfold is_digit_byte in *.
  enough (byte_of c - 48 = byte_of d - 48) by lia.
  eapply luhn_weight_inj; [unfold is_digit_val; lia..|].
  by eapply cancel_mod10.
Qed.

Lemma LuhnCheck_detects_substitution_witness : LuhnCheck "4111 1211 1111 1111" = false.
Proof.
  apply (LuhnCheck_detects_substitution "4111 1" "11 1111 1111" "1" "2"); reflexivity || done.
Defined.

(** ** Social Security Numbers *)

Lemma ssn_loop_eq rs d :
  (List.length d <= 9)%nat ->
  ssn_loop rs d =
  let ds := (d ++ map (fun r => (r - 48)%Z) (filter (fun r => unicode_IsDigit r = true) rs))%list in
  if (List.length ds <=? 9)%nat then Some ds else None.
Proof.
  revert d. induction rs as [|r rs IH]; intros d Hd.
  - simpl. rewrite app_nil_r. by replace (List.length d <=? 9)%nat with true by lia.
  - cbn [ssn_loop]. rewrite filter_cons. destruct (unicode_IsDigit r) eqn:E; simpl negb; cbv iota.
    + rewrite decide_True by done. cbn [map]. destruct (List.length d =? 9)%nat eqn:E9.
      * cbv zeta. rewrite length_app. simpl. case_match; [lia|done].
      * rewrite IH by (rewrite length_app; simpl; lia). by rewrite <- app_assoc.
    + rewrite decide_False by done. by apply IH.
Qed.

(** The decimal digits of [n], [w] of them. *)
Fixpoint decimal (w : nat) (n : Z) : list Z :=
  match w with
  | O => []
  | S w => decimal w (n / 10) ++ [n mod 10]
  end.

Lemma decimal_2 n : 0 <= n <= 99 -> n / 10 mod 10 * 10 + n mod 10 = n.
Proof. intros. Z.div_mod_to_equations. lia. Qed.

Lemma decimal_3 n : 0 <= n <= 999 -> n / 10 / 10 mod 10 * 100 + n / 10 mod 10 * 10 + n mod 10 = n.
Proof.
  intros. pose proof (decimal_2 (n / 10)). pose proof (Z.div_mod n 10).
  assert (0 <= n / 10 <= 99) by (Z.div_mod_to_equations; lia). lia.
Qed.

Lemma decimal_4 n :
  0 <= n <= 9999 ->
  n / 10 / 10 / 10 mod 10 * 1000 + n / 10 / 10 mod 10 * 100 + n / 10 mod 10 * 10 + n mod 10 = n.
Proof.
  intros. pose proof (decimal_3 (n / 10)). pose proof (Z.div_mod n 10).
  assert (0 <= n / 10 <= 999) by (Z.div_mod_to_equations; lia). lia.
Qed.

(** On an ASCII string [SSNValid] accepts exactly nine digits that write
    an area other than 000, 666 and 900-999, a group other than 00 and a
    serial other than 0000; what separates the digits does not matter. *)
Theorem SSNValid_spec s :
  is_ascii_str s = true ->
  SSNValid s = true <->
  exists area group serial,
    digits_of s = (decimal 3 area ++ decimal 2 group ++ decimal 4 serial)%list /\
    1 <= area <= 899 /\ area <> 666 /\ 1 <= group <= 99 /\ 1 <= serial <= 9999.
Proof.
  intros Hs. unfold SSNValid. rewrite ssn_loop_eq by (simpl; lia). simpl app.
  fold (digits_of s). pose proof (digits_of_range s Hs) as Hr. unfold bad_area. cbv zeta. split.
  - destruct (List.length (digits_of s) <=? 9)%nat; [|done].
    destruct (digits_of s) as [|d0 [|d1 [|d2 [|d3 [|d4 [|d5 [|d6 [|d7 [|d8 [|]]]]]]]]]]; try done.
    rewrite !Forall_cons in Hr. unfold is_digit_val in Hr.
    case_match; [done|]. intros H1.
    exists (d0 * 100 + d1 * 10 + d2), (d3 * 10 + d4), (d5 * 1000 + d6 * 100 + d7 * 10 + d8).
    split; [|lia]. cbn [decimal app]. repeat f_equal; Z.div_mod_to_equations; lia.
  - intros (a & g & sl & -> & Ha & Ha' & Hg & Hsl). cbn [decimal app List.length Nat.leb].
    rewrite (decimal_3 a), (decimal_2 g), (decimal_4 sl) by lia. case_match; lia.
Qed.

Lemma SSNValid_spec_witness :
  exists area group serial,
    digits_of "123-45-6789" = (decimal 3 area ++ decimal 2 group ++ decimal 4 serial)%list /\
    1 <= area <= 899 /\ area <> 666 /\ 1 <= group <= 99 /\ 1 <= serial <= 9999.
Proof. apply SSNValid_spec; reflexivity. Defined.

(** ** IBANs *)

(** The reference: the characters written one after the other as one decimal
    number, letters as 10 to 35. *)
Definition iban_value (r : Z) : Z := if unicode_IsDigit r then r - 48 else r - 55.
Fixpoint iban_number (acc : Z) (rs : list Z) : Z :=
  match rs with
  | [] => acc
  | r :: rs => iban_number (acc * (if unicode_IsDigit r then 10 else 100) + iban_value r) rs
  end.

(** A character the check lets through, in a string of ASCII characters. *)
Definition iban_char (r : Z) : Prop := 48 <= r <= 57 \/ 65 <= r <= 90.

Lemma iban_char_digit r : iban_char r -> unicode_IsDigit r = (r <=? 57).
Proof. intros H. rewrite IsDigit_ascii; unfold iban_char in H; lia. Qed.

Lemma iban_number_nonneg acc rs : 0 <= acc -> Forall iban_char rs -> 0 <= iban_number acc rs.
Proof.
  intros Hacc H. revert acc Hacc. induction H as [|r rs Hr _ IH]; intros acc Hacc; simpl; [done|].
  apply IH. unfold iban_value. rewrite iban_char_digit by done. unfold iban_char in Hr.
  case_match; lia.
Qed.

Lemma mod97_byte_mod acc d :
  0 <= acc -> 0 <= d <= 9 -> mod97_byte (acc mod 97) (48 + d) = (acc * 10 + d) mod 97.
Proof.
  intros Hacc Hd. unfold mod97_byte, wrap_u8. pose proof (Z.mod_pos_bound acc 97 ltac:(lia)).
  rewrite (Z.mod_small (48 + d - 48)), Z.rem_mod_nonneg by lia.
  rewrite Z.add_mod, Z.mul_mod_idemp_l, <- Z.add_mod by lia. f_equal. lia.
Qed.

(** One character of the loop keeps the number modulo 97. *)
Lemma iban_chunk_mod r acc :
  iban_char r -> 0 <= acc ->
  exists chunk, iban_chunk r = Some chunk /\
    foldl mod97_byte (acc mod 97) chunk =
    (acc * (if unicode_IsDigit r then 10 else 100) + iban_value r) mod 97.
Proof.
  intros Hr Hacc. unfold iban_chunk, iban_value. rewrite iban_char_digit by done.
  unfold iban_char in Hr. destruct (r <=? 57) eqn:E.
  - exists (encode_rune r). split; [done|]. unfold encode_rune.
    replace ((0 <=? r) && (r <=? 127)) with true by lia. simpl.
    replace r with (48 + (r - 48)) at 1 by lia. apply mod97_byte_mod; lia.
  - replace ((r - 65 + 10 <? 10) || (35 <? r - 65 + 10)) with false by lia.
    eexists. split; [reflexivity|]. unfold itoa2, wrap_u8. simpl. set (v := r - 65 + 10).
    assert (10 <= v <= 35) by lia. rewrite Z.quot_div_nonneg, Z.rem_mod_nonneg by lia.
    pose proof (Z.div_mod v 10 ltac:(lia)). pose proof (Z.mod_pos_bound v 10 ltac:(lia)).
    rewrite !(Z.mod_small (48 + _)), !mod97_byte_mod by lia. f_equal. lia.
Qed.

Lemma iban_mod_number rs acc :
  0 <= acc -> Forall iban_char rs -> iban_mod rs (acc mod 97) = Some (iban_number acc rs mod 97).
Proof.
  intros Hacc H. revert acc Hacc. induction H as [|r rs Hr Hrs IH]; intros acc Hacc; [done|].
  cbn [iban_mod iban_number]. destruct (iban_chunk_mod r acc Hr Hacc) as (chunk & -> & ->).
  apply IH. unfold iban_value. rewrite iban_char_digit by done. unfold iban_char in Hr.
  case_match; lia.
Qed.

Lemma upper_if_letter_ascii r : 0 <= r <= 127 -> 0 <= upper_if_letter r <= 127.
Proof.
  intros Hr. unfold upper_if_letter, unicode_ToUpper, MaxASCII. case_match; [done|].
  replace (r <=? 127) with true by lia. case_match; lia.
Qed.

Lemma iban_normalize_range s :
  is_ascii_str s = true -> Forall (fun r => 0 <= r <= 127) (iban_normalize s).
Proof.
  intros H%runes_range. unfold iban_normalize. rewrite Forall_forall in H. apply Forall_forall.
  intros r (q & -> & [_ Hq]%list_elem_of_filter)%list_elem_of_fmap.
  by apply upper_if_letter_ascii, H.
Qed.

(** On an ASCII string [IBANValid] is the ISO 13616 test: the normalised
    characters are 15 to 34 letters and digits, and the integer they write
    with the first four moved to the end is 1 modulo 97.  The loop that never
    holds more than two digits computes the same as the big integer. *)
Theorem IBANValid_spec s :
  is_ascii_str s = true ->
  IBANValid s = true <->
  let n := iban_normalize s in
  (15 <= List.length n <= 34)%nat /\ Forall iban_char n /\
  iban_number 0 (drop 4 n ++ take 4 n) mod 97 = 1.
Proof.
  intros Hs. unfold IBANValid. cbv zeta. pose proof (iban_normalize_range s Hs) as Hr.
  set (n := iban_normalize s) in *.
  assert (Hch : forallb (fun r => unicode_IsDigit r || is_upper_rune r) n = true <-> Forall iban_char n).
  { rewrite forallb_forall, Forall_forall. rewrite Forall_forall in Hr.
    setoid_rewrite <- list_elem_of_In.
    split; intros H r Hin; specialize (H r Hin); specialize (Hr r Hin);
      unfold iban_char, is_upper_rune in *; rewrite IsDigit_ascii in * by done; lia. }
  assert (Hm : Forall iban_char n ->
            iban_mod (drop 4 n ++ take 4 n) 0 = Some (iban_number 0 (drop 4 n ++ take 4 n) mod 97)).
  { intros H. apply (iban_mod_number _ 0); [lia|].
    apply Forall_app. auto using Forall_drop, Forall_take. }
  destruct (_ || _) eqn:El; [split; [done|lia]|].
  destruct (forallb _ n) eqn:Ef; simpl negb; cbv iota.
  - replace (List.length n <? 4)%nat with false by lia.
    assert (Hc : Forall iban_char n) by by apply Hch.
    rewrite (Hm Hc). rewrite Z.eqb_eq. intuition lia.
  - split; [done|]. intros (_ & Hc & _). by apply Hch in Hc.
Qed.

Lemma IBANValid_spec_witness :
  let n := iban_normalize "GB82 WEST 1234 5698 7654 32" in
  (15 <= List.length n <= 34)%nat /\ Forall iban_char n /\
  iban_number 0 (drop 4 n ++ take 4 n) mod 97 = 1.
Proof. apply (IBANValid_spec "GB82 WEST 1234 5698 7654 32"); reflexivity. Defined.

(** ** Email addresses *)

Lemma CutByte_once c s :
  CountByte c s = 1%nat ->
  exists u v, s = u +:+ String c v /\ CutByte c s = Some (u, v) /\ CountByte c u = O /\ CountByte c v = O.
Proof.
  intros Hc. unfold CutByte. destruct (IndexByte s c) as [i|] eqn:E.
  - apply IndexByte_Some in E as (u & v & -> & <- & Hu). exists u, v.
    rewrite CountByte_app in Hc. simpl in Hc. rewrite bool_decide_eq_true_2 in Hc by done.
    split_and!; [done| |done|lia]. rewrite stake_app_length.
    replace (S (String.length u)) with (String.length u + 1)%nat by lia.
    by rewrite sdrop_app_length.
  - apply IndexByte_None in E. lia.
Qed.

Lemma split_unique c u v u' v' :
  CountByte c u = O -> CountByte c u' = O -> u +:+ String c v = u' +:+ String c v' -> u = u'.
Proof.
  revert u'. induction u as [|d u IH]; intros [|d' u'] Hu Hu'; simpl in *; try done.
  - intros [= <- _]. by rewrite bool_decide_eq_true_2 in Hu'.
  - intros [= -> _]. by rewrite bool_decide_eq_true_2 in Hu.
  - intros [= <- E]. case_bool_decide; [lia|]. f_equal. eauto.
Qed.

(** A domain label as the comment of [EmailValid] describes it. *)
Definition domain_label (lab : string) : Prop :=
  (1 <= String.length lab <= 63)%nat /\
  forallb_str (fun c => is_alnum_byte c || bool_decide (c = "-"%char)) lab = true /\
  String.get 0 lab <> Some "-"%char /\ String.get (String.length lab - 1) lab <> Some "-"%char.

Lemma label_ok_spec lab : label_ok lab = true <-> domain_label lab.
Proof.
  unfold label_ok, domain_label. case_match eqn:E1; [split; [done|lia]|].
  destruct (bool_decide (String.get 0 lab = _)) eqn:E2; bool_cases; simpl orb.
  { split; [done|]. tauto. }
  destruct (bool_decide (String.get _ lab = _)) eqn:E3; bool_cases; cbv iota.
  { split; [done|]. tauto. }
  intuition lia.
Qed.

Lemma domain_label_free c lab :
  is_alnum_byte c = false -> c <> "-"%char -> domain_label lab -> CountByte c lab = O.
Proof.
  intros Hc Hd (_ & H & _). eapply CountByte_forallb; [exact H|].
  simpl. rewrite Hc. by apply bool_decide_eq_false.
Qed.

Lemma email_shape local labels t :
  t = local +:+ "@" +:+ Join "." labels -> CountByte "@" local = O ->
  (2 <= List.length labels)%nat -> Forall domain_label labels ->
  CountByte "@" t = 1%nat /\ CutByte "@" t = Some (local, Join "." labels) /\
  Contains (Join "." labels) "." = true /\ SplitByte "." (Join "." labels) = labels.
Proof.
  intros -> Hat Hlen Hok.
  assert (Hfree : forall c, is_alnum_byte c = false -> c <> "-"%char ->
                    Forall (fun p => CountByte c p = O) labels).
  { intros c H1 H2. eapply Forall_impl; [exact Hok|]. intros. by apply domain_label_free. }
  assert (Hsp : SplitByte "." (Join "." labels) = labels).
  { apply SplitByte_Join; [by destruct labels; simpl in *; [lia|]|by apply Hfree]. }
  assert (Hc : CountByte "@" (local +:+ "@" +:+ Join "." labels) = 1%nat).
  { rewrite CountByte_app, Hat. simpl. rewrite (CountByte_Join "@" "."); [done|done|by apply Hfree]. }
  split_and!; [done| | |done].
  - destruct (CutByte_once "@" (local +:+ "@" +:+ Join "." labels) Hc) as (u & v & E & -> & Hu & _).
    f_equal. assert (local = u) as <-; [|by apply sapp_inv_head in E as [= ->]].
    by eapply split_unique.
  - apply CountByte_Contains. pose proof (length_SplitByte "." (Join "." labels)) as E.
    rewrite Hsp in E. lia.
Qed.

(** [EmailValid] accepts exactly the texts that, without surrounding
    white space, are a local part of 1 to 64 bytes without an at sign, an at
    sign, and two or more well-formed labels joined by dots, 254 bytes in
    all. *)
Theorem EmailValid_spec s :
  EmailValid s = true <->
  exists local labels,
    TrimSpace s = local +:+ "@" +:+ Join "." labels /\
    (1 <= String.length local <= 64)%nat /\ CountByte "@" local = O /\
    (2 <= List.length labels)%nat /\ Forall domain_label labels /\
    (String.length (TrimSpace s) <= 254)%nat.
Proof.
  unfold EmailValid. cbv zeta. generalize (TrimSpace s) as t. clear s. intros t. split.
  - case_match eqn:E1; [done|].
    destruct (CountByte "@" t =? 1)%nat eqn:E2; [|done]. simpl negb. cbv iota.
    destruct (CutByte_once "@" t) as (u & v & Et & -> & Hu & Hv); [lia|].
    case_match eqn:E3; [done|]. destruct (Contains v ".") eqn:E4; [|done]. simpl negb. cbv iota.
    intros Hl. exists u, (SplitByte "." v). rewrite Join_SplitByte. split_and!; [exact Et|lia|lia|done| | |lia].
    + rewrite length_SplitByte. apply CountByte_Contains in E4. lia.
    + rewrite Forall_forall. rewrite forallb_forall in Hl. intros lab Hlab.
      apply label_ok_spec, Hl. by apply list_elem_of_In.
  - intros (local & labels & Et & Hlen & Hat & Hlabs & Hok & Htot).
    destruct (email_shape local labels t) as (Hc & Hcut & Hdot & Hsp); [done..|].
    assert (String.length t = String.length local + S (String.length (Join "." labels)))%nat as Hl.
    { rewrite Et, length_sapp. done. }
    assert (Hne : (0 < String.length (Join "." labels))%nat).
    { destruct (Join "." labels); [done|simpl; lia]. }
    rewrite Hcut, Hc, Hdot, Hsp. simpl negb. cbv iota.
    do 2 (match goal with |- (if ?b then _ else _) = _ => destruct b eqn:?; [lia|] end).
    apply forallb_forall. intros lab Hlab. apply label_ok_spec.
    rewrite Forall_forall in Hok. by apply Hok, list_elem_of_In.
Qed.

(** ** Digits of other scripts

    [unicode.IsDigit] accepts the decimal digits of every script while
    [int(r-'0')] is the value of an ASCII digit only: the same number is
    accepted in ASCII digits and rejected in Arabic-Indic ones. *)
Lemma unicode_digits_misread :
  SSNValid "123456789" = true /\ SSNValid "١٢٣٤٥٦٧٨٩" = false /\
  LuhnCheck "378282246310005" = true /\ LuhnCheck "٣٧٨٢٨٢٢٤٦٣١٠٠٠٥" = false.
Proof. vm_compute. done. Qed.
