(* ===== verification/Complexity.v ===== *)
(** * Complexity: the structural limits on regular expressions

    src/internal/rules/complexity.go measures the syntax tree of a pattern
    and rejects it above limits read from the environment;
    src/internal/scanner/regex_complexity.go scores the text of a pattern.
    Go's [regexp/syntax] is seen through the class [RegexpSyntax]: its tree
    type is written out, its parser and simplifier are members. *)

From Stdlib Require Import Ascii String.
From S2P Require Import Prelude GoString Unicode Rules.
Local Open Scope Z_scope.

(** ** [regexp/syntax] *)

(** [syntax.Op]. *)
Inductive Op :=
  | OpNoMatch | OpEmptyMatch | OpLiteral | OpCharClass | OpAnyCharNotNL | OpAnyChar
  | OpBeginLine | OpEndLine | OpBeginText | OpEndText | OpWordBoundary | OpNoWordBoundary
  | OpCapture | OpStar | OpPlus | OpQuest | OpRepeat | OpConcat | OpAlternate.

#[export] Instance Op_eq_dec : EqDecision Op.
Proof. solve_decision. Defined.

(** [syntax.Regexp]: the fields the walk reads. *)
Inductive Regexp := Re (op : Op) (sub : list Regexp).

Definition re_Op (re : Regexp) : Op := let '(Re op _) := re in op.
Definition re_Sub (re : Regexp) : list Regexp := let '(Re _ sub) := re in sub.

(** An induction principle that reaches the sub-expressions. *)
Section RegexpInd.
Variable P : Regexp -> Prop.
Hypothesis HRe : forall op sub, Forall P sub -> P (Re op sub).

Fixpoint Regexp_subind (re : Regexp) : P re :=
  match re with
  | Re op sub => HRe op sub
      ((fix all (l : list Regexp) : Forall P l :=
          match l with
          | [] => Forall_nil_2 _
          | r :: l => Forall_cons_2 _ _ _ (Regexp_subind r) (all l)
          end) sub)
  end.
End RegexpInd.

(** [every P re]: [P] holds of the operator and operands of every node. *)
Fixpoint every (P : Op -> list Regexp -> bool) (re : Regexp) : bool :=
  match re with Re op sub => P op sub && forallb (every P) sub end.

(** What the package does with an expression, and what its documentation says
    of it: [Simplify] returns an expression without counted repetitions. *)
Class RegexpSyntax := {
  syntax_Parse : string -> result string Regexp;
  Simplify : Regexp -> Regexp;
  Simplify_no_repeat : forall s re, syntax_Parse s = Ok re ->
    every (fun op _ => negb (bool_decide (op = OpRepeat))) (Simplify re) = true;
}.

(** ** internal/rules/complexity.go *)

Record ComplexityScore := {
  Nodes : Z;
  MaxDepth : Z;
  Alternations : Z;
  Repeats : Z;
}.

Definition score0 : ComplexityScore :=
  {| Nodes := 0; MaxDepth := 0; Alternations := 0; Repeats := 0 |}.

Record complexityLimits := {
  maxNodes : Z;
  maxDepth : Z;
  maxAlternations : Z;
  maxRepeats : Z;
}.

(** [if v := os.Getenv(name); v != "" { if n, err := strconv.Atoi(v); err ==
    nil && n > 0 { ... } }]. *)
Definition env_positive (v : string) (default : Z) : Z :=
  if bool_decide (v = "") then default
  else match Atoi v with
       | Some n => if 0 <? n then n else default
       | None => default
       end.

Definition limitsFromEnv (getenv : string -> string) : complexityLimits :=
  {| maxNodes := env_positive (getenv "PS_MAX_REGEX_NODES") 750;
     maxDepth := env_positive (getenv "PS_MAX_REGEX_DEPTH") 30;
     maxAlternations := env_positive (getenv "PS_MAX_REGEX_ALTERNATIONS") 300;
     maxRepeats := env_positive (getenv "PS_MAX_REGEX_REPEATS") 1000 |}.

(** The [switch strings.ToLower(f)] on one flag: the prefix it adds in front,
    or [None] when the flag is not one of the four that are known. *)
Definition flag_prefix (f : string) : option string :=
  let f := ToLower f in
  if bool_decide (f = "ignorecase") || bool_decide (f = "i") then Some "(?i)"
  else if bool_decide (f = "multiline") || bool_decide (f = "m") then Some "(?m)"
  else None.

(** The prefix built by the loop over the flags. *)
Definition inline_flags (flags : list string) : string :=
  foldl (fun prefix f => match flag_prefix f with
                         | Some p => (p ++ prefix)%string
                         | None => prefix
                         end) ""%string flags.

Definition prefixedRegex (expr : string) (flags : list string) : string :=
  if bool_decide (expr = "") then expr else (inline_flags flags ++ expr)%string.

(** [score.Nodes++] and the update of [score.MaxDepth]. *)
Definition visit_node (depth : Z) (sc : ComplexityScore) : ComplexityScore :=
  {| Nodes := Nodes sc + 1;
     MaxDepth := if MaxDepth sc <? depth then depth else MaxDepth sc;
     Alternations := Alternations sc; Repeats := Repeats sc |}.

Definition add_alternations (n : Z) (sc : ComplexityScore) : ComplexityScore :=
  {| Nodes := Nodes sc; MaxDepth := MaxDepth sc;
     Alternations := Alternations sc + n; Repeats := Repeats sc |}.

Definition add_repeat (sc : ComplexityScore) : ComplexityScore :=
  {| Nodes := Nodes sc; MaxDepth := MaxDepth sc;
     Alternations := Alternations sc; Repeats := Repeats sc + 1 |}.

(** The recursive closure [walk] of [ComputeRegexComplexity].  A repetition
    has exactly one operand, [re.Sub[0]]. *)
Fixpoint walk (re : Regexp) (depth : Z) (sc : ComplexityScore) : ComplexityScore :=
  match re with
  | Re op sub =>
    let sc := visit_node depth sc in
    match op with
    | OpAlternate =>
      foldl (fun sc sub => walk sub (depth + 1) sc)
        (add_alternations (Z.of_nat (List.length sub) - 1) sc) sub
    | OpRepeat =>
      match sub with
      | s0 :: _ => walk s0 (depth + 2) (add_repeat sc)
      | [] => add_repeat sc
      end
    | _ => foldl (fun sc sub => walk sub (depth + 1) sc) sc sub
    end
  end.

Section Check.
Context `{RegexpSyntax} (getenv : string -> string).

Definition ComputeRegexComplexity (expr : string) (flags : list string) :
    result string ComplexityScore :=
  if bool_decide (expr = "") then Err "empty regex"
  else match syntax_Parse (prefixedRegex expr flags) with
       | Err e => Err e
       | Ok parsed => Ok (walk (Simplify parsed) 1 score0)
       end.

(** [score] is above one of the limits. *)
Definition exceeds (lim : complexityLimits) (sc : ComplexityScore) : bool :=
  (maxNodes lim <? Nodes sc) || (maxDepth lim <? MaxDepth sc)
  || (maxAlternations lim <? Alternations sc) || (maxRepeats lim <? Repeats sc).

Definition too_complex (lim : complexityLimits) (sc : ComplexityScore) : string :=
  ("regex too complex (nodes=" ++ Itoa (Nodes sc) ++ ", depth=" ++ Itoa (MaxDepth sc)
   ++ ", alts=" ++ Itoa (Alternations sc) ++ ", repeats=" ++ Itoa (Repeats sc)
   ++ "; limits nodes<=" ++ Itoa (maxNodes lim) ++ " depth<=" ++ Itoa (maxDepth lim)
   ++ " alts<=" ++ Itoa (maxAlternations lim) ++ " repeats<=" ++ Itoa (maxRepeats lim) ++ ")")%string.

(** [CheckRegexComplexity]: [Ok tt] is the nil error. *)
Definition CheckRegexComplexity (expr : string) (flags : list string) : result string unit :=
  match ComputeRegexComplexity expr flags with
  | Err e => Err e
  | Ok score =>
    let lim := limitsFromEnv getenv in
    if exceeds lim score then Err (too_complex lim score) else Ok tt
  end.
End Check.

(** ** internal/scanner/regex_complexity.go *)

(** The variables of the loop; the flags of the open groups, outermost
    first. *)
Record score_state := {
  score : Z;
  depth : Z;
  groupHasQuant : list bool;
}.

Definition score_add (n : Z) (st : score_state) : score_state :=
  {| score := score st + n; depth := depth st; groupHasQuant := groupHasQuant st |}.

(** [groupHasQuant[len(groupHasQuant)-1] = true], behind its guard. *)
Definition mark_quant (st : score_state) : score_state :=
  let g := groupHasQuant st in
  {| score := score st; depth := depth st;
     groupHasQuant := if (0 <? List.length g)%nat then <[(List.length g - 1)%nat := true]> g else g |}.

(** [for k < len(expr) && expr[k] == ' ' { k++ }; expr[k] == '}'] *)
Fixpoint closes_after_spaces (s : string) : bool :=
  match s with
  | String c s => if bool_decide (c = " "%char) then closes_after_spaces s else bool_decide (c = "}"%char)
  | EmptyString => false
  end.

(** From the text after an opening brace: a comma comes before the closing
    brace and nothing but spaces follows it. *)
Fixpoint unbounded_upper (s : string) : bool :=
  match s with
  | EmptyString => false
  | String c s =>
    if bool_decide (c = "}"%char) then false
    else if bool_decide (c = ","%char) then closes_after_spaces s
    else unbounded_upper s
  end.

Definition is_quantifier (c : ascii) : bool :=
  bool_decide (c = "+"%char) || bool_decide (c = "*"%char) || bool_decide (c = "?"%char).

(** The [switch c] of the loop; [rest] is the text after [c]. *)
Definition score_char (c : ascii) (rest : string) (st : score_state) : score_state :=
  if bool_decide (c = "("%char) then
    {| score := score st; depth := depth st + 1; groupHasQuant := groupHasQuant st ++ [false] |}
  else if bool_decide (c = ")"%char) then
    if 0 <? depth st then
      let d := depth st - 1 in
      let g := groupHasQuant st in
      let bump :=
        match rest with
        | String q _ =>
          if is_quantifier q then
            if (d + 1 <? Z.of_nat (List.length g)) && default false (g !! Z.to_nat (d + 1))
            then 8 else 3
          else 0
        | EmptyString => 0
        end in
      {| score := score st + bump; depth := d;
         groupHasQuant := if (0 <? List.length g)%nat then take (List.length g - 1) g else g |}
    else st
  else if bool_decide (c = "|"%char) then score_add 1 st
  else if bool_decide (c = "."%char) then
    match rest with
    | String q after =>
      if bool_decide (q = "+"%char) then mark_quant (score_add 5 st)
      else if bool_decide (q = "*"%char) then mark_quant (score_add 6 st)
      else if bool_decide (q = "{"%char) then
        if unbounded_upper after then score_add 6 st else st
      else st
    | EmptyString => st
    end
  else if bool_decide (c = "+"%char) || bool_decide (c = "*"%char) then
    let g := groupHasQuant st in
    if (0 <? List.length g)%nat then
      mark_quant (if default false (last g) then score_add 4 st else st)
    else st
  else if bool_decide (c = "?"%char) then score_add 1 st
  else if bool_decide (c = "{"%char) then
    if unbounded_upper rest then score_add 3 st else st
  else st.

(** The loop over the bytes; an escape consumes the byte after it. *)
Fixpoint score_loop (s : string) (st : score_state) : score_state :=
  match s with
  | EmptyString => st
  | String c rest =>
    if bool_decide (c = "\"%char) then
      match rest with String _ rest => score_loop rest st | EmptyString => st end
    else score_loop rest (score_char c rest st)
  end.

Definition score_init : score_state := {| score := 0; depth := 0; groupHasQuant := [false] |}.

Definition regexComplexityScore (expr : string) : Z :=
  if bool_decide (expr = "") then 0
  else let s := score (score_loop expr score_init) in if s <? 0 then 0 else s.

(** ** What the walk measures *)

(** A measure that adds up [f] over the nodes, without the loop's state. *)
Fixpoint re_total (f : Op -> list Regexp -> Z) (re : Regexp) : Z :=
  match re with
  | Re op sub =>
    f op sub + match op, sub with
               | OpRepeat, s0 :: _ => re_total f s0
               | OpRepeat, [] => 0
               | _, _ => foldr (fun re acc => re_total f re + acc) 0 sub
               end
  end.

Definition re_size : Regexp -> Z := re_total (fun _ _ => 1).
Definition re_alternations : Regexp -> Z :=
  re_total (fun op sub => if decide (op = OpAlternate) then Z.of_nat (List.length sub) - 1 else 0).
Definition re_repeats : Regexp -> Z :=
  re_total (fun op _ => if decide (op = OpRepeat) then 1 else 0).

(** The length of the longest path, a counted repetition being two steps. *)
Fixpoint re_height (re : Regexp) : Z :=
  match re with
  | Re op sub =>
    match op, sub with
    | OpRepeat, s0 :: _ => 2 + re_height s0
    | OpRepeat, [] => 1
    | _, _ => 1 + foldr (fun re acc => Z.max (re_height re) acc) 0 sub
    end
  end.

Lemma re_height_pos re : 1 <= re_height re.
Proof.
  induction re as [op sub IH] using Regexp_subind. cbn [re_height].
  assert (0 <= foldr (fun re acc => Z.max (re_height re) acc) 0 sub) by (destruct IH; simpl; lia).
  destruct op; try lia. destruct IH; lia.
Qed.

(** The score after a node at [depth] has been walked. *)
Definition walked (re : Regexp) (depth : Z) (sc : ComplexityScore) : ComplexityScore :=
  {| Nodes := Nodes sc + re_size re;
     MaxDepth := Z.max (MaxDepth sc) (depth + re_height re - 1);
     Alternations := Alternations sc + re_alternations re;
     Repeats := Repeats sc + re_repeats re |}.

Lemma walk_list sub depth sc :
  Forall (fun re => forall depth sc, walk re depth sc = walked re depth sc) sub ->
  foldl (fun sc re => walk re depth sc) sc sub =
  {| Nodes := Nodes sc + foldr (fun re acc => re_size re + acc) 0 sub;
     MaxDepth := foldr (fun re acc => Z.max (depth + re_height re - 1) acc) (MaxDepth sc) sub;
     Alternations := Alternations sc + foldr (fun re acc => re_alternations re + acc) 0 sub;
     Repeats := Repeats sc + foldr (fun re acc => re_repeats re + acc) 0 sub |}.
Proof.
  intros H. revert sc. induction H as [|re sub Hre Hsub IH]; intros sc; simpl.
  - destruct sc; simpl. f_equal; lia.
  - rewrite Hre, IH. unfold walked. simpl. pose proof (re_height_pos re).
    f_equal; [lia| |lia|lia]. clear. generalize (MaxDepth sc) as m. intros m.
    induction sub; simpl; lia.
Qed.

Lemma max_height sub m depth :
  foldr (fun re acc => Z.max (depth + 1 + re_height re - 1) acc) (Z.max m depth) sub =
  Z.max m (depth + (1 + foldr (fun re acc => Z.max (re_height re) acc) 0 sub) - 1).
Proof. induction sub as [|re sub IH]; simpl; lia. Qed.

(** The loop with its mutable score computes the four measures. *)
Lemma walk_walked re depth sc : walk re depth sc = walked re depth sc.
Proof.
  revert depth sc. induction re as [op sub IH] using Regexp_subind. intros depth sc.
  assert (Hd : forall x, (if MaxDepth sc <? x then x else MaxDepth sc) = Z.max (MaxDepth sc) x)
    by (intros; case_match; lia).
  assert (Hall : forall sc', foldl (fun sc re => walk re (depth + 1) sc) sc' sub = _)
    by (intros sc'; apply (walk_list _ _ _ IH)).
  unfold walked, re_size, re_alternations, re_repeats in Hall |- *.
  destruct op; cbn [walk re_total re_height]; rewrite ?Hall; simpl; rewrite ?Hd, ?max_height;
    try (f_equal; lia).
  destruct IH as [|s0 sub Hs0 _]; simpl; rewrite ?Hd.
  - unfold add_repeat, visit_node. simpl. rewrite Hd. f_equal; lia.
  - rewrite Hs0. unfold walked. simpl. rewrite Hd. pose proof (re_height_pos s0).
    unfold re_size, re_alternations, re_repeats. f_equal; lia.
Qed.

Lemma env_positive_pos v d : 0 < d -> 0 < env_positive v d.
Proof. unfold env_positive. intros. repeat case_match; lia. Qed.

Lemma re_repeats_zero re :
  every (fun op _ => negb (bool_decide (op = OpRepeat))) re = true -> re_repeats re = 0.
Proof.
  unfold re_repeats. induction re as [op sub IH] using Regexp_subind. cbn [every re_total].
  intros [Hop Hsub]%andb_true_iff. bool_cases. rewrite decide_False by done.
  assert (foldr (fun re acc => re_total (fun op _ => if decide (op = OpRepeat) then 1 else 0) re + acc) 0 sub = 0).
  { clear Hop. induction IH as [|re sub Hre _ IH']; simpl in *; [done|].
    apply andb_true_iff in Hsub as [H1 H2]. rewrite Hre, IH'; done. }
  destruct op; try done.
Qed.

Section CheckFacts.
Context `{RegexpSyntax} (getenv : string -> string).

(** A pattern passes [CheckRegexComplexity] exactly when it parses and
    its simplified tree has no more nodes, depth and alternatives than the
    limits, which are positive whatever the environment holds; a rejection
    reports the measured values. *)
Theorem CheckRegexComplexity_spec expr flags :
  let lim := limitsFromEnv getenv in
  0 < maxNodes lim /\ 0 < maxDepth lim /\ 0 < maxAlternations lim /\ 0 < maxRepeats lim /\
  (CheckRegexComplexity getenv expr flags = Ok tt <->
   expr <> ""%string /\ exists re, syntax_Parse (inline_flags flags ++ expr)%string = Ok re /\
     re_size (Simplify re) <= maxNodes lim /\ re_height (Simplify re) <= maxDepth lim /\
     re_alternations (Simplify re) <= maxAlternations lim).
Proof.
  cbv zeta. split_and!; try (apply env_positive_pos; lia).
  unfold CheckRegexComplexity, ComputeRegexComplexity, prefixedRegex.
  case_bool_decide as He; [split; [done|]; by intros []|].
  destruct (syntax_Parse _) as [re|e] eqn:Ep; [|split; [done|]; by intros (_ & ? & ? & _)].
  assert (0 < maxRepeats (limitsFromEnv getenv)) by (apply env_positive_pos; lia).
  remember (limitsFromEnv getenv) as lim. rewrite walk_walked. unfold exceeds, walked. simpl.
  pose proof (re_height_pos (Simplify re)).
  rewrite (re_repeats_zero (Simplify re)) by (by eapply Simplify_no_repeat).
  case_match eqn:E.
  - split; [done|]. intros (_ & re' & [= <-] & Hn & Hd & Ha). lia.
  - split; [|done]. intros _. split; [done|]. exists re. split; [done|]. lia.
Qed.

(** The limit on counted repetitions never applies: the walk runs on
    the simplified tree, which has none, so the verdict is the same for every
    value of PS_MAX_REGEX_REPEATS. *)
Theorem repeat_limit_never_binds getenv' expr flags :
  (forall v, v <> "PS_MAX_REGEX_REPEATS"%string -> getenv' v = getenv v) ->
  (forall sc, ComputeRegexComplexity expr flags = Ok sc -> Repeats sc = 0) /\
  is_ok (CheckRegexComplexity getenv' expr flags) = is_ok (CheckRegexComplexity getenv expr flags).
Proof.
  intros Hg. split.
  - unfold ComputeRegexComplexity. intros sc. repeat case_match; try done. intros [= <-].
    rewrite walk_walked. simpl. apply re_repeats_zero. by eapply Simplify_no_repeat.
  - unfold CheckRegexComplexity, ComputeRegexComplexity.
    case_bool_decide; [done|]. destruct (syntax_Parse _) as [re|e] eqn:Ep; [|done].
    rewrite walk_walked. unfold exceeds, walked. simpl.
    rewrite (re_repeats_zero (Simplify re)) by (by eapply Simplify_no_repeat).
    rewrite !Hg by done.
    assert (forall v, (env_positive v 1000 <? 0 + 0) = false) as E
      by (intros v; pose proof (env_positive_pos v 1000); lia).
    rewrite !E, !orb_false_r. by case_match.
Qed.
End CheckFacts.

(** A tiny instance: one literal node per byte, concatenated. *)
Program Definition literal_syntax : RegexpSyntax :=
  {| syntax_Parse s := Ok (Re OpConcat (map (fun _ => Re OpLiteral []) (list_ascii_of_string s)));
     Simplify re := re |}.
Next Obligation. intros s re [= <-]. simpl. by induction (list_ascii_of_string s). Qed.

Lemma repeat_limit_never_binds_witness :
  is_ok (@CheckRegexComplexity literal_syntax
           (fun v => if bool_decide (v = "PS_MAX_REGEX_REPEATS"%string) then "1"%string else ""%string)
           "abc" []) =
  is_ok (@CheckRegexComplexity literal_syntax (fun _ => ""%string) "abc" []).
Proof.
  apply (@repeat_limit_never_binds literal_syntax). intros v Hv.
  by rewrite bool_decide_eq_false_2.
Defined.

Lemma CheckRegexComplexity_spec_witness :
  @CheckRegexComplexity literal_syntax (fun _ => ""%string) "abc" [] = Ok tt.
Proof.
  apply (@CheckRegexComplexity_spec literal_syntax). split; [done|].
  eexists. split; [reflexivity|]. vm_compute. split_and!; discriminate.
Defined.

(** ** The textual score *)

(** The flags stack is one longer than the number of open groups, so every
    index the loop uses is in range and its guards on the length hold. *)
Definition score_inv (st : score_state) : Prop :=
  0 <= score st /\ 0 <= depth st /\ Z.of_nat (List.length (groupHasQuant st)) = depth st + 1.

Lemma mark_quant_inv st : score_inv st -> score_inv (mark_quant st).
Proof. unfold score_inv, mark_quant. simpl. case_match; rewrite ?length_insert; lia. Qed.

Lemma score_add_inv n st : 0 <= n -> score_inv st -> score_inv (score_add n st).
Proof. unfold score_inv, score_add. simpl. lia. Qed.

Lemma score_char_inv c rest st : score_inv st -> score_inv (score_char c rest st).
Proof.
  intros Hi. unfold score_char.
  repeat case_match; auto using mark_quant_inv, score_add_inv with lia;
    unfold score_inv in *; simpl in *; rewrite ?length_app, ?length_take; simpl; lia.
Qed.

Lemma score_loop_inv s st : score_inv st -> score_inv (score_loop s st).
Proof.
  revert st. induction s as [s IH] using (induction_ltof1 _ String.length). unfold ltof in IH.
  intros st Hi. destruct s as [|c rest]; simpl; [done|].
  case_bool_decide.
  - destruct rest; [done|]. apply IH; [simpl; lia|done].
  - apply IH; [simpl; lia|by apply score_char_inv].
Qed.

(** Whatever the pattern, balanced or not, the scoring loop keeps one
    flag per open group plus one, so none of its indexings can be out of
    range, and the final clamp to zero is never needed. *)
Theorem regexComplexityScore_safe expr :
  score_inv (score_loop expr score_init) /\
  regexComplexityScore expr = score (score_loop expr score_init).
Proof.
  assert (Hi : score_inv (score_loop expr score_init)) by (apply score_loop_inv; done).
  split; [done|]. unfold regexComplexityScore. case_bool_decide as E; [by subst|].
  destruct Hi as [? _]. case_match; lia.
Qed.
