(* ===== verification/Aho.v ===== *)
(** * Aho: the multi-keyword matcher of internal/scanner

    src/internal/scanner/aho.go wraps the Cloudflare Aho-Corasick matcher,
    which reports which patterns occur in a text but not where; [FindAll]
    enumerates the occurrences of those patterns itself and sorts them.  The
    third-party matcher and [sort.Slice] are the members of [AhoLib]. *)

From Stdlib Require Import Ascii String.
From S2P Require Import Prelude GoString.

Record Match := {
  PatternIndex : nat;
  Match_Index : nat;
}.

#[export] Instance Match_eq_dec : EqDecision Match.
Proof. solve_decision. Defined.

(** What [ahocorasick.NewStringMatcher(ps).Match(hay)] documents: the indices
    of the patterns that occur in [hay], each once, in no particular order.
    [sort.Slice] with the order of [FindAll] permutes its argument into
    ascending [Index], in an order it does not specify among equal ones. *)
Class AhoLib := {
  matcher_Match : list string -> string -> list nat;
  matcher_Match_spec : forall ps hay pid,
    Forall (fun p => p <> "") ps ->
    pid ∈ matcher_Match ps hay <-> exists p, ps !! pid = Some p /\ Contains hay p = true;
  matcher_Match_NoDup : forall ps hay, NoDup (matcher_Match ps hay);
  sort_by_Index : list Match -> list Match;
  sort_by_Index_perm : forall l, sort_by_Index l ≡ₚ l;
  sort_by_Index_sorted : forall l,
    StronglySorted (fun m n => Match_Index m <= Match_Index n) (sort_by_Index l);
}.

(** [Aho]: the matcher is determined by its patterns. *)
Record Aho := { patterns : list string }.

(** One turn of the loop of [NewAho] on [(seen, uniq)]. *)
Definition uniq_step (acc : gset string * list string) (p : string) : gset string * list string :=
  let '(seen, uniq) := acc in
  if decide (p = "") then acc
  else if decide (p ∈ seen) then acc
  else ({[p]} ∪ seen, uniq ++ [p]).

Definition NewAho (ps : list string) : Aho :=
  {| patterns := (foldl uniq_step (∅, []) ps).2 |}.

(** The inner loop of [FindAll]: [strings.Index(text[pos:], pat)] until it
    fails, each time one byte past the last start. *)
Fixpoint occurrences_from (fuel : nat) (text pat : string) (pos : nat) : list nat :=
  match fuel with
  | O => []
  | S fuel =>
    match Index (sdrop pos text) pat with
    | None => []
    | Some idx => let start := pos + idx in start :: occurrences_from fuel text pat (start + 1)
    end
  end.

(** [length text + 1] turns are enough: [pos] grows and stays in the text. *)
Definition occurrences (text pat : string) : list nat :=
  occurrences_from (S (String.length text)) text pat 0.

Section FindAll.
Context `{AhoLib}.

Definition pattern_matches (a : Aho) (text : string) (pid : nat) : list Match :=
  map (fun i => {| PatternIndex := pid; Match_Index := i |})
    (occurrences text (default "" (patterns a !! pid))).

(** [(a *Aho).FindAll]; the receiver may be nil. *)
Definition FindAll (a : option Aho) (hay : string) : list Match :=
  match a with
  | None => []
  | Some a =>
    if decide (patterns a = []) then []
    else let ids := matcher_Match (patterns a) hay in
         if decide (ids = []) then []
         else sort_by_Index (flat_map (pattern_matches a hay) ids)
  end.
End FindAll.

(** ** Facts *)

Lemma occurrences_from_spec fuel text pat pos i :
  pat <> "" -> pos <= String.length text -> String.length text - pos < fuel ->
  i ∈ occurrences_from fuel text pat pos <-> pos <= i /\ occurs_at pat text i.
Proof.
  intros Hp. revert pos. induction fuel as [|fuel IH]; intros pos Hpos Hf; [lia|]. simpl.
  assert (Hsh : forall k, occurs_at pat (sdrop pos text) k <-> occurs_at pat text (pos + k)).
  { intros k. unfold occurs_at. rewrite sdrop_sdrop, length_sdrop. intuition lia. }
  destruct (Index (sdrop pos text) pat) as [idx|] eqn:E.
  - apply Index_Some in E as [Hocc Hmin]. rewrite Hsh in Hocc.
    pose proof (occurs_at_bound _ _ _ Hocc). assert (0 < String.length pat) by (destruct pat; [done|simpl; lia]).
    rewrite elem_of_cons, IH by lia. split.
    + intros [->|[? ?]]; split; (lia || done).
    + intros [Hi Ho]. destruct (decide (i = pos + idx)) as [|Hne]; [by left|right].
      split; [|done]. destruct (decide (i < pos + idx)); [|lia]. exfalso.
      apply (Hmin (i - pos)); [lia|]. apply Hsh. by replace (pos + (i - pos)) with i by lia.
  - rewrite elem_of_nil. split; [done|]. intros [Hi Ho].
    eapply Index_None in E. apply E. apply Hsh. by replace (pos + (i - pos)) with i by lia.
Qed.

Lemma elem_of_occurrences text pat i :
  pat <> "" -> i ∈ occurrences text pat <-> occurs_at pat text i.
Proof.
  intros Hp. unfold occurrences. rewrite occurrences_from_spec by (done || lia).
  intuition lia.
Qed.

Lemma occurrences_from_ge fuel text pat pos i :
  i ∈ occurrences_from fuel text pat pos -> pos <= i.
Proof.
  revert pos. induction fuel as [|fuel IH]; intros pos; simpl; [set_solver|].
  case_match; [|set_solver]. rewrite elem_of_cons. intros [->|Hi]; [lia|].
  apply IH in Hi. lia.
Qed.

Lemma occurrences_NoDup text pat : NoDup (occurrences text pat).
Proof.
  unfold occurrences. generalize 0 as pos. generalize (S (String.length text)) as fuel.
  induction fuel as [|fuel IH]; intros pos; simpl; [constructor|].
  case_match; [|constructor]. constructor; [|apply IH].
  intros Hi%occurrences_from_ge. lia.
Qed.

Lemma uniq_inv ps :
  let acc := foldl uniq_step (∅, []) ps in
  (forall p, p ∈ acc.1 <-> p ∈ acc.2) /\ NoDup acc.2 /\ (forall p, p ∈ acc.2 <-> p ∈ ps /\ p <> "").
Proof.
  induction ps as [|p ps IH] using rev_ind; simpl.
  { split_and!; [set_solver|constructor|set_solver]. }
  rewrite foldl_snoc. destruct (foldl uniq_step (∅, []) ps) as [seen uniq]. simpl in *.
  destruct IH as (Hs & Hnd & Hin). unfold uniq_step.
  case_decide; [|case_decide as Hp]; simpl; setoid_rewrite elem_of_app.
  - split_and!; [done..|]. subst. intros q. rewrite Hin, list_elem_of_singleton. naive_solver.
  - split_and!; [done..|]. intros q. rewrite Hin, list_elem_of_singleton.
    apply Hs, Hin in Hp. naive_solver.
  - split_and!.
    + intros q. rewrite elem_of_union, elem_of_singleton, Hs, list_elem_of_singleton. tauto.
    + apply NoDup_app. split_and!; [done| |apply NoDup_singleton].
      intros q Hq ->%list_elem_of_singleton. by apply Hp, Hs.
    + intros q. rewrite Hin, list_elem_of_singleton. naive_solver.
Qed.

Lemma NewAho_patterns ps :
  NoDup (patterns (NewAho ps)) /\ forall p, p ∈ patterns (NewAho ps) <-> p ∈ ps /\ p <> "".
Proof. destruct (uniq_inv ps) as (_ & ? & ?). done. Qed.

Section FindAllFacts.
Context `{AhoLib}.

Lemma FindAll_flat a hay :
  FindAll (Some a) hay ≡ₚ flat_map (pattern_matches a hay) (matcher_Match (patterns a) hay) \/
  (FindAll (Some a) hay = [] /\ (patterns a = [] \/ matcher_Match (patterns a) hay = [])).
Proof.
  unfold FindAll. case_decide; [by right; auto|]. case_decide; [by right; auto|].
  left. apply sort_by_Index_perm.
Qed.

Lemma elem_of_FindAll a hay m :
  Forall (fun p => p <> "") (patterns a) ->
  m ∈ FindAll (Some a) hay <->
  exists p, patterns a !! PatternIndex m = Some p /\ occurs_at p hay (Match_Index m).
Proof.
  intros Hne.
  assert (Hflat : m ∈ flat_map (pattern_matches a hay) (matcher_Match (patterns a) hay) <->
    exists p, patterns a !! PatternIndex m = Some p /\ occurs_at p hay (Match_Index m)).
  { rewrite list_elem_of_In, in_flat_map. setoid_rewrite <- list_elem_of_In. split.
    - intros (pid & Hpid & (i & -> & Hi)%list_elem_of_fmap). simpl.
      apply matcher_Match_spec in Hpid as (p & Hp & _); [|done]. exists p. split; [done|].
      rewrite Hp in Hi. simpl in Hi. apply elem_of_occurrences in Hi; [done|].
      by eapply Forall_lookup_1 in Hne.
    - intros (p & Hp & Ho). exists (PatternIndex m).
      split; [apply matcher_Match_spec; [done|]; exists p; split; [done|apply Contains_spec; eauto]|].
      unfold pattern_matches. rewrite Hp. apply list_elem_of_fmap. exists (Match_Index m).
      split; [by destruct m|]. apply elem_of_occurrences; [|done]. by eapply Forall_lookup_1 in Hne. }
  destruct (FindAll_flat a hay) as [->|(-> & Hnil)]; [done|].
  rewrite <- Hflat. destruct Hnil as [E|E]; [|by rewrite E].
  rewrite Hflat, E. split; [set_solver|]. by intros (p & Hp & _).
Qed.

Lemma FindAll_sorted a hay :
  StronglySorted (fun m n => Match_Index m <= Match_Index n) (FindAll a hay).
Proof.
  destruct a as [a|]; simpl; [|constructor].
  case_decide; [constructor|]. case_decide; [constructor|apply sort_by_Index_sorted].
Qed.

Lemma FindAll_NoDup a hay : NoDup (FindAll (Some a) hay).
Proof.
  destruct (FindAll_flat a hay) as [->|[-> _]]; [|constructor].
  pose proof (matcher_Match_NoDup (patterns a) hay) as Hnd. induction Hnd as [|pid ids Hpid _ IH]; simpl; [constructor|].
  apply NoDup_app. split_and!; [| |done].
  - apply NoDup_fmap_2; [|apply occurrences_NoDup]. by intros i j [= ->].
  - intros m (i & -> & _)%list_elem_of_fmap. rewrite list_elem_of_In, in_flat_map.
    setoid_rewrite <- list_elem_of_In. intros (pid' & Hpid' & (j & [= E _] & _)%list_elem_of_fmap).
    by subst.
Qed.

(** The matcher built by [NewAho] reports every occurrence of every
    non-empty keyword, overlapping ones included, exactly once, nothing else,
    and in ascending position. *)
Theorem FindAll_complete ps hay :
  let a := NewAho ps in
  (forall i p, p ∈ ps -> p <> "" -> occurs_at p hay i ->
     exists pid, patterns a !! pid = Some p /\
       {| PatternIndex := pid; Match_Index := i |} ∈ FindAll (Some a) hay) /\
  (forall m, m ∈ FindAll (Some a) hay ->
     exists p, p ∈ ps /\ p <> "" /\ patterns a !! PatternIndex m = Some p /\
       occurs_at p hay (Match_Index m)) /\
  NoDup (FindAll (Some a) hay) /\
  StronglySorted (fun m n => Match_Index m <= Match_Index n) (FindAll (Some a) hay).
Proof.
  intros a. destruct (NewAho_patterns ps) as [_ Hin].
  assert (Hne : Forall (fun p => p <> "") (patterns a)).
  { apply Forall_forall. intros p Hp. by apply Hin in Hp as [_ ?]. }
  split_and!; [| |apply FindAll_NoDup|apply FindAll_sorted].
  - intros i p Hp Hp' Ho. assert (p ∈ patterns a) as [pid Hpid]%list_elem_of_lookup by by apply Hin.
    exists pid. split; [done|]. apply elem_of_FindAll; [done|]. by exists p.
  - intros m Hm. apply elem_of_FindAll in Hm as (p & Hp & Ho); [|done].
    exists p. assert (p ∈ patterns a) as [? ?]%Hin by by eapply list_elem_of_lookup_2. done.
Qed.
End FindAllFacts.

(** ** A concrete matcher *)

(** Tries the patterns one after the other. *)
Definition naive_Match (ps : list string) (hay : string) : list nat :=
  filter (fun pid => Contains hay (default "" (ps !! pid)) = true) (seq 0 (List.length ps)).

#[export] Instance Match_le_dec : RelDecision (fun m n => Match_Index m <= Match_Index n).
Proof. intros m n. apply _. Defined.

Program Definition naive_lib : AhoLib :=
  {| matcher_Match := naive_Match;
     sort_by_Index := merge_sort (fun m n => Match_Index m <= Match_Index n) |}.
Next Obligation.
  intros ps hay pid _. unfold naive_Match. rewrite list_elem_of_filter, elem_of_seq. split.
  - intros [Hc Hl]. destruct (lookup_lt_is_Some_2 ps pid) as [p Hp]; [lia|].
    exists p. split; [done|]. by rewrite Hp in Hc.
  - intros (p & Hp & Hc). rewrite Hp. split; [done|]. apply lookup_lt_Some in Hp. lia.
Qed.
Next Obligation. intros. apply NoDup_filter, NoDup_seq. Qed.
Next Obligation. intros. apply merge_sort_Permutation. Qed.
Next Obligation.
  intros. apply StronglySorted_merge_sort.
  - intros m n k. simpl. lia.
  - intros m n. simpl. lia.
Qed.

Lemma FindAll_complete_witness :
  exists pid, patterns (NewAho ["key"; "ke"; "key"]) !! pid = Some "key" /\
    {| PatternIndex := pid; Match_Index := 2 |} ∈
      @FindAll naive_lib (Some (NewAho ["key"; "ke"; "key"])) "a key".
Proof.
  apply (@FindAll_complete naive_lib ["key"; "ke"; "key"] "a key"); [left|done|split; [simpl; lia|reflexivity]].
Defined.
