(* ===== verification/Literals.v ===== *)
(** * Literals: the literal tokens of a regular expression

    src/internal/scanner/regex_literals.go extracts literal runs from the
    text of a pattern; the scanner skips the pattern on a line that contains
    none of them.  [minTokenLen] is the package variable of that name. *)

From Stdlib Require Import Ascii String.
From S2P Require Import Prelude GoString Unicode.

Definition isTokenChar (b : ascii) : bool :=
  is_lower_byte b || is_upper_byte b || is_digit_byte b
  || bool_decide (b = "_"%char) || bool_decide (b = "-"%char).

(** The ASCII [toLower] of the file. *)
Definition toLower (s : string) : string := map_str lower_byte s.

Definition dedupe_step (acc : gset string * list string) (s : string) : gset string * list string :=
  let '(m, out) := acc in
  if decide (s ∈ m) then acc else ({[s]} ∪ m, out ++ [s]).

Definition dedupe (l : list string) : list string :=
  if decide (l = []) then l else (foldl dedupe_step (∅, []) l).2.

Definition is_meta (c : ascii) : bool :=
  bool_decide (c ∈ ["^"; "$"; "."; "*"; "+"; "?"; "{"; "}"; "("; ")"; "|"]%char).

(** The variables of the loop; [start] is [-1] as [None]. *)
Record lit_state := {
  inClass : bool;
  escaped : bool;
  start : option nat;
  tokens : list string;
}.

Section Extract.
Variable minTokenLen : Z.
Variable expr : string.

(** [if start >= 0 { if i-start >= min { append }; start = -1 }]. *)
Definition close_run (min : Z) (i : nat) (st : lit_state) : lit_state :=
  match start st with
  | None => st
  | Some b =>
    {| inClass := inClass st; escaped := escaped st; start := None;
       tokens := if (min <=? Z.of_nat i - Z.of_nat b)%Z
                 then tokens st ++ [toLower (slice expr b i)] else tokens st |}
  end.

(** The body of the loop for the byte [c] at offset [i]. *)
Definition lit_char (i : nat) (c : ascii) (st : lit_state) : lit_state :=
  if escaped st then
    let st := close_run minTokenLen i st in
    {| inClass := inClass st; escaped := false; start := start st; tokens := tokens st |}
  else if bool_decide (c = "\"%char) then
    {| inClass := inClass st; escaped := true; start := start st; tokens := tokens st |}
  else if bool_decide (c = "["%char) then
    let st := close_run 4 i st in
    {| inClass := true; escaped := escaped st; start := start st; tokens := tokens st |}
  else if bool_decide (c = "]"%char) && inClass st then
    {| inClass := false; escaped := escaped st; start := start st; tokens := tokens st |}
  else if inClass st then st
  else if is_meta c then close_run minTokenLen i st
  else if isTokenChar c then
    match start st with
    | Some _ => st
    | None => {| inClass := inClass st; escaped := escaped st; start := Some i; tokens := tokens st |}
    end
  else if bool_decide (c = "-"%char) && bool_decide (is_Some (start st)) then st
  else close_run minTokenLen i st.

Fixpoint lit_loop (i : nat) (rest : string) (st : lit_state) : lit_state :=
  match rest with
  | EmptyString => st
  | String c rest => lit_loop (S i) rest (lit_char i c st)
  end.

Definition lit_init : lit_state :=
  {| inClass := false; escaped := false; start := None; tokens := [] |}.

Definition extractLiteralTokensFromRegex : list string :=
  dedupe (tokens (close_run minTokenLen (String.length expr) (lit_loop 0 expr lit_init))).
End Extract.

(** ** Facts *)

Lemma dedupe_inv l :
  let acc := foldl dedupe_step (∅, []) l in
  (forall s, s ∈ acc.1 <-> s ∈ acc.2) /\ NoDup acc.2 /\ (forall s, s ∈ acc.2 <-> s ∈ l).
Proof.
  induction l as [|s l IH] using rev_ind; simpl.
  { split_and!; [set_solver|constructor|set_solver]. }
  rewrite foldl_snoc. destruct (foldl dedupe_step (∅, []) l) as [m out]. simpl in *.
  destruct IH as (Hs & Hnd & Hin). unfold dedupe_step.
  case_decide as Hm; simpl; setoid_rewrite elem_of_app.
  - split_and!; [done..|]. intros q. rewrite Hin, list_elem_of_singleton.
    apply Hs, Hin in Hm. naive_solver.
  - split_and!.
    + intros q. rewrite elem_of_union, elem_of_singleton, Hs, list_elem_of_singleton. tauto.
    + apply NoDup_app. split_and!; [done| |apply NoDup_singleton].
      intros q Hq ->%list_elem_of_singleton. by apply Hm, Hs.
    + intros q. by rewrite Hin.
Qed.

Lemma dedupe_NoDup l : NoDup (dedupe l).
Proof. unfold dedupe. case_decide; subst; [constructor|apply dedupe_inv]. Qed.

Lemma elem_of_dedupe l s : s ∈ dedupe l <-> s ∈ l.
Proof. unfold dedupe. case_decide; [done|apply dedupe_inv]. Qed.

Lemma forallb_str_app f s t : forallb_str f (s +:+ t) = forallb_str f s && forallb_str f t.
Proof. induction s as [|c s IH]; simpl; [done|]. by rewrite IH, andb_assoc. Qed.

Lemma toLower_app s t : toLower (s +:+ t) = toLower s +:+ toLower t.
Proof. unfold toLower. induction s as [|c s IH]; simpl; congruence. Qed.

Lemma Contains_toLower s p : Contains s p = true -> Contains (toLower s) (toLower p) = true.
Proof.
  rewrite !Contains_spec. intros (i & (u & v & -> & <-)%occurs_at_split).
  exists (String.length (toLower u)). apply occurs_at_split.
  exists (toLower u), (toLower v). by rewrite !toLower_app.
Qed.

(** A character the loop lets into a run, in lower case. *)
Lemma isTokenChar_lower c : isTokenChar c = true -> isTokenChar (lower_byte c) = true.
Proof. destruct c as [[] [] [] [] [] [] [] []]; vm_compute; done. Qed.

Lemma forallb_toLower s :
  forallb_str isTokenChar s = true -> forallb_str isTokenChar (toLower s) = true.
Proof.
  unfold toLower. induction s as [|c s IH]; simpl; [done|].
  intros [? ?]%andb_true_iff. by rewrite isTokenChar_lower, IH.
Qed.

Lemma slice_middle u v w : slice (u +:+ v +:+ w) (String.length u) (String.length u + String.length v) = v.
Proof.
  unfold slice. replace (String.length u + String.length v - String.length u) with (String.length v) by lia.
  rewrite <- (Nat.add_0_r (String.length u)) at 1. rewrite sdrop_app_length. simpl. apply stake_app_length.
Qed.

(** *** Patterns without escapes *)

Section NoEscapes.
Variable minTokenLen : Z.
Variable expr : string.

(** What holds of a token: lower-case token characters, a piece of the
    expression, at least as long as the smaller of the two thresholds. *)
Definition good_token (t : string) : Prop :=
  forallb_str isTokenChar t = true /\ Contains (toLower expr) t = true /\
  (Z.min minTokenLen 4 <= Z.of_nat (String.length t))%Z.

(** The state after the prefix [pre] of the expression. *)
Definition lit_inv (pre : string) (st : lit_state) : Prop :=
  escaped st = false /\ (inClass st = true -> start st = None) /\ Forall good_token (tokens st) /\
  forall b, start st = Some b ->
    exists u v, pre = u +:+ v /\ String.length u = b /\ forallb_str isTokenChar v = true.

Lemma close_run_inv min pre rest st :
  (Z.min minTokenLen 4 <= min)%Z -> expr = pre +:+ rest -> lit_inv pre st ->
  lit_inv pre (close_run expr min (String.length pre) st) /\
  start (close_run expr min (String.length pre) st) = None.
Proof.
  intros Hmin He Hi. unfold close_run. destruct (start st) as [b|] eqn:Es; [|done].
  destruct Hi as (Hesc & Hcl & Htok & Hst).
  split; [|done]. split_and!; simpl; [done|done| |done].
  case_match eqn:El; [|done]. apply Forall_app. split; [done|]. constructor; [|constructor].
  destruct (Hst b Es) as (u & v & Ep & <- & Hv).
  assert (Esl : slice expr (String.length u) (String.length pre) = v).
  { rewrite He, Ep, length_sapp, sapp_assoc. apply slice_middle. }
  rewrite Esl. split_and!.
  - by apply forallb_toLower.
  - apply Contains_toLower, Contains_spec. exists (String.length u). apply occurs_at_split.
    exists u, rest. by rewrite He, Ep, sapp_assoc.
  - unfold toLower. rewrite length_map_str. rewrite Ep, length_sapp in El. lia.
Qed.

(** Between two runs the prefix may grow by any character. *)
Lemma lit_inv_grow pre c st :
  lit_inv pre st -> start st = None \/ isTokenChar c = true -> lit_inv (pre +:+ String c "") st.
Proof.
  intros (Hesc & Hcl & Htok & Hst) Hc. split_and!; [done..|].
  intros b Hb. destruct Hc as [Hn|Hc]; [congruence|].
  destruct (Hst b Hb) as (u & v & -> & <- & Hv). exists u, (v +:+ String c "").
  rewrite sapp_assoc, forallb_str_app, Hv. simpl. by rewrite Hc.
Qed.

Lemma lit_char_inv pre c rest st :
  c <> "\"%char -> expr = pre +:+ String c rest -> lit_inv pre st ->
  lit_inv (pre +:+ String c "") (lit_char minTokenLen expr (String.length pre) c st).
Proof.
  intros Hc He Hi. pose proof Hi as (Hesc & Hcl & Htok & Hst). unfold lit_char. rewrite Hesc.
  rewrite bool_decide_eq_false_2 by done.
  pose proof (close_run_inv minTokenLen pre _ st ltac:(lia) He Hi) as [Hi1 Hn1].
  pose proof (close_run_inv 4 pre _ st ltac:(lia) He Hi) as [Hi2 Hn2].
  case_bool_decide.
  { apply lit_inv_grow; [|simpl; auto]. destruct Hi2 as (He2 & _ & Ht2 & _).
    split_and!; simpl; [done|done|done|]. by rewrite Hn2. }
  destruct (bool_decide (c = "]"%char) && inClass st) eqn:Ecl.
  { apply andb_true_iff in Ecl as [_ Ecl]. apply lit_inv_grow; [|simpl; auto].
    split_and!; simpl; [done|done|done|]. rewrite (Hcl Ecl). done. }
  destruct (inClass st) eqn:Ein; [apply lit_inv_grow; auto|].
  destruct (is_meta c); [apply lit_inv_grow; auto|].
  destruct (isTokenChar c) eqn:Et.
  { destruct (start st) as [b|] eqn:Es; [apply lit_inv_grow; auto|].
    split_and!; simpl; [done|congruence|done|]. intros b [= <-].
    exists pre, (String c ""). simpl. by rewrite Et. }
  destruct (bool_decide (c = "-"%char) && _) eqn:Ed; [|apply lit_inv_grow; auto].
  apply andb_true_iff in Ed as [Ed _]. bool_cases. by subst.
Qed.

Lemma lit_loop_inv pre rest st :
  CountByte "\" rest = 0 -> expr = pre +:+ rest -> lit_inv pre st ->
  lit_inv expr (lit_loop minTokenLen expr (String.length pre) rest st).
Proof.
  revert pre st. induction rest as [|c rest IH]; intros pre st Hc He Hi; simpl.
  { by rewrite He, sapp_nil_r. }
  simpl in Hc. case_bool_decide as Hne; [lia|].
  replace (S (String.length pre)) with (String.length (pre +:+ String c ""))
    by (rewrite length_sapp; simpl; lia).
  apply IH; [done|by rewrite sapp_assoc|by eapply lit_char_inv].
Qed.

(** For a pattern without backslashes the extracted tokens are distinct
    runs of [A-Za-z0-9_-] of the pattern, in lower case and at least as long
    as the smaller of the configured minimum and 4. *)
Theorem extract_tokens_sound :
  CountByte "\" expr = 0 ->
  NoDup (extractLiteralTokensFromRegex minTokenLen expr) /\
  Forall good_token (extractLiteralTokensFromRegex minTokenLen expr).
Proof.
  intros Hc. unfold extractLiteralTokensFromRegex. split; [apply dedupe_NoDup|].
  apply Forall_forall. intros t. rewrite elem_of_dedupe. revert t. apply Forall_forall.
  assert (Hi : lit_inv "" lit_init) by by split_and!.
  pose proof (lit_loop_inv "" expr lit_init Hc eq_refl Hi) as Hl.
  pose proof (close_run_inv minTokenLen expr "" _ ltac:(lia) (eq_sym (sapp_nil_r expr)) Hl) as [(_ & _ & H & _) _].
  done.
Qed.
End NoEscapes.

Lemma extract_tokens_sound_witness :
  extractLiteralTokensFromRegex 3 "(api|token)_Key[0-9]+" = ["api"; "token"; "_key"] /\
  Forall (good_token 3 "(api|token)_Key[0-9]+") (extractLiteralTokensFromRegex 3 "(api|token)_Key[0-9]+").
Proof.
  split; [reflexivity|]. apply (extract_tokens_sound 3 "(api|token)_Key[0-9]+"). reflexivity.
Defined.

(** *** Literal patterns *)

Lemma lit_char_token min expr i c st :
  isTokenChar c = true -> escaped st = false -> inClass st = false ->
  lit_char min expr i c st =
  {| inClass := false; escaped := false;
     start := Some (default i (start st)); tokens := tokens st |}.
Proof.
  intros Hc He Hi. unfold lit_char. rewrite He, Hi, Hc.
  assert (bool_decide (c = "\"%char) = false /\ bool_decide (c = "["%char) = false /\
          bool_decide (c = "]"%char) = false /\ is_meta c = false) as (-> & -> & -> & ->)
    by (clear -Hc; destruct c as [[] [] [] [] [] [] [] []]; try discriminate Hc; split_and!; reflexivity).
  simpl. destruct st as [ic es [b|] tk]; simpl in *; subst; done.
Qed.

Lemma lit_loop_tokens min expr i rest st :
  forallb_str isTokenChar rest = true -> rest <> "" -> escaped st = false -> inClass st = false ->
  lit_loop min expr i rest st =
  {| inClass := false; escaped := false; start := Some (default i (start st)); tokens := tokens st |}.
Proof.
  revert i st. induction rest as [|c rest IH]; intros i st Hr Hne He Hi; [done|]. simpl in *.
  apply andb_true_iff in Hr as [Hc Hr]. rewrite lit_char_token by done.
  destruct (decide (rest = "")) as [->|]; [done|]. by rewrite IH.
Qed.

Lemma extract_literal min expr :
  forallb_str isTokenChar expr = true -> expr <> "" -> (min <= Z.of_nat (String.length expr))%Z ->
  extractLiteralTokensFromRegex min expr = [toLower expr].
Proof.
  intros Hall Hne Hmin. unfold extractLiteralTokensFromRegex.
  rewrite lit_loop_tokens by done. unfold close_run. simpl.
  replace (min <=? Z.of_nat (String.length expr) - Z.of_nat 0)%Z with true by lia.
  assert (slice expr 0 (String.length expr) = expr) as ->.
  { unfold slice. rewrite Nat.sub_0_r. simpl. by apply stake_ge. }
  reflexivity.
Qed.

Lemma isTokenChar_ascii s : forallb_str isTokenChar s = true -> is_ascii_str s = true.
Proof.
  unfold is_ascii_str. induction s as [|c s IH]; simpl; [done|].
  intros [Hc Hs]%andb_true_iff. rewrite IH by done. rewrite andb_true_r. clear -Hc.
  destruct c as [[] [] [] [] [] [] [] []]; try reflexivity; discriminate Hc.
Qed.

(** The gate is sound for a literal pattern: every line (of ASCII text)
    in which it occurs, in whatever case, contains the pattern's only token
    once lowered, so the pattern is tried. *)
Theorem literal_gate_opens min expr line i :
  forallb_str isTokenChar expr = true -> expr <> "" -> (min <= Z.of_nat (String.length expr))%Z ->
  is_ascii_str line = true -> occurs_at (toLower expr) (toLower line) i ->
  exists t, extractLiteralTokensFromRegex min expr = [t] /\ Contains (ToLower line) t = true.
Proof.
  intros Hall Hne Hmin Hl Ho. exists (toLower expr). split; [by apply extract_literal|].
  rewrite ToLower_ascii by done. apply Contains_spec. by exists i.
Qed.

Lemma literal_gate_opens_witness :
  exists t, extractLiteralTokensFromRegex 3 "API_Key" = [t] /\ Contains (ToLower "my Api_KEY=1") t = true.
Proof.
  apply (literal_gate_opens 3 "API_Key" "my Api_KEY=1" 3);
    [reflexivity|done|vm_compute; done|reflexivity|split; [simpl; lia|reflexivity]].
Defined.

(** *** Where the extraction is not conservative

    The run that an escape ends keeps its backslash, so the token contains a
    character that is not of [A-Za-z0-9_-]; the token of an optional
    character or of one alternative is not in every match of the pattern. *)
Lemma tokens_not_conservative :
  extractLiteralTokensFromRegex 3 "\bsecret\b" = ["secret\"] /\
  Contains "my secret word" "secret\" = false /\
  extractLiteralTokensFromRegex 3 "colou?r" = ["colou"] /\
  extractLiteralTokensFromRegex 3 "root|su" = ["root"] /\
  extractLiteralTokensFromRegex 3 "abc[0-9]" = [] /\ extractLiteralTokensFromRegex 3 "abc.[0-9]" = ["abc"].
Proof. vm_compute. done. Qed.
