(* ===== verification/Engine.v ===== *)
(** * Engine: the regular-expression engine and caches the scanner calls

    The packages the scanner relies on, as interfaces: Go's [regexp] and the
    hashicorp LRU cache.  Each class names the operations the code calls and
    the documented behaviour the theorems use; an instance of each shows that
    the behaviour can be had. *)

From Stdlib Require Import Ascii String.
From S2P Require Import Prelude GoString.

(** ** [regexp] *)

(** A location is a pair of byte offsets into the searched text. *)
Definition loc : Type := nat * nat.

Class RegexpEngine := {
  regexp : Type;
  regexp_Compile : string -> result string regexp;
  FindStringIndex : regexp -> string -> option loc;
  FindAllStringIndex : regexp -> string -> list loc;
  (** Locations are slices of the text. *)
  FindAll_bounds : forall rx s l, l ∈ FindAllStringIndex rx s -> l.1 <= l.2 <= String.length s;
  (** [FindStringIndex] is the leftmost match, the first of all matches. *)
  FindAll_head : forall rx s, head (FindAllStringIndex rx s) = FindStringIndex rx s;
  (** Successive matches start at increasing offsets. *)
  FindAll_increasing : forall rx s,
    StronglySorted (fun l1 l2 => l1.1 < l2.1) (FindAllStringIndex rx s);
}.

Lemma Find_bounds `{RegexpEngine} rx s l :
  FindStringIndex rx s = Some l -> l.1 <= l.2 <= String.length s.
Proof.
  intros Hl. apply (FindAll_bounds rx s). rewrite <- FindAll_head in Hl.
  destruct (FindAllStringIndex rx s); simplify_eq/=. left.
Qed.

Lemma FindAll_nil `{RegexpEngine} rx s :
  FindAllStringIndex rx s = [] <-> FindStringIndex rx s = None.
Proof. rewrite <- FindAll_head. by destruct (FindAllStringIndex rx s). Qed.

(** An engine whose expressions are literal texts: it finds the first
    occurrence only. *)
Definition literal_find (p s : string) : option loc :=
  (fun i => (i, i + String.length p)) <$> Index s p.

Definition literal_compile (s : string) : result string string :=
  if decide (s = ")") then Err "unexpected ): `)`" else Ok s.
Definition literal_find_all (p s : string) : list loc := match literal_find p s with Some l => [l] | None => [] end.

Program Definition literal_engine : RegexpEngine :=
  {| regexp := string; regexp_Compile := literal_compile;
     FindStringIndex := literal_find; FindAllStringIndex := literal_find_all |}.
Next Obligation.
  intros p s l. unfold literal_find_all, literal_find.
  destruct (Index s p) as [i|] eqn:E; simpl; [|set_solver].
  intros ->%list_elem_of_singleton. apply Index_Some in E as [Ho _].
  apply occurs_at_bound in Ho. simpl. lia.
Qed.
Next Obligation. intros p s. unfold literal_find_all. by destruct (literal_find p s). Qed.
Next Obligation. intros p s. unfold literal_find_all. destruct (literal_find p s); repeat constructor. Qed.

(** ** [golang-lru/v2] *)

(** [lru_Peek] is the documented read without side effects, through which
    the others are specified; an [Add] may evict other keys. *)
Class LruLib := {
  lru : Type -> Type;
  lru_New : forall {V}, Z -> option (lru V);
  lru_Peek : forall {V}, lru V -> string -> option V;
  lru_Get : forall {V}, lru V -> string -> option V * lru V;
  lru_Add : forall {V}, lru V -> string -> V -> lru V;
  lru_Remove : forall {V}, lru V -> string -> lru V;
  lru_New_pos : forall {V} n, (0 < n)%Z -> is_Some (@lru_New V n);
  lru_New_empty : forall {V} n (c : lru V) k, lru_New n = Some c -> lru_Peek c k = None;
  lru_Get_Peek : forall {V} (c : lru V) k, (lru_Get c k).1 = lru_Peek c k;
  lru_Get_keeps : forall {V} (c : lru V) k k', lru_Peek (lru_Get c k).2 k' = lru_Peek c k';
  lru_Add_same : forall {V} (c : lru V) k v, lru_Peek (lru_Add c k v) k = Some v;
  lru_Add_other : forall {V} (c : lru V) k v k' w,
    k <> k' -> lru_Peek (lru_Add c k v) k' = Some w -> lru_Peek c k' = Some w;
  lru_Remove_same : forall {V} (c : lru V) k, lru_Peek (lru_Remove c k) k = None;
  lru_Remove_other : forall {V} (c : lru V) k k',
    k <> k' -> lru_Peek (lru_Remove c k) k' = lru_Peek c k';
}.

(** A cache of positive capacity as the list of its entries, most recent
    first. *)
Module ListLru.
Record t (V : Type) := Make { cap : positive; entries : list (string * V) }.
Arguments Make {V} cap entries.
Arguments cap {V} _.
Arguments entries {V} _.

Fixpoint assoc {V} (l : list (string * V)) (k : string) : option V :=
  match l with [] => None | (k', v) :: l => if decide (k' = k) then Some v else assoc l k end.

Definition without {V} (k : string) (l : list (string * V)) : list (string * V) :=
  filter (fun e => e.1 <> k) l.

Definition New {V} (n : Z) : option (t V) :=
  match n with Zpos p => Some (Make p []) | _ => None end.
Definition Peek {V} (c : t V) (k : string) : option V := assoc (entries c) k.
Definition Get {V} (c : t V) (k : string) : option V * t V :=
  match assoc (entries c) k with
  | None => (None, c)
  | Some v => (Some v, Make (cap c) ((k, v) :: without k (entries c)))
  end.
Definition Add {V} (c : t V) (k : string) (v : V) : t V :=
  Make (cap c) (take (Pos.to_nat (cap c)) ((k, v) :: without k (entries c))).
Definition Remove {V} (c : t V) (k : string) : t V := Make (cap c) (without k (entries c)).

Lemma assoc_without {V} (l : list (string * V)) k k' :
  assoc (without k l) k' = if decide (k = k') then None else assoc l k'.
Proof.
  unfold without. induction l as [|[k'' v] l IH]; [by case_decide|].
  rewrite filter_cons. simpl. destruct (decide (k'' <> k)) as [Hn|Hn]; simpl; rewrite IH.
  - repeat case_decide; congruence.
  - assert (k'' = k) as -> by (destruct (decide (k'' = k)); tauto). repeat case_decide; congruence.
Qed.

Lemma assoc_take {V} n (l : list (string * V)) k v : assoc (take n l) k = Some v -> assoc l k = Some v.
Proof.
  revert n. induction l as [|[k' w] l IH]; intros [|n]; simpl; try done. case_decide; eauto.
Qed.
End ListLru.

Program Definition list_lru : LruLib :=
  {| lru := ListLru.t; lru_New := @ListLru.New; lru_Peek := @ListLru.Peek; lru_Get := @ListLru.Get;
     lru_Add := @ListLru.Add; lru_Remove := @ListLru.Remove |}.
Next Obligation. intros V [|p|p] ?; [lia|by eexists|lia]. Qed.
Next Obligation. intros V [|p|p] c k; simpl; intros [=]. by subst. Qed.
Next Obligation. intros V c k. unfold ListLru.Get, ListLru.Peek. by case_match. Qed.
Next Obligation.
  intros V c k k'. unfold ListLru.Get, ListLru.Peek. destruct (ListLru.assoc _ k) eqn:E; [|done].
  simpl. rewrite ListLru.assoc_without. repeat case_decide; congruence.
Qed.
Next Obligation.
  intros V c k v. unfold ListLru.Add, ListLru.Peek. simpl.
  destruct (Pos2Nat.is_succ (ListLru.cap c)) as [n ->]. simpl. by rewrite decide_True.
Qed.
Next Obligation.
  intros V c k v k' w Hk. unfold ListLru.Add, ListLru.Peek. cbn [ListLru.entries].
  intros H%ListLru.assoc_take. simpl in H. rewrite decide_False in H by done.
  rewrite ListLru.assoc_without, decide_False in H; done.
Qed.
Next Obligation. intros V c k. unfold ListLru.Remove, ListLru.Peek. simpl. by rewrite ListLru.assoc_without, decide_True. Qed.
Next Obligation.
  intros V c k k' Hk. unfold ListLru.Remove, ListLru.Peek. simpl. by rewrite ListLru.assoc_without, decide_False.
Qed.
