(* ===== verification/Compile.v ===== *)
(** * Compile: from rules to compiled rules

    src/internal/scanner/rule_eval.go: compilation of the merged rules, the
    global cache of compiled expressions (with [cacheKey] of
    regex_literals.go), and the when/unless conditions. *)

From Stdlib Require Import Ascii String.
From S2P Require Import Prelude GoString Unicode Rules Complexity Literals Engine.

(** The parts of the environment read by the scanner: [os.Getenv] and
    [time.ParseDuration], in nanoseconds. *)
Class Platform := {
  getenv : string -> string;
  ParseDuration : string -> option Z;
}.

(** The package variables [minTokenLen] and [globalMaxPatternLength]. *)
Record Globals := {
  minTokenLen : Z;
  globalMaxPatternLength : Z;
}.

Definition globals0 : Globals := {| minTokenLen := 3; globalMaxPatternLength := 0 |}.

(** ** Errors *)

(** The errors of [compileRegex]. *)
Inductive regex_error :=
  | EmptyRegex
  | LongerThan (n : Z)
  | InvalidRegex (expr msg : string).

(** The errors collected by [compileRules], each naming the rule and the
    position of the pattern. *)
Inductive pattern_error :=
  | PatternTooLong
  | PatternTooComplex (msg : string)
  | PatternInvalid (e : regex_error).

Inductive compile_error :=
  | RulePattern (id : string) (i : nat) (e : pattern_error)
  | RuleFallback (id : string) (i : nat) (e : regex_error).

(** ** The cache key *)

Definition cacheKey (expr : string) (flags : list string) : string :=
  match flags with
  | [] => expr
  | _ => expr +:+ "::" +:+ String.concat "" (map (fun f => ToLower f +:+ ",") flags)
  end.

Definition coalesce (v def : string) : string := if bool_decide (v = "") then def else v.

Section Compile.
Context `{RegexpSyntax, RegexpEngine, LruLib, Platform}.

(** [globalRegexCache.cache]; nil until [init] has run. *)
Definition regex_cache : Type := option (lru regexp).

Record compiledRule := {
  cr_id : string;
  cr_message : string;
  cr_severity : string;
  cr_category : string;
  cr_level : Z;
  cr_keywords : list string;
  cr_regexes : list regexp;
  cr_verifiers : list string;
  cr_semantic : option Semantic;
  cr_fallbackRegexes : list regexp;
  cr_when : option Condition;
  cr_unless : option Condition;
  cr_timeoutMs : Z;
  cr_requireAll : bool;
  cr_caseSensitive : bool;
  cr_wholeWord : bool;
  cr_literalTokens : list string;
  cr_response : option Response;
  cr_fallbackAction : string;
  cr_cacheEnabled : bool;
  cr_cacheTTL : Z;
  cr_cacheMaxEntries : Z;
}.

(** [compileRegex] with the cache it reads and fills. *)
Definition compileRegex (g : Globals) (expr : string) (flags : list string) (c : regex_cache) :
    result regex_error regexp * regex_cache :=
  if bool_decide (expr = "") then (Err EmptyRegex, c)
  else if ((0 <? globalMaxPatternLength g) &&
           (globalMaxPatternLength g <? Z.of_nat (String.length expr)))%Z
  then (Err (LongerThan (globalMaxPatternLength g)), c)
  else
    let prefix := inline_flags flags in
    let key := cacheKey (prefix +:+ expr) flags in
    let '(hit, c) :=
      match c with
      | Some ca => let '(r, ca) := lru_Get ca key in (r, Some ca)
      | None => (None, c)
      end in
    match hit with
    | Some rx => (Ok rx, c)
    | None =>
      match regexp_Compile (prefix +:+ expr) with
      | Err e => (Err (InvalidRegex expr e), c)
      | Ok rx =>
        (Ok rx, match c with Some ca => Some (lru_Add ca key rx) | None => None end)
      end
    end.

Definition maxPatternLength : Z := 1000.

(** What the loops over patterns accumulate. *)
Record compile_acc := {
  acc_regexes : list regexp;
  acc_verifiers : list string;
  acc_tokens : list string;
  acc_errs : list compile_error;
  acc_cache : regex_cache;
}.

(** One turn of [for i, pat := range r.Patterns]. *)
Definition compile_pattern (g : Globals) (id : string) (acc : compile_acc) (ip : nat * Pattern) :
    compile_acc :=
  let '(i, pat) := ip in
  let fail e := {| acc_regexes := acc_regexes acc; acc_verifiers := acc_verifiers acc;
                   acc_tokens := acc_tokens acc; acc_errs := acc_errs acc ++ [RulePattern id i e];
                   acc_cache := acc_cache acc |} in
  if (maxPatternLength <? Z.of_nat (String.length (pat_Regex pat)))%Z then fail PatternTooLong
  else match CheckRegexComplexity getenv (pat_Regex pat) (pat_Flags pat) with
  | Err e => fail (PatternTooComplex e)
  | Ok tt =>
    let '(r, c) := compileRegex g (pat_Regex pat) (pat_Flags pat) (acc_cache acc) in
    let toks := extractLiteralTokensFromRegex (minTokenLen g) (pat_Regex pat) in
    match r with
    | Err e =>
      {| acc_regexes := acc_regexes acc; acc_verifiers := acc_verifiers acc;
         acc_tokens := acc_tokens acc ++ toks;
         acc_errs := acc_errs acc ++ [RulePattern id i (PatternInvalid e)]; acc_cache := c |}
    | Ok rx =>
      {| acc_regexes := acc_regexes acc ++ [rx];
         acc_verifiers := acc_verifiers acc ++ [ToLower (TrimSpace (pat_Verifier pat))];
         acc_tokens := acc_tokens acc ++ toks; acc_errs := acc_errs acc; acc_cache := c |}
    end
  end.

(** One turn of [for i, p := range r.Fallback.Patterns]. *)
Definition compile_fallback (g : Globals) (id : string)
    (acc : list regexp * list compile_error * regex_cache) (ip : nat * Pattern) :
    list regexp * list compile_error * regex_cache :=
  let '(rxs, errs, c) := acc in
  let '(i, p) := ip in
  let '(r, c) := compileRegex g (pat_Regex p) (pat_Flags p) c in
  match r with
  | Err e => (rxs, errs ++ [RuleFallback id i e], c)
  | Ok rx => (rxs ++ [rx], errs, c)
  end.

Definition indexed {A} (l : list A) : list (nat * A) := zip (seq 0 (List.length l)) l.

Definition Milliseconds (d : Z) : Z := Z.quot d 1000000.

(** [cr.timeoutMs]. *)
Definition rule_timeout (defaultRuleTimeoutMs : Z) (r : Rule) : Z :=
  let t := if bool_decide (r_Timeout r = "") then 0%Z
           else match ParseDuration (r_Timeout r) with Some d => Milliseconds d | None => 0%Z end in
  if ((t =? 0) && (0 <? defaultRuleTimeoutMs))%Z then defaultRuleTimeoutMs else t.

Definition compile_patterns (g : Globals) (r : Rule) (c : regex_cache) : compile_acc :=
  foldl (compile_pattern g (r_ID r))
    {| acc_regexes := []; acc_verifiers := []; acc_tokens := []; acc_errs := []; acc_cache := c |}
    (indexed (r_Patterns r)).

(** [if r.Fallback != nil { ... }] *)
Definition compile_fallbacks (g : Globals) (r : Rule) (errs : list compile_error) (c : regex_cache) :
    list regexp * list compile_error * regex_cache :=
  match r_Fallback r with
  | None => ([], errs, c)
  | Some fb => foldl (compile_fallback g (r_ID r)) ([], errs, c) (indexed (fb_Patterns fb))
  end.

(** The fields of [cr] that are read off the rule and the defaults. *)
Definition build_rule (defaultRuleTimeoutMs : Z) (defaultCaseSensitive defaultWholeWord : bool)
    (r : Rule) (regexes : list regexp) (verifiers tokens : list string) (fbs : list regexp) :
    compiledRule :=
  let caseSensitive := defaultCaseSensitive || opt_CaseSensitive (r_Options r) in
  {| cr_id := r_ID r;
     cr_message := coalesce (r_Name r) "rule violation";
     cr_severity := coalesce (r_Severity r) "INFO";
     cr_category := r_Category r;
     cr_level := r_Level r;
     cr_keywords := map (fun kw => if caseSensitive then kw else ToLower kw) (r_Keywords r);
     cr_regexes := regexes;
     cr_verifiers := verifiers;
     cr_semantic := r_Semantic r;
     cr_fallbackRegexes := fbs;
     cr_when := r_When r;
     cr_unless := r_Unless r;
     cr_timeoutMs := rule_timeout defaultRuleTimeoutMs r;
     cr_requireAll := EqualFold (r_Logic r) "all";
     cr_caseSensitive := caseSensitive;
     cr_wholeWord := defaultWholeWord || opt_WholeWord (r_Options r);
     cr_literalTokens := tokens;
     cr_response := r_Response r;
     cr_fallbackAction := match r_Fallback r with Some fb => fb_Action fb | None => "" end;
     cr_cacheEnabled := match r_Cache r with Some ca => cache_Enabled ca | None => false end;
     cr_cacheTTL :=
       match r_Cache r with
       | Some ca => if bool_decide (TrimSpace (cache_TTL ca) = "") then 0%Z
                    else default 0%Z (ParseDuration (TrimSpace (cache_TTL ca)))
       | None => 0%Z
       end;
     cr_cacheMaxEntries :=
       match r_Cache r with
       | Some ca => if (0 <? cache_MaxEntries ca)%Z then cache_MaxEntries ca else 0%Z
       | None => 0%Z
       end |}.

(** One turn of the outer loop of [compileRules]. *)
Definition compileRule (g : Globals) (defaultRuleTimeoutMs : Z)
    (defaultCaseSensitive defaultWholeWord : bool) (r : Rule) (c : regex_cache) :
    compiledRule * list compile_error * regex_cache :=
  let acc := compile_patterns g r c in
  let '(fbs, errs, c) := compile_fallbacks g r (acc_errs acc) (acc_cache acc) in
  (build_rule defaultRuleTimeoutMs defaultCaseSensitive defaultWholeWord r
     (acc_regexes acc) (acc_verifiers acc) (acc_tokens acc) fbs, errs, c).

Fixpoint compileRules (g : Globals) (defaultRuleTimeoutMs : Z)
    (defaultCaseSensitive defaultWholeWord : bool) (rulesList : list Rule) (c : regex_cache) :
    list compiledRule * list compile_error * regex_cache :=
  match rulesList with
  | [] => ([], [], c)
  | r :: rs =>
    let '(cr, errs, c) := compileRule g defaultRuleTimeoutMs defaultCaseSensitive defaultWholeWord r c in
    let '(crs, errs', c) := compileRules g defaultRuleTimeoutMs defaultCaseSensitive defaultWholeWord rs c in
    (cr :: crs, errs ++ errs', c)
  end.
End Compile.

(** ** Conditions *)

(** [conditionMatches]: every key of [Match] is in the context with one of
    its values, in any case.  A nil context has no keys. *)
Definition conditionMatches (c : option Condition) (ctx : gmap string string) : bool :=
  match c with
  | None => true
  | Some c =>
    forallb (fun '(k, vals) =>
      match ctx !! k with
      | None => false
      | Some got => existsb (EqualFold got) vals
      end) (map_to_list (cond_Match c))
  end.

Definition contextMatches (when unless : option Condition) (ctx : gmap string string) : bool :=
  if bool_decide (is_Some unless) && conditionMatches unless ctx then false
  else match when with
       | None => true
       | Some _ => conditionMatches when ctx
       end.

(** ** The cache of compiled expressions is transparent *)

(** [e] neither contains a double colon nor ends in a colon: the separator of
    a cache key built from [e] is the first double colon in it. *)
Definition clean_expr (e : string) : Prop := Index (e +:+ "::") "::" = Some (String.length e).

(** The expression a key was built from. *)
Definition key_expr (k : string) : string :=
  match Index k "::" with Some i => stake i k | None => k end.

Lemma Index_app_Some s t p i : Index s p = Some i -> Index (s +:+ t) p = Some i.
Proof.
  intros E. apply Index_Some in E as [(u & v & -> & Hu)%occurs_at_split Hmin].
  apply Index_Some. split.
  - apply occurs_at_split. exists u, (v +:+ t). by rewrite !sapp_assoc.
  - intros j Hj [_ Ho]. apply (Hmin j Hj). split; [rewrite !length_sapp; lia|].
    rewrite sdrop_app_le in Ho by (rewrite !length_sapp; lia).
    rewrite HasPrefix_app in Ho; [done|]. rewrite length_sdrop, !length_sapp. lia.
Qed.

Lemma key_expr_cacheKey e fl : clean_expr e -> key_expr (cacheKey e fl) = e.
Proof.
  unfold clean_expr, key_expr. intros Hc. destruct fl as [|f fl]; cbn [cacheKey].
  - destruct (Index e "::") as [i|] eqn:E; [|done].
    apply (Index_app_Some _ "::") in E as E'. rewrite Hc in E'. injection E' as <-.
    apply stake_ge. lia.
  - rewrite <- sapp_assoc, (Index_app_Some _ _ _ _ Hc), sapp_assoc. apply stake_app_length.
Qed.

Section CompileFacts.
Context `{RegexpSyntax, RegexpEngine, LruLib, Platform}.
Implicit Types (c : regex_cache) (r : Rule).

(** Every entry is what the compiler returns for the expression of its key. *)
Definition cache_inv c : Prop :=
  forall ca k rx, c = Some ca -> lru_Peek ca k = Some rx -> regexp_Compile (key_expr k) = Ok rx.

Definition clean_pattern (p : Pattern) : Prop :=
  clean_expr (inline_flags (pat_Flags p) +:+ pat_Regex p).

Lemma compileRegex_cached g expr flags c :
  cache_inv c -> clean_expr (inline_flags flags +:+ expr) ->
  (compileRegex g expr flags c).1 = (compileRegex g expr flags None).1 /\
  cache_inv (compileRegex g expr flags c).2.
Proof.
  intros Hinv Hcl. unfold compileRegex. case_bool_decide; [done|]. case_match; [done|].
  destruct c as [ca|]; [|repeat case_match; done].
  pose proof (lru_Get_Peek ca (cacheKey (inline_flags flags +:+ expr) flags)) as Hg.
  pose proof (lru_Get_keeps ca (cacheKey (inline_flags flags +:+ expr) flags)) as Hk.
  destruct (lru_Get ca _) as [hit ca']. simpl in Hg, Hk.
  assert (Hinv' : cache_inv (Some ca')).
  { intros ca'' k rx [= <-] Hp. rewrite Hk in Hp. by eapply Hinv. }
  destruct hit as [rx|]; simpl.
  - symmetry in Hg. apply (Hinv ca) in Hg; [|done]. rewrite key_expr_cacheKey in Hg by done.
    by rewrite Hg.
  - destruct (regexp_Compile _) as [rx|e] eqn:E; simpl; split; try done.
    intros ca'' k rx' [= <-] Hp.
    destruct (decide (cacheKey (inline_flags flags +:+ expr) flags = k)) as [<-|Hne].
    + rewrite lru_Add_same in Hp. injection Hp as <-. by rewrite key_expr_cacheKey.
    + apply lru_Add_other in Hp; [|done]. by eapply Hinv'.
Qed.

Lemma compileRegex_uncached g expr flags : (compileRegex g expr flags None).2 = None.
Proof. unfold compileRegex. repeat case_match; simplify_eq; done. Qed.

Definition strip (a : compile_acc) : compile_acc :=
  {| acc_regexes := acc_regexes a; acc_verifiers := acc_verifiers a; acc_tokens := acc_tokens a;
     acc_errs := acc_errs a; acc_cache := None |}.

Lemma compile_pattern_cached g id a ip :
  cache_inv (acc_cache a) -> clean_pattern ip.2 ->
  strip (compile_pattern g id a ip) = compile_pattern g id (strip a) ip /\
  cache_inv (acc_cache (compile_pattern g id a ip)).
Proof.
  destruct ip as [i pat]. simpl. intros Hinv Hcl. unfold compile_pattern.
  case_match; [done|]. case_match; [|done]. case_match. simpl.
  pose proof (compileRegex_cached g (pat_Regex pat) (pat_Flags pat) _ Hinv Hcl) as [E Hinv'].
  pose proof (compileRegex_uncached g (pat_Regex pat) (pat_Flags pat)) as En.
  destruct (compileRegex g _ _ (acc_cache a)) as [r1 c1].
  destruct (compileRegex g _ _ None) as [r2 c2]. simpl in *. subst. by destruct r2.
Qed.

Lemma compile_pattern_fold_cached g id l a :
  cache_inv (acc_cache a) -> Forall (fun ip => clean_pattern ip.2) l ->
  strip (foldl (compile_pattern g id) a l) = foldl (compile_pattern g id) (strip a) l /\
  cache_inv (acc_cache (foldl (compile_pattern g id) a l)).
Proof.
  intros Hinv Hl. revert a Hinv. induction Hl as [|ip l Hip _ IH]; intros a Hinv; simpl; [done|].
  destruct (compile_pattern_cached g id a ip Hinv Hip) as [E Hinv']. rewrite <- E. by apply IH.
Qed.

Lemma compile_fallback_fold_cached g id l rxs errs c :
  cache_inv c -> Forall (fun ip => clean_pattern ip.2) l ->
  (foldl (compile_fallback g id) (rxs, errs, c) l).1 =
    (foldl (compile_fallback g id) (rxs, errs, None) l).1 /\
  cache_inv (foldl (compile_fallback g id) (rxs, errs, c) l).2.
Proof.
  intros Hinv Hl. revert rxs errs c Hinv. induction Hl as [|[i p] l Hip _ IH]; intros rxs errs c Hinv; [done|].
  pose proof (compileRegex_cached g (pat_Regex p) (pat_Flags p) c Hinv Hip) as [E Hinv'].
  pose proof (compileRegex_uncached g (pat_Regex p) (pat_Flags p)) as En. simpl.
  destruct (compileRegex g _ _ c) as [r1 c1]. destruct (compileRegex g _ _ None) as [r2 c2].
  simpl in *. subst. destruct r2; by apply IH.
Qed.

Definition clean_rule r : Prop :=
  Forall clean_pattern (r_Patterns r) /\
  forall fb, r_Fallback r = Some fb -> Forall clean_pattern (fb_Patterns fb).

Lemma Forall_indexed {A} (P : A -> Prop) (l : list A) :
  Forall P l -> Forall (fun ip => P ip.2) (indexed l).
Proof.
  unfold indexed. generalize 0 as n. intros n Hl. revert n.
  induction Hl as [|a l Ha _ IH]; intros n; simpl; [constructor|]. constructor; [done|apply IH].
Qed.

Lemma compile_patterns_cached g r c :
  cache_inv c -> Forall clean_pattern (r_Patterns r) ->
  strip (compile_patterns g r c) = compile_patterns g r None /\
  cache_inv (acc_cache (compile_patterns g r c)).
Proof. intros Hinv Hp. by apply compile_pattern_fold_cached; [|apply Forall_indexed]. Qed.

Lemma compile_fallbacks_cached g r errs c :
  cache_inv c -> (forall fb, r_Fallback r = Some fb -> Forall clean_pattern (fb_Patterns fb)) ->
  (compile_fallbacks g r errs c).1 = (compile_fallbacks g r errs None).1 /\
  cache_inv (compile_fallbacks g r errs c).2.
Proof.
  intros Hinv Hf. unfold compile_fallbacks. destruct (r_Fallback r) as [fb|]; [|done].
  by apply compile_fallback_fold_cached; [|apply Forall_indexed, Hf].
Qed.

Lemma compileRule_cached g t cs ww r c :
  cache_inv c -> clean_rule r ->
  (compileRule g t cs ww r c).1 = (compileRule g t cs ww r None).1 /\
  cache_inv (compileRule g t cs ww r c).2.
Proof.
  intros Hinv [Hp Hf]. unfold compileRule.
  destruct (compile_patterns_cached g r c Hinv Hp) as [E Hinv']. rewrite <- E. simpl.
  set (a := compile_patterns g r c) in *.
  destruct (compile_fallbacks_cached g r (acc_errs a) _ Hinv' Hf) as [E' Hinv''].
  destruct (compile_fallbacks g r (acc_errs a) (acc_cache a)) as [[fbs errs] c1].
  destruct (compile_fallbacks g r (acc_errs a) None) as [[fbs' errs'] c1']. by simplify_eq/=.
Qed.

(** The global cache of compiled expressions is transparent: for rules
    whose expressions cannot be confused in a cache key, compiling with any
    cache that was filled by earlier compilations gives the rules and the
    errors that compiling without a cache gives, and keeps the cache sound. *)
Theorem compileRules_cache_transparent g t cs ww rs c :
  cache_inv c -> Forall clean_rule rs ->
  (compileRules g t cs ww rs c).1 = (compileRules g t cs ww rs None).1 /\
  cache_inv (compileRules g t cs ww rs c).2.
Proof.
  intros Hinv Hrs. revert c Hinv. induction Hrs as [|r rs Hr _ IH]; intros c Hinv; [done|].
  cbn [compileRules]. destruct (compileRule_cached g t cs ww r c Hinv Hr) as [E Hinv1].
  destruct (compileRule_cached g t cs ww r None) as [E0 _]; [done|done|].
  destruct (compileRule g t cs ww r c) as [[cr errs] c1].
  destruct (compileRule g t cs ww r None) as [[cr' errs'] c1'] eqn:En. simpl in E. injection E as -> ->.
  destruct (IH c1 Hinv1) as [E1 Hinv2]. destruct (IH c1') as [E2 _].
  { eapply (compileRule_cached g t cs ww r None) in Hr as [_ Hn]; [|done]. by rewrite En in Hn. }
  destruct (compileRules g t cs ww rs c1) as [[crs errs2] c2].
  destruct (compileRules g t cs ww rs c1') as [[crs' errs2'] c2']. simpl in *.
  destruct (compileRules g t cs ww rs None) as [[crs'' errs2''] c2'']. by simplify_eq/=.
Qed.

(** *** Every pattern is compiled or reported *)

Definition err_rule (e : compile_error) : string :=
  match e with RulePattern id _ _ => id | RuleFallback id _ _ => id end.

Definition patterns_of (r : Rule) : nat :=
  List.length (r_Patterns r) +
  match r_Fallback r with Some fb => List.length (fb_Patterns fb) | None => 0 end.

Definition expressions_of (cr : compiledRule) : nat :=
  List.length (cr_regexes cr) + List.length (cr_fallbackRegexes cr).

(** What the loop over [n] patterns has produced. *)
Definition acc_ok (id : string) (n : nat) (a : compile_acc) : Prop :=
  List.length (acc_regexes a) = List.length (acc_verifiers a) /\
  List.length (acc_regexes a) + List.length (acc_errs a) = n /\
  Forall (fun e => err_rule e = id) (acc_errs a).

Lemma compile_pattern_ok g id n a ip : acc_ok id n a -> acc_ok id (S n) (compile_pattern g id a ip).
Proof.
  intros (Hv & Hn & He). destruct ip as [i pat]. unfold compile_pattern, acc_ok.
  repeat case_match; simpl; rewrite ?length_app; simpl; split_and!; try lia; try done;
    (apply Forall_app; split; [done|by repeat constructor]).
Qed.

Lemma compile_pattern_fold_ok g id l n a :
  acc_ok id n a -> acc_ok id (n + List.length l) (foldl (compile_pattern g id) a l).
Proof.
  revert n a. induction l as [|ip l IH]; intros n a Ha; simpl; [by rewrite Nat.add_0_r|].
  replace (n + S (List.length l)) with (S n + List.length l) by lia. by apply IH, compile_pattern_ok.
Qed.

Lemma length_indexed {A} (l : list A) : List.length (indexed l) = List.length l.
Proof. unfold indexed. rewrite length_zip_with, length_seq. lia. Qed.

Lemma compile_fallback_fold_ok g id l rxs errs c :
  Forall (fun e => err_rule e = id) errs ->
  let '(rxs', errs', _) := foldl (compile_fallback g id) (rxs, errs, c) l in
  List.length rxs' + List.length errs' = List.length rxs + List.length errs + List.length l /\
  Forall (fun e => err_rule e = id) errs'.
Proof.
  revert rxs errs c. induction l as [|[i p] l IH]; intros rxs errs c He; simpl; [split; [lia|done]|].
  destruct (compileRegex g _ _ c) as [[rx|e] c'].
  - specialize (IH (rxs ++ [rx]) errs c' He). destruct (foldl _ _ l) as [[rxs' errs'] c''].
    rewrite length_app in IH. simpl in IH. split; [lia|tauto].
  - specialize (IH rxs (errs ++ [RuleFallback id i e]) c').
    destruct (foldl _ _ l) as [[rxs' errs'] c'']. rewrite length_app in IH. simpl in IH.
    destruct IH; [apply Forall_app; split; [done|by repeat constructor]|]. split; [lia|tauto].
Qed.

Lemma compileRule_ok g t cs ww r c :
  let '(cr, errs, _) := compileRule g t cs ww r c in
  cr_id cr = r_ID r /\ List.length (cr_regexes cr) = List.length (cr_verifiers cr) /\
  expressions_of cr + List.length errs = patterns_of r /\ Forall (fun e => err_rule e = r_ID r) errs.
Proof.
  unfold compileRule, expressions_of, patterns_of, compile_patterns, compile_fallbacks.
  destruct (compile_pattern_fold_ok g (r_ID r) (indexed (r_Patterns r)) 0
    {| acc_regexes := []; acc_verifiers := []; acc_tokens := []; acc_errs := []; acc_cache := c |})
    as (Hv & Hn & He); [by repeat split|].
  destruct (foldl (compile_pattern g (r_ID r)) _ _) as [rxs vs toks errs c1]. simpl in *.
  rewrite length_indexed in Hn. destruct (r_Fallback r) as [fb|]; simpl; [|split_and!; (done || lia)].
  pose proof (compile_fallback_fold_ok g (r_ID r) (indexed (fb_Patterns fb)) [] errs c1 He) as Hf.
  destruct (foldl _ _ _) as [[fbs errs'] c2]. rewrite length_indexed in Hf. simpl in *.
  split_and!; [done|done|lia|tauto].
Qed.

Lemma compileRules_ok g t cs ww rs c :
  let '(crs, errs, _) := compileRules g t cs ww rs c in
  map cr_id crs = map r_ID rs /\
  Forall (fun cr => List.length (cr_regexes cr) = List.length (cr_verifiers cr)) crs /\
  sum_list (map expressions_of crs) + List.length errs = sum_list (map patterns_of rs) /\
  Forall (fun e => err_rule e ∈ map r_ID rs) errs.
Proof.
  revert c. induction rs as [|r rs IH]; intros c; cbn [compileRules].
  { split_and!; [done|constructor|done|constructor]. }
  pose proof (compileRule_ok g t cs ww r c) as Hr.
  destruct (compileRule g t cs ww r c) as [[cr errs] c1]. destruct Hr as (Hid & Hv & Hn & He).
  specialize (IH c1). destruct (compileRules g t cs ww rs c1) as [[crs errs'] c2].
  destruct IH as (Hids & Hvs & Hns & Hes). cbn [map]. split_and!.
  - congruence.
  - by constructor.
  - rewrite length_app. simpl. lia.
  - apply Forall_app. split; (eapply Forall_impl; [eassumption|]); simpl.
    + intros e ->. left.
    + intros e ?. by right.
Qed.

(** No pattern is dropped silently: [compileRules] returns one compiled
    rule per rule, in order and with its id, one verifier per expression, and
    every pattern, fallback patterns included, is either compiled or reported
    in an error that names its rule. *)
Theorem compileRules_reports_every_pattern g t cs ww rs c :
  let '(crs, errs, _) := compileRules g t cs ww rs c in
  map cr_id crs = map r_ID rs /\
  Forall (fun cr => List.length (cr_regexes cr) = List.length (cr_verifiers cr)) crs /\
  sum_list (map expressions_of crs) + List.length errs = sum_list (map patterns_of rs) /\
  Forall (fun e => err_rule e ∈ map r_ID rs) errs.
Proof. apply compileRules_ok. Qed.
End CompileFacts.

(** A platform on which nothing is set and durations are not parsed. *)
Definition bare_platform : Platform := {| getenv _ := ""; ParseDuration _ := None |}.

Lemma compileRules_cache_transparent_witness :
  let r := {| r_ID := "r1"; r_Name := ""; r_Level := 2; r_Severity := ""; r_Category := "";
     r_Enabled := None; r_Verifier := ""; r_Keywords := [];
     r_Patterns := [{| pat_Name := ""; pat_Regex := "foo"; pat_Flags := ["i"]; pat_Verifier := "" |}];
     r_Semantic := None; r_Fallback := None; r_Logic := "";
     r_Options := {| opt_CaseSensitive := false; opt_WholeWord := false |};
     r_Response := None; r_Cache := None; r_When := None; r_Unless := None;
     r_Timeout := "" |} in
  (@compileRules literal_syntax literal_engine list_lru bare_platform globals0 0 false false [r]
     (@lru_New list_lru string 4)).1 =
  (@compileRules literal_syntax literal_engine list_lru bare_platform globals0 0 false false [r] None).1.
Proof.
  intros r. apply (@compileRules_cache_transparent literal_syntax literal_engine list_lru bare_platform).
  - intros ca k rx [= <-] Hp. discriminate Hp.
  - constructor; [|constructor]. split; [|done]. constructor; [reflexivity|constructor].
Defined.

(** The key does not separate the expression from the flags: an expression
    that spells out another one's key finds that one's compiled form. *)
Lemma cacheKey_collision :
  cacheKey (inline_flags ["i"] +:+ "foo") ["i"] = cacheKey (inline_flags [] +:+ "(?i)foo::i,") [].
Proof. reflexivity. Qed.

(** ** Conditions *)

(** A rule applies in a context exactly when its unless condition is
    absent or fails and its when condition is absent or holds, a condition
    holding when every key it names is bound to one of the listed values up
    to case.  The order in which Go ranges over the map does not matter. *)
Theorem contextMatches_spec when unless ctx :
  let holds c := forall k vals, cond_Match c !! k = Some vals ->
    exists got v, ctx !! k = Some got /\ v ∈ vals /\ EqualFold got v = true in
  contextMatches when unless ctx = true <->
  (forall c, unless = Some c -> ~ holds c) /\ (forall c, when = Some c -> holds c).
Proof.
  intros holds.
  assert (Hc : forall c, conditionMatches (Some c) ctx = true <-> holds c).
  { intros c. unfold conditionMatches, holds. rewrite forallb_forall. split.
    - intros H k vals Hk. specialize (H (k, vals)). rewrite <- list_elem_of_In, elem_of_map_to_list in H.
      specialize (H Hk). simpl in H. case_match; [|done]. apply existsb_exists in H as (v & Hv & E).
      apply list_elem_of_In in Hv. eauto.
    - intros H [k vals] Hk. rewrite <- list_elem_of_In, elem_of_map_to_list in Hk.
      destruct (H k vals Hk) as (got & v & -> & Hv & E). apply existsb_exists.
      exists v. by rewrite <- list_elem_of_In. }
  unfold contextMatches. destruct unless as [u|].
  - rewrite bool_decide_eq_true_2, andb_true_l by done.
    destruct (conditionMatches (Some u) ctx) eqn:Eu.
    + split; [done|]. intros [Hu _]. apply Hc in Eu. by apply (Hu u) in Eu.
    + assert (~ holds u) by (intros ?%Hc; congruence).
      destruct when as [w|]; [rewrite Hc|]; naive_solver.
  - rewrite bool_decide_eq_false_2, andb_false_l by by intros [].
    destruct when as [w|]; [rewrite Hc|]; naive_solver.
Qed.
