(* ===== verification/Scanner.v ===== *)
(** * Scanner: evaluation of one line

    src/internal/scanner/scanner.go (the [Scanner] state and its setters),
    loader.go ([LoadRulePacks]), evaluate.go ([evaluateLine] and the keyword
    and regular-expression passes) and semantic.go ([evaluateSemantic]), with
    the result types of src/pkg/types/types.go.  The logger and the tracer
    only observe and are left out; [ScanInfo] is never written by the
    scanner. *)

From Stdlib Require Import Ascii String.
From S2P Require Import Prelude GoString Unicode Rules Merge Verifiers Complexity Aho Literals Engine Compile.

(** ** pkg/types *)

Record Violation := {
  v_RuleID : string;
  v_Message : string;
  v_Severity : string;
  v_Line : Z;
  v_Column : Z;
  v_RuleTimeoutMs : Z;
  v_Category : string;
  v_ResponseAction : string;
  v_ResponseMessage : string;
  v_ResponseReplacement : string;
}.

Record Metrics := {
  BytesRead : Z;
  LinesRead : Z;
  RegexAttempts : Z;
  RegexSkipped : Z;
  SemanticAttempts : Z;
  SemanticSkipped : Z;
}.

Definition metrics0 : Metrics :=
  {| BytesRead := 0; LinesRead := 0; RegexAttempts := 0; RegexSkipped := 0;
     SemanticAttempts := 0; SemanticSkipped := 0 |}.

Record ScanResult := {
  sr_Input : string;
  sr_Violations : list Violation;
  sr_Metrics : Metrics;
  sr_DurationMs : Z;
}.

(** The zero value [types.ScanResult{}]. *)
Definition result0 : ScanResult :=
  {| sr_Input := ""; sr_Violations := []; sr_Metrics := metrics0; sr_DurationMs := 0 |}.

(** ** The scanner *)

Record semanticCacheEntry := {
  ce_ok : bool;
  ce_conf : float64;
  ce_expiresAt : Z;
}.

(** What lies outside the program during a scan: the semantic analyzer, whose
    [n]-th call gets a timeout, a text and a configuration, and the clock,
    whose [n]-th reading is [Now n], in nanoseconds. *)
Class World := {
  Analyze : nat -> Z -> string -> Semantic -> result string (bool * float64);
  Now : nat -> Z;
}.

Section State.
Context `{RegexpSyntax, RegexpEngine, LruLib, AhoLib, Platform}.

Record Scanner := {
  bufferSizeBytes : Z;
  compiled : list compiledRule;
  runtimeContext : gmap string string;
  perFileBudget : Z;
  quarantineOnTimeout : bool;
  quarantineOnError : bool;
  firstMatch : bool;
  maxLineForRegex : Z;
  fileTimeout : Z;
  maxFileBytes : Z;
  maxStreamBytes : Z;
  compositionStrategy : string;
  hasSemantic : bool;
  defaultRuleTimeoutMs : Z;
  defaultCaseSensitive : bool;
  defaultWholeWord : bool;
  aho : option Aho;
  ruleTokenAho : gmap string Aho;
  chunkOverlapBytes : Z;
  s_maxPatternLength : Z;
  maxResidentMemoryBytes : Z;
  totalScanBudget : Z;
}.

(** [ScanEngineCstor]: 16 MiB lines, quarantine on, patterns up to 1000. *)
Definition ScanEngineCstor (maxTokenBytes : Z) : Scanner :=
  {| bufferSizeBytes := (if maxTokenBytes <=? 0 then 16 * 1024 * 1024 else maxTokenBytes)%Z;
     compiled := []; runtimeContext := ∅; perFileBudget := 10 * 1000000000;
     quarantineOnTimeout := true; quarantineOnError := true; firstMatch := false;
     maxLineForRegex := 0; fileTimeout := 0; maxFileBytes := 0; maxStreamBytes := 0;
     compositionStrategy := ""; hasSemantic := false; defaultRuleTimeoutMs := 0;
     defaultCaseSensitive := false; defaultWholeWord := false; aho := None; ruleTokenAho := ∅;
     chunkOverlapBytes := 0; s_maxPatternLength := 1000; maxResidentMemoryBytes := 0;
     totalScanBudget := 0 |}.

(** What [evaluateLine] changes: the violations and metrics of the result, the
    keys already reported, the rule-level semantic caches, and how far the
    analyzer and the clock have been consulted. *)
Record eval_state := {
  violations : list Violation;
  metrics : Metrics;
  seen : gset string;
  caches : gmap string (lru semanticCacheEntry);
  calls : nat;
  ticks : nat;
}.

Definition add_violation (v : Violation) (key : string) (st : eval_state) : eval_state :=
  {| violations := violations st ++ [v]; metrics := metrics st; seen := {[key]} ∪ seen st;
     caches := caches st; calls := calls st; ticks := ticks st |}.

Definition set_metrics (m : Metrics) (st : eval_state) : eval_state :=
  {| violations := violations st; metrics := m; seen := seen st; caches := caches st;
     calls := calls st; ticks := ticks st |}.

Definition bump_RegexAttempts (m : Metrics) : Metrics :=
  {| BytesRead := BytesRead m; LinesRead := LinesRead m; RegexAttempts := RegexAttempts m + 1;
     RegexSkipped := RegexSkipped m; SemanticAttempts := SemanticAttempts m;
     SemanticSkipped := SemanticSkipped m |}.
Definition bump_RegexSkipped (m : Metrics) : Metrics :=
  {| BytesRead := BytesRead m; LinesRead := LinesRead m; RegexAttempts := RegexAttempts m;
     RegexSkipped := RegexSkipped m + 1; SemanticAttempts := SemanticAttempts m;
     SemanticSkipped := SemanticSkipped m |}.
Definition bump_SemanticAttempts (m : Metrics) : Metrics :=
  {| BytesRead := BytesRead m; LinesRead := LinesRead m; RegexAttempts := RegexAttempts m;
     RegexSkipped := RegexSkipped m; SemanticAttempts := SemanticAttempts m + 1;
     SemanticSkipped := SemanticSkipped m |}.
Definition bump_SemanticSkipped (m : Metrics) : Metrics :=
  {| BytesRead := BytesRead m; LinesRead := LinesRead m; RegexAttempts := RegexAttempts m;
     RegexSkipped := RegexSkipped m; SemanticAttempts := SemanticAttempts m;
     SemanticSkipped := SemanticSkipped m + 1 |}.

(** ** Violations *)

(** The literal [types.Violation{RuleID: cr.id, ...}] without metadata. *)
Definition plain_violation (cr : compiledRule) (lineNum : Z) (col : nat) : Violation :=
  {| v_RuleID := cr_id cr; v_Message := cr_message cr; v_Severity := cr_severity cr;
     v_Line := lineNum; v_Column := Z.of_nat col; v_RuleTimeoutMs := cr_timeoutMs cr;
     v_Category := ""; v_ResponseAction := ""; v_ResponseMessage := ""; v_ResponseReplacement := "" |}.

(** The same with the category and the response of the rule. *)
Definition full_violation (cr : compiledRule) (lineNum : Z) (col : nat) : Violation :=
  {| v_RuleID := cr_id cr; v_Message := cr_message cr; v_Severity := cr_severity cr;
     v_Line := lineNum; v_Column := Z.of_nat col; v_RuleTimeoutMs := cr_timeoutMs cr;
     v_Category := cr_category cr;
     v_ResponseAction := match cr_response cr with Some r => resp_Action r | None => "" end;
     v_ResponseMessage := match cr_response cr with Some r => resp_Message r | None => "" end;
     v_ResponseReplacement := match cr_response cr with Some r => resp_Replacement r | None => "" end |}.

(** ** Keywords *)

(** [isWordChar(rune(b))] of util.go. *)
Definition isWordChar (b : ascii) : bool :=
  is_digit_byte b || is_lower_byte b || is_upper_byte b
  || bool_decide (b = "_"%char) || bool_decide (b = "-"%char).

(** The [leftOK && rightOK] test on a hit of [n] bytes at [idx]. *)
Definition word_bounded (hay : string) (idx n : nat) : bool :=
  let leftOK := match idx with
                | O => true
                | S j => negb (match String.get j hay with Some b => isWordChar b | None => false end)
                end in
  let rightPos := idx + n in
  let rightOK := (String.length hay <=? rightPos)
                 || negb (match String.get rightPos hay with Some b => isWordChar b | None => false end) in
  leftOK && rightOK.

Definition kw_key (cr : compiledRule) (lineNum : Z) (kw : string) (idx : nat) : string :=
  cr_id cr +:+ "|" +:+ Itoa lineNum +:+ "|kw|" +:+ kw +:+ "|" +:+ Itoa (Z.of_nat idx).
Definition kw_all_key (cr : compiledRule) (lineNum : Z) : string :=
  cr_id cr +:+ "|" +:+ Itoa lineNum +:+ "|kw|all".

(** The variables of the loop over the automaton's hits. *)
Record aho_acc := {
  found : gmap string nat;
  firstIdx : option nat;
  any : bool;
  returned : bool;
  aho_st : eval_state;
}.

(** One turn of [for _, m := range ahoHits]. *)
Definition aho_step (s : Scanner) (a : Aho) (lower : string) (lineNum : Z) (cr : compiledRule)
    (acc : aho_acc) (m : Match) : aho_acc :=
  if returned acc then acc
  else
    let kw := default "" (patterns a !! PatternIndex m) in
    let idx := Match_Index m in
    if cr_wholeWord cr && negb (word_bounded lower idx (String.length kw)) then acc
    else
      let '(fnd, fst_) :=
        match found acc !! kw with
        | Some _ => (found acc, firstIdx acc)
        | None => (<[kw := idx]> (found acc),
                   match firstIdx acc with None => Some idx | Some i => Some i end)
        end in
      if cr_requireAll cr then
        {| found := fnd; firstIdx := fst_; any := any acc; returned := false; aho_st := aho_st acc |}
      else
        let key := kw_key cr lineNum kw idx in
        if decide (key ∈ seen (aho_st acc)) then
          {| found := fnd; firstIdx := fst_; any := any acc; returned := false; aho_st := aho_st acc |}
        else
          {| found := fnd; firstIdx := fst_; any := true; returned := firstMatch s;
             aho_st := add_violation (full_violation cr lineNum (S idx)) key (aho_st acc) |}.

(** The automaton branch of [evalKeywords]. *)
Definition evalKeywords_aho (s : Scanner) (a : Aho) (lower : string) (lineNum : Z)
    (cr : compiledRule) (ahoHits : list Match) (st : eval_state) : bool * eval_state :=
  let acc := foldl (aho_step s a lower lineNum cr)
    {| found := ∅; firstIdx := None; any := false; returned := false; aho_st := st |} ahoHits in
  if returned acc then (true, aho_st acc)
  else if cr_requireAll cr && negb (bool_decide (cr_keywords cr = []))
          && forallb (fun kw => bool_decide (is_Some (found acc !! kw))) (cr_keywords cr) then
    let col := match firstIdx acc with Some i => S i | None => 1 end in
    let key := kw_all_key cr lineNum in
    if decide (key ∈ seen (aho_st acc)) then (any acc, aho_st acc)
    else (true, add_violation (full_violation cr lineNum col) key (aho_st acc))
  else (any acc, aho_st acc).

(** The loop of the require-all branch: [None] when a keyword is missing,
    otherwise [firstIdx]. *)
Fixpoint all_keywords (hay : string) (wholeWord : bool) (kws : list string) (first : option nat) :
    option (option nat) :=
  match kws with
  | [] => Some first
  | kw :: kws =>
    match Index hay kw with
    | None => None
    | Some idx =>
      if wholeWord && negb (word_bounded hay idx (String.length kw)) then None
      else all_keywords hay wholeWord kws (match first with None => Some idx | Some i => Some i end)
    end
  end.

(** One turn of the last loop of [evalKeywords], on [(any, state)]. *)
Definition keyword_step (hay : string) (lineNum : Z) (cr : compiledRule)
    (acc : bool * eval_state) (kw : string) : bool * eval_state :=
  let '(any, st) := acc in
  match Index hay kw with
  | None => (any, st)
  | Some idx =>
    if cr_wholeWord cr && negb (word_bounded hay idx (String.length kw)) then (any, st)
    else
      let key := kw_key cr lineNum kw idx in
      if decide (key ∈ seen st) then (any, st)
      else (true, add_violation (full_violation cr lineNum (S idx)) key st)
  end.

(** The branches of [evalKeywords] that search the text itself. *)
Definition evalKeywords_search (hay : string) (lineNum : Z) (cr : compiledRule) (st : eval_state) :
    bool * eval_state :=
  if cr_requireAll cr && negb (bool_decide (cr_keywords cr = [])) then
    match all_keywords hay (cr_wholeWord cr) (cr_keywords cr) None with
    | None => (false, st)
    | Some first =>
      let col := match first with Some i => S i | None => 1 end in
      let key := kw_all_key cr lineNum in
      if decide (key ∈ seen st) then (false, st)
      else (true, add_violation (plain_violation cr lineNum col) key st)
    end
  else foldl (keyword_step hay lineNum cr) (false, st) (cr_keywords cr).

Definition evalKeywords (s : Scanner) (lower line : string) (lineNum : Z) (cr : compiledRule)
    (ahoHits : list Match) (st : eval_state) : bool * eval_state :=
  let hay := if cr_caseSensitive cr then line else lower in
  match aho s with
  | Some a =>
    if negb (cr_caseSensitive cr) && negb (bool_decide (ahoHits = []))
    then evalKeywords_aho s a lower lineNum cr ahoHits st
    else evalKeywords_search hay lineNum cr st
  | None => evalKeywords_search hay lineNum cr st
  end.

(** ** Regular expressions *)

Definition rx_key (cr : compiledRule) (lineNum : Z) (start : nat) : string :=
  cr_id cr +:+ "|" +:+ Itoa lineNum +:+ "|rx|" +:+ Itoa (Z.of_nat start).
Definition rx_all_key (cr : compiledRule) (lineNum : Z) : string :=
  cr_id cr +:+ "|" +:+ Itoa lineNum +:+ "|rx|all".

(** The chain of [verifier == "..."] tests; an unknown name accepts. *)
Definition verify (verifier matched : string) : bool :=
  if bool_decide (verifier = "luhn") then LuhnCheck matched
  else if bool_decide (verifier = "ssn") then SSNValid matched
  else if bool_decide (verifier = "ssn_area") then SSNAreaValid matched
  else if bool_decide (verifier = "iban") then IBANValid matched
  else if bool_decide (verifier = "email") then EmailValid matched
  else true.

(** The require-all loop: [None] when an expression does not match, otherwise
    [earliest]. *)
Fixpoint earliest_match (line : string) (rxs : list regexp) (earliest : option nat) :
    option (option nat) :=
  match rxs with
  | [] => Some earliest
  | rx :: rxs =>
    match FindStringIndex rx line with
    | None => None
    | Some l =>
      earliest_match line rxs
        (match earliest with
         | None => Some l.1
         | Some e => if l.1 <? e then Some l.1 else Some e
         end)
    end
  end.

(** [matched], [matchCol] and the state. *)
Definition rx_acc : Type := bool * nat * eval_state.

(** One turn of [for _, loc := range matches]; [v] is [cr.verifiers[i]] when
    there is one. *)
Definition match_step (line : string) (lineNum : Z) (cr : compiledRule) (v : option string)
    (acc : rx_acc) (l : loc) : rx_acc :=
  let '(matched, col, st) := acc in
  let ok := match v with Some v => verify v (slice line l.1 l.2) | None => true end in
  if negb ok then acc
  else
    let key := rx_key cr lineNum l.1 in
    if decide (key ∈ seen st) then acc
    else (true, S l.1, add_violation (full_violation cr lineNum (S l.1)) key st).

Definition regex_step (line : string) (lineNum : Z) (cr : compiledRule) (acc : rx_acc)
    (irx : nat * regexp) : rx_acc :=
  foldl (match_step line lineNum cr (cr_verifiers cr !! irx.1)) acc (FindAllStringIndex irx.2 line).

Definition evalRegexesStandard (line : string) (lineNum : Z) (cr : compiledRule) (st : eval_state) :
    rx_acc :=
  if cr_requireAll cr && negb (bool_decide (List.length (cr_regexes cr) = 0)) then
    match earliest_match line (cr_regexes cr) None with
    | None => (false, 1, st)
    | Some earliest =>
      let key := rx_all_key cr lineNum in
      let col := match earliest with Some e => S e | None => 1 end in
      if decide (key ∈ seen st) then (false, 1, st)
      else (true, col, add_violation (plain_violation cr lineNum col) key st)
    end
  else foldl (regex_step line lineNum cr) (false, 1, st) (indexed (cr_regexes cr)).

(** ** Semantic analysis *)

Context `{World}.

(** Reads the clock. *)
Definition time_Now (st : eval_state) : Z * eval_state :=
  (Now (ticks st), {| violations := violations st; metrics := metrics st; seen := seen st;
                      caches := caches st; calls := calls st; ticks := S (ticks st) |}).

Definition set_caches (cs : gmap string (lru semanticCacheEntry)) (st : eval_state) : eval_state :=
  {| violations := violations st; metrics := metrics st; seen := seen st; caches := cs;
     calls := calls st; ticks := ticks st |}.

Definition call_Analyze (timeout : Z) (line : string) (cfg : Semantic) (st : eval_state) :
    result string (bool * float64) * eval_state :=
  (Analyze (calls st) timeout line cfg,
   {| violations := violations st; metrics := metrics st; seen := seen st; caches := caches st;
      calls := S (calls st); ticks := ticks st |}).

Definition second : Z := 1000000000.

(** The timeout of one analysis. *)
Definition semantic_timeout (s : Scanner) (cr : compiledRule) : Z :=
  if (0 <? cr_timeoutMs cr)%Z then wrap64 (cr_timeoutMs cr * 1000000)
  else if (0 <? fileTimeout s)%Z then
    let t := Z.quot (fileTimeout s) 10 in if (t <=? 0)%Z then 2 * second else t
  else 2 * second.

(** The lookup in the rule's cache: true when a fresh positive entry answers
    for the analyzer. *)
Definition cached_positive (cr : compiledRule) (line : string) (st : eval_state) : bool * eval_state :=
  if cr_cacheEnabled cr then
    match caches st !! cr_id cr with
    | None => (false, st)
    | Some c =>
      let '(hit, c) := lru_Get c line in
      let st := set_caches (<[cr_id cr := c]> (caches st)) st in
      match hit with
      | None => (false, st)
      | Some ce =>
        let '(now, st) := time_Now st in
        if (now <? ce_expiresAt ce)%Z then (ce_ok ce, st)
        else (false, set_caches (<[cr_id cr := lru_Remove c line]> (caches st)) st)
      end
    end
  else (false, st).

(** [cache.Add(line, ...)], creating the rule's cache when there is none. *)
Definition remember_positive (cr : compiledRule) (line : string) (conf : float64) (st : eval_state) :
    eval_state :=
  if cr_cacheEnabled cr then
    let cap := if (0 <? cr_cacheMaxEntries cr)%Z then cr_cacheMaxEntries cr else 256%Z in
    let st := match caches st !! cr_id cr with
              | Some _ => st
              | None => match lru_New cap with
                        | Some c => set_caches (<[cr_id cr := c]> (caches st)) st
                        | None => st
                        end
              end in
    match caches st !! cr_id cr with
    | None => st
    | Some c =>
      let ttl := if (0 <? cr_cacheTTL cr)%Z then cr_cacheTTL cr else (15 * 60 * second)%Z in
      let '(now, st) := time_Now st in
      set_caches (<[cr_id cr := lru_Add c line
                     {| ce_ok := true; ce_conf := conf; ce_expiresAt := now + ttl |}]> (caches st)) st
    end
  else st.

(** The column of the first fallback expression that matches. *)
Fixpoint fallback_match (line : string) (rxs : list regexp) : option nat :=
  match rxs with
  | [] => None
  | rx :: rxs => match FindStringIndex rx line with
                 | Some l => Some (S l.1)
                 | None => fallback_match line rxs
                 end
  end.

(** [evaluateSemantic]: the verdict, [matchCol] (unchanged unless a fallback
    matched) and the state. *)
Definition evaluateSemantic (s : Scanner) (line : string) (cr : compiledRule) (matchCol : nat)
    (st : eval_state) : bool * nat * eval_state :=
  match cr_semantic cr with
  | None => (false, matchCol, st)
  | Some cfg =>
    if negb (hasSemantic s) then (false, matchCol, st)
    else
      let '(hit, st) := cached_positive cr line st in
      if hit then (true, matchCol, st)
      else
        let '(r, st) := call_Analyze (semantic_timeout s cr) line cfg st in
        let fallback :=
          match fallback_match line (cr_fallbackRegexes cr) with
          | Some col => (true, col, st)
          | None => (false, matchCol, st)
          end in
        match r with
        | Ok (true, conf) => (true, matchCol, remember_positive cr line conf st)
        | Ok (false, _) => fallback
        | Err _ => if sem_FallbackOnError cfg then fallback else (false, matchCol, st)
        end
  end.

(** ** One line *)

Definition sem_key (cr : compiledRule) (lineNum : Z) : string :=
  cr_id cr +:+ "|" +:+ Itoa lineNum.

(** [a := s.ruleTokenAho[cr.id]; a != nil && len(a.FindAll(lower)) == 0]: the
    token gate of the rule is closed. *)
Definition gate_closed (s : Scanner) (lower : string) (cr : compiledRule) : bool :=
  match ruleTokenAho s !! cr_id cr with
  | Some a => bool_decide (FindAll (Some a) lower = [])
  | None => false
  end.

(** The regular-expression pass of the loop body: whether it ran and matched. *)
Definition eval_rule_regexes (s : Scanner) (lower line : string) (lineNum : Z) (cr : compiledRule)
    (st : eval_state) : rx_acc :=
  if bool_decide (List.length (cr_regexes cr) = 0) then (false, 1, st)
  else if negb ((maxLineForRegex s =? 0)%Z || (Z.of_nat (String.length line) <=? maxLineForRegex s)%Z)
  then (false, 1, st)
  else if gate_closed s lower cr then (false, 1, st)
  else evalRegexesStandard line lineNum cr (set_metrics (bump_RegexAttempts (metrics st)) st).

(** The level-3 pass. *)
Definition eval_rule_semantic (s : Scanner) (lower line : string) (cr : compiledRule) (matchCol : nat)
    (st : eval_state) : bool * nat * eval_state :=
  if (cr_level cr =? 3)%Z then
    if gate_closed s lower cr then
      (false, matchCol, set_metrics (bump_SemanticSkipped (metrics st)) st)
    else evaluateSemantic s line cr matchCol (set_metrics (bump_SemanticAttempts (metrics st)) st)
  else (false, matchCol, st).

(** The body of the loop over the compiled rules: whether the rule matched,
    which sets [matchedAny] and, with [firstMatch], ends the loop. *)
Definition eval_rule (s : Scanner) (lower line : string) (lineNum : Z) (ahoHits : list Match)
    (cr : compiledRule) (st : eval_state) : bool * eval_state :=
  if negb (contextMatches (cr_when cr) (cr_unless cr) (runtimeContext s)) then (false, st)
  else
    let '(kw, st) := if bool_decide (cr_keywords cr = []) then (false, st)
                     else evalKeywords s lower line lineNum cr ahoHits st in
    if kw then (true, st)
    else
      let '(rx, matchCol, st) := eval_rule_regexes s lower line lineNum cr st in
      if rx then (true, st)
      else
        let st := if negb (bool_decide (List.length (cr_regexes cr) = 0)) && gate_closed s lower cr
                  then set_metrics (bump_RegexSkipped (metrics st)) st else st in
        let '(sem, matchCol, st) := eval_rule_semantic s lower line cr matchCol st in
        if sem then
          let key := sem_key cr lineNum in
          if decide (key ∈ seen st) then (false, st)
          else (true, add_violation (plain_violation cr lineNum matchCol) key st)
        else (false, st).

Fixpoint eval_rules (s : Scanner) (lower line : string) (lineNum : Z) (ahoHits : list Match)
    (crs : list compiledRule) (matchedAny : bool) (st : eval_state) : bool * eval_state :=
  match crs with
  | [] => (matchedAny, st)
  | cr :: crs =>
    let '(b, st) := eval_rule s lower line lineNum ahoHits cr st in
    if b && firstMatch s then (true, st)
    else eval_rules s lower line lineNum ahoHits crs (matchedAny || b) st
  end.

Definition evaluateLine (s : Scanner) (line : string) (lineNum : Z) (st : eval_state) :
    bool * eval_state :=
  let lower := ToLower line in
  let ahoHits := match aho s with Some a => FindAll (Some a) lower | None => [] end in
  eval_rules s lower line lineNum ahoHits (compiled s) false st.
End State.

(** ** What a pass emits *)

Section Emits.
Context `{RegexpSyntax, RegexpEngine, LruLib, AhoLib, Platform, World}.
Implicit Types (st : eval_state) (cr : compiledRule).

(** The counters of what has been read, which no pass over a line changes. *)
Definition reads st : Z * Z := (BytesRead (metrics st), LinesRead (metrics st)).

(** [emits P b st st']: going from [st] to [st'] appended violations, each
    under a key of its own that had not been seen, all in the relation [P] to
    their key, and [b] says whether there was one. *)
Definition emits (P : string -> Violation -> Prop) (b : bool) st st' : Prop :=
  reads st' = reads st /\
  exists new : list (string * Violation),
    violations st' = violations st ++ map snd new /\
    seen st' = list_to_set (map fst new) ∪ seen st /\
    NoDup (map fst new) /\ (forall k, k ∈ map fst new -> k ∉ seen st) /\
    Forall (fun kv => P kv.1 kv.2) new /\ (b = true <-> new <> []).

Lemma emits_none P st st' :
  violations st' = violations st -> seen st' = seen st -> reads st' = reads st -> emits P false st st'.
Proof.
  intros Hv Hs Hr. split; [done|]. exists []. rewrite Hv, Hs, app_nil_r. simpl.
  split_and!; [done|set_solver|constructor|set_solver|constructor|done].
Qed.

Lemma emits_add (P : string -> Violation -> Prop) v key st :
  key ∉ seen st -> P key v -> emits P true st (add_violation v key st).
Proof.
  intros Hk Hv. split; [done|]. exists [(key, v)]. simpl.
  split_and!; [done|set_solver|apply NoDup_singleton|set_solver|by constructor|done].
Qed.

Lemma emits_trans P b1 b2 st st1 st2 :
  emits P b1 st st1 -> emits P b2 st1 st2 -> emits P (b1 || b2) st st2.
Proof.
  intros (Hr1 & n1 & Hv1 & Hs1 & Hd1 & Hf1 & HP1 & Hb1) (Hr2 & n2 & Hv2 & Hs2 & Hd2 & Hf2 & HP2 & Hb2).
  split; [congruence|]. exists (n1 ++ n2). rewrite Hv2, Hv1, !map_app, app_assoc. split_and!; [done| | | | |].
  - rewrite Hs2, Hs1, list_to_set_app_L. set_solver.
  - apply NoDup_app. split_and!; [done| |done]. intros k H1k H2k. apply (Hf2 k H2k).
    rewrite Hs1, elem_of_union, elem_of_list_to_set. by left.
  - intros k. rewrite elem_of_app. intros [Hk|Hk]; [by apply Hf1|].
    intros Hin. apply (Hf2 k Hk). rewrite Hs1. set_solver.
  - by apply Forall_app.
  - rewrite orb_true_iff, Hb1, Hb2. destruct n1, n2; naive_solver.
Qed.

Lemma emits_impl (P Q : string -> Violation -> Prop) b st st' :
  (forall k v, P k v -> Q k v) -> emits P b st st' -> emits Q b st st'.
Proof.
  intros HPQ (Hr & n & Hv & Hs & Hd & Hf & HP & Hb). split; [done|]. exists n. split_and!; try done.
  eapply Forall_impl; [exact HP|]. intros [k v]. apply HPQ.
Qed.

(** A violation of rule [cr] on line [lineNum], inside a text of [n] bytes,
    under a key that starts with the id of the rule. *)
Definition reports cr (lineNum : Z) (n : nat) (key : string) (v : Violation) : Prop :=
  (exists suffix, key = cr_id cr +:+ String "|" suffix) /\
  v_RuleID v = cr_id cr /\ v_Message v = cr_message cr /\ v_Severity v = cr_severity cr /\
  v_RuleTimeoutMs v = cr_timeoutMs cr /\ v_Line v = lineNum /\
  (1 <= v_Column v <= Z.of_nat n + 1)%Z /\
  exists col, v = plain_violation cr lineNum col \/ v = full_violation cr lineNum col.

Lemma plain_reports cr lineNum n i suffix :
  i <= n -> reports cr lineNum n (cr_id cr +:+ String "|" suffix) (plain_violation cr lineNum (S i)).
Proof. intros. unfold reports. simpl. split_and!; (done || lia || eauto). Qed.

Lemma full_reports cr lineNum n i suffix :
  i <= n -> reports cr lineNum n (cr_id cr +:+ String "|" suffix) (full_violation cr lineNum (S i)).
Proof. intros. unfold reports. simpl. split_and!; (done || lia || eauto). Qed.

Lemma Index_bound hay kw i : Index hay kw = Some i -> i <= String.length hay.
Proof. intros [Ho _]%Index_Some. apply occurs_at_bound in Ho. lia. Qed.

(** *** Keywords *)

Lemma all_keywords_bound hay ww kws first r :
  (forall i, first = Some i -> i <= String.length hay) ->
  all_keywords hay ww kws first = Some r -> forall i, r = Some i -> i <= String.length hay.
Proof.
  revert first. induction kws as [|kw kws IH]; intros first Hf; simpl; [by intros [= <-]|].
  destruct (Index hay kw) as [idx|] eqn:E; [|done]. case_match; [done|].
  apply IH. intros i. destruct first; [auto|]. intros [= <-]. by eapply Index_bound.
Qed.

(** A loop that raises a flag when it reports. *)
Lemma foldl_emits {A} (P : string -> Violation -> Prop) (f : bool * eval_state -> A -> bool * eval_state) l b0 st0 :
  (forall b st a, a ∈ l -> exists b' st', f (b, st) a = (b || b', st') /\ emits P b' st st') ->
  exists b' st', foldl f (b0, st0) l = (b0 || b', st') /\ emits P b' st0 st'.
Proof.
  revert b0 st0. induction l as [|a l IH]; intros b0 st0 Hf; simpl.
  { exists false, st0. rewrite orb_false_r. split; [done|by apply emits_none]. }
  destruct (Hf b0 st0 a) as (b1 & st1 & -> & He1); [left|].
  destruct (IH (b0 || b1) st1) as (b2 & st2 & -> & He2); [intros; apply Hf; by right|].
  exists (b1 || b2), st2. rewrite orb_assoc. split; [done|]. by eapply emits_trans.
Qed.

Lemma evalKeywords_search_emits hay lineNum cr st :
  let '(b, st') := evalKeywords_search hay lineNum cr st in
  emits (reports cr lineNum (String.length hay)) b st st'.
Proof.
  unfold evalKeywords_search. case_if.
  - destruct (all_keywords _ _ _ _) as [first|] eqn:Ea; [|by apply emits_none].
    case_decide; [by apply emits_none|]. apply emits_add; [done|].
    destruct first as [i|]; apply plain_reports; [|lia].
    by apply (all_keywords_bound hay (cr_wholeWord cr) (cr_keywords cr) None (Some i)).
  - destruct (foldl_emits (reports cr lineNum (String.length hay)) (keyword_step hay lineNum cr)
      (cr_keywords cr) false st) as (b' & st' & -> & He); [|done].
    clear. intros b st kw _. unfold keyword_step.
    destruct (Index hay kw) as [idx|] eqn:Ei; [case_if; [|case_decide]|].
    all: try (exists false, st; rewrite orb_false_r; split; [done|by apply emits_none]).
    eexists true, _. rewrite orb_true_r. split; [done|].
    apply emits_add; [done|]. by eapply full_reports, Index_bound.
Qed.

(** The automaton holds no empty pattern. *)
Definition aho_wf (a : Aho) : Prop := Forall (fun p => p <> "") (patterns a).

Lemma FindAll_bound a hay m :
  aho_wf a -> m ∈ FindAll (Some a) hay -> Match_Index m <= String.length hay.
Proof.
  intros Hwf Hm. apply elem_of_FindAll in Hm as (p & _ & Ho); [|done].
  apply occurs_at_bound in Ho. lia.
Qed.

(** The invariant of the loop over the automaton's hits. *)
Definition aho_inv (s : Scanner) (P : string -> Violation -> Prop) (n : nat) st (acc : aho_acc) : Prop :=
  emits P (any acc) st (aho_st acc) /\ (returned acc = true -> any acc = true) /\
  forall i, firstIdx acc = Some i -> i <= n.

Lemma aho_step_inv s a lower lineNum cr st acc m :
  let P := reports cr lineNum (String.length lower) in
  Match_Index m <= String.length lower ->
  aho_inv s P (String.length lower) st acc ->
  aho_inv s P (String.length lower) st (aho_step s a lower lineNum cr acc m).
Proof.
  intros P Hm Hi. pose proof Hi as (He & Hr & Hf). unfold aho_step.
  case_if; [exact Hi|]. case_if; [exact Hi|].
  set (kw := default "" (patterns a !! PatternIndex m)).
  destruct (match found acc !! kw with Some _ => _ | None => _ end) as [fnd fst_] eqn:Ef.
  assert (Hf' : forall i, fst_ = Some i -> i <= String.length lower).
  { intros i ->. destruct (found acc !! kw); simplify_eq; [by apply Hf|].
    destruct (firstIdx acc); simplify_eq; [by apply Hf|done]. }
  unfold aho_inv. case_if; [simpl; split_and!; done|]. case_decide; [simpl; split_and!; done|].
  simpl. split_and!; [|done|done].
  rewrite <- (orb_true_r (any acc)). eapply emits_trans; [exact He|].
  apply emits_add; [done|]. by apply full_reports.
Qed.

Lemma evalKeywords_aho_emits s a lower lineNum cr st :
  aho_wf a ->
  let '(b, st') := evalKeywords_aho s a lower lineNum cr (FindAll (Some a) lower) st in
  emits (reports cr lineNum (String.length lower)) b st st'.
Proof.
  intros Hwf. unfold evalKeywords_aho.
  assert (Hb : forall m, m ∈ FindAll (Some a) lower -> Match_Index m <= String.length lower)
    by (intros m; by apply FindAll_bound).
  set (P := reports cr lineNum (String.length lower)).
  assert (Hi : forall hits acc, (forall m, m ∈ hits -> Match_Index m <= String.length lower) ->
    aho_inv s P (String.length lower) st acc ->
    aho_inv s P (String.length lower) st (foldl (aho_step s a lower lineNum cr) acc hits)).
  { intros hits. induction hits as [|m hits IH]; intros acc Hh Ha; simpl; [done|].
    apply IH; [intros; apply Hh; by right|]. apply aho_step_inv; [apply Hh; left|done]. }
  specialize (Hi _ {| found := ∅; firstIdx := None; any := false; returned := false; aho_st := st |} Hb).
  destruct Hi as (He & Hr & Hf).
  { split_and!; simpl; [by apply emits_none|done|done]. }
  set (acc := foldl _ _ _) in *. destruct (returned acc); [by rewrite Hr in He|].
  case_if; [|done]. case_decide; [done|].
  rewrite <- (orb_true_r (any acc)). eapply emits_trans; [exact He|].
  apply emits_add; [done|]. destruct (firstIdx acc) eqn:Ef; apply full_reports; [auto|lia].
Qed.

Lemma emits_weaken cr lineNum n m b st st' :
  n <= m -> emits (reports cr lineNum n) b st st' -> emits (reports cr lineNum m) b st st'.
Proof. intros Hnm. apply emits_impl. intros k v. unfold reports. intuition lia. Qed.

(** The length that bounds the columns: lower-casing may change the length of
    a text that is not ASCII. *)
Definition width (line : string) : nat := String.length line `max` String.length (ToLower line).

Definition scanner_wf (s : Scanner) : Prop :=
  (forall a, aho s = Some a -> aho_wf a) /\ map_Forall (fun _ a => aho_wf a) (ruleTokenAho s).

Definition hits_of (s : Scanner) (lower : string) : list Match :=
  match aho s with Some a => FindAll (Some a) lower | None => [] end.

Lemma evalKeywords_emits s line lineNum cr st :
  scanner_wf s ->
  let '(b, st') := evalKeywords s (ToLower line) line lineNum cr (hits_of s (ToLower line)) st in
  emits (reports cr lineNum (width line)) b st st'.
Proof.
  intros [Hwf _]. unfold evalKeywords, hits_of.
  assert (Hs : let '(b, st') := evalKeywords_search
      (if cr_caseSensitive cr then line else ToLower line) lineNum cr st in
      emits (reports cr lineNum (width line)) b st st').
  { pose proof (evalKeywords_search_emits (if cr_caseSensitive cr then line else ToLower line) lineNum cr st) as H'.
    destruct (evalKeywords_search _ _ _ _). eapply emits_weaken; [|exact H'].
    unfold width. destruct (cr_caseSensitive cr); lia. }
  destruct (aho s) as [a|]; [|exact Hs]. case_if; [|exact Hs].
  pose proof (evalKeywords_aho_emits s a (ToLower line) lineNum cr st (Hwf a eq_refl)) as H'.
  destruct (evalKeywords_aho _ _ _ _ _ _ _). eapply emits_weaken; [|exact H']. unfold width. lia.
Qed.

(** *** Regular expressions *)

(** The three-component variant of [foldl_emits]: the column stays 1 until
    something is reported. *)
Definition rx_emits (P : string -> Violation -> Prop) (acc acc' : rx_acc) : Prop :=
  exists b', acc'.1.1 = acc.1.1 || b' /\ emits P b' acc.2 acc'.2 /\ (b' = false -> acc'.1.2 = acc.1.2).

Lemma rx_emits_refl P acc : rx_emits P acc acc.
Proof. exists false. rewrite orb_false_r. split_and!; [done|by apply emits_none|done]. Qed.

Lemma rx_emits_trans P a1 a2 a3 : rx_emits P a1 a2 -> rx_emits P a2 a3 -> rx_emits P a1 a3.
Proof.
  intros (b1 & E1 & He1 & Hc1) (b2 & E2 & He2 & Hc2). exists (b1 || b2).
  rewrite E2, E1, orb_assoc. split_and!; [done|by eapply emits_trans|].
  intros [? ?]%orb_false_iff. rewrite Hc2, Hc1; done.
Qed.

Lemma foldl_rx_emits {A} P (f : rx_acc -> A -> rx_acc) l acc :
  (forall acc a, a ∈ l -> rx_emits P acc (f acc a)) -> rx_emits P acc (foldl f acc l).
Proof.
  revert acc. induction l as [|a l IH]; intros acc Hf; simpl; [apply rx_emits_refl|].
  eapply rx_emits_trans; [apply Hf; left|]. apply IH. intros. apply Hf. by right.
Qed.

Lemma match_step_emits line lineNum cr v acc l :
  l.1 <= String.length line ->
  rx_emits (reports cr lineNum (String.length line)) acc (match_step line lineNum cr v acc l).
Proof.
  intros Hl. destruct acc as [[b col] st]. unfold match_step.
  destruct (negb _); [apply rx_emits_refl|]. case_decide; [apply rx_emits_refl|].
  exists true. simpl. rewrite orb_true_r. split_and!; [done| |done].
  apply emits_add; [done|]. by apply full_reports.
Qed.

Lemma earliest_match_bound line rxs e r :
  (forall i, e = Some i -> i <= String.length line) ->
  earliest_match line rxs e = Some r -> forall i, r = Some i -> i <= String.length line.
Proof.
  revert e. induction rxs as [|rx rxs IH]; intros e He; simpl; [by intros [= <-]|].
  destruct (FindStringIndex rx line) as [l|] eqn:El; [|done]. apply Find_bounds in El.
  apply IH. intros i. destruct e as [e|]; [|intros [= <-]; lia].
  specialize (He e eq_refl). case_if; intros [= <-]; lia.
Qed.

Lemma evalRegexesStandard_emits line lineNum cr st :
  let '(b, col, st') := evalRegexesStandard line lineNum cr st in
  emits (reports cr lineNum (String.length line)) b st st' /\ (b = false -> col = 1).
Proof.
  unfold evalRegexesStandard. case_if.
  - destruct (earliest_match _ _ _) as [e|] eqn:Em;
      [|split; [by apply emits_none|done]].
    destruct (decide (rx_all_key cr lineNum ∈ seen st)); (split; [|done]); [by apply emits_none|].
    apply emits_add; [done|]. destruct e as [i|]; apply plain_reports; [|lia].
    by apply (earliest_match_bound line (cr_regexes cr) None (Some i)).
  - assert (Hr : rx_emits (reports cr lineNum (String.length line)) (false, 1, st)
      (foldl (regex_step line lineNum cr) (false, 1, st) (indexed (cr_regexes cr)))).
    { apply foldl_rx_emits. intros acc [i rx] _. unfold regex_step. simpl.
      apply foldl_rx_emits. intros acc' l Hl. apply match_step_emits.
      apply FindAll_bounds in Hl. lia. }
    destruct (foldl _ _ _) as [[b col] st']. destruct Hr as (b' & E1 & He & Hc). simpl in *. by subst.
Qed.

Lemma eval_rule_regexes_emits s lower line lineNum cr st :
  let '(b, col, st') := eval_rule_regexes s lower line lineNum cr st in
  emits (reports cr lineNum (String.length line)) b st st' /\ (b = false -> col = 1).
Proof.
  unfold eval_rule_regexes.
  do 3 (case_if; [split; [by apply emits_none|done]|]).
  pose proof (evalRegexesStandard_emits line lineNum cr
    (set_metrics (bump_RegexAttempts (metrics st)) st)) as Hr.
  by destruct (evalRegexesStandard _ _ _ _) as [[b col] st'].
Qed.

(** *** Semantic analysis *)

(** The steps that touch neither the violations nor the keys. *)
Definition silent st st' : Prop :=
  violations st' = violations st /\ seen st' = seen st /\ reads st' = reads st.

#[local] Instance silent_trans : Transitive silent.
Proof. unfold silent. intros st1 st2 st3 (? & ? & ?) (? & ? & ?). split_and!; congruence. Qed.

Lemma cached_positive_silent cr line st : silent st (cached_positive cr line st).2.
Proof. unfold cached_positive, time_Now, silent. repeat case_match; simplify_eq/=; done. Qed.

Lemma remember_positive_silent cr line conf st : silent st (remember_positive cr line conf st).
Proof. unfold remember_positive, time_Now, silent. repeat case_match; simplify_eq/=; done. Qed.

Lemma fallback_match_bound line rxs col :
  fallback_match line rxs = Some col -> 1 <= col <= S (String.length line).
Proof.
  induction rxs as [|rx rxs IH]; simpl; [done|].
  destruct (FindStringIndex rx line) as [l|] eqn:E; [|done]. intros [= <-].
  apply Find_bounds in E. lia.
Qed.

Lemma evaluateSemantic_silent s line cr col st :
  1 <= col <= S (String.length line) ->
  let '(b, col', st') := evaluateSemantic s line cr col st in
  silent st st' /\ 1 <= col' <= S (String.length line).
Proof.
  intros Hcol. unfold evaluateSemantic. destruct (cr_semantic cr) as [cfg|]; [|done].
  case_if; [done|]. pose proof (cached_positive_silent cr line st) as Hs.
  destruct (cached_positive cr line st) as [hit st1]. simpl in Hs. destruct hit; [done|].
  unfold call_Analyze. set (st2 := Build_eval_state _ _ _ _ _ _).
  assert (Hs2 : silent st st2) by done.
  assert (Hf : let '(b, col', st') := match fallback_match line (cr_fallbackRegexes cr) with
      | Some col => (true, col, st2) | None => (false, col, st2) end in
      silent st st' /\ 1 <= col' <= S (String.length line)).
  { destruct (fallback_match _ _) eqn:E'; [|done]. split; [done|by eapply fallback_match_bound]. }
  destruct (Analyze _ _ _ _) as [[[] conf]|e]; [|exact Hf|case_if; [exact Hf|done]].
  split; [|done]. etrans; [exact Hs2|]. apply remember_positive_silent.
Qed.

Lemma eval_rule_semantic_silent s lower line cr col st :
  1 <= col <= S (String.length line) ->
  let '(b, col', st') := eval_rule_semantic s lower line cr col st in
  silent st st' /\ 1 <= col' <= S (String.length line).
Proof.
  intros Hcol. unfold eval_rule_semantic. case_if; [|done]. case_if; [done|].
  pose proof (evaluateSemantic_silent s line cr col
    (set_metrics (bump_SemanticAttempts (metrics st)) st) Hcol) as Hs.
  by destruct (evaluateSemantic _ _ _ _ _) as [[b col'] st'].
Qed.

(** *** One rule, one line *)

Lemma eval_rule_emits s line lineNum cr st :
  scanner_wf s ->
  let '(b, st') := eval_rule s (ToLower line) line lineNum (hits_of s (ToLower line)) cr st in
  emits (fun k v => contextMatches (cr_when cr) (cr_unless cr) (runtimeContext s) = true /\
                    reports cr lineNum (width line) k v) b st st'.
Proof.
  intros Hwf. unfold eval_rule. destruct (contextMatches _ _ _) eqn:Ec; simpl negb; cbv iota;
    [|by apply emits_none].
  assert (Himp : forall b st', emits (reports cr lineNum (width line)) b st st' ->
    emits (fun k v => true = true /\ reports cr lineNum (width line) k v) b st st').
  { intros b st'. apply emits_impl. auto. }
  destruct (if bool_decide (cr_keywords cr = []) then _ else _) as [kw st1] eqn:Ek.
  assert (He1 : emits (reports cr lineNum (width line)) kw st st1).
  { case_bool_decide; [simplify_eq; by apply emits_none|].
    pose proof (evalKeywords_emits s line lineNum cr st Hwf) as He. by rewrite Ek in He. }
  destruct kw; [by apply Himp|].
  pose proof (eval_rule_regexes_emits s (ToLower line) line lineNum cr st1) as He2.
  destruct (eval_rule_regexes _ _ _ _ _ _) as [[rx col] st2]. destruct He2 as [He2 Hcol].
  assert (He12 : emits (reports cr lineNum (width line)) rx st st2).
  { apply (emits_trans _ false rx _ _ _ He1). eapply emits_weaken; [|exact He2]. unfold width. lia. }
  destruct rx; [by apply Himp|]. rewrite (Hcol eq_refl).
  match goal with |- context [eval_rule_semantic _ _ _ _ _ ?x] => set (st3 := x) end. assert (Hs3 : silent st2 st3) by (unfold st3; by case_if).
  pose proof (eval_rule_semantic_silent s (ToLower line) line cr 1 st3 ltac:(lia)) as Hs.
  destruct (eval_rule_semantic _ _ _ _ _ _) as [[sem col'] st4]. destruct Hs as [Hs4 Hcol'].
  assert (He4 : emits (reports cr lineNum (width line)) false st st4).
  { apply (emits_trans _ false false _ _ _ He12). destruct Hs3 as (? & ? & ?), Hs4 as (? & ? & ?). apply emits_none; congruence. }
  destruct sem; [|by apply Himp]. case_decide; [by apply Himp|]. apply Himp.
  apply (emits_trans _ false true _ _ _ He4), emits_add; [done|].
  destruct col' as [|i]; [lia|]. apply plain_reports. unfold width. lia.
Qed.

(** What a violation of a line says: it is a violation of one of the loaded
    rules that applies in the context. *)
Definition line_violation (s : Scanner) (line : string) (lineNum : Z) (k : string) (v : Violation) :
    Prop :=
  exists cr, cr ∈ compiled s /\
    contextMatches (cr_when cr) (cr_unless cr) (runtimeContext s) = true /\
    reports cr lineNum (width line) k v.

Lemma eval_rules_emits s line lineNum crs b0 st :
  scanner_wf s -> crs ⊆ compiled s ->
  exists b st', eval_rules s (ToLower line) line lineNum (hits_of s (ToLower line)) crs b0 st =
      (b0 || b, st') /\ emits (line_violation s line lineNum) b st st'.
Proof.
  intros Hwf. revert b0 st. induction crs as [|cr crs IH]; intros b0 st Hsub; cbn [eval_rules].
  { exists false, st. rewrite orb_false_r. split; [done|by apply emits_none]. }
  pose proof (eval_rule_emits s line lineNum cr st Hwf) as He.
  destruct (eval_rule _ _ _ _ _ _ _) as [b st1].
  assert (He' : emits (line_violation s line lineNum) b st st1).
  { eapply emits_impl; [|exact He]. intros k v [Hc Hr]. exists cr. split_and!; [set_solver|done..]. }
  case_if.
  - apply andb_true_iff in E as [-> _]. exists true, st1. by rewrite orb_true_r.
  - destruct (IH (b0 || b) st1) as (b' & st' & -> & He2); [set_solver|].
    exists (b || b'), st'. rewrite orb_assoc. split; [done|]. by eapply emits_trans.
Qed.

(** Whatever the rules, the automata and the analyzer, evaluating a line
    only appends: every violation it adds is one of a loaded rule that
    applies in the runtime context, carries that rule's id, message,
    severity and timeout, the line number and a column inside the line, and
    no two of them share a deduplication key; the read counters are untouched.  The result is true exactly
    when something was added. *)
Theorem evaluateLine_reports s line lineNum st :
  scanner_wf s ->
  let '(b, st') := evaluateLine s line lineNum st in emits (line_violation s line lineNum) b st st'.
Proof.
  intros Hwf. unfold evaluateLine. fold (hits_of s (ToLower line)).
  by destruct (eval_rules_emits s line lineNum (compiled s) false st Hwf) as (b & st' & -> & He).
Qed.

Lemma emits_false_silent P st st' : emits P false st st' -> silent st st'.
Proof.
  intros (Hr & n & Hv & Hs & _ & _ & _ & Hb). destruct n as [|kv n]; [|naive_solver].
  split_and!; [by rewrite Hv, app_nil_r|rewrite Hs; set_solver|done].
Qed.

Lemma eval_rules_first s line lineNum crs b0 st :
  scanner_wf s -> firstMatch s = true ->
  exists b st', eval_rules s (ToLower line) line lineNum (hits_of s (ToLower line)) crs b0 st =
      (b0 || b, st') /\
    (b = false /\ silent st st' \/
     b = true /\ exists cr, cr ∈ crs /\ emits (reports cr lineNum (width line)) true st st').
Proof.
  intros Hwf Hfm. revert b0 st. induction crs as [|cr crs IH]; intros b0 st; cbn [eval_rules].
  { exists false, st. rewrite orb_false_r. split; [done|]. by left. }
  pose proof (eval_rule_emits s line lineNum cr st Hwf) as He.
  destruct (eval_rule _ _ _ _ _ _ _) as [b st1]. rewrite Hfm, andb_true_r.
  destruct b.
  - exists true, st1. rewrite orb_true_r. split; [done|]. right. split; [done|]. exists cr.
    split; [left|]. eapply emits_impl; [|exact He]. by intros k v [_ ?].
  - apply emits_false_silent in He. rewrite orb_false_r.
    destruct (IH b0 st1) as (b' & st' & -> & Hr). exists b', st'. split; [done|].
    destruct Hr as [[-> Hs]|(-> & cr' & Hin & Hr)]; [left; split; [done|by etrans]|].
    right. split; [done|]. exists cr'. split; [by right|]. destruct He as (Hv & Hs & Hrd).
    unfold emits in *. by rewrite Hv, Hs, Hrd in Hr.
Qed.

(** With the first_match strategy all violations of a line belong to one
    rule: the first of the loaded rules that matches. *)
Theorem first_match_one_rule s line lineNum st :
  scanner_wf s -> firstMatch s = true ->
  let '(b, st') := evaluateLine s line lineNum st in
  b = false /\ silent st st' \/
  b = true /\ exists cr, cr ∈ compiled s /\ emits (reports cr lineNum (width line)) true st st'.
Proof.
  intros Hwf Hfm. unfold evaluateLine. fold (hits_of s (ToLower line)).
  destruct (eval_rules_first s line lineNum (compiled s) false st Hwf Hfm) as (b & st' & -> & He).
  done.
Qed.

(** *** When a rule fires *)

(** A keyword counts when its first occurrence passes the whole-word test. *)
Definition keyword_hit (hay : string) (wholeWord : bool) (kw : string) : Prop :=
  exists idx, Index hay kw = Some idx /\
    (wholeWord = true -> word_bounded hay idx (String.length kw) = true).

Definition fires_keywords (line : string) cr : Prop :=
  let hay := if cr_caseSensitive cr then line else ToLower line in
  if cr_requireAll cr
  then cr_keywords cr <> [] /\ Forall (keyword_hit hay (cr_wholeWord cr)) (cr_keywords cr)
  else Exists (keyword_hit hay (cr_wholeWord cr)) (cr_keywords cr).

(** A verified match of one of the expressions, or a match of each of them. *)
Definition fires_regexes (line : string) cr : Prop :=
  if cr_requireAll cr
  then List.length (cr_regexes cr) <> 0 /\
       Forall (fun rx => is_Some (FindStringIndex rx line)) (cr_regexes cr)
  else exists i rx l, cr_regexes cr !! i = Some rx /\ l ∈ FindAllStringIndex rx line /\
       forall v, cr_verifiers cr !! i = Some v -> verify v (slice line l.1 l.2) = true.

(** The expressions are tried at all. *)
Definition regexes_tried (s : Scanner) (line : string) cr : Prop :=
  (maxLineForRegex s = 0%Z \/ (Z.of_nat (String.length line) <= maxLineForRegex s)%Z) /\
  gate_closed s (ToLower line) cr = false.

Definition fires (s : Scanner) (line : string) cr : Prop :=
  contextMatches (cr_when cr) (cr_unless cr) (runtimeContext s) = true /\
  (fires_keywords line cr \/ regexes_tried s line cr /\ fires_regexes line cr).

(** No key of the rule has been used. *)
Definition fresh cr st : Prop := forall suffix, cr_id cr +:+ String "|" suffix ∉ seen st.

Lemma all_keywords_hit hay ww kws first :
  is_Some (all_keywords hay ww kws first) <-> Forall (keyword_hit hay ww) kws.
Proof.
  revert first. induction kws as [|kw kws IH]; intros first; simpl; [by split; [constructor|eauto]|].
  rewrite Forall_cons. destruct (Index hay kw) as [idx|] eqn:Ei.
  - assert (Hk : keyword_hit hay ww kw <-> (ww = true -> word_bounded hay idx (String.length kw) = true)).
    { unfold keyword_hit. rewrite Ei. naive_solver. }
    rewrite Hk. case_if.
    + apply andb_true_iff in E as [-> Hn%negb_true_iff]. rewrite Hn.
      split; [by intros []|]. intros [Hw _]. by discriminate Hw.
    + rewrite IH. apply andb_false_iff in E. rewrite negb_false_iff in E.
      destruct ww; [|naive_solver]. naive_solver.
  - split; [by intros []|]. intros [(idx & Hidx & _) _]. congruence.
Qed.

Lemma keyword_fold_true hay lineNum cr kws b st :
  (forall kw idx, kw_key cr lineNum kw idx ∉ seen st) ->
  (foldl (keyword_step hay lineNum cr) (b, st) kws).1 = true <->
  b = true \/ Exists (keyword_hit hay (cr_wholeWord cr)) kws.
Proof.
  assert (Hmono : forall kws st, (foldl (keyword_step hay lineNum cr) (true, st) kws).1 = true).
  { clear. intros kws. induction kws as [|kw kws IH]; intros st; [done|]. simpl.
    destruct (Index hay kw); [|done]. case_if; [done|]. by case_decide. }
  intros Hfr. induction kws as [|kw kws IH]; cbn [foldl]; [rewrite Exists_nil; tauto|].
  rewrite Exists_cons. cbn [keyword_step]. destruct (Index hay kw) as [idx|] eqn:Ei.
  - case_if.
    + rewrite IH. apply andb_true_iff in E as [Hw Hn%negb_true_iff].
      split; [tauto|]. intros [?|[(i & Hi & Hb)|?]]; [tauto| |tauto].
      rewrite Ei in Hi. injection Hi as <-. rewrite Hb in Hn; done.
    + rewrite decide_False by apply Hfr. rewrite Hmono. split; [|done]. intros _. right. left.
      exists idx. split; [done|]. intros Hw. rewrite Hw in E. by apply negb_false_iff in E.
  - rewrite IH. split; [tauto|]. intros [?|[(i & Hi & _)|?]]; [tauto|congruence|tauto].
Qed.

Lemma evalKeywords_search_true line lineNum cr st :
  fresh cr st ->
  (evalKeywords_search (if cr_caseSensitive cr then line else ToLower line) lineNum cr st).1 = true
  <-> fires_keywords line cr.
Proof.
  intros Hfr. unfold evalKeywords_search, fires_keywords.
  set (hay := if cr_caseSensitive cr then line else ToLower line).
  destruct (cr_requireAll cr) eqn:Er; simpl andb; cbv iota.
  - case_bool_decide as Ek; cbn [negb]; cbv iota.
    + rewrite Ek. simpl. split; [done|]. by intros [].
    + rewrite <- (all_keywords_hit hay (cr_wholeWord cr) (cr_keywords cr) None).
      destruct (all_keywords _ _ _ _) as [first|].
      * rewrite decide_False by apply Hfr. split; [|done]. intros _. split; [done|eauto].
      * split; [done|]. by intros [_ [? ?]].
  - rewrite keyword_fold_true by (intros; apply Hfr). naive_solver.
Qed.

Lemma earliest_match_some line rxs e :
  is_Some (earliest_match line rxs e) <-> Forall (fun rx => is_Some (FindStringIndex rx line)) rxs.
Proof.
  revert e. induction rxs as [|rx rxs IH]; intros e; simpl; [by split; [constructor|eauto]|].
  rewrite Forall_cons. destruct (FindStringIndex rx line); [rewrite IH; naive_solver|].
  split; [by intros []|]. by intros [[] _].
Qed.

(** A match that its verifier accepts. *)
Definition accepted (line : string) (v : option string) (l : loc) : bool :=
  match v with Some v => verify v (slice line l.1 l.2) | None => true end.

Lemma match_fold_mono line lineNum cr v ls acc :
  acc.1.1 = true -> (foldl (match_step line lineNum cr v) acc ls).1.1 = true.
Proof.
  revert acc. induction ls as [|l ls IH]; intros [[b col] st] Hb; simpl in *; [done|].
  apply IH. case_if; [done|]. by case_decide.
Qed.

Lemma regex_fold_mono line lineNum cr irxs acc :
  acc.1.1 = true -> (foldl (regex_step line lineNum cr) acc irxs).1.1 = true.
Proof.
  revert acc. induction irxs as [|irx irxs IH]; intros acc Hb; simpl; [done|].
  apply IH. by apply match_fold_mono.
Qed.

(** Without a verified match the loop changes nothing. *)
Lemma match_fold_rejected line lineNum cr v ls acc :
  Forall (fun l => accepted line v l = false) ls ->
  foldl (match_step line lineNum cr v) acc ls = acc.
Proof.
  induction 1 as [|l ls Hl _ IH] in acc |- *; simpl; [done|].
  destruct acc as [[b col] st]. unfold accepted in Hl. unfold match_step at 2. rewrite Hl. apply IH.
Qed.

Lemma match_fold_true line lineNum cr v ls col st :
  (forall start, rx_key cr lineNum start ∉ seen st) ->
  (foldl (match_step line lineNum cr v) (false, col, st) ls).1.1 = true <->
  Exists (fun l => accepted line v l = true) ls.
Proof.
  intros Hfr. induction ls as [|l ls IH]; cbn [foldl]; [by rewrite Exists_nil|].
  rewrite Exists_cons. unfold match_step at 2. fold (accepted line v l).
  destruct (accepted line v l) eqn:Ea; simpl negb; cbv iota.
  - rewrite decide_False by apply Hfr. rewrite match_fold_mono by done. naive_solver.
  - rewrite IH. naive_solver.
Qed.

Lemma regex_fold_true line lineNum cr irxs col st :
  (forall start, rx_key cr lineNum start ∉ seen st) ->
  (foldl (regex_step line lineNum cr) (false, col, st) irxs).1.1 = true <->
  Exists (fun irx => Exists (fun l => accepted line (cr_verifiers cr !! irx.1) l = true)
                       (FindAllStringIndex irx.2 line)) irxs.
Proof.
  intros Hfr. induction irxs as [|[i rx] irxs IH]; cbn [foldl]; [by rewrite Exists_nil|].
  rewrite Exists_cons. unfold regex_step at 2. cbn [fst snd].
  destruct (decide (Exists (fun l => accepted line (cr_verifiers cr !! i) l = true)
    (FindAllStringIndex rx line))) as [Hex|Hno].
  - rewrite regex_fold_mono; [tauto|]. by apply match_fold_true.
  - rewrite match_fold_rejected; [rewrite IH; tauto|].
    apply Forall_forall. intros l Hl. apply not_true_is_false. intros Ha. apply Hno.
    apply Exists_exists. eauto.
Qed.

Lemma elem_of_indexed {A} (l : list A) i a : (i, a) ∈ indexed l <-> l !! i = Some a.
Proof.
  unfold indexed. rewrite list_elem_of_lookup. setoid_rewrite lookup_zip_with_Some.
  setoid_rewrite lookup_seq. split.
  - intros (j & x & y & [= -> ->] & [-> _] & Hy). done.
  - intros Hl. exists i, i, a. split_and!; [done|done|by apply lookup_lt_Some in Hl|done].
Qed.

Lemma evalRegexesStandard_true line lineNum cr st :
  fresh cr st -> (evalRegexesStandard line lineNum cr st).1.1 = true <-> fires_regexes line cr.
Proof.
  intros Hfr. unfold evalRegexesStandard, fires_regexes.
  destruct (cr_requireAll cr) eqn:Er; simpl andb; cbv iota.
  - case_bool_decide as Ek; cbn [negb]; cbv iota.
    + apply nil_length_inv in Ek. rewrite Ek. simpl. split; [done|]. by intros [].
    + rewrite <- (earliest_match_some line (cr_regexes cr) None).
      destruct (earliest_match _ _ _) as [first|].
      * rewrite decide_False by apply Hfr. split; [|done]. intros _. split; [done|eauto].
      * split; [done|]. by intros [_ [? ?]].
  - rewrite regex_fold_true by (intros; apply Hfr). rewrite Exists_exists. split.
    + intros ([i rx] & Hi%elem_of_indexed & (l & Hl & Ha)%Exists_exists).
      exists i, rx, l. split_and!; [done|done|]. intros v Hv. simpl in Ha. by rewrite Hv in Ha.
    + intros (i & rx & l & Hi & Hl & Hv). exists (i, rx). split; [by apply elem_of_indexed|].
      apply Exists_exists. exists l. split; [done|]. unfold accepted. simpl.
      destruct (cr_verifiers cr !! i); auto.
Qed.

Lemma fresh_silent cr st st' : silent st st' -> fresh cr st -> fresh cr st'.
Proof. intros (_ & Hs & _) Hf suffix. rewrite Hs. apply Hf. Qed.

Lemma eval_rule_regexes_true s line lineNum cr st :
  fresh cr st ->
  (eval_rule_regexes s (ToLower line) line lineNum cr st).1.1 = true <->
  regexes_tried s line cr /\ fires_regexes line cr.
Proof.
  intros Hfr. unfold eval_rule_regexes, regexes_tried. case_bool_decide as Ek.
  - apply nil_length_inv in Ek. split; [done|]. intros [_ Hf]. unfold fires_regexes in Hf.
    rewrite Ek in Hf. destruct (cr_requireAll cr); naive_solver.
  - case_if; [split; [done|lia]|]. case_if; [split; [done|]; by intros [[_ ?] _]|].
    rewrite evalRegexesStandard_true by done. split; [|tauto]. intros ?. split_and!; [lia|done|done].
Qed.

(** The keyword pass of the loop body. *)
Lemma keyword_pass_true s line lineNum cr st :
  aho s = None -> fresh cr st ->
  let '(kw, st1) := if bool_decide (cr_keywords cr = []) then (false, st)
    else evalKeywords s (ToLower line) line lineNum cr (hits_of s (ToLower line)) st in
  (kw = true <-> fires_keywords line cr) /\ (kw = false -> silent st st1).
Proof.
  intros Ha Hfr. unfold evalKeywords. rewrite Ha. case_bool_decide as Ek.
  - split; [|done]. unfold fires_keywords. rewrite Ek. split; [done|].
    destruct (cr_requireAll cr); [by intros []|by intros ?%Exists_nil].
  - pose proof (evalKeywords_search_true line lineNum cr st Hfr) as Ht.
    pose proof (evalKeywords_search_emits (if cr_caseSensitive cr then line else ToLower line)
      lineNum cr st) as He.
    destruct (evalKeywords_search _ _ _ _) as [kw st1]. simpl in Ht. split; [done|].
    intros ->. by eapply emits_false_silent.
Qed.

(** A rule that fires is reported, whatever its level; below level 3 nothing
    else is. *)
Lemma eval_rule_true s line lineNum cr st :
  aho s = None -> fresh cr st ->
  let b := (eval_rule s (ToLower line) line lineNum (hits_of s (ToLower line)) cr st).1 in
  (fires s line cr -> b = true) /\ (cr_level cr <> 3%Z -> b = true -> fires s line cr).
Proof.
  intros Ha Hfr. unfold eval_rule, fires.
  destruct (contextMatches _ _ _); simpl negb; cbv iota; [|by split; [intros [? _]|]].
  pose proof (keyword_pass_true s line lineNum cr st Ha Hfr) as Hk.
  destruct (if bool_decide (cr_keywords cr = []) then _ else _) as [kw st1].
  destruct Hk as [Hk Hs]. destruct kw; [split; [done|intros _ _; split; [done|left; by apply Hk]]|].
  pose proof (eval_rule_regexes_true s line lineNum cr st1 (fresh_silent _ _ _ (Hs eq_refl) Hfr)) as Hr.
  destruct (eval_rule_regexes _ _ _ _ _ _) as [[rx col] st2]. simpl in Hr.
  destruct rx; [split; [done|intros _ _; split; [done|right; by apply Hr]]|].
  split; [intros [_ [Hf|Hf]]; [by apply Hk in Hf|by apply Hr in Hf]|].
  intros Hl. unfold eval_rule_semantic. by replace (cr_level cr =? 3)%Z with false by lia.
Qed.

Lemma eval_rules_grow s line lineNum crs b0 st :
  scanner_wf s -> exists new,
    violations (eval_rules s (ToLower line) line lineNum (hits_of s (ToLower line)) crs b0 st).2 =
    violations st ++ new.
Proof.
  intros Hwf. revert b0 st. induction crs as [|cr crs IH]; intros b0 st; cbn [eval_rules].
  { exists []. by rewrite app_nil_r. }
  pose proof (eval_rule_emits s line lineNum cr st Hwf) as He.
  destruct (eval_rule _ _ _ _ _ _ _) as [b st1]. destruct He as (_ & n1 & Hv1 & _).
  case_if; [by exists (map snd n1)|]. destruct (IH (b0 || b) st1) as [n2 ->].
  exists (map snd n1 ++ n2). by rewrite Hv1, app_assoc.
Qed.

(** A line on which nothing is reported is one on which no rule fires. *)
Lemma eval_rules_silent s line lineNum crs b0 st :
  scanner_wf s -> aho s = None -> seen st = ∅ ->
  silent st (eval_rules s (ToLower line) line lineNum (hits_of s (ToLower line)) crs b0 st).2 ->
  Forall (fun cr => ~ fires s line cr) crs.
Proof.
  intros Hwf Ha. revert b0 st. induction crs as [|cr crs IH]; intros b0 st Hs; [constructor|].
  cbn [eval_rules]. pose proof (eval_rule_emits s line lineNum cr st Hwf) as He.
  assert (Hfr : fresh cr st) by (intros suffix; rewrite Hs; apply not_elem_of_empty).
  pose proof (eval_rule_true s line lineNum cr st Ha Hfr) as [Ht _].
  destruct (eval_rule _ _ _ _ _ _ _) as [b st1]. simpl in Ht.
  intros Hsil. assert (b = false /\ silent st st1) as [-> Hsil1].
  { destruct b; [exfalso|split; [done|by eapply emits_false_silent]].
    destruct He as (_ & n1 & Hv1 & _ & _ & _ & _ & Hb). destruct n1 as [|kv n1]; [by apply Hb|].
    assert (exists new, violations (if true && firstMatch s then (true, st1) else
      eval_rules s (ToLower line) line lineNum (hits_of s (ToLower line)) crs (b0 || true) st1).2 =
      violations st1 ++ new) as [new Hnew].
    { case_if; [exists []; by rewrite app_nil_r|]. by apply eval_rules_grow. }
    destruct Hsil as (Hv & _). rewrite Hnew, Hv1 in Hv.
    apply (f_equal (@List.length _)) in Hv. rewrite !length_app in Hv. simpl in Hv. lia. }
  constructor; [by intros ?%Ht|]. simpl in Hsil. apply (IH (b0 || false) st1).
  - destruct Hsil1 as (_ & -> & _). done.
  - destruct Hsil1 as (E1 & E2 & E3), Hsil as (E4 & E5 & E6). split_and!; congruence.
Qed.

(** Ids that can be told apart in a key. *)
Definition plain_id cr : Prop := CountByte "|" (cr_id cr) = 0.

Lemma fresh_other c cr P b st st' :
  plain_id c -> plain_id cr -> cr_id c <> cr_id cr ->
  (forall k v, P k v -> exists suffix, k = cr_id c +:+ String "|" suffix) ->
  emits P b st st' -> fresh cr st -> fresh cr st'.
Proof.
  intros Hc Hcr Hne HP (_ & new & _ & Hs & _ & _ & Hall & _) Hf suffix. rewrite Hs, elem_of_union.
  intros [Hin|Hin]; [|by apply Hf in Hin]. apply elem_of_list_to_set in Hin.
  apply list_elem_of_fmap in Hin as ([k v] & E & Hkv). simpl in E. subst.
  rewrite Forall_forall in Hall. apply Hall, HP in Hkv as [suffix' E].
  apply Hne. symmetry. by eapply split_unique.
Qed.

Lemma emits_ids P b st st' :
  emits P b st st' -> exists new, violations st' = violations st ++ new /\
    Forall (fun v => exists k, P k v) new /\ (b = true <-> new <> []).
Proof.
  intros (_ & new & Hv & _ & _ & _ & Hall & Hb). exists (map snd new). split_and!; [done| |].
  - apply Forall_forall. intros v ([k v'] & -> & Hkv)%list_elem_of_fmap.
    rewrite Forall_forall in Hall. exists k. by apply (Hall (k, v')).
  - rewrite Hb. destruct new; naive_solver.
Qed.

Lemma eval_rules_others s line lineNum crs b0 st id :
  scanner_wf s -> Forall (fun c => cr_id c <> id) crs ->
  exists new, violations (eval_rules s (ToLower line) line lineNum (hits_of s (ToLower line)) crs b0 st).2
      = violations st ++ new /\ Forall (fun v => v_RuleID v <> id) new.
Proof.
  intros Hwf Hids. revert b0 st. induction Hids as [|c crs Hc _ IH]; intros b0 st; cbn [eval_rules].
  { exists []. by rewrite app_nil_r. }
  pose proof (eval_rule_emits s line lineNum c st Hwf) as He.
  destruct (eval_rule _ _ _ _ _ _ _) as [b st1].
  apply emits_ids in He as (n1 & Hv1 & Hn1 & _).
  assert (Hn1' : Forall (fun v => v_RuleID v <> id) n1).
  { eapply Forall_impl; [exact Hn1|]. intros v (k & _ & _ & Hid & _). congruence. }
  case_if; [by exists n1|]. destruct (IH (b0 || b) st1) as (n2 & -> & Hn2).
  exists (n1 ++ n2). rewrite Hv1, app_assoc. split; [done|by apply Forall_app].
Qed.

Lemma eval_rules_rule s line lineNum crs cr b0 st :
  scanner_wf s -> aho s = None -> firstMatch s = false -> Forall plain_id crs ->
  NoDup (map cr_id crs) -> cr ∈ crs -> cr_level cr <> 3%Z -> fresh cr st ->
  exists new, violations (eval_rules s (ToLower line) line lineNum (hits_of s (ToLower line)) crs b0 st).2
      = violations st ++ new /\ (Exists (fun v => v_RuleID v = cr_id cr) new <-> fires s line cr).
Proof.
  intros Hwf Ha Hfm Hpl Hnd Hin Hl. revert b0 st.
  induction crs as [|c crs IH]; intros b0 st Hfr; [by apply elem_of_nil in Hin|].
  apply Forall_cons in Hpl as [Hpc Hpl]. apply NoDup_cons in Hnd as [Hnc Hnd].
  cbn [eval_rules]. rewrite Hfm.
  pose proof (eval_rule_emits s line lineNum c st Hwf) as He.
  pose proof (eval_rule_true s line lineNum c st Ha) as Ht.
  destruct (eval_rule _ _ _ _ _ _ _) as [b st1]. rewrite andb_false_r. simpl in Ht.
  pose proof (emits_ids _ _ _ _ He) as (n1 & Hv1 & Hn1 & Hb).
  apply elem_of_cons in Hin as [<-|Hin].
  - destruct (eval_rules_others s line lineNum crs (b0 || b) st1 (cr_id cr) Hwf) as (n2 & -> & Hn2).
    { apply Forall_forall. intros c Hc E. apply Hnc. rewrite <- E. by apply (list_elem_of_fmap_2 cr_id). }
    exists (n1 ++ n2). rewrite Hv1, app_assoc. split; [done|].
    destruct (Ht Hfr) as [Ht1 Ht2]. assert (fires s line cr <-> b = true) as -> by (split; auto).
    rewrite Hb, Exists_app. split.
    + intros [Hx|(v & Hv & E)%Exists_exists]; [by intros ->; apply Exists_nil in Hx|].
      rewrite Forall_forall in Hn2. by apply Hn2 in Hv.
    + intros Hne. left. destruct n1 as [|v n1]; [done|]. apply Forall_cons in Hn1 as [(k & _ & _ & Hid & _) _].
      by apply Exists_cons_hd.
  - assert (Hne : cr_id c <> cr_id cr).
    { intros E. apply Hnc. rewrite E. by apply (list_elem_of_fmap_2 cr_id). }
    assert (Hpcr : plain_id cr) by (rewrite Forall_forall in Hpl; by apply Hpl).
    destruct (IH Hpl Hnd Hin (b0 || b) st1) as (n2 & -> & Hn2).
    { eapply (fresh_other c cr); [done..| |exact He|done]. intros k v [_ [? _]]. done. }
    exists (n1 ++ n2). rewrite Hv1, app_assoc. split; [done|]. rewrite <- Hn2, Exists_app.
    split; [|by right]. intros [(v & Hv & E)%Exists_exists|?]; [|done]. exfalso.
    rewrite Forall_forall in Hn1. destruct (Hn1 v Hv) as (k & _ & _ & Hid & _). congruence.
Qed.

Lemma evaluateLine_exact s line lineNum st cr :
  scanner_wf s -> aho s = None -> firstMatch s = false ->
  Forall plain_id (compiled s) -> NoDup (map cr_id (compiled s)) ->
  cr ∈ compiled s -> cr_level cr <> 3%Z -> violations st = [] -> seen st = ∅ ->
  Exists (fun v => v_RuleID v = cr_id cr) (violations (evaluateLine s line lineNum st).2) <->
  fires s line cr.
Proof.
  intros Hwf Ha Hfm Hpl Hnd Hin Hl Hv Hs. unfold evaluateLine. fold (hits_of s (ToLower line)).
  destruct (eval_rules_rule s line lineNum (compiled s) cr false st) as (new & -> & Hn); try done.
  - intros suffix. rewrite Hs. set_solver.
  - by rewrite Hv.
Qed.

(** The scanner reports a rule on a line if and only if the rule matches
    it.  For a scanner without the keyword automaton that reports all
    matches, and rules with distinct ids free of the key separator, a rule of
    level 1 or 2 has a violation among those of the line exactly when it
    applies in the context and its keywords match, or its expressions are
    tried and match with their verifiers (one of them, or all with
    [logic: all]). *)
Theorem evaluateLine_iff_fires s line lineNum st cr :
  scanner_wf s -> aho s = None -> firstMatch s = false ->
  Forall plain_id (compiled s) -> NoDup (map cr_id (compiled s)) ->
  cr ∈ compiled s -> cr_level cr <> 3%Z -> violations st = [] -> seen st = ∅ ->
  Exists (fun v => v_RuleID v = cr_id cr) (violations (evaluateLine s line lineNum st).2) <->
  fires s line cr.
Proof. apply evaluateLine_exact. Qed.
End Emits.
