(* ===== verification/Load.v ===== *)
(** * Load: installing rule packs into a scanner

    [LoadRulePacks] of src/internal/scanner/loader.go: choice of the merge,
    the pattern-length guard, compilation, and the settings derived from the
    packs.  Trimming the fallback patterns of a rule writes through the
    pointer shared with the caller's pack; the pack is not read again after
    it, so the model returns the scanner only. *)

From Stdlib Require Import Ascii String.
From S2P Require Import Prelude GoString Unicode Rules Merge Verifiers Complexity Aho Literals Engine Compile Scanner.

Section Load.
Context `{RegexpSyntax, RegexpEngine, LruLib, AhoLib, Platform}.

(** [p.Composition != nil && strings.EqualFold(p.Composition.Strategy, name)]. *)
Definition has_strategy (name : string) (p : RulePack) : bool :=
  match rp_Composition p with Some c => EqualFold (comp_Strategy c) name | None => false end.

Definition usePriority (s : Scanner) (packs : list RulePack) : bool :=
  existsb (has_strategy "priority_order") packs
  || bool_decide (ToLower (compositionStrategy s) = "priority_order").

Definition merged_rules (s : Scanner) (packs : list RulePack) : list Rule :=
  if usePriority s packs then MergePacksPriorityOrder packs else MergePacks packs.

(** The patterns short enough for [s.maxPatternLength]. *)
Definition short_patterns (max : Z) (ps : list Pattern) : list Pattern :=
  filter (fun p => (Z.of_nat (String.length (pat_Regex p)) <= max)%Z) ps.

Definition trim_rule (max : Z) (r : Rule) : Rule :=
  set_Patterns r (short_patterns max (r_Patterns r))
    (match r_Fallback r with
     | Some fb => Some {| fb_Patterns := short_patterns max (fb_Patterns fb); fb_Action := fb_Action fb |}
     | None => None
     end).

Definition trim_rules (s : Scanner) (rs : list Rule) : list Rule :=
  if (0 <? s_maxPatternLength s)%Z then map (trim_rule (s_maxPatternLength s)) rs else rs.

(** The settings the loop over the packs updates. *)
Record settings := {
  set_firstMatch : bool;
  set_maxLine : Z;
  set_fileTimeout : Z;
  set_aho : option Aho;
  set_tokens : gmap string Aho;
  set_globals : Globals;
}.

(** The non-empty keywords of the level-1 rules. *)
Definition level1_keywords (crs : list compiledRule) : list string :=
  flat_map (fun cr => if (cr_level cr =? 1)%Z then filter (fun k => k <> "") (cr_keywords cr) else []) crs.

Definition token_automata (crs : list compiledRule) : gmap string Aho :=
  foldl (fun m cr => if bool_decide (cr_literalTokens cr = []) then m
                     else <[cr_id cr := NewAho (cr_literalTokens cr)]> m) ∅ crs.

(** [if p.Performance.MaxLength > 0 { ... }] *)
Definition apply_max_length (crs : list compiledRule) (perf : Performance) (st : settings) : settings :=
  if (0 <? perf_MaxLength perf)%Z then
    let kw := level1_keywords crs in
    {| set_firstMatch := set_firstMatch st;
       set_maxLine := if ((set_maxLine st =? 0) || (perf_MaxLength perf <? set_maxLine st))%Z
                      then perf_MaxLength perf else set_maxLine st;
       set_fileTimeout := set_fileTimeout st;
       set_aho := if bool_decide (kw = []) then None else Some (NewAho kw);
       set_tokens := token_automata crs;
       set_globals :=
         if (0 <? gate_MinTokenLen (perf_Gate perf))%Z
         then {| minTokenLen := gate_MinTokenLen (perf_Gate perf);
                 globalMaxPatternLength := globalMaxPatternLength (set_globals st) |}
         else set_globals st |}
  else st.

(** [if p.Performance.Timeout != "" { ... }]: the smallest timeout wins. *)
Definition apply_timeout (perf : Performance) (st : settings) : settings :=
  if bool_decide (perf_Timeout perf = "") then st
  else match ParseDuration (perf_Timeout perf) with
  | None => st
  | Some d =>
    {| set_firstMatch := set_firstMatch st; set_maxLine := set_maxLine st;
       set_fileTimeout := if ((set_fileTimeout st =? 0) || (d <? set_fileTimeout st))%Z
                          then d else set_fileTimeout st;
       set_aho := set_aho st; set_tokens := set_tokens st; set_globals := set_globals st |}
  end.

(** [if !p.Performance.Gate.Enabled { s.ruleTokenAho = nil }] *)
Definition apply_gate (perf : Performance) (st : settings) : settings :=
  if gate_Enabled (perf_Gate perf) then st
  else {| set_firstMatch := set_firstMatch st; set_maxLine := set_maxLine st;
          set_fileTimeout := set_fileTimeout st; set_aho := set_aho st; set_tokens := ∅;
          set_globals := set_globals st |}.

(** One turn of the last loop. *)
Definition apply_pack (crs : list compiledRule) (st : settings) (p : RulePack) : settings :=
  let st := {| set_firstMatch := set_firstMatch st || has_strategy "first_match" p;
               set_maxLine := set_maxLine st; set_fileTimeout := set_fileTimeout st;
               set_aho := set_aho st; set_tokens := set_tokens st; set_globals := set_globals st |} in
  match rp_Performance p with
  | None => st
  | Some perf => apply_gate perf (apply_timeout perf (apply_max_length crs perf st))
  end.

(** The scanner with its new rules and settings. *)
Definition install (s : Scanner) (crs : list compiledRule) (st : settings) : Scanner :=
  {| bufferSizeBytes := bufferSizeBytes s; compiled := crs; runtimeContext := runtimeContext s;
     perFileBudget := perFileBudget s; quarantineOnTimeout := quarantineOnTimeout s;
     quarantineOnError := quarantineOnError s; firstMatch := set_firstMatch st;
     maxLineForRegex := set_maxLine st; fileTimeout := set_fileTimeout st;
     maxFileBytes := maxFileBytes s; maxStreamBytes := maxStreamBytes s;
     compositionStrategy := compositionStrategy s; hasSemantic := hasSemantic s;
     defaultRuleTimeoutMs := defaultRuleTimeoutMs s; defaultCaseSensitive := defaultCaseSensitive s;
     defaultWholeWord := defaultWholeWord s; aho := set_aho st; ruleTokenAho := set_tokens st;
     chunkOverlapBytes := chunkOverlapBytes s; s_maxPatternLength := s_maxPatternLength s;
     maxResidentMemoryBytes := maxResidentMemoryBytes s; totalScanBudget := totalScanBudget s |}.

(** [LoadRulePacks] with the package variables and the expression cache; the
    errors are the ones it logs. *)
Definition LoadRulePacks (packs : list RulePack) (g : Globals) (c : regex_cache) (s : Scanner) :
    Scanner * list compile_error * Globals * regex_cache :=
  let merged := trim_rules s (merged_rules s packs) in
  let '(crs, errs, c) := compileRules g (defaultRuleTimeoutMs s) (defaultCaseSensitive s)
                           (defaultWholeWord s) merged c in
  let st0 := {| set_firstMatch := firstMatch s
                  || bool_decide (ToLower (compositionStrategy s) = "first_match");
                set_maxLine := maxLineForRegex s; set_fileTimeout := fileTimeout s;
                set_aho := aho s; set_tokens := ruleTokenAho s; set_globals := g |} in
  let st := foldl (apply_pack crs) st0 packs in
  (install s crs st, errs, set_globals st, c).
End Load.

(** ** Facts *)

Section LoadFacts.
Context `{RegexpSyntax, RegexpEngine, LruLib, AhoLib, Platform}.

Lemma merged_NoDup s packs : NoDup (map r_ID (merged_rules s packs)).
Proof.
  unfold merged_rules. destruct (usePriority s packs);
    [apply MergePacksPriorityOrder_NoDup|apply MergePacks_NoDup].
Qed.

Lemma trim_rules_ids s rs : map r_ID (trim_rules s rs) = map r_ID rs.
Proof. unfold trim_rules. case_if; [|done]. rewrite map_map. by apply map_ext. Qed.

Lemma NewAho_wf ps : aho_wf (NewAho ps).
Proof.
  apply Forall_forall. intros p Hp. by apply (NewAho_patterns ps) in Hp as [_ ?].
Qed.

Lemma token_automata_wf crs : map_Forall (fun _ a => aho_wf a) (token_automata crs).
Proof.
  unfold token_automata.
  induction crs as [|cr crs IH] using rev_ind; [apply map_Forall_empty|].
  rewrite foldl_snoc. case_bool_decide; [done|]. apply map_Forall_insert_2; [apply NewAho_wf|done].
Qed.

(** The invariant of the settings: the automata hold no empty pattern. *)
Definition settings_wf (st : settings) : Prop :=
  (forall a, set_aho st = Some a -> aho_wf a) /\ map_Forall (fun _ a => aho_wf a) (set_tokens st).

Lemma apply_max_length_wf crs perf st : settings_wf st -> settings_wf (apply_max_length crs perf st).
Proof.
  intros Hw. unfold apply_max_length. case_if; [|done].
  split; simpl; [|apply token_automata_wf]. intros a. case_bool_decide; [done|].
  intros [= <-]. apply NewAho_wf.
Qed.

Lemma apply_timeout_wf perf st : settings_wf st -> settings_wf (apply_timeout perf st).
Proof. intros Hw. unfold apply_timeout. case_if; [done|]. by case_match. Qed.

Lemma apply_gate_wf perf st : settings_wf st -> settings_wf (apply_gate perf st).
Proof.
  intros [Ha Ht]. unfold apply_gate. case_if; [done|]. split; [done|apply map_Forall_empty].
Qed.

Lemma apply_pack_wf crs st p : settings_wf st -> settings_wf (apply_pack crs st p).
Proof.
  intros Hw. unfold apply_pack. destruct (rp_Performance p); [|done].
  by apply apply_gate_wf, apply_timeout_wf, apply_max_length_wf.
Qed.

Lemma LoadRulePacks_wf packs g c s :
  scanner_wf s -> scanner_wf (LoadRulePacks packs g c s).1.1.1.
Proof.
  intros [Ha Ht]. unfold LoadRulePacks.
  destruct (compileRules _ _ _ _ _ _) as [[crs errs] c']. simpl.
  match goal with |- context [foldl (apply_pack crs) ?x packs] => set (st0 := x) end.
  assert (Hw : settings_wf (foldl (apply_pack crs) st0 packs)); [|exact Hw].
  assert (H0' : settings_wf st0) by done. clearbody st0. clear -H0'.
  induction packs as [|p packs IH] in st0, H0' |- *; simpl; [done|].
  by apply IH, apply_pack_wf.
Qed.

(** Loading keeps the scanner well formed (no automaton holds an empty
    keyword, which would match everywhere), installs exactly the rules of the
    selected merge with their ids in order and without repetition, and every
    pattern that is short enough is compiled or reported. *)
Theorem LoadRulePacks_installs packs g c s :
  scanner_wf s ->
  let '(s', errs, _, _) := LoadRulePacks packs g c s in
  scanner_wf s' /\
  map cr_id (compiled s') = map r_ID (merged_rules s packs) /\ NoDup (map cr_id (compiled s')) /\
  sum_list (map expressions_of (compiled s')) + List.length errs =
    sum_list (map patterns_of (trim_rules s (merged_rules s packs))).
Proof.
  intros Hwf. pose proof (LoadRulePacks_wf packs g c s Hwf) as Hwf'. revert Hwf'. unfold LoadRulePacks.
  pose proof (compileRules_ok g (defaultRuleTimeoutMs s) (defaultCaseSensitive s)
    (defaultWholeWord s) (trim_rules s (merged_rules s packs)) c) as Hc.
  destruct (compileRules _ _ _ _ _ _) as [[crs errs] c']. destruct Hc as (Hids & _ & Hn & _).
  rewrite trim_rules_ids in Hids. simpl. intros Hwf'. split_and!; [done|done| |done].
  rewrite Hids. apply merged_NoDup.
Qed.

(** *** From packs to violations *)



End LoadFacts.

(** ** A scanner to try things on *)

Definition quiet_world : World := {| Analyze _ _ _ _ := Err ""; Now _ := 0%Z |}.

Module Demo.
#[local] Existing Instance literal_syntax.
#[local] Existing Instance literal_engine.
#[local] Existing Instance list_lru.
#[local] Existing Instance naive_lib.
#[local] Existing Instance bare_platform.
#[local] Existing Instance quiet_world.

(** A rule with keywords and literal patterns. *)
Definition rule (id : string) (level : Z) (kws pats : list string) : Rule :=
  {| r_ID := id; r_Name := ""; r_Level := level; r_Severity := ""; r_Category := "";
     r_Enabled := None; r_Verifier := ""; r_Keywords := kws;
     r_Patterns := map (fun p => {| pat_Name := ""; pat_Regex := p; pat_Flags := []; pat_Verifier := "" |}) pats;
     r_Semantic := None; r_Fallback := None; r_Logic := "";
     r_Options := {| opt_CaseSensitive := false; opt_WholeWord := false |};
     r_Response := None; r_Cache := None; r_When := None; r_Unless := None; r_Timeout := "" |}.

Definition performance (maxLength : Z) (gate : bool) : Performance :=
  {| perf_MaxLength := maxLength; perf_Timeout := ""; perf_PerRuleTimeout := "";
     perf_TotalScanTimeout := ""; perf_Gate := {| gate_Enabled := gate; gate_MinTokenLen := 0 |} |}.

Definition pack (name : string) (perf : option Performance) (strategy : string) (rs : list Rule) : RulePack :=
  {| rp_APIVersion := ""; rp_Kind := ""; rp_Metadata := metadata0 name; rp_Rules := rs;
     rp_Extends := []; rp_Imports := [];
     rp_Composition := Some {| comp_Strategy := strategy; comp_Priority := 0 |};
     rp_Performance := perf; rp_Overrides := []; rp_Context := ∅; rp_SourcePath := "" |}.

Definition load (packs : list RulePack) (s : Scanner) : Scanner :=
  (LoadRulePacks packs globals0 None s).1.1.1.

Definition st0 : eval_state :=
  {| violations := []; metrics := metrics0; seen := ∅; caches := ∅; calls := 0; ticks := 0 |}.

(** The rule ids and columns reported on a line. *)
Definition found_on (s : Scanner) (line : string) : list (string * Z) :=
  map (fun v => (v_RuleID v, v_Column v)) (violations (evaluateLine s line 1 st0).2).

Definition plain : Scanner :=
  load [pack "p" None "" [rule "a" 1 ["foo"; "BAR"] []; rule "b" 2 [] ["baz"]]] (ScanEngineCstor 0).
Definition first : Scanner :=
  load [pack "p" None "first_match" [rule "a" 1 ["foo"; "BAR"] []; rule "b" 2 [] ["baz"]]] (ScanEngineCstor 0).

Lemma plain_finds : found_on plain "a Foo, a bar, a baz" = [("a", 3%Z); ("a", 10%Z); ("b", 17%Z)].
Proof. vm_compute. reflexivity. Qed.

Lemma plain_wf : scanner_wf plain.
Proof. split; [done|]. vm_compute. done. Qed.
End Demo.

Section EndToEnd.
Context `{RegexpSyntax, RegexpEngine, LruLib, AhoLib, Platform, World}.

(** *** What a rule asks for *)












End EndToEnd.

Module Witnesses.
Import Demo.
#[local] Existing Instance literal_syntax.
#[local] Existing Instance literal_engine.
#[local] Existing Instance list_lru.
#[local] Existing Instance naive_lib.
#[local] Existing Instance bare_platform.
#[local] Existing Instance quiet_world.

Lemma evaluateLine_reports_witness :
  let '(b, st') := evaluateLine plain "a Foo" 7 st0 in emits (line_violation plain "a Foo" 7) b st0 st'.
Proof. apply evaluateLine_reports, plain_wf. Defined.

Lemma first_wf : scanner_wf first.
Proof. split; [done|]. vm_compute. done. Qed.

Lemma first_match_one_rule_witness :
  found_on first "a Foo, a baz" = [("a", 3%Z)] /\
  let '(b, st') := evaluateLine first "a Foo, a baz" 1 st0 in
  b = false /\ silent st0 st' \/
  b = true /\ exists cr, cr ∈ compiled first /\ emits (reports cr 1 (width "a Foo, a baz")) true st0 st'.
Proof.
  split; [vm_compute; reflexivity|].
  apply first_match_one_rule; [apply first_wf|vm_compute; reflexivity].
Defined.

Lemma plain_ids : map cr_id (compiled plain) = ["a"; "b"].
Proof. vm_compute. reflexivity. Qed.

Lemma plain_levels : map cr_level (compiled plain) = [1; 2]%Z.
Proof. vm_compute. reflexivity. Qed.

Lemma evaluateLine_iff_fires_witness : Exists (fires plain "a Foo") (compiled plain).
Proof.
  pose proof plain_ids as Hids. pose proof plain_levels as Hlev.
  destruct (compiled plain) as [|cr crs] eqn:Ec; [discriminate Hids|]. apply Exists_cons_hd.
  simpl in Hids, Hlev. injection Hids as Hid Hids. injection Hlev as Hl _.
  apply (evaluateLine_iff_fires plain "a Foo" 1 st0 cr).
  - apply plain_wf.
  - vm_compute. reflexivity.
  - vm_compute. reflexivity.
  - apply Forall_forall. intros c Hc. unfold plain_id.
    assert (cr_id c ∈ ["a"; "b"]) as Hin.
    { rewrite <- plain_ids. by apply (list_elem_of_fmap_2 cr_id). }
    apply elem_of_cons in Hin as [->|Hin]; [reflexivity|].
    apply list_elem_of_singleton in Hin as ->. reflexivity.
  - rewrite plain_ids. apply NoDup_cons. split; [by intros ?%list_elem_of_singleton|apply NoDup_singleton].
  - rewrite Ec. left.
  - rewrite Hl. done.
  - reflexivity.
  - reflexivity.
  - rewrite Hid. apply Exists_exists.
    assert ("a" ∈ map v_RuleID (violations (evaluateLine plain "a Foo" 1 st0).2)) as Ha
      by (vm_compute; left).
    apply list_elem_of_fmap in Ha as (v & Hv & Hin). by exists v.
Defined.

Definition demo_packs2 : list RulePack :=
  [pack "p" None "" [rule "a" 1 ["foo"; "BAR"] []; rule "b" 2 [] ["baz"]]].

Lemma LoadRulePacks_installs_witness :
  NoDup (map cr_id (compiled (LoadRulePacks demo_packs2 globals0 None (ScanEngineCstor 0)).1.1.1)).
Proof.
  pose proof (LoadRulePacks_installs demo_packs2 globals0 None (ScanEngineCstor 0)) as Hi.
  destruct (LoadRulePacks demo_packs2 globals0 None (ScanEngineCstor 0)) as [[[s' errs] g'] c'].
  apply Hi. split; [done|]. apply map_Forall_empty.
Defined.


(** ** Where the scanner departs from the rules it was given *)

Definition fast : Scanner :=
  load [pack "p" (Some (performance 1000 false)) "" [rule "a" 1 ["foo"] []; rule "b" 1 ["bar"] []]]
    (ScanEngineCstor 0).

(** With the automaton built (any pack that sets max_length), a hit of any
    level-1 keyword counts for every rule with keywords: rule [b] is reported
    on a line that does not contain its keyword. *)
Lemma automaton_hits_any_rule : found_on fast "foo" = [("a", 1%Z); ("b", 1%Z)].
Proof. vm_compute. reflexivity. Qed.

(** Loading packs without performance settings replaces the rules and keeps
    the automaton of the previous packs, whose keywords are then reported for
    the new rules, while the new keywords are missed next to one. *)
Lemma automaton_survives_reload :
  let s := load [pack "q" None "" [rule "c" 1 ["baz"] []]] fast in
  map cr_id (compiled s) = ["c"] /\ found_on s "foo" = [("c", 1%Z)] /\
  found_on s "a foo and a baz" = [("c", 3%Z)].
Proof. vm_compute. done. Qed.

(** A whole-word keyword is looked up at its first occurrence only. *)
Lemma whole_word_first_occurrence :
  let cr := {| cr_id := "w"; cr_message := ""; cr_severity := ""; cr_category := ""; cr_level := 1;
    cr_keywords := ["foo"]; cr_regexes := []; cr_verifiers := []; cr_semantic := None;
    cr_fallbackRegexes := []; cr_when := None; cr_unless := None; cr_timeoutMs := 0;
    cr_requireAll := false; cr_caseSensitive := false; cr_wholeWord := true; cr_literalTokens := [];
    cr_response := None; cr_fallbackAction := ""; cr_cacheEnabled := false; cr_cacheTTL := 0;
    cr_cacheMaxEntries := 0 |} in
  (evalKeywords_search "foo" 1 cr st0).1 = true /\ (evalKeywords_search "food foo" 1 cr st0).1 = false.
Proof. vm_compute. done. Qed.

(** An engine that reads [\b] as a word boundary it does not check. *)
Fixpoint strip_boundaries (s : string) : string :=
  match s with
  | String "\" (String "b" s) => strip_boundaries s
  | String c s => String c (strip_boundaries s)
  | EmptyString => ""
  end.

Program Definition boundary_engine : RegexpEngine :=
  {| regexp := string; regexp_Compile s := Ok (strip_boundaries s);
     FindStringIndex := literal_find; FindAllStringIndex := literal_find_all |}.
Next Obligation. apply (@FindAll_bounds literal_engine). Qed.
Next Obligation. apply (@FindAll_head literal_engine). Qed.
Next Obligation. apply (@FindAll_increasing literal_engine). Qed.

Definition found_with (packs : list RulePack) (line : string) : list string :=
  map v_RuleID (violations (@evaluateLine boundary_engine _ _ _
    (@LoadRulePacks _ boundary_engine _ _ packs globals0 None (@ScanEngineCstor boundary_engine 0)).1.1.1
    line 1 (@Build_eval_state _ [] metrics0 ∅ ∅ 0 0)).2).

(** The token gate closes on a line that the expression matches: the token
    extracted from the pattern keeps the backslash of the escape. *)
Lemma gate_skips_match :
  let packs gate := [pack "p" (Some (performance 1000 gate)) "" [rule "s" 2 [] ["\bsecret\b"]]] in
  found_with (packs false) "my secret word" = ["s"] /\ found_with (packs true) "my secret word" = [].
Proof. vm_compute. done. Qed.
End Witnesses.
