(* ===== verification/ScanIO.v ===== *)
(** * ScanIO: scanning readers and files

    src/internal/scanner/io.go ([ScanReader], [scanChunked], [ScanFile]) and
    [evaluateLongLine] of evaluate.go.  A reader is its content and the error
    it ends with, if not the end of file; [bufio.Scanner] is modelled by the
    lines it delivers.  Cancellation, memory pressure and time are oracles
    indexed by the number of the check. *)

From Stdlib Require Import Ascii String.
From S2P Require Import Prelude GoString Unicode Rules Merge Verifiers Complexity Aho Literals Engine Compile Scanner Load.

Definition newline : ascii := "010"%char.

(** ** [bufio.Scanner] with [ScanLines] *)

Record Reader := {
  content : string;
  read_err : option string;
}.

(** Removes a trailing carriage return. *)
Fixpoint dropCR (s : string) : string :=
  match s with
  | String "013" EmptyString => EmptyString
  | String c s => String c (dropCR s)
  | EmptyString => EmptyString
  end.

(** The tokens delivered from the pieces between newlines, with a buffer of
    [limit] bytes: a piece that fills the buffer ends the scan with
    [bufio.ErrTooLong] (true).  Text after the last newline is a token unless
    it is empty. *)
Fixpoint scan_pieces (limit : Z) (pieces : list string) : list string * bool :=
  match pieces with
  | [] => ([], false)
  | [p] => if bool_decide (p = "") then ([], false)
           else if (Z.of_nat (String.length p) <? limit)%Z then ([dropCR p], false) else ([], true)
  | p :: ps =>
    if (Z.of_nat (String.length p) <? limit)%Z
    then let '(ls, long) := scan_pieces limit ps in (dropCR p :: ls, long)
    else ([], true)
  end.

(** [scanner.Buffer(make([]byte, 0, 64*1024), max)]: the buffer may grow to
    [max], and is never smaller than the initial one. *)
Definition scan_limit (max : Z) : Z := Z.max (64 * 1024) max.

Definition scan_lines (max : Z) (r : Reader) : list string * bool :=
  scan_pieces (scan_limit max) (SplitByte newline (content r)).

(** ** Errors *)

Inductive scan_error :=
  | CtxErr (e : string)
  | MemoryCeiling (sys : Z)
  | StreamLimitExceeded
  | ReadErr (input msg : string)
  | OpenErr (path msg : string)
  | IsDirectory (path : string)
  | FileTooLarge (path : string) (limit : Z)
  | InvalidSize (path : string).

Definition ErrTooLong : string := "bufio.Scanner: token too long".

(** The synthetic violations that stand for an aborted scan. *)
Definition synthetic (id msg : string) : Violation :=
  {| v_RuleID := id; v_Message := msg; v_Severity := "HIGH"; v_Line := 0; v_Column := 0;
     v_RuleTimeoutMs := 0; v_Category := ""; v_ResponseAction := ""; v_ResponseMessage := "";
     v_ResponseReplacement := "" |}.

(** What the scan consults at its [k]-th iteration. *)
Class ScanEnv := {
  ctx_done : nat -> bool;
  ctx_err : string;
  MemSys : nat -> Z;
}.

Section Reader.
Context `{RegexpSyntax, RegexpEngine, LruLib, AhoLib, Platform, World, ScanEnv}.

(** [result.Metrics.LinesRead++; result.Metrics.BytesRead += n]. *)
Definition count_line (n : Z) (m : Metrics) : Metrics :=
  {| BytesRead := BytesRead m + n; LinesRead := LinesRead m + 1; RegexAttempts := RegexAttempts m;
     RegexSkipped := RegexSkipped m; SemanticAttempts := SemanticAttempts m;
     SemanticSkipped := SemanticSkipped m |}.
Definition count_bytes (n : Z) (m : Metrics) : Metrics :=
  {| BytesRead := BytesRead m + n; LinesRead := LinesRead m; RegexAttempts := RegexAttempts m;
     RegexSkipped := RegexSkipped m; SemanticAttempts := SemanticAttempts m;
     SemanticSkipped := SemanticSkipped m |}.

(** [compiledRuleSeen := make(map[string]struct{})]. *)
Definition clear_seen (st : eval_state) : eval_state :=
  {| violations := violations st; metrics := metrics st; seen := ∅; caches := caches st;
     calls := calls st; ticks := ticks st |}.

Definition push_violation (v : Violation) (st : eval_state) : eval_state :=
  {| violations := violations st ++ [v]; metrics := metrics st; seen := seen st;
     caches := caches st; calls := calls st; ticks := ticks st |}.

(** How the loop over the lines ends: all lines evaluated, a synthetic
    violation, or an error. *)
Inductive scan_end :=
  | Finished
  | Quarantined (v : Violation)
  | Failed (e : scan_error).

(** The loop of [ScanReader]; [k] lines have been read. *)
Fixpoint scan_loop (s : Scanner) (k : nat) (lines : list string) (st : eval_state) :
    scan_end * eval_state :=
  match lines with
  | [] => (Finished, st)
  | line :: lines =>
    if ctx_done k then
      (if quarantineOnTimeout s then Quarantined (synthetic "timeout" "scan timed out")
       else Failed (CtxErr ctx_err), st)
    else if ((0 <? maxResidentMemoryBytes s) && (maxResidentMemoryBytes s <? MemSys k))%Z then
      (if quarantineOnError s then Quarantined (synthetic "memory_limit" "memory ceiling exceeded")
       else Failed (MemoryCeiling (MemSys k)), st)
    else
      let st := set_metrics (count_line (Z.of_nat (String.length line)) (metrics st)) st in
      if ((0 <? maxStreamBytes s) && (maxStreamBytes s <? BytesRead (metrics st)))%Z then
        (if quarantineOnError s then Quarantined (synthetic "stream_limit" "stream byte limit exceeded")
         else Failed StreamLimitExceeded, st)
      else
        let '(_, st) := evaluateLine s line (Z.of_nat (S k)) (clear_seen st) in
        scan_loop s (S k) lines st
  end.

(** [result] with the elapsed time since [start]. *)
Definition finish (inputName : string) (start : Z) (st : eval_state) : ScanResult * eval_state :=
  let '(now, st) := time_Now st in
  ({| sr_Input := inputName; sr_Violations := violations st; sr_Metrics := metrics st;
      sr_DurationMs := Milliseconds (now - start) |}, st).

(** The caches and oracles as they are before the scan, with an empty result. *)
Definition begin_scan (st : eval_state) : eval_state :=
  {| violations := []; metrics := metrics0; seen := ∅; caches := caches st; calls := calls st;
     ticks := ticks st |}.

Definition ScanReader (s : Scanner) (r : Reader) (inputName : string) (st : eval_state) :
    result scan_error ScanResult * eval_state :=
  let '(lines, long) := scan_lines (bufferSizeBytes s) r in
  let '(start, st) := time_Now (begin_scan st) in
  let ok st := let '(res, st) := finish inputName start st in (Ok res, st) in
  match scan_loop s 0 lines st with
  | (Failed e, st) => (Err e, st)
  | (Quarantined v, st) => ok (push_violation v st)
  | (Finished, st) =>
    match (if long then Some ErrTooLong else read_err r) with
    | None => ok st
    | Some e =>
      if quarantineOnError s then ok (push_violation (synthetic "scan_error" e) st)
      else (Err (ReadErr inputName e), st)
    end
  end.

(** ** Long lines *)

(** The windows of the loop of [evaluateLongLine] over a line of [len] bytes,
    from [start]. *)
Fixpoint windows (fuel : nat) (step overlap len start : nat) : list (nat * nat) :=
  match fuel with
  | O => []
  | S fuel =>
    if len <=? start then []
    else
      let end_ := if len <? start + step then len else start + step in
      let end_ := if (end_ <? len) && (end_ + overlap <=? len) then end_ + overlap else end_ in
      (start, end_) :: windows fuel step overlap len (start + step)
  end.

Definition eval_window (s : Scanner) (line : string) (lineNum : Z) (st : eval_state) (w : nat * nat) :
    eval_state :=
  (evaluateLine s (slice line w.1 w.2) lineNum st).2.

Definition evaluateLongLine (s : Scanner) (line : string) (lineNum : Z) (overlap : Z) (st : eval_state) :
    eval_state :=
  if (Z.of_nat (String.length line) <=? bufferSizeBytes s)%Z
  then (evaluateLine s line lineNum (clear_seen st)).2
  else
    let overlap := if (overlap <? 0)%Z then 0%Z else overlap in
    foldl (eval_window s line lineNum) (clear_seen st)
      (windows (S (String.length line)) (Z.to_nat (bufferSizeBytes s)) (Z.to_nat overlap)
         (String.length line) 0).

(** ** Chunked reading *)

(** The variables of [scanChunked]. *)
Record chunk_state := {
  lineBuf : string;
  lineNum : nat;
  chunk_st : eval_state;
}.

Definition stream_limit_hit (s : Scanner) (st : eval_state) : bool :=
  ((0 <? maxStreamBytes s) && (maxStreamBytes s <? BytesRead (metrics st)))%Z.

Definition stream_limit_end (s : Scanner) : scan_end :=
  if quarantineOnError s then Quarantined (synthetic "stream_limit" "stream byte limit exceeded")
  else Failed StreamLimitExceeded.

(** The loop over one block of data, given by the pieces between its
    newlines. *)
Fixpoint chunk_pieces (s : Scanner) (overlapSz : Z) (pieces : list string) (cs : chunk_state) :
    scan_end * chunk_state :=
  match pieces with
  | [] => (Finished, cs)
  | [p] =>
    if bool_decide (p = "") then (Finished, cs)
    else
      let cs := {| lineBuf := lineBuf cs +:+ p; lineNum := lineNum cs;
                   chunk_st := set_metrics (count_bytes (Z.of_nat (String.length p)) (metrics (chunk_st cs)))
                                 (chunk_st cs) |} in
      if stream_limit_hit s (chunk_st cs) then (stream_limit_end s, cs) else (Finished, cs)
  | p :: ps =>
    let buf := lineBuf cs +:+ p in
    let st := set_metrics (count_line (Z.of_nat (String.length buf) + 1) (metrics (chunk_st cs)))
                (chunk_st cs) in
    let n := S (lineNum cs) in
    if stream_limit_hit s st
    then (stream_limit_end s, {| lineBuf := buf; lineNum := n; chunk_st := st |})
    else chunk_pieces s overlapSz ps
           {| lineBuf := ""; lineNum := n; chunk_st := evaluateLongLine s buf (Z.of_nat n) overlapSz st |}
  end.

(** The loop over the blocks returned by [reader.Read]; [read_err] is the
    error of the last call, [None] for [io.EOF]. *)
Fixpoint chunk_loop (s : Scanner) (overlapSz : Z) (inputName : string) (read_err : option string)
    (k : nat) (reads : list string) (cs : chunk_state) : scan_end * eval_state :=
  match reads with
  | [] =>
    match read_err with
    | None =>
      if bool_decide (lineBuf cs = "") then (Finished, chunk_st cs)
      else
        let n := S (lineNum cs) in
        let st := set_metrics (count_line 0 (metrics (chunk_st cs))) (chunk_st cs) in
        (Finished, evaluateLongLine s (lineBuf cs) (Z.of_nat n) overlapSz st)
    | Some e => (Failed (ReadErr inputName e), chunk_st cs)
    end
  | data :: reads =>
    match chunk_pieces s overlapSz (SplitByte newline data) cs with
    | (Finished, cs) =>
      if ctx_done k then (Failed (CtxErr ctx_err), chunk_st cs)
      else chunk_loop s overlapSz inputName read_err (S k) reads cs
    | (e, cs) => (e, chunk_st cs)
    end
  end.

Definition scanChunked (s : Scanner) (reads : list string) (err : option string) (inputName : string)
    (st : eval_state) : result scan_error ScanResult * eval_state :=
  let overlapSz := if (0 <? chunkOverlapBytes s)%Z then chunkOverlapBytes s else (8 * 1024)%Z in
  let res st := {| sr_Input := inputName; sr_Violations := violations st; sr_Metrics := metrics st;
                   sr_DurationMs := 0 |} in
  match chunk_loop s overlapSz inputName err 0 reads
          {| lineBuf := ""; lineNum := 0; chunk_st := begin_scan st |} with
  | (Finished, st) => (Ok (res st), st)
  | (Quarantined v, st) => let st := push_violation v st in (Ok (res st), st)
  | (Failed e, st) => (Err e, st)
  end.

(** ** Files *)

(** What the file system says of a path: the result of [os.Stat] (directory,
    size) and of [os.Open], with the blocks a second pass reads. *)
Record File := {
  file_stat : option (bool * Z);
  file_open : result string Reader;
  file_blocks : list string;
  file_seek_ok : bool;
}.

(** [err.Error()] of the errors of [ScanReader]. *)
Definition error_text (e : scan_error) : string :=
  match e with
  | ReadErr input msg => "scanning " +:+ input +:+ ": " +:+ msg
  | CtxErr e => e
  | MemoryCeiling sys => "memory ceiling exceeded: sys=" +:+ Itoa sys +:+ " bytes"
  | _ => "stream byte limit exceeded"
  end.

(** [ScanFile]; [expired] is the state of the context, with the timeouts the
    function adds to it, when the function starts. *)
Definition ScanFile (s : Scanner) (expired : bool) (path : string) (f : File) (st : eval_state) :
    result scan_error ScanResult * eval_state :=
  if expired then (Err (CtxErr ctx_err), st)
  else
    let go :=
      match file_open f with
      | Err e => (Err (OpenErr path e), st)
      | Ok r =>
        match ScanReader s r path st with
        | (Ok res, st) => (Ok res, st)
        | (Err e, st) =>
          if Contains (error_text e) "token too long" && file_seek_ok f
          then scanChunked s (file_blocks f) (read_err r) path st
          else (Err e, st)
        end
      end in
    match file_stat f with
    | None => go
    | Some (isDir, size) =>
      if isDir then (Err (IsDirectory path), st)
      else if ((0 <? maxFileBytes s) && (maxFileBytes s <? size))%Z
      then (Err (FileTooLarge path (maxFileBytes s)), st)
      else if (size <? 0)%Z then (Err (InvalidSize path), st)
      else go
    end.
End Reader.

(** ** Facts *)

Section ReaderFacts.
Context `{RegexpSyntax, RegexpEngine, LruLib, AhoLib, Platform, World, ScanEnv}.

Lemma evaluateLine_grow s line n st :
  scanner_wf s -> exists new,
    violations (evaluateLine s line n st).2 = violations st ++ new /\
    reads (evaluateLine s line n st).2 = reads st.
Proof.
  intros Hwf. unfold evaluateLine. fold (hits_of s (ToLower line)).
  destruct (eval_rules_emits s line n (compiled s) false st Hwf) as (b & st' & -> & Hr & new & Hv & _);
    [done|]. by exists (map snd new).
Qed.

(** No loaded rule fires on the line. *)
Definition clean_line (s : Scanner) (line : string) : Prop :=
  Forall (fun cr => ~ fires s line cr) (compiled s).

Lemma evaluateLine_silent s line n st :
  scanner_wf s -> aho s = None ->
  violations (evaluateLine s line n (clear_seen st)).2 = violations st -> clean_line s line.
Proof.
  intros Hwf Ha Hv. unfold evaluateLine in Hv. fold (hits_of s (ToLower line)) in Hv.
  destruct (eval_rules_emits s line n (compiled s) false (clear_seen st) Hwf)
    as (b & st' & E & Hr & new & Hn & Hs & _); [done|]. rewrite E in Hv. simpl in Hv.
  rewrite Hn in Hv. simpl in Hv. apply (f_equal (@List.length _)) in Hv.
  rewrite length_app, length_map in Hv. destruct new as [|kv new]; [|simpl in Hv; lia].
  apply (eval_rules_silent s line n (compiled s) false (clear_seen st)); [done..|].
  rewrite E. simpl. split_and!; [by rewrite Hn, app_nil_r|rewrite Hs; set_solver|done].
Qed.

Definition total_bytes (lines : list string) : Z :=
  foldr (fun line n => Z.of_nat (String.length line) + n)%Z 0%Z lines.

(** A loop that ends normally has evaluated every line. *)
Lemma scan_loop_finished s k lines st st' :
  scanner_wf s -> scan_loop s k lines st = (Finished, st') ->
  exists new, violations st' = violations st ++ new /\
    reads st' = (BytesRead (metrics st) + total_bytes lines,
                 LinesRead (metrics st) + Z.of_nat (List.length lines))%Z /\
    (aho s = None -> new = [] -> Forall (clean_line s) lines).
Proof.
  intros Hwf. revert k st. induction lines as [|line lines IH]; intros k st; cbn [scan_loop].
  { intros [= <-]. exists []. rewrite app_nil_r. split_and!; [done| |constructor].
    unfold reads. simpl. f_equal; lia. }
  case_if; [by case_if|]. case_if; [by case_if|]. case_if; [by case_if|].
  set (st1 := set_metrics _ st).
  pose proof (evaluateLine_grow s line (Z.of_nat (S k)) (clear_seen st1) Hwf) as (n1 & Hv1 & Hr1).
  pose proof (evaluateLine_silent s line (Z.of_nat (S k)) st1 Hwf) as Hsil.
  destruct (evaluateLine s line _ (clear_seen st1)) as [b st2]. simpl in Hv1, Hr1, Hsil.
  intros Hl. destruct (IH _ _ Hl) as (n2 & Hv2 & Hr2 & Hc2).
  exists (n1 ++ n2). rewrite Hv2, Hv1, app_assoc. split_and!; [done| |].
  - rewrite Hr2. unfold reads in Hr1. injection Hr1 as -> ->. simpl. f_equal; lia.
  - intros Ha [-> ->]%app_eq_nil. constructor; [|by apply Hc2].
    apply Hsil; [done|]. by rewrite Hv1, app_nil_r.
Qed.

Lemma finish_eq name start st :
  (finish name start st).1.(sr_Violations) = violations st /\
  (finish name start st).1.(sr_Metrics) = metrics st.
Proof. done. Qed.

Lemma ScanReader_clean s r name st :
  scanner_wf s -> quarantineOnTimeout s = true -> quarantineOnError s = true ->
  exists res st', ScanReader s r name st = (Ok res, st') /\
    (sr_Violations res = [] ->
     (scan_lines (bufferSizeBytes s) r).2 = false /\ read_err r = None /\
     LinesRead (sr_Metrics res) = Z.of_nat (List.length (scan_lines (bufferSizeBytes s) r).1) /\
     BytesRead (sr_Metrics res) = total_bytes (scan_lines (bufferSizeBytes s) r).1 /\
     (aho s = None -> Forall (clean_line s) (scan_lines (bufferSizeBytes s) r).1)).
Proof.
  intros Hwf Hqt Hqe. unfold ScanReader. destruct (scan_lines _ r) as [lines long]. simpl.
  set (st0 := Build_eval_state _ _ _ _ _ _).
  pose proof (scan_loop_finished s 0 lines st0) as Hf.
  assert (Hno : forall e st', scan_loop s 0 lines st0 <> (Failed e, st')).
  { clear -Hqt Hqe. clearbody st0. generalize 0 as k. revert st0.
    induction lines as [|line lines IH]; intros st0 k e st'; cbn [scan_loop]; [done|].
    case_if; [by rewrite Hqt|]. case_if; [by rewrite Hqe|]. case_if; [by rewrite Hqe|].
    destruct (evaluateLine _ _ _ _). apply IH. }
  destruct (scan_loop s 0 lines st0) as [[|v|e] st1].
  - destruct (if long then _ else _) as [e|] eqn:Ee.
    + rewrite Hqe. eexists _, _. split; [reflexivity|]. simpl. by intros [_ ?]%app_eq_nil.
    + eexists _, _. split; [reflexivity|]. simpl. intros Hv.
      destruct (Hf st1 Hwf eq_refl) as (new & Hn & Hr & Hc). rewrite Hn in Hv. simpl in Hv.
      injection Hr as Hb Hl. simpl in Hb, Hl.
      destruct long; [done|]. split_and!; [done|done|lia|lia|auto].
  - eexists _, _. split; [reflexivity|]. simpl. by intros [_ ?]%app_eq_nil.
  - by destruct (Hno e st1).
Qed.

(** C3. The scan fails closed.  With the default quarantine settings
    [ScanReader] always returns a result, and a result without violations
    means that the whole input was scanned: no line was too long, the reader
    did not fail, and every line and byte was counted, so no timeout, memory
    ceiling, stream limit or read error can pass for a clean input. *)
Theorem ScanReader_fail_closed s r name st :
  scanner_wf s -> quarantineOnTimeout s = true -> quarantineOnError s = true ->
  exists res st', ScanReader s r name st = (Ok res, st') /\
    (sr_Violations res = [] ->
     (scan_lines (bufferSizeBytes s) r).2 = false /\ read_err r = None /\
     LinesRead (sr_Metrics res) = Z.of_nat (List.length (scan_lines (bufferSizeBytes s) r).1) /\
     BytesRead (sr_Metrics res) = total_bytes (scan_lines (bufferSizeBytes s) r).1).
Proof.
  intros Hwf Hqt Hqe. destruct (ScanReader_clean s r name st Hwf Hqt Hqe) as (res & st' & E & Hc).
  exists res, st'. split; [done|]. intros Hv. destruct (Hc Hv) as (H1' & H2' & H3' & H4' & _). done.
Qed.

(** C4. A clean scan is clean: when [ScanReader] returns no violations, no
    keyword rule and no expression rule of a scanner without the keyword
    automaton fires on any line of the input. *)
Theorem clean_scan_no_rule_fires s r name st res st' :
  scanner_wf s -> aho s = None -> quarantineOnTimeout s = true -> quarantineOnError s = true ->
  ScanReader s r name st = (Ok res, st') -> sr_Violations res = [] ->
  Forall (clean_line s) (scan_lines (bufferSizeBytes s) r).1.
Proof.
  intros Hwf Ha Hqt Hqe E Hv. destruct (ScanReader_clean s r name st Hwf Hqt Hqe) as (res' & st'' & E' & Hc).
  rewrite E in E'. injection E' as <- <-. by apply Hc.
Qed.
End ReaderFacts.

(** ** Long lines are covered *)

(** The end of the window that starts at [start]. *)
Definition window_end (step overlap len start : nat) : nat :=
  let e := if len <? start + step then len else start + step in
  if (e <? len) && (e + overlap <=? len) then e + overlap else e.

Lemma elem_of_windows fuel step overlap len start q :
  0 < step -> start + q * step < len -> len - start < fuel ->
  (start + q * step, window_end step overlap len (start + q * step)) ∈ windows fuel step overlap len start.
Proof.
  intros Hs. revert start q. induction fuel as [|fuel IH]; intros start q Hq Hf; [lia|].
  cbn [windows]. replace (len <=? start) with false by lia.
  destruct q as [|q]; [rewrite Nat.add_0_r; left|]. right.
  replace (start + S q * step) with (start + step + q * step) by lia. apply IH; lia.
Qed.

(** [evaluateLongLine] terminates, its windows start every
    [bufferSizeBytes] bytes, and any piece of a long line no longer than the
    overlap lies in one of the windows, unless it crosses a window boundary
    that is closer to the end of the line than the overlap. *)
Theorem long_line_windows_cover step overlap len i j :
  0 < step -> i < j <= len -> j <= i + overlap ->
  (let e := (i / step + 1) * step in e + overlap <= len \/ j <= e \/ len <= e) ->
  exists a b, (a, b) ∈ windows (S len) step overlap len 0 /\ a <= i /\ j <= b <= len.
Proof.
  intros Hs Hij Ho He. cbv zeta in He. pose proof (Nat.div_mod i step ltac:(lia)) as Hdm.
  pose proof (Nat.mod_upper_bound i step ltac:(lia)) as Hm.
  set (q := i / step) in *. replace ((q + 1) * step) with (q * step + step) in He by lia.
  assert (Hq : q * step <= i < q * step + step) by lia.
  exists (q * step), (window_end step overlap len (q * step)). split_and!.
  - apply (elem_of_windows (S len) step overlap len 0 q); lia.
  - lia.
  - unfold window_end. cbv zeta. repeat case_if; lia.
  - unfold window_end. cbv zeta. repeat case_if; lia.
Qed.

Lemma long_line_windows_cover_witness :
  exists a b, (a, b) ∈ windows 13 4 3 12 0 /\ a <= 3 /\ 6 <= b <= 12.
Proof. apply (long_line_windows_cover 4 3 12 3 6); [lia|lia|lia|left; vm_compute; lia]. Defined.

(** The overlap is dropped, not cut, when it would reach past the end: two
    bytes around the last boundary of a line of 10 bytes are in no window of
    4 bytes with an overlap of 3. *)
Lemma last_boundary_not_covered :
  windows 11 4 3 10 0 = [(0, 7); (4, 8); (8, 10)] /\
  forallb (fun '(a, b) => negb ((a <=? 7) && (9 <=? b))) (windows 11 4 3 10 0) = true.
Proof. vm_compute. done. Qed.

(** ** The scan does not depend on the counters *)

Section Erase.
Context `{RegexpSyntax, RegexpEngine, LruLib, AhoLib, Platform, World, ScanEnv}.
Implicit Types (st : eval_state) (cr : compiledRule).

Definition erase st : eval_state := set_metrics metrics0 st.

(** Equal up to the metrics. *)
Definition sim st1 st2 : Prop := erase st1 = erase st2.

#[export] Instance sim_equiv : Equivalence sim.
Proof. unfold sim. split; [done|by intros ?|by intros ???->]. Qed.

Lemma sim_fields st1 st2 :
  sim st1 st2 <-> violations st1 = violations st2 /\ seen st1 = seen st2 /\ caches st1 = caches st2 /\
    calls st1 = calls st2 /\ ticks st1 = ticks st2.
Proof. unfold sim, erase, set_metrics. split; [by intros [= ? ? ? ? ?]|naive_solver congruence]. Qed.

(** [simulated x y]: the same answer, in states equal up to the metrics. *)
Definition simulated {A} (x y : A * eval_state) : Prop := x.1 = y.1 /\ sim x.2 y.2.

Lemma sim_set_metrics m1 m2 st1 st2 : sim st1 st2 -> sim (set_metrics m1 st1) (set_metrics m2 st2).
Proof. rewrite !sim_fields. done. Qed.

Lemma sim_add_violation v k st1 st2 : sim st1 st2 -> sim (add_violation v k st1) (add_violation v k st2).
Proof. rewrite !sim_fields. simpl. intros (-> & -> & ?). done. Qed.

Lemma sim_clear_seen st1 st2 : sim st1 st2 -> sim (clear_seen st1) (clear_seen st2).
Proof. rewrite !sim_fields. simpl. intros (-> & _ & ?). done. Qed.

Lemma sim_seen st1 st2 : sim st1 st2 -> seen st1 = seen st2.
Proof. rewrite sim_fields. tauto. Qed.

Lemma foldl_sim {A B} (R : A -> A -> Prop) (f : A -> B -> A) l x y :
  (forall x y b, R x y -> R (f x b) (f y b)) -> R x y -> R (foldl f x l) (foldl f y l).
Proof. intros Hf. revert x y. induction l; simpl; auto. Qed.

Lemma keyword_step_sim hay n cr kw x y :
  simulated x y -> simulated (keyword_step hay n cr x kw) (keyword_step hay n cr y kw).
Proof.
  destruct x as [b1 st1], y as [b2 st2]. intros [E Hs]. simpl in E, Hs. subst. unfold keyword_step.
  rewrite (sim_seen _ _ Hs). repeat case_match; try done. split; [done|]. by apply sim_add_violation.
Qed.

Lemma evalKeywords_search_sim hay n cr st1 st2 :
  sim st1 st2 -> simulated (evalKeywords_search hay n cr st1) (evalKeywords_search hay n cr st2).
Proof.
  intros Hs. unfold evalKeywords_search. case_if.
  - rewrite (sim_seen _ _ Hs). repeat case_match; try done; (split; [done|]); by apply sim_add_violation.
  - apply foldl_sim; [|done]. intros. by apply keyword_step_sim.
Qed.

Definition aho_sim (a1 a2 : aho_acc) : Prop :=
  found a1 = found a2 /\ firstIdx a1 = firstIdx a2 /\ any a1 = any a2 /\ returned a1 = returned a2 /\
  sim (aho_st a1) (aho_st a2).

Lemma aho_step_sim s a lower n cr m x y :
  aho_sim x y -> aho_sim (aho_step s a lower n cr x m) (aho_step s a lower n cr y m).
Proof.
  destruct x as [f1 i1 b1 r1 st1], y as [f2 i2 b2 r2 st2]. intros (E1 & E2 & E3 & E4 & Hs).
  simpl in *. subst. unfold aho_step. simpl. rewrite (sim_seen _ _ Hs).
  repeat case_match; simplify_eq; unfold aho_sim; simpl; split_and!; try done; by apply sim_add_violation.
Qed.

Lemma evalKeywords_sim s lower line n cr hits st1 st2 :
  sim st1 st2 -> simulated (evalKeywords s lower line n cr hits st1) (evalKeywords s lower line n cr hits st2).
Proof.
  intros Hs. unfold evalKeywords. destruct (aho s) as [a|]; [|by apply evalKeywords_search_sim].
  case_if; [|by apply evalKeywords_search_sim]. unfold evalKeywords_aho.
  match goal with |- context [foldl ?f ?x hits] =>
    pose proof (foldl_sim aho_sim f hits x
      {| found := ∅; firstIdx := None; any := false; returned := false; aho_st := st2 |}) as Hf end.
  destruct Hf as (E1 & E2 & E3 & E4 & Hs'); [intros; by apply aho_step_sim|by repeat split|].
  rewrite E1, E2, E3, E4, (sim_seen _ _ Hs').
  case_if; [done|]. case_if; [|done]. case_decide; [done|]. split; [done|]. by apply sim_add_violation.
Qed.

Lemma match_step_sim line n cr v l x y :
  simulated x y -> simulated (match_step line n cr v x l) (match_step line n cr v y l).
Proof.
  destruct x as [[b1 c1] st1], y as [[b2 c2] st2]. intros [E Hs]. simpl in E, Hs. simplify_eq.
  unfold match_step. rewrite (sim_seen _ _ Hs). case_if; [done|].
  case_decide; [done|]. split; [done|]. by apply sim_add_violation.
Qed.

Lemma evalRegexesStandard_sim line n cr st1 st2 :
  sim st1 st2 -> simulated (evalRegexesStandard line n cr st1) (evalRegexesStandard line n cr st2).
Proof.
  intros Hs. unfold evalRegexesStandard. case_if.
  - rewrite (sim_seen _ _ Hs). destruct (earliest_match _ _ _); [|done].
    destruct (decide _); [done|]. split; [done|]. by apply sim_add_violation.
  - apply foldl_sim; [|done]. intros. unfold regex_step. apply foldl_sim; [|done].
    intros. by apply match_step_sim.
Qed.

Lemma eval_rule_regexes_sim s lower line n cr st1 st2 :
  sim st1 st2 -> simulated (eval_rule_regexes s lower line n cr st1) (eval_rule_regexes s lower line n cr st2).
Proof.
  intros Hs. unfold eval_rule_regexes. do 3 (case_if; [done|]).
  by apply evalRegexesStandard_sim, sim_set_metrics.
Qed.

Lemma cached_positive_sim cr line st1 st2 :
  sim st1 st2 -> simulated (cached_positive cr line st1) (cached_positive cr line st2).
Proof.
  rewrite sim_fields. destruct st1 as [v1 m1 s1 c1 n1 t1], st2 as [v2 m2 s2 c2 n2 t2]. simpl.
  intros (-> & -> & -> & -> & ->). unfold cached_positive, time_Now. simpl.
  repeat case_match; simplify_eq; (split; [done|]); by apply sim_fields.
Qed.

Lemma remember_positive_sim cr line conf st1 st2 :
  sim st1 st2 -> sim (remember_positive cr line conf st1) (remember_positive cr line conf st2).
Proof.
  rewrite !sim_fields. destruct st1 as [v1 m1 s1 c1 n1 t1], st2 as [v2 m2 s2 c2 n2 t2]. simpl.
  intros (-> & -> & -> & -> & ->). unfold remember_positive, time_Now. simpl.
  destruct (cr_cacheEnabled cr); [|done]. destruct (c2 !! cr_id cr) eqn:E1; simpl; [rewrite E1; done|].
  destruct (lru_New _); simpl; [by rewrite lookup_insert_eq|by rewrite E1].
Qed.

Lemma evaluateSemantic_sim s line cr col st1 st2 :
  sim st1 st2 -> simulated (evaluateSemantic s line cr col st1) (evaluateSemantic s line cr col st2).
Proof.
  intros Hs. unfold evaluateSemantic. destruct (cr_semantic cr) as [cfg|]; [|done]. case_if; [done|].
  destruct (cached_positive_sim cr line st1 st2 Hs) as [E1 Hs1].
  destruct (cached_positive cr line st1) as [h1 t1], (cached_positive cr line st2) as [h2 t2].
  simpl in E1, Hs1. subst. destruct h2; [done|]. unfold call_Analyze.
  set (u1 := Build_eval_state _ _ _ _ _ _). set (u2 := Build_eval_state (violations t2) _ _ _ _ _).
  apply sim_fields in Hs1 as (E1 & E2 & E3 & E4 & E5).
  assert (Hu : sim u1 u2) by (apply sim_fields; simpl; rewrite E1, E2, E3, E4, E5; done).
  rewrite E4. destruct (Analyze _ _ _ _) as [[[] conf]|e].
  - split; [done|]. by apply remember_positive_sim.
  - by destruct (fallback_match _ _).
  - destruct (sem_FallbackOnError cfg); [|done]. by destruct (fallback_match _ _).
Qed.

Lemma eval_rule_semantic_sim s lower line cr col st1 st2 :
  sim st1 st2 ->
  simulated (eval_rule_semantic s lower line cr col st1) (eval_rule_semantic s lower line cr col st2).
Proof.
  intros Hs. unfold eval_rule_semantic. case_if; [|done]. case_if.
  - split; [done|by apply sim_set_metrics].
  - by apply evaluateSemantic_sim, sim_set_metrics.
Qed.

Lemma keyword_pass_sim s lower line n hits cr st1 st2 :
  sim st1 st2 ->
  simulated (if bool_decide (cr_keywords cr = []) then (false, st1) else evalKeywords s lower line n cr hits st1)
            (if bool_decide (cr_keywords cr = []) then (false, st2) else evalKeywords s lower line n cr hits st2).
Proof. intros Hs. case_bool_decide; [done|by apply evalKeywords_sim]. Qed.

Lemma eval_rule_sim s lower line n hits cr st1 st2 :
  sim st1 st2 -> simulated (eval_rule s lower line n hits cr st1) (eval_rule s lower line n hits cr st2).
Proof.
  intros Hs. unfold eval_rule. case_if; [done|].
  pose proof (keyword_pass_sim s lower line n hits cr st1 st2 Hs) as [Ek Hs1].
  destruct (if bool_decide _ then _ else _) as [k1 t1], (if bool_decide _ then _ else _) as [k2 t2].
  simpl in Ek, Hs1. subst. destruct k2; [done|].
  destruct (eval_rule_regexes_sim s lower line n cr t1 t2 Hs1) as [Er Hs2].
  destruct (eval_rule_regexes s lower line n cr t1) as [[r1 c1] u1].
  destruct (eval_rule_regexes s lower line n cr t2) as [[r2 c2] u2]. simpl in Er, Hs2. simplify_eq.
  destruct r2; [done|].
  match goal with |- simulated ?l ?r =>
    match l with context [eval_rule_semantic _ _ _ _ _ ?x] =>
    match r with context [eval_rule_semantic _ _ _ _ _ ?y] =>
    assert (Hs3 : sim x y) by (case_if; [by apply sim_set_metrics|done]);
    destruct (eval_rule_semantic_sim s lower line cr c2 x y Hs3) as [Em Hs4];
    destruct (eval_rule_semantic s lower line cr c2 x) as [[m1 d1] w1];
    destruct (eval_rule_semantic s lower line cr c2 y) as [[m2 d2] w2]
    end end end.
  simpl in Em, Hs4. simplify_eq. destruct m2; [|done]. rewrite (sim_seen _ _ Hs4).
  destruct (decide _); [done|]. split; [done|]. by apply sim_add_violation.
Qed.

Lemma evaluateLine_sim s line n st1 st2 :
  sim st1 st2 -> simulated (evaluateLine s line n st1) (evaluateLine s line n st2).
Proof.
  unfold evaluateLine. generalize false as b.
  generalize (match aho s with Some a => FindAll (Some a) (ToLower line) | None => [] end) as hits.
  intros hits b. revert b st1 st2. induction (compiled s) as [|cr crs IH]; intros b st1 st2 Hs; [done|].
  cbn [eval_rules]. destruct (eval_rule_sim s (ToLower line) line n hits cr st1 st2 Hs) as [E1 Hs1].
  destruct (eval_rule _ _ _ _ _ _ st1) as [b1 t1], (eval_rule _ _ _ _ _ _ st2) as [b2 t2].
  simpl in E1, Hs1. subst. case_if; [done|]. by apply IH.
Qed.

Lemma evaluateLongLine_sim s line n ov st1 st2 :
  sim st1 st2 -> sim (evaluateLongLine s line n ov st1) (evaluateLongLine s line n ov st2).
Proof.
  intros Hs%sim_clear_seen. unfold evaluateLongLine.
  case_if; [by apply evaluateLine_sim|]. apply foldl_sim; [|done].
  intros x y w Hxy. by apply evaluateLine_sim.
Qed.

(** *** Chunked reading sees the lines of the whole content *)

(** The reference: the lines between newlines, in order; text after the last
    newline is a line unless it is empty. *)
Fixpoint long_lines (s : Scanner) (ov : Z) (n : nat) (pieces : list string) st : eval_state :=
  match pieces with
  | [] => st
  | [p] => if bool_decide (p = "") then st else evaluateLongLine s p (Z.of_nat (S n)) ov st
  | p :: ps => long_lines s ov (S n) ps (evaluateLongLine s p (Z.of_nat (S n)) ov st)
  end.

Lemma long_lines_cons s ov n p ps st :
  ps <> [] -> long_lines s ov n (p :: ps) st =
              long_lines s ov (S n) ps (evaluateLongLine s p (Z.of_nat (S n)) ov st).
Proof. by destruct ps. Qed.

Lemma long_lines_sim s ov n pieces st1 st2 :
  sim st1 st2 -> sim (long_lines s ov n pieces st1) (long_lines s ov n pieces st2).
Proof.
  revert n st1 st2. induction pieces as [|p [|q ps] IH]; intros n st1 st2 Hs; [done| |].
  - simpl. case_bool_decide; [done|by apply evaluateLongLine_sim].
  - rewrite !long_lines_cons by done. by apply IH, evaluateLongLine_sim.
Qed.

(** What remains to be evaluated, with [rest] still to be read. *)
Definition remaining (s : Scanner) (ov : Z) (cs : chunk_state) (rest : string) : eval_state :=
  long_lines s ov (lineNum cs) (SplitByte newline (lineBuf cs +:+ rest)) (chunk_st cs).

Lemma no_stream_limit s st : (maxStreamBytes s <= 0)%Z -> stream_limit_hit s st = false.
Proof. intros Hm. unfold stream_limit_hit. by replace (0 <? maxStreamBytes s)%Z with false by lia. Qed.

Lemma chunk_pieces_cons s ov p ps cs :
  (maxStreamBytes s <= 0)%Z -> ps <> [] ->
  chunk_pieces s ov (p :: ps) cs =
  chunk_pieces s ov ps
    {| lineBuf := ""; lineNum := S (lineNum cs);
       chunk_st := evaluateLongLine s (lineBuf cs +:+ p) (Z.of_nat (S (lineNum cs))) ov
         (set_metrics (count_line (Z.of_nat (String.length (lineBuf cs +:+ p)) + 1) (metrics (chunk_st cs)))
            (chunk_st cs)) |}.
Proof. intros Hm Hps. destruct ps; [done|]. cbn [chunk_pieces]. by rewrite no_stream_limit. Qed.

Lemma chunk_pieces_spec s ov pieces cs :
  (maxStreamBytes s <= 0)%Z -> pieces <> [] -> Forall (fun p => CountByte newline p = 0) pieces ->
  CountByte newline (lineBuf cs) = 0 ->
  exists cs', chunk_pieces s ov pieces cs = (Finished, cs') /\ CountByte newline (lineBuf cs') = 0 /\
    forall rest, sim (remaining s ov cs (Join (String newline "") pieces +:+ rest)) (remaining s ov cs' rest).
Proof.
  intros Hm Hne Hp. revert cs. induction Hp as [|p [|q ps] Hp Hps IH]; intros cs Hb; [done| |].
  - cbn [chunk_pieces Join]. case_bool_decide as Ep.
    + subst. exists cs. split_and!; done.
    + rewrite no_stream_limit by done. eexists. split; [done|]. simpl.
      rewrite CountByte_app, Hp, Hb. split; [done|]. intros rest. unfold remaining. simpl.
      rewrite sapp_assoc. apply long_lines_sim. symmetry. by apply sim_fields.
  - rewrite Join_cons, chunk_pieces_cons by done.
    set (cs1 := {| lineBuf := ""; lineNum := S (lineNum cs); chunk_st := _ |}).
    destruct (IH ltac:(done) cs1) as (cs' & -> & Hb' & Hr); [done|].
    exists cs'. split_and!; [done|done|]. intros rest. rewrite <- Hr. unfold remaining.
    rewrite sapp_assoc. change ((String newline "" +:+ ?x) +:+ rest) with (String newline (x +:+ rest)).
    rewrite <- sapp_assoc, SplitByte_cons by (rewrite CountByte_app; lia).
    rewrite long_lines_cons by apply SplitByte_nonempty. apply long_lines_sim.
    apply evaluateLongLine_sim. by apply sim_fields.
Qed.

Lemma chunk_loop_spec s ov name k reads cs :
  (maxStreamBytes s <= 0)%Z -> (forall k, ctx_done k = false) -> CountByte newline (lineBuf cs) = 0 ->
  exists st', chunk_loop s ov name None k reads cs = (Finished, st') /\
    sim (remaining s ov cs (Join "" reads)) st'.
Proof.
  intros Hm Hctx. revert k cs. induction reads as [|data reads IH]; intros k cs Hb; cbn [chunk_loop].
  - unfold remaining. simpl. rewrite sapp_nil_r, SplitByte_single by done. simpl.
    case_bool_decide; (eexists; split; [done|]); [done|].
    apply evaluateLongLine_sim. by apply sim_fields.
  - destruct (chunk_pieces_spec s ov (SplitByte newline data) cs) as (cs' & -> & Hb' & Hr);
      [done|apply SplitByte_nonempty|apply SplitByte_no_sep|done|].
    rewrite Hctx. destruct (IH (S k) cs' Hb') as (st' & -> & Hs). exists st'. split; [done|].
    rewrite <- Hs, <- Hr, Join_SplitByte. destruct reads; [simpl; by rewrite sapp_nil_r|done].
Qed.

Lemma scanChunked_violations s reads name st :
  (maxStreamBytes s <= 0)%Z -> (forall k, ctx_done k = false) ->
  exists res st', scanChunked s reads None name st = (Ok res, st') /\
    sr_Violations res = violations (long_lines s
      (if (0 <? chunkOverlapBytes s)%Z then chunkOverlapBytes s else 8 * 1024)%Z 0
      (SplitByte newline (Join "" reads)) (begin_scan st)).
Proof.
  intros Hm Hctx. unfold scanChunked.
  destruct (chunk_loop_spec s (if (0 <? chunkOverlapBytes s)%Z then chunkOverlapBytes s else 8 * 1024)%Z
    name 0 reads {| lineBuf := ""; lineNum := 0; chunk_st := begin_scan st |}) as (st' & E & Hs); [done..|].
  rewrite E. eexists _, _. split; [reflexivity|]. simpl. apply sim_fields in Hs as (Hv & _). done.
Qed.

(** C26. The chunked scan sees the lines of the whole input.  Without a stream
    limit, a timeout and a read error, it succeeds, and its violations are
    those of evaluating the lines between the newlines of the whole content,
    one after the other and numbered from 1, with the text after the last
    newline as a line unless it is empty; so however the content is cut into
    blocks, the violations are the same. *)
Theorem scanChunked_chunking_independent s reads1 reads2 name st :
  (maxStreamBytes s <= 0)%Z -> (forall k, ctx_done k = false) -> Join "" reads1 = Join "" reads2 ->
  exists res1 res2 st1 st2,
    scanChunked s reads1 None name st = (Ok res1, st1) /\
    scanChunked s reads2 None name st = (Ok res2, st2) /\
    sr_Violations res1 = sr_Violations res2 /\
    sr_Violations res1 = violations (long_lines s
      (if (0 <? chunkOverlapBytes s)%Z then chunkOverlapBytes s else 8 * 1024)%Z 0
      (SplitByte newline (Join "" reads1)) (begin_scan st)).
Proof.
  intros Hm Hctx Hj.
  destruct (scanChunked_violations s reads1 name st Hm Hctx) as (res1 & st1 & E1 & Hv1).
  destruct (scanChunked_violations s reads2 name st Hm Hctx) as (res2 & st2 & E2 & Hv2).
  exists res1, res2, st1, st2. split_and!; [done|done| |done]. by rewrite Hv1, Hv2, Hj.
Qed.
End Erase.

(** ** Examples *)

(** No cancellation, no memory pressure. *)
Definition calm_env : ScanEnv := {| ctx_done _ := false; ctx_err := ""; MemSys _ := 0%Z |}.

Module IOWitnesses.
Import Demo.
#[local] Existing Instance literal_syntax.
#[local] Existing Instance literal_engine.
#[local] Existing Instance list_lru.
#[local] Existing Instance naive_lib.
#[local] Existing Instance bare_platform.
#[local] Existing Instance quiet_world.
#[local] Existing Instance calm_env.

Definition nl : string := String newline "".
Definition reader (s : string) : Reader := {| content := s; read_err := None |}.

Lemma ScanReader_fail_closed_witness :
  exists res st', ScanReader plain (reader ("ok" +:+ nl +:+ "fine")) "in" st0 = (Ok res, st') /\
    (sr_Violations res = [] ->
     (scan_lines (bufferSizeBytes plain) (reader ("ok" +:+ nl +:+ "fine"))).2 = false /\
     read_err (reader ("ok" +:+ nl +:+ "fine")) = None /\
     LinesRead (sr_Metrics res) =
       Z.of_nat (List.length (scan_lines (bufferSizeBytes plain) (reader ("ok" +:+ nl +:+ "fine"))).1) /\
     BytesRead (sr_Metrics res) = total_bytes (scan_lines (bufferSizeBytes plain) (reader ("ok" +:+ nl +:+ "fine"))).1).
Proof.
  apply (ScanReader_fail_closed plain (reader ("ok" +:+ nl +:+ "fine")) "in" st0);
    [apply plain_wf|vm_compute; reflexivity|vm_compute; reflexivity].
Defined.

(** The result of scanning two harmless lines. *)
Definition clean_run : result scan_error ScanResult * eval_state :=
  ScanReader plain (reader ("ok" +:+ nl +:+ "fine")) "in" st0.
Definition clean_result : ScanResult :=
  match clean_run.1 with Ok res => res | Err _ => result0 end.

Lemma clean_scan_no_rule_fires_witness : Forall (clean_line plain) ["ok"; "fine"].
Proof.
  assert (Hl : (scan_lines (bufferSizeBytes plain) (reader ("ok" +:+ nl +:+ "fine"))).1 = ["ok"; "fine"])
    by (vm_compute; reflexivity).
  rewrite <- Hl.
  apply (clean_scan_no_rule_fires plain (reader ("ok" +:+ nl +:+ "fine")) "in" st0 clean_result clean_run.2).
  - apply plain_wf.
  - vm_compute. reflexivity.
  - vm_compute. reflexivity.
  - vm_compute. reflexivity.
  - vm_compute. reflexivity.
  - vm_compute. reflexivity.
Defined.

Lemma scanChunked_chunking_independent_witness :
  exists res1 res2 st1 st2,
    scanChunked plain ["fo"; "o" +:+ nl +:+ "bar"] None "in" st0 = (Ok res1, st1) /\
    scanChunked plain ["foo" +:+ nl; "b"; "ar"] None "in" st0 = (Ok res2, st2) /\
    sr_Violations res1 = sr_Violations res2.
Proof.
  destruct (scanChunked_chunking_independent plain ["fo"; "o" +:+ nl +:+ "bar"] ["foo" +:+ nl; "b"; "ar"] "in" st0)
    as (res1 & res2 & st1 & st2 & E1 & E2 & E3 & _).
  - vm_compute. discriminate.
  - reflexivity.
  - vm_compute. reflexivity.
  - exists res1, res2, st1, st2. split; [exact E1|]. split; [exact E2|exact E3].
Defined.

(** The chunked scan counts the bytes of a line that spans two blocks twice:
    four bytes in two blocks are counted as six. *)
Lemma chunked_bytes_counted_twice :
  let bytes reads := match (scanChunked plain reads None "in" st0).1 with
                     | Ok res => BytesRead (sr_Metrics res)
                     | Err _ => 0%Z
                     end in
  bytes ["abc" +:+ nl] = 4%Z /\ bytes ["ab"; "c" +:+ nl] = 6%Z.
Proof. vm_compute. done. Qed.
End IOWitnesses.

(** With quarantine on errors, its default, a line that is too long becomes a
    violation of the line scan, and the chunked scan is never used. *)
Lemma chunked_fallback_unreachable `{RegexpSyntax, RegexpEngine, LruLib, AhoLib, Platform, World, ScanEnv}
    s path f r st :
  scanner_wf s -> quarantineOnTimeout s = true -> quarantineOnError s = true ->
  file_stat f = None -> file_open f = Ok r ->
  ScanFile s false path f st = ScanReader s r path st.
Proof.
  intros Hwf Hqt Hqe Hst Ho. unfold ScanFile. rewrite Hst, Ho.
  destruct (ScanReader_clean s r path st Hwf Hqt Hqe) as (res & st' & -> & _). done.
Qed.
