(* ===== verification/Setters.v ===== *)
(** * Setters: configuring a scanner

    The setters of src/internal/scanner/scanner.go and semantic.go that change
    the state of a [Scanner]; the tracer and the logger are not part of the
    model.  [SetMaxPatternLength] also writes the package variable. *)

From Stdlib Require Import Ascii String.
From S2P Require Import Prelude GoString Unicode Rules Merge Verifiers Complexity Aho Literals Engine Compile Scanner Load ScanIO.

Section Setters.
Context `{RegexpSyntax, RegexpEngine, LruLib, AhoLib, Platform}.

Definition SetRuleDefaults (timeoutMs : Z) (caseSensitive wholeWord : bool) (s : Scanner) : Scanner :=
  {| bufferSizeBytes := bufferSizeBytes s; compiled := compiled s;
     runtimeContext := runtimeContext s; perFileBudget := perFileBudget s;
     quarantineOnTimeout := quarantineOnTimeout s; quarantineOnError := quarantineOnError s;
     firstMatch := firstMatch s; maxLineForRegex := maxLineForRegex s;
     fileTimeout := fileTimeout s; maxFileBytes := maxFileBytes s;
     maxStreamBytes := maxStreamBytes s; compositionStrategy := compositionStrategy s;
     hasSemantic := hasSemantic s; defaultRuleTimeoutMs := timeoutMs;
     defaultCaseSensitive := caseSensitive; defaultWholeWord := wholeWord; aho := aho s;
     ruleTokenAho := ruleTokenAho s; chunkOverlapBytes := chunkOverlapBytes s;
     s_maxPatternLength := s_maxPatternLength s;
     maxResidentMemoryBytes := maxResidentMemoryBytes s;
     totalScanBudget := totalScanBudget s |}.

Definition SetFileSizeLimit (limitBytes : Z) (s : Scanner) : Scanner :=
  {| bufferSizeBytes := bufferSizeBytes s; compiled := compiled s;
     runtimeContext := runtimeContext s; perFileBudget := perFileBudget s;
     quarantineOnTimeout := quarantineOnTimeout s; quarantineOnError := quarantineOnError s;
     firstMatch := firstMatch s; maxLineForRegex := maxLineForRegex s;
     fileTimeout := fileTimeout s; maxFileBytes := limitBytes;
     maxStreamBytes := maxStreamBytes s; compositionStrategy := compositionStrategy s;
     hasSemantic := hasSemantic s; defaultRuleTimeoutMs := defaultRuleTimeoutMs s;
     defaultCaseSensitive := defaultCaseSensitive s; defaultWholeWord := defaultWholeWord s;
     aho := aho s; ruleTokenAho := ruleTokenAho s; chunkOverlapBytes := chunkOverlapBytes s;
     s_maxPatternLength := s_maxPatternLength s;
     maxResidentMemoryBytes := maxResidentMemoryBytes s;
     totalScanBudget := totalScanBudget s |}.

Definition SetMaxStreamBytes (limitBytes : Z) (s : Scanner) : Scanner :=
  {| bufferSizeBytes := bufferSizeBytes s; compiled := compiled s;
     runtimeContext := runtimeContext s; perFileBudget := perFileBudget s;
     quarantineOnTimeout := quarantineOnTimeout s; quarantineOnError := quarantineOnError s;
     firstMatch := firstMatch s; maxLineForRegex := maxLineForRegex s;
     fileTimeout := fileTimeout s; maxFileBytes := maxFileBytes s;
     maxStreamBytes := limitBytes; compositionStrategy := compositionStrategy s;
     hasSemantic := hasSemantic s; defaultRuleTimeoutMs := defaultRuleTimeoutMs s;
     defaultCaseSensitive := defaultCaseSensitive s; defaultWholeWord := defaultWholeWord s;
     aho := aho s; ruleTokenAho := ruleTokenAho s; chunkOverlapBytes := chunkOverlapBytes s;
     s_maxPatternLength := s_maxPatternLength s;
     maxResidentMemoryBytes := maxResidentMemoryBytes s;
     totalScanBudget := totalScanBudget s |}.

Definition SetCompositionStrategy (strategy : string) (s : Scanner) : Scanner :=
  {| bufferSizeBytes := bufferSizeBytes s; compiled := compiled s;
     runtimeContext := runtimeContext s; perFileBudget := perFileBudget s;
     quarantineOnTimeout := quarantineOnTimeout s; quarantineOnError := quarantineOnError s;
     firstMatch := firstMatch s; maxLineForRegex := maxLineForRegex s;
     fileTimeout := fileTimeout s; maxFileBytes := maxFileBytes s;
     maxStreamBytes := maxStreamBytes s; compositionStrategy := strategy;
     hasSemantic := hasSemantic s; defaultRuleTimeoutMs := defaultRuleTimeoutMs s;
     defaultCaseSensitive := defaultCaseSensitive s; defaultWholeWord := defaultWholeWord s;
     aho := aho s; ruleTokenAho := ruleTokenAho s; chunkOverlapBytes := chunkOverlapBytes s;
     s_maxPatternLength := s_maxPatternLength s;
     maxResidentMemoryBytes := maxResidentMemoryBytes s;
     totalScanBudget := totalScanBudget s |}.

Definition SetBufferBytes (n : Z) (s : Scanner) : Scanner :=
  {| bufferSizeBytes := (if 0 <? n then n else bufferSizeBytes s)%Z; compiled := compiled s;
     runtimeContext := runtimeContext s; perFileBudget := perFileBudget s;
     quarantineOnTimeout := quarantineOnTimeout s; quarantineOnError := quarantineOnError s;
     firstMatch := firstMatch s; maxLineForRegex := maxLineForRegex s;
     fileTimeout := fileTimeout s; maxFileBytes := maxFileBytes s;
     maxStreamBytes := maxStreamBytes s; compositionStrategy := compositionStrategy s;
     hasSemantic := hasSemantic s; defaultRuleTimeoutMs := defaultRuleTimeoutMs s;
     defaultCaseSensitive := defaultCaseSensitive s; defaultWholeWord := defaultWholeWord s;
     aho := aho s; ruleTokenAho := ruleTokenAho s; chunkOverlapBytes := chunkOverlapBytes s;
     s_maxPatternLength := s_maxPatternLength s;
     maxResidentMemoryBytes := maxResidentMemoryBytes s;
     totalScanBudget := totalScanBudget s |}.

Definition SetChunkOverlap (n : Z) (s : Scanner) : Scanner :=
  {| bufferSizeBytes := bufferSizeBytes s; compiled := compiled s;
     runtimeContext := runtimeContext s; perFileBudget := perFileBudget s;
     quarantineOnTimeout := quarantineOnTimeout s; quarantineOnError := quarantineOnError s;
     firstMatch := firstMatch s; maxLineForRegex := maxLineForRegex s;
     fileTimeout := fileTimeout s; maxFileBytes := maxFileBytes s;
     maxStreamBytes := maxStreamBytes s; compositionStrategy := compositionStrategy s;
     hasSemantic := hasSemantic s; defaultRuleTimeoutMs := defaultRuleTimeoutMs s;
     defaultCaseSensitive := defaultCaseSensitive s; defaultWholeWord := defaultWholeWord s;
     aho := aho s; ruleTokenAho := ruleTokenAho s;
     chunkOverlapBytes := (if 0 <=? n then n else chunkOverlapBytes s)%Z;
     s_maxPatternLength := s_maxPatternLength s;
     maxResidentMemoryBytes := maxResidentMemoryBytes s;
     totalScanBudget := totalScanBudget s |}.

Definition SetStreamingParams (bufferSize overlap : Z) (s : Scanner) : Scanner :=
  SetChunkOverlap overlap (SetBufferBytes bufferSize s).

Definition SetRuntimeContext (ctx : gmap string string) (s : Scanner) : Scanner :=
  {| bufferSizeBytes := bufferSizeBytes s; compiled := compiled s; runtimeContext := ctx;
     perFileBudget := perFileBudget s; quarantineOnTimeout := quarantineOnTimeout s;
     quarantineOnError := quarantineOnError s; firstMatch := firstMatch s;
     maxLineForRegex := maxLineForRegex s; fileTimeout := fileTimeout s;
     maxFileBytes := maxFileBytes s; maxStreamBytes := maxStreamBytes s;
     compositionStrategy := compositionStrategy s; hasSemantic := hasSemantic s;
     defaultRuleTimeoutMs := defaultRuleTimeoutMs s;
     defaultCaseSensitive := defaultCaseSensitive s; defaultWholeWord := defaultWholeWord s;
     aho := aho s; ruleTokenAho := ruleTokenAho s; chunkOverlapBytes := chunkOverlapBytes s;
     s_maxPatternLength := s_maxPatternLength s;
     maxResidentMemoryBytes := maxResidentMemoryBytes s;
     totalScanBudget := totalScanBudget s |}.

Definition with_maxPatternLength (n : Z) (s : Scanner) : Scanner :=
  {| bufferSizeBytes := bufferSizeBytes s; compiled := compiled s;
     runtimeContext := runtimeContext s; perFileBudget := perFileBudget s;
     quarantineOnTimeout := quarantineOnTimeout s; quarantineOnError := quarantineOnError s;
     firstMatch := firstMatch s; maxLineForRegex := maxLineForRegex s;
     fileTimeout := fileTimeout s; maxFileBytes := maxFileBytes s;
     maxStreamBytes := maxStreamBytes s; compositionStrategy := compositionStrategy s;
     hasSemantic := hasSemantic s; defaultRuleTimeoutMs := defaultRuleTimeoutMs s;
     defaultCaseSensitive := defaultCaseSensitive s; defaultWholeWord := defaultWholeWord s;
     aho := aho s; ruleTokenAho := ruleTokenAho s; chunkOverlapBytes := chunkOverlapBytes s;
     s_maxPatternLength := n; maxResidentMemoryBytes := maxResidentMemoryBytes s;
     totalScanBudget := totalScanBudget s |}.

Definition SetMaxPatternLength (n : Z) (g : Globals) (s : Scanner) : Globals * Scanner :=
  if (0 <? n)%Z
  then ({| minTokenLen := minTokenLen g; globalMaxPatternLength := n |}, with_maxPatternLength n s)
  else (g, s).

Definition SetMaxResidentMemoryBytes (b : Z) (s : Scanner) : Scanner :=
  {| bufferSizeBytes := bufferSizeBytes s; compiled := compiled s;
     runtimeContext := runtimeContext s; perFileBudget := perFileBudget s;
     quarantineOnTimeout := quarantineOnTimeout s; quarantineOnError := quarantineOnError s;
     firstMatch := firstMatch s; maxLineForRegex := maxLineForRegex s;
     fileTimeout := fileTimeout s; maxFileBytes := maxFileBytes s;
     maxStreamBytes := maxStreamBytes s; compositionStrategy := compositionStrategy s;
     hasSemantic := hasSemantic s; defaultRuleTimeoutMs := defaultRuleTimeoutMs s;
     defaultCaseSensitive := defaultCaseSensitive s; defaultWholeWord := defaultWholeWord s;
     aho := aho s; ruleTokenAho := ruleTokenAho s; chunkOverlapBytes := chunkOverlapBytes s;
     s_maxPatternLength := s_maxPatternLength s; maxResidentMemoryBytes := b;
     totalScanBudget := totalScanBudget s |}.

Definition SetTotalScanBudget (d : Z) (s : Scanner) : Scanner :=
  {| bufferSizeBytes := bufferSizeBytes s; compiled := compiled s;
     runtimeContext := runtimeContext s; perFileBudget := perFileBudget s;
     quarantineOnTimeout := quarantineOnTimeout s; quarantineOnError := quarantineOnError s;
     firstMatch := firstMatch s; maxLineForRegex := maxLineForRegex s;
     fileTimeout := fileTimeout s; maxFileBytes := maxFileBytes s;
     maxStreamBytes := maxStreamBytes s; compositionStrategy := compositionStrategy s;
     hasSemantic := hasSemantic s; defaultRuleTimeoutMs := defaultRuleTimeoutMs s;
     defaultCaseSensitive := defaultCaseSensitive s; defaultWholeWord := defaultWholeWord s;
     aho := aho s; ruleTokenAho := ruleTokenAho s; chunkOverlapBytes := chunkOverlapBytes s;
     s_maxPatternLength := s_maxPatternLength s;
     maxResidentMemoryBytes := maxResidentMemoryBytes s; totalScanBudget := d |}.

Definition SetQuarantineOnTimeout (enable : bool) (s : Scanner) : Scanner :=
  {| bufferSizeBytes := bufferSizeBytes s; compiled := compiled s;
     runtimeContext := runtimeContext s; perFileBudget := perFileBudget s;
     quarantineOnTimeout := enable; quarantineOnError := quarantineOnError s;
     firstMatch := firstMatch s; maxLineForRegex := maxLineForRegex s;
     fileTimeout := fileTimeout s; maxFileBytes := maxFileBytes s;
     maxStreamBytes := maxStreamBytes s; compositionStrategy := compositionStrategy s;
     hasSemantic := hasSemantic s; defaultRuleTimeoutMs := defaultRuleTimeoutMs s;
     defaultCaseSensitive := defaultCaseSensitive s; defaultWholeWord := defaultWholeWord s;
     aho := aho s; ruleTokenAho := ruleTokenAho s; chunkOverlapBytes := chunkOverlapBytes s;
     s_maxPatternLength := s_maxPatternLength s;
     maxResidentMemoryBytes := maxResidentMemoryBytes s;
     totalScanBudget := totalScanBudget s |}.

Definition SetQuarantineOnError (enable : bool) (s : Scanner) : Scanner :=
  {| bufferSizeBytes := bufferSizeBytes s; compiled := compiled s;
     runtimeContext := runtimeContext s; perFileBudget := perFileBudget s;
     quarantineOnTimeout := quarantineOnTimeout s; quarantineOnError := enable;
     firstMatch := firstMatch s; maxLineForRegex := maxLineForRegex s;
     fileTimeout := fileTimeout s; maxFileBytes := maxFileBytes s;
     maxStreamBytes := maxStreamBytes s; compositionStrategy := compositionStrategy s;
     hasSemantic := hasSemantic s; defaultRuleTimeoutMs := defaultRuleTimeoutMs s;
     defaultCaseSensitive := defaultCaseSensitive s; defaultWholeWord := defaultWholeWord s;
     aho := aho s; ruleTokenAho := ruleTokenAho s; chunkOverlapBytes := chunkOverlapBytes s;
     s_maxPatternLength := s_maxPatternLength s;
     maxResidentMemoryBytes := maxResidentMemoryBytes s;
     totalScanBudget := totalScanBudget s |}.

(** The analyzer itself is the [World]'s; the scanner knows whether it has one. *)
Definition SetSemanticAnalyzer (present : bool) (s : Scanner) : Scanner :=
  {| bufferSizeBytes := bufferSizeBytes s; compiled := compiled s;
     runtimeContext := runtimeContext s; perFileBudget := perFileBudget s;
     quarantineOnTimeout := quarantineOnTimeout s; quarantineOnError := quarantineOnError s;
     firstMatch := firstMatch s; maxLineForRegex := maxLineForRegex s;
     fileTimeout := fileTimeout s; maxFileBytes := maxFileBytes s;
     maxStreamBytes := maxStreamBytes s; compositionStrategy := compositionStrategy s;
     hasSemantic := present; defaultRuleTimeoutMs := defaultRuleTimeoutMs s;
     defaultCaseSensitive := defaultCaseSensitive s; defaultWholeWord := defaultWholeWord s;
     aho := aho s; ruleTokenAho := ruleTokenAho s; chunkOverlapBytes := chunkOverlapBytes s;
     s_maxPatternLength := s_maxPatternLength s;
     maxResidentMemoryBytes := maxResidentMemoryBytes s;
     totalScanBudget := totalScanBudget s |}.

End Setters.
