(* ===== verification/Rulesets.v ===== *)
(** * Rulesets: the active rule packs and the pool of scanners

    src/internal/application/rulesets (set.go, snapshot.go) and
    src/internal/interfaces/http/enforcer/scanner_pool.go.  [Reload] commits
    the packs under the lock and calls the listeners after it has released it,
    so reloads, requests and the garbage collector interleave: the gateway is
    a step relation over the set, the pools created so far, the requests in
    flight and the listener calls still to come.  The loader is an argument:
    its result is what [Reload] is given. *)

From Stdlib Require Import Ascii String.
From S2P Require Import Prelude GoString Unicode Rules Merge Verifiers Complexity Aho Literals Engine Compile Scanner Load ScanIO Setters.

(** ** The set *)

Record Set' := {
  set_path : string;
  set_packs : list RulePack;
  set_loadedAt : Z;
  set_generation : Z;
}.

Inductive reload_error :=
  | ErrNoSource
  | LoadError (path msg : string).

Definition empty_set (path : string) : Set' :=
  {| set_path := path; set_packs := []; set_loadedAt := 0; set_generation := 0 |}.

(** The critical section of [Reload]. *)
Definition commit (packs : list RulePack) (now : Z) (s : Set') : Set' :=
  {| set_path := set_path s; set_packs := packs; set_loadedAt := now;
     set_generation := wrap64 (set_generation s + 1) |}.

(** [Reload], given the loader: the error or the packs for the listeners, and
    the set. *)
Definition Reload (load : string -> result string (list RulePack)) (now : Z) (s : Set') :
    result reload_error (list RulePack) * Set' :=
  if bool_decide (set_path s = "") then (Err ErrNoSource, s)
  else match load (set_path s) with
       | Err e => (Err (LoadError (set_path s) e), s)
       | Ok packs => (Ok packs, commit packs now s)
       end.

(** [NewSetWithLoader]. *)
Definition NewSetWithLoader (path : string) (load : string -> result string (list RulePack)) (now : Z) :
    option reload_error * Set' :=
  if bool_decide (path = "") then (None, empty_set path)
  else match Reload load now (empty_set path) with
       | (Err e, s) => (Some e, s)
       | (Ok _, s) => (None, s)
       end.

(** ** Snapshots *)

Record RuleSummary := {
  sum_ID : string;
  sum_Name : string;
  sum_Level : Z;
  sum_Severity : string;
  sum_Category : string;
  sum_Action : string;
  sum_Enabled : bool;
  sum_Keywords : Z;
  sum_Patterns : Z;
}.

Record Pack := {
  pk_Name : string;
  pk_Version : string;
  pk_Description : string;
  pk_Rules : list RuleSummary;
}.

Record Snapshot' := {
  snap_Source : string;
  snap_LoadedAt : Z;
  snap_Generation : Z;
  snap_RuleCount : Z;
  snap_Packs : list Pack;
}.

Definition summarizeRule (r : Rule) : RuleSummary :=
  {| sum_ID := r_ID r; sum_Name := r_Name r; sum_Level := r_Level r; sum_Severity := r_Severity r;
     sum_Category := r_Category r;
     sum_Action := match r_Response r with Some a => resp_Action a | None => "" end;
     sum_Enabled := match r_Enabled r with None => true | Some b => b end;
     sum_Keywords := Z.of_nat (List.length (r_Keywords r));
     sum_Patterns := Z.of_nat (List.length (r_Patterns r)) |}.

Definition summarizePack (p : RulePack) : Pack :=
  {| pk_Name := md_Name (rp_Metadata p); pk_Version := md_Version (rp_Metadata p);
     pk_Description := md_Description (rp_Metadata p); pk_Rules := map summarizeRule (rp_Rules p) |}.

Definition snapshot_step (acc : Z * list Pack) (p : RulePack) : Z * list Pack :=
  let pack := summarizePack p in
  ((acc.1 + Z.of_nat (List.length (pk_Rules pack)))%Z, acc.2 ++ [pack]).

Definition Snapshot (s : Set') : Snapshot' :=
  let '(n, ps) := foldl snapshot_step (0%Z, []) (set_packs s) in
  {| snap_Source := set_path s; snap_LoadedAt := set_loadedAt s; snap_Generation := set_generation s;
     snap_RuleCount := n; snap_Packs := ps |}.

(** ** The pool *)

Section Pool.
Context `{RegexpSyntax, RegexpEngine, LruLib, AhoLib, Platform}.

(** [semanticAnalyzerFromEnv() != nil]. *)
Definition semanticAnalyzerFromEnv : bool :=
  negb (negb (bool_decide (getenv "PS_SEMANTIC_ENABLED" = "true"))
        || negb (bool_decide (getenv "PS_SEMANTIC_PROVIDER" = "openai")))
  && negb (bool_decide (getenv "OPENAI_API_KEY" = "")).

(** [build], with the package variables and the expression cache it uses and
    leaves behind. *)
Definition build (maxStreamBytes : Z) (packs : list RulePack) (g : Globals) (c : regex_cache) :
    Scanner * Globals * regex_cache :=
  let sc := ScanEngineCstor 0 in
  let sc := if (0 <? maxStreamBytes)%Z then SetMaxStreamBytes maxStreamBytes sc else sc in
  let sc := SetQuarantineOnError true (SetQuarantineOnTimeout true sc) in
  let '(sc, g, c) := match packs with
                     | [] => (sc, g, c)
                     | _ => let '(sc, _, g, c) := LoadRulePacks packs g c sc in (sc, g, c)
                     end in
  ((if semanticAnalyzerFromEnv then SetSemanticAnalyzer true sc else sc), g, c).

(** One [sync.Pool]: the packs its [New] builds from and the idle scanners. *)
Record pool := {
  pool_packs : list RulePack;
  idle : list Scanner;
}.

Record gateway := {
  active : Set';
  pools : list pool;
  current : nat;
  inflight : list (nat * Scanner);
  pending : list (list RulePack);
  globals : Globals;
  cache : regex_cache;
}.

Definition with_pools (ps : list pool) (cur : nat) (w : gateway) : gateway :=
  {| active := active w; pools := ps; current := cur; inflight := inflight w; pending := pending w;
     globals := globals w; cache := cache w |}.
Definition with_inflight (fs : list (nat * Scanner)) (w : gateway) : gateway :=
  {| active := active w; pools := pools w; current := current w; inflight := fs; pending := pending w;
     globals := globals w; cache := cache w |}.
Definition with_pending (ls : list (list RulePack)) (w : gateway) : gateway :=
  {| active := active w; pools := pools w; current := current w; inflight := inflight w; pending := ls;
     globals := globals w; cache := cache w |}.
Definition with_globals (g : Globals) (c : regex_cache) (w : gateway) : gateway :=
  {| active := active w; pools := pools w; current := current w; inflight := inflight w;
     pending := pending w; globals := g; cache := c |}.

(** [swap]: a new pool becomes the current one. *)
Definition swap (packs : list RulePack) (w : gateway) : gateway :=
  with_pools (pools w ++ [{| pool_packs := packs; idle := [] |}]) (List.length (pools w)) w.

(** [newScannerPool] on a set. *)
Definition newScannerPool (s : Set') (g : Globals) (c : regex_cache) : gateway :=
  swap (set_packs s)
    {| active := s; pools := []; current := 0; inflight := []; pending := []; globals := g; cache := c |}.

(** [pool.Get()] on the current pool: the idle scanner the pool returns, or a
    new one when [reuse] is false or none is idle. *)
Definition get (maxStreamBytes : Z) (reuse : bool) (w : gateway) : option (Scanner * gateway) :=
  p ← pools w !! current w;
  match reuse, idle p with
  | true, sc :: rest =>
    Some (sc, with_inflight ((current w, sc) :: inflight w)
                (with_pools (<[current w := {| pool_packs := pool_packs p; idle := rest |}]> (pools w))
                   (current w) w))
  | _, _ =>
    let '(sc, g, c) := build maxStreamBytes (pool_packs p) (globals w) (cache w) in
    Some (sc, with_inflight ((current w, sc) :: inflight w) (with_globals g c w))
  end.

(** The release function of the [k]-th request in flight: the scanner goes
    back to the pool it came from. *)
Definition release (k : nat) (w : gateway) : option gateway :=
  '(i, sc) ← inflight w !! k;
  p ← pools w !! i;
  Some (with_inflight (delete k (inflight w))
          (with_pools (<[i := {| pool_packs := pool_packs p; idle := sc :: idle p |}]> (pools w))
             (current w) w)).

(** The garbage collector may empty a pool. *)
Definition drop_idle (i : nat) (w : gateway) : gateway :=
  match pools w !! i with
  | Some p => with_pools (<[i := {| pool_packs := pool_packs p; idle := [] |}]> (pools w)) (current w) w
  | None => w
  end.

(** The two halves of a successful [Reload]: the commit, and the call of the
    listener, [swap], for the [k]-th commit not yet announced. *)
Definition reload_commit (packs : list RulePack) (now : Z) (w : gateway) : gateway :=
  {| active := commit packs now (active w); pools := pools w; current := current w;
     inflight := inflight w; pending := pending w ++ [packs]; globals := globals w; cache := cache w |}.
Definition reload_notify (k : nat) (w : gateway) : option gateway :=
  packs ← pending w !! k;
  Some (swap packs (with_pending (delete k (pending w)) w)).

(** What can happen to the gateway; [serial] forbids a reload to start while
    another one has not announced its packs. *)
Inductive step (maxStreamBytes : Z) (serial : bool) : gateway -> gateway -> Prop :=
  | step_get reuse w sc w' : get maxStreamBytes reuse w = Some (sc, w') -> step maxStreamBytes serial w w'
  | step_release k w w' : release k w = Some w' -> step maxStreamBytes serial w w'
  | step_drop i w : step maxStreamBytes serial w (drop_idle i w)
  | step_reload load now packs w :
      (Reload load now (active w)).1 = Ok packs -> (serial = true -> pending w = []) ->
      step maxStreamBytes serial w (reload_commit packs now w)
  | step_notify k w w' : reload_notify k w = Some w' -> step maxStreamBytes serial w w'.

(** ** Invariants *)

(** [sc] is what [build] makes of [packs]. *)
Definition built_from (maxStreamBytes : Z) (packs : list RulePack) (sc : Scanner) : Prop :=
  exists g c, sc = (build maxStreamBytes packs g c).1.1.

(** Every idle scanner, and every scanner in use, was built from the packs of
    the pool it belongs to. *)
Record pools_ok (maxStreamBytes : Z) (w : gateway) : Prop := {
  ok_idle : forall i p sc, pools w !! i = Some p -> sc ∈ idle p -> built_from maxStreamBytes (pool_packs p) sc;
  ok_inflight : forall i sc, (i, sc) ∈ inflight w ->
    exists p, pools w !! i = Some p /\ built_from maxStreamBytes (pool_packs p) sc;
  ok_current : is_Some (pools w !! current w);
}.

(** With serial reloads the current pool is the one of the active packs,
    unless exactly these are about to be announced. *)
Definition current_ok (w : gateway) : Prop :=
  match pending w with
  | [] => pool_packs <$> pools w !! current w = Some (set_packs (active w))
  | [packs] => packs = set_packs (active w)
  | _ => False
  end.

Lemma new_pool_ok msb s g c : pools_ok msb (newScannerPool s g c) /\ current_ok (newScannerPool s g c).
Proof.
  split; [|done]. split; simpl.
  - intros [|i] p sc; simpl; [|done]. intros [= <-]. simpl. by intros ?%not_elem_of_nil.
  - by intros i sc ?%not_elem_of_nil.
  - by eexists.
Qed.

Lemma lookup_swap packs w i p :
  pools w !! i = Some p -> pools (swap packs w) !! i = Some p.
Proof. intros Hp. simpl. by apply lookup_app_l_Some. Qed.

Lemma swap_ok msb packs w : pools_ok msb w -> pools_ok msb (swap packs w).
Proof.
  intros [Hi Hf Hc]. split.
  - intros i p sc Hp Hsc. simpl in Hp. apply lookup_app_Some in Hp as [Hp|[_ Hp]]; [by eapply Hi|].
    apply list_lookup_singleton_Some in Hp as [_ <-]. by apply not_elem_of_nil in Hsc.
  - intros i sc Hin. destruct (Hf i sc Hin) as (p & Hp & Hb). exists p. split; [|done].
    by apply lookup_swap.
  - simpl. rewrite lookup_app_r, Nat.sub_diag by done. by eexists.
Qed.

Lemma set_idle_ok msb w i p ids :
  pools_ok msb w -> pools w !! i = Some p ->
  (forall sc, sc ∈ ids -> built_from msb (pool_packs p) sc) ->
  pools_ok msb (with_pools (<[i := {| pool_packs := pool_packs p; idle := ids |}]> (pools w)) (current w) w).
Proof.
  intros [Hi Hf Hc] Hp Hids. split; simpl.
  - intros j q sc Hq Hsc. apply list_lookup_insert_Some in Hq as [(-> & <- & _)|[_ Hq]]; [auto|by eapply Hi].
  - intros j sc Hin. destruct (Hf j sc Hin) as (q & Hq & Hb).
    destruct (decide (i = j)) as [->|Hne].
    + eexists. rewrite list_lookup_insert_eq by (by eapply lookup_lt_Some). split; [done|].
      simpl. by simplify_eq.
    + exists q. by rewrite list_lookup_insert_ne.
  - apply lookup_lt_is_Some. rewrite length_insert. by apply lookup_lt_is_Some.
Qed.

Lemma with_inflight_ok msb w fs :
  pools_ok msb w ->
  (forall i sc, (i, sc) ∈ fs -> exists p, pools w !! i = Some p /\ built_from msb (pool_packs p) sc) ->
  pools_ok msb (with_inflight fs w).
Proof. intros [Hi Hf Hc] Hfs. by split. Qed.

(** What [get] establishes, whether it builds a scanner or reuses one. *)
Definition got (msb : Z) (w : gateway) (p : pool) (sc : Scanner) (w' : gateway) : Prop :=
  pools_ok msb w' /\ pending w' = pending w /\ active w' = active w /\
  pool_packs <$> pools w' !! current w' = Some (pool_packs p) /\ built_from msb (pool_packs p) sc.

Lemma get_new_ok msb w p sc g c :
  pools_ok msb w -> pools w !! current w = Some p ->
  build msb (pool_packs p) (globals w) (cache w) = (sc, g, c) ->
  got msb w p sc (with_inflight ((current w, sc) :: inflight w) (with_globals g c w)).
Proof.
  intros Hok Hp Eb.
  assert (Hb : built_from msb (pool_packs p) sc) by (exists (globals w), (cache w); by rewrite Eb).
  split_and!; [|done|done|simpl; by rewrite Hp|done].
  apply with_inflight_ok; [by destruct Hok|].
  intros i sc' [[= -> ->]|Hin]%elem_of_cons; [by exists p|]. by apply Hok.
Qed.

Lemma get_idle_ok msb w p sc rest :
  pools_ok msb w -> pools w !! current w = Some p -> idle p = sc :: rest ->
  got msb w p sc (with_inflight ((current w, sc) :: inflight w)
    (with_pools (<[current w := {| pool_packs := pool_packs p; idle := rest |}]> (pools w)) (current w) w)).
Proof.
  intros Hok Hp Hidle. pose proof (lookup_lt_Some _ _ _ Hp) as Hlt.
  assert (Hb : forall x, x ∈ sc :: rest -> built_from msb (pool_packs p) x)
    by (intros x; rewrite <-Hidle; by apply (ok_idle _ _ Hok (current w))).
  assert (Hset := set_idle_ok msb w (current w) p rest Hok Hp (fun x Hx => Hb x (list_elem_of_further _ _ _ Hx))).
  split_and!; [|done|done|simpl; by rewrite list_lookup_insert_eq|apply Hb; left].
  apply with_inflight_ok; [done|].
  intros i x [[= -> ->]|Hin]%elem_of_cons; [|by apply (ok_inflight _ _ Hset)].
  eexists. simpl. rewrite list_lookup_insert_eq by done. split; [done|]. apply Hb. left.
Qed.

Lemma get_ok msb reuse w sc w' :
  pools_ok msb w -> get msb reuse w = Some (sc, w') ->
  exists p, pools w !! current w = Some p /\ got msb w p sc w'.
Proof.
  intros Hok. unfold get. destruct (pools w !! current w) as [p|] eqn:Hp; [|done]. simpl. intros Hg.
  exists p. split; [done|].
  destruct (build msb (pool_packs p) (globals w) (cache w)) as [[sc' g] c] eqn:Eb.
  destruct reuse, (idle p) as [|sc0 rest] eqn:Hidle; injection Hg as <- <-;
    by (apply get_new_ok || apply get_idle_ok).
Qed.

Lemma release_ok msb k w w' :
  pools_ok msb w -> release k w = Some w' ->
  pools_ok msb w' /\ pending w' = pending w /\ active w' = active w /\
  pool_packs <$> pools w' !! current w' = pool_packs <$> pools w !! current w.
Proof.
  intros Hok. unfold release. destruct (inflight w !! k) as [[i sc]|] eqn:Hk; [|done]. simpl.
  destruct (pools w !! i) as [p|] eqn:Hp; [|done]. simpl. intros [= <-].
  apply list_elem_of_lookup_2 in Hk as Hin. destruct (ok_inflight _ _ Hok _ _ Hin) as (p' & Hp' & Hb).
  simplify_eq. assert (Hset := set_idle_ok msb w i p (sc :: idle p) Hok Hp).
  split_and!; [|done|done|].
  - apply with_inflight_ok.
    + apply Hset. intros x [->|Hx]%elem_of_cons; [done|]. by eapply ok_idle.
    + intros j x Hx. apply (ok_inflight msb (with_pools _ _ w)); [|simpl].
      * apply Hset. intros y [->|Hy]%elem_of_cons; [done|]. by eapply ok_idle.
      * apply list_elem_of_lookup in Hx as [m Hm]. apply list_elem_of_lookup.
        destruct (decide (m < k)); [exists m|exists (S m)].
        -- by rewrite list_lookup_delete_lt in Hm.
        -- by rewrite list_lookup_delete_ge in Hm by lia.
  - simpl. destruct (decide (i = current w)) as [->|]; [|by rewrite list_lookup_insert_ne].
    rewrite list_lookup_insert_eq by (by eapply lookup_lt_Some). by rewrite Hp.
Qed.

Lemma drop_idle_ok msb i w :
  pools_ok msb w ->
  pools_ok msb (drop_idle i w) /\ pending (drop_idle i w) = pending w /\ active (drop_idle i w) = active w /\
  pool_packs <$> pools (drop_idle i w) !! current (drop_idle i w) = pool_packs <$> pools w !! current w.
Proof.
  intros Hok. unfold drop_idle. destruct (pools w !! i) as [p|] eqn:Hp; [|done].
  split_and!; [apply set_idle_ok; [done..|]; by intros ? ?%not_elem_of_nil|done|done|]. simpl.
  destruct (decide (i = current w)) as [->|]; [|by rewrite list_lookup_insert_ne].
  rewrite list_lookup_insert_eq by (by eapply lookup_lt_Some). by rewrite Hp.
Qed.

Lemma step_ok msb serial w w' : step msb serial w w' -> pools_ok msb w -> pools_ok msb w'.
Proof.
  intros Hs Hok. inversion Hs as [reuse w1 sc w2 Hg|k w1 w2 Hr|i w1|load now packs w1 Hr Hp|k w1 w2 Hn]; subst.
  - by destruct (get_ok _ _ _ _ _ Hok Hg) as (p & _ & ? & _).
  - by apply (release_ok _ _ _ _ Hok Hr).
  - by apply drop_idle_ok.
  - by destruct Hok.
  - unfold reload_notify in Hn. destruct (pending w !! k) as [packs|]; [|done]. injection Hn as <-.
    apply swap_ok. by destruct Hok.
Qed.

Lemma step_current msb w w' :
  step msb true w w' -> pools_ok msb w -> current_ok w -> current_ok w'.
Proof.
  intros Hs Hok Hc. unfold current_ok in *.
  inversion Hs as [reuse w1 sc w2 Hg|k w1 w2 Hr|i w1|load now packs w1 Hr Hp|k w1 w2 Hn]; subst.
  - destruct (get_ok _ _ _ _ _ Hok Hg) as (p & Hpl & _ & Hpe & Ha & Hcur & _).
    rewrite Hpe, Ha, Hcur. by rewrite Hpl in Hc.
  - destruct (release_ok _ _ _ _ Hok Hr) as (_ & -> & -> & ->). done.
  - destruct (drop_idle_ok msb i w Hok) as (_ & -> & -> & ->). done.
  - simpl. by rewrite Hp.
  - unfold reload_notify in Hn. destruct (pending w) as [|packs [|]]; [done| |done].
    destruct k; [|done]. injection Hn as <-. simpl.
    rewrite lookup_app_r, Nat.sub_diag by done. simpl. by rewrite Hc.
Qed.

Lemma reach_ok msb serial w w' :
  rtc (step msb serial) w w' -> pools_ok msb w -> pools_ok msb w'.
Proof. induction 1; eauto using step_ok. Qed.

Lemma reach_current msb w w' :
  rtc (step msb true) w w' -> pools_ok msb w -> current_ok w -> current_ok w'.
Proof. induction 1; eauto using step_ok, step_current. Qed.

(** C9. Requests scan with the active packs: however requests, releases, pool
    clean-ups and serialised reloads interleave, a request that starts when no
    reload is between its commit and its announcement gets a scanner built
    from exactly the packs the set reports as active, never one left over
    from an earlier generation; and every request in flight keeps a scanner
    of the generation it started with, to whose pool it returns. *)
Theorem request_scans_active_packs msb s g c w reuse sc w' :
  rtc (step msb true) (newScannerPool s g c) w -> pending w = [] ->
  get msb reuse w = Some (sc, w') ->
  built_from msb (set_packs (active w)) sc /\
  (forall i sc', (i, sc') ∈ inflight w' ->
     exists p, pools w' !! i = Some p /\ built_from msb (pool_packs p) sc').
Proof.
  intros Hr Hp Hg. destruct (new_pool_ok msb s g c) as [Hok0 Hcur0].
  pose proof (reach_ok _ _ _ _ Hr Hok0) as Hok. pose proof (reach_current _ _ _ Hr Hok0 Hcur0) as Hcur.
  unfold current_ok in Hcur. rewrite Hp in Hcur.
  destruct (get_ok _ _ _ _ _ Hok Hg) as (p & Hpl & Hok' & _ & _ & _ & Hb).
  rewrite Hpl in Hcur. injection Hcur as <-. split; [done|]. apply Hok'.
Qed.
End Pool.

(** ** Facts on the set *)

(** A failed reload keeps the active packs; a successful one installs what the
    loader returned, as the next generation. *)
Lemma Reload_cases load now s :
  match Reload load now s with
  | (Err _, s') => s' = s
  | (Ok packs, s') => set_packs s' = packs /\ load (set_path s) = Ok packs
  end.
Proof. unfold Reload. case_bool_decide; [done|]. by destruct (load (set_path s)). Qed.

Lemma Snapshot_RuleCount s :
  snap_RuleCount (Snapshot s) =
  Z.of_nat (sum_list (map (fun p => List.length (rp_Rules p)) (set_packs s))).
Proof.
  unfold Snapshot.
  assert (Hf : forall ps acc, (foldl snapshot_step acc ps).1 =
    (acc.1 + Z.of_nat (sum_list (map (fun p => List.length (rp_Rules p)) ps)))%Z).
  { induction ps as [|p ps IH]; intros acc; [simpl; lia|]. simpl foldl. rewrite IH. simpl.
    rewrite length_map. lia. }
  specialize (Hf (set_packs s) (0%Z, [])). destruct (foldl _ _ _) as [n l]. simpl in *. lia.
Qed.

(** ** Examples *)

Module PoolWitnesses.
Import Load.Demo.
#[local] Existing Instance literal_syntax.
#[local] Existing Instance literal_engine.
#[local] Existing Instance list_lru.
#[local] Existing Instance naive_lib.
#[local] Existing Instance bare_platform.

Definition packA : RulePack := pack "p" None "" [rule "a" 1 ["foo"] []].
Definition packB : RulePack := pack "p" None "" [rule "b" 1 ["bar"] []].
Definition set0 : Set' := {| set_path := "rules"; set_packs := [packA]; set_loadedAt := 0; set_generation := 1 |}.
Definition w0 : gateway := newScannerPool set0 globals0 None.
Definition loads (ps : list RulePack) : string -> result string (list RulePack) := fun _ => Ok ps.

(** A reload announced, then a request. *)
Definition w1 : gateway := swap [packB] (with_pending [] (reload_commit [packB] 1 w0)).

Lemma reload_steps : rtc (step 0 true) w0 w1.
Proof.
  eapply rtc_l; [apply (step_reload 0 true (loads [packB]) 1 [packB] w0); done|].
  eapply rtc_l; [apply (step_notify 0 true 0); reflexivity|]. apply rtc_refl.
Qed.

Lemma request_scans_active_packs_witness :
  exists sc w', get 0 true w1 = Some (sc, w') /\ map cr_id (compiled sc) = ["b"] /\
    built_from 0 [packB] sc.
Proof.
  destruct (get 0 true w1) as [[sc w']|] eqn:E; [|vm_compute in E; discriminate E].
  exists sc, w'. split; [reflexivity|]. split.
  - assert (Hm : (fun r => map cr_id (compiled r.1)) <$> get 0 true w1 = Some ["b"]) by (vm_compute; reflexivity).
    rewrite E in Hm. by injection Hm.
  - apply (request_scans_active_packs 0 set0 globals0 None w1 true sc w' reload_steps eq_refl E).
Defined.

(** Reloads are not serialised by the code: two concurrent ones may announce
    their packs in the order opposite to their commits.  Nothing is pending,
    the set reports the packs of the second reload as active, and requests
    keep scanning with those of the first. *)
Lemma concurrent_reloads_stale :
  exists w, rtc (step 0 false) w0 w /\ pending w = [] /\ set_packs (active w) = [packB] /\
    pool_packs <$> pools w !! current w = Some [packA].
Proof.
  eexists. split_and!.
  - eapply rtc_l; [apply (step_reload 0 false (loads [packA]) 1 [packA] w0); done|].
    eapply rtc_l; [eapply (step_reload 0 false (loads [packB]) 2 [packB]); done|].
    eapply rtc_l; [apply (step_notify 0 false 1); reflexivity|].
    eapply rtc_l; [apply (step_notify 0 false 0); reflexivity|]. apply rtc_refl.
  - reflexivity.
  - reflexivity.
  - reflexivity.
Qed.
End PoolWitnesses.
