(* ===== verification/Decisions.v ===== *)
(** * Decisions: the in-memory log of enforcement decisions

    src/internal/application/decisions (log.go, page.go, record.go,
    capacity.go) and the query parsing of
    src/internal/interfaces/http/api/decisions.go.  The log is a ring buffer
    behind a lock: every operation below is one critical section, except
    [Stats], which reads the records and the counters in two, and so takes the
    log as it is at each.  Times are nanoseconds since Go's zero time, so that
    [IsZero] is equality with 0; [float64] values that are computed with are
    the standard library's [spec_float], whose operations are executable. *)

From Stdlib Require Import Ascii String SpecFloat.
From S2P Require Import Prelude GoString Unicode Rules Scanner.

Local Open Scope Z_scope.

(** ** Records *)

Definition Allow : string := "allow".
Definition Deny : string := "deny".
Definition Quarantine : string := "quarantine".

Record Match := {
  m_RuleID : string;
  m_Severity : string;
  m_Category : string;
  m_Action : string;
  m_Message : string;
}.

Record Record' := {
  Seq : Z;
  RequestID : string;
  Time : Z;
  Path : string;
  Decision' : string;
  Reason : string;
  Status : Z;
  LatencyMs : spec_float;
  BytesIn : Z;
  Violations : Z;
  Matches : list Match;
}.

(** [firstNonEmpty(values...)]. *)
Fixpoint firstNonEmpty (values : list string) : string :=
  match values with
  | [] => ""
  | v :: values => if bool_decide (v = "") then firstNonEmpty values else v
  end.

Definition match_of (v : Violation) : Match :=
  {| m_RuleID := v_RuleID v; m_Severity := v_Severity v; m_Category := v_Category v;
     m_Action := v_ResponseAction v;
     m_Message := firstNonEmpty [v_ResponseMessage v; v_Message v] |}.

Definition MatchesFrom (violations : list Violation) : list Match := map match_of violations.

(** ** Capacity *)

Definition DefaultCapacity : Z := 500.
Definition MinCapacity : Z := 10.
Definition MaxCapacity : Z := 50000.
Definition CapacityEnv : string := "PS_DECISION_LOG_SIZE".

Inductive capacity_error :=
  | NotAnInteger (raw : string)
  | OutsideRange (n : Z).

(** [ParseCapacity]: the capacity to use and the error, if any. *)
Definition ParseCapacity (raw : string) : Z * option capacity_error :=
  let raw := TrimSpace raw in
  if bool_decide (raw = "") then (DefaultCapacity, None)
  else match Atoi raw with
       | None => (DefaultCapacity, Some (NotAnInteger raw))
       | Some n => if (n <? MinCapacity) || (MaxCapacity <? n)
                   then (DefaultCapacity, Some (OutsideRange n))
                   else (n, None)
       end.

(** ** The ring *)

Record Query := {
  Limit : Z;
  q_Decision : string;
  Before : Z;
}.

Record Log := {
  buf : list Record';
  next : Z;
  size : Z;
  total : Z;
  counts : gmap string Z;
  started : Z;
}.

Definition zero_record : Record' :=
  {| Seq := 0; RequestID := ""; Time := 0; Path := ""; Decision' := ""; Reason := "";
     Status := 0; LatencyMs := S754_zero false; BytesIn := 0; Violations := 0; Matches := [] |}.

Definition NewLog (capacity now : Z) : Log :=
  let capacity := if capacity <=? 0 then DefaultCapacity else capacity in
  {| buf := replicate (Z.to_nat capacity) zero_record; next := 0; size := 0; total := 0;
     counts := {[Allow := 0; Deny := 0; Quarantine := 0]}; started := now |}.

Definition NewLogFromEnv (getenv : string -> string) (now : Z) : Log :=
  NewLog (ParseCapacity (getenv CapacityEnv)).1 now.

(** [len(l.buf)]. *)
Definition cap (l : Log) : Z := Z.of_nat (length (buf l)).

Definition with_Time (t : Z) (r : Record') : Record' :=
  {| Seq := Seq r; RequestID := RequestID r; Time := t; Path := Path r; Decision' := Decision' r;
     Reason := Reason r; Status := Status r; LatencyMs := LatencyMs r; BytesIn := BytesIn r;
     Violations := Violations r; Matches := Matches r |}.
Definition with_Seq (n : Z) (r : Record') : Record' :=
  {| Seq := n; RequestID := RequestID r; Time := Time r; Path := Path r; Decision' := Decision' r;
     Reason := Reason r; Status := Status r; LatencyMs := LatencyMs r; BytesIn := BytesIn r;
     Violations := Violations r; Matches := Matches r |}.

(** [if r.Time.IsZero() { r.Time = l.now().UTC() }]. *)
Definition stamp_time (now : Z) (r : Record') : Record' :=
  if Time r =? 0 then with_Time now r else r.

(** [Add], at time [now]. *)
Definition Add (now : Z) (r : Record') (l : Log) : Log :=
  let r := stamp_time now r in
  let total := wrap64 (total l + 1) in
  let r := with_Seq total r in
  {| buf := <[Z.to_nat (next l) := r]> (buf l);
     next := (next l + 1) mod cap l;
     size := if size l <? cap l then size l + 1 else size l;
     total := total;
     counts := <[Decision' r := wrap64 (default 0 (counts l !! Decision' r) + 1)]> (counts l);
     started := started l |}.

(** [l.buf[(l.next-i+len(l.buf))%len(l.buf)]]. *)
Definition slot (l : Log) (i : Z) : nat := Z.to_nat ((next l - i + cap l) mod cap l).

(** The records in slots [i], [i+1], ..., [n] of them. *)
Fixpoint slots (l : Log) (i : Z) (n : nat) : list Record' :=
  match n with
  | O => []
  | S n => match buf l !! slot l i with
           | Some r => r :: slots l (i + 1) n
           | None => slots l (i + 1) n
           end
  end.

Definition keeps (q : Query) (r : Record') : bool :=
  bool_decide (q_Decision q = "") || bool_decide (Decision' r = q_Decision q).

(** The body of the loop of [scan] over the slots, [n] records collected. *)
Fixpoint collect (q : Query) (limit n : Z) (rs : list Record') : list Record' :=
  match rs with
  | [] => []
  | r :: rs =>
    if negb (keeps q r) then collect q limit n rs
    else if (0 <? limit) && (n + 1 =? limit) then [r]
    else r :: collect q limit (n + 1) rs
  end.

(** [scan]: slots [start] to [size], newest first. *)
Definition scan (l : Log) (q : Query) (limit : Z) : list Record' :=
  let start := if 0 <? Before q then Z.max 1 (wrap64 (wrap64 (total l - Before q) + 2)) else 1 in
  collect q limit 0 (slots l start (Z.to_nat (size l + 1 - start))).

Definition Recent (l : Log) (q : Query) : list Record' := scan l q (Limit q).

Record Page' := {
  Records : list Record';
  Next : Z;
}.

(** [Page]. *)
Definition Page (l : Log) (q : Query) : Page' :=
  if Limit q <=? 0 then {| Records := Recent l q; Next := 0 |}
  else
    let records := scan l q (wrap64 (Limit q + 1)) in
    if Z.of_nat (length records) <=? Limit q then {| Records := records; Next := 0 |}
    else let records := take (Z.to_nat (Limit q)) records in
         {| Records := records; Next := default 0 (Seq <$> last records) |}.

Definition all_records : Query := {| Limit := 0; q_Decision := ""; Before := 0 |}.

(** [Get]: the newest retained record with the request id. *)
Definition Get (l : Log) (requestID : string) : option Record' :=
  snd <$> list_find (fun r => RequestID r = requestID) (Recent l all_records).

(** ** Statistics *)

(** [float64(n)], [float64(a) / float64(b)] and [math.Ceil] followed by the
    conversion to [int]. *)
Definition float_of_int (n : Z) : spec_float := binary_normalize 53 1024 n 0 false.
Definition float_mul : spec_float -> spec_float -> spec_float := SFmul 53 1024.
Definition float_div : spec_float -> spec_float -> spec_float := SFdiv 53 1024.
Definition int_ceil (x : spec_float) : Z :=
  match x with
  | S754_finite s m e =>
    let n := cond_Zopp s (Zpos m) in
    if 0 <=? e then n * 2 ^ e else - ((- n) / 2 ^ (- e))
  | _ => 0
  end.

(** The constants 0.50 and 0.95 as [float64]. *)
Definition p50 : spec_float := S754_finite false 4503599627370496 (-53).
Definition p95 : spec_float := S754_finite false 8556839292003942 (-53).

(** The order of [sort.Float64s]: NaNs first. *)
Definition is_nan (x : spec_float) : bool := match x with S754_nan => true | _ => false end.
Definition float_less (x y : spec_float) : bool :=
  SFltb x y || (is_nan x && negb (is_nan y)).
Definition float_le (x y : spec_float) : Prop := float_less y x = false.
#[export] Instance float_le_dec : RelDecision float_le.
Proof. intros x y. unfold float_le. apply _. Defined.

Definition Float64s (values : list spec_float) : list spec_float := merge_sort float_le values.

(** The nearest rank of [percentile] among [n] values. *)
Definition rank (p : spec_float) (n : Z) : Z :=
  let rank := int_ceil (float_mul p (float_of_int n)) - 1 in
  if rank <? 0 then 0 else rank.

(** [percentile]; [None] is the panic of an index out of range. *)
Definition percentile (values : list spec_float) (p : spec_float) : option spec_float :=
  match values with
  | [] => Some (S754_zero false)
  | _ => Float64s values !! Z.to_nat (rank p (Z.of_nat (length values)))
  end.

Record Stats' := {
  s_Total : Z;
  ByDecision : gmap string Z;
  BlockRate : spec_float;
  LatencyP50Ms : spec_float;
  LatencyP95Ms : spec_float;
  LastMinute : Z;
  Retained : Z;
  Capacity : Z;
  Since : Z;
}.

Definition minute : Z := 60 * 1000000000.

(** [Stats]: the records are read from [l0], the counters, after any number of
    other calls, from [l]. *)
Definition Stats (l0 l : Log) (now : Z) : option Stats' :=
  let records := Recent l0 all_records in
  let blocked := wrap64 (default 0 (counts l !! Deny) + default 0 (counts l !! Quarantine)) in
  let latencies := LatencyMs <$> records in
  p50v ← percentile latencies p50;
  p95v ← percentile latencies p95;
  Some {| s_Total := total l; ByDecision := counts l;
          BlockRate := if 0 <? total l then float_div (float_of_int blocked) (float_of_int (total l))
                       else S754_zero false;
          LatencyP50Ms := p50v; LatencyP95Ms := p95v;
          LastMinute := Z.of_nat (length (filter (fun r => now - minute < Time r) records));
          Retained := size l; Capacity := cap l; Since := started l |}.

(** ** The query of GET /decisions *)

Definition maxDecisionLimit : Z := 500.

Inductive queryError := BadLimit | BadBefore | BadDecision.

(** [parseDecisionQuery], given the query parameters. *)
Definition parse_limit (v : string) : result queryError Z :=
  if bool_decide (v = "") then Ok 100
  else match Atoi v with
       | Some n => if (n <? 1) || (maxDecisionLimit <? n) then Err BadLimit else Ok n
       | None => Err BadLimit
       end.
Definition parse_before (v : string) : result queryError Z :=
  if bool_decide (v = "") then Ok 0
  else match ParseInt v with
       | Some n => if n <? 1 then Err BadBefore else Ok n
       | None => Err BadBefore
       end.
Definition parseDecisionQuery (param : string -> string) : result queryError Query :=
  (limit <-? parse_limit (TrimSpace (param "limit"%string));
   before <-? parse_before (TrimSpace (param "before"%string));
   let d := TrimSpace (param "decision"%string) in
   if bool_decide (d ∈ [""%string; Allow; Deny; Quarantine])
   then Ok {| Limit := limit; q_Decision := d; Before := before |}
   else Err BadDecision)%ps.

(** ** The abstract log

    A history is the list of all records ever added, newest first; the log
    retains its first [cap] records. *)
Notation history := (list Record').

(** What [Add] does to the history. *)
Definition push (now : Z) (r : Record') (h : history) : history :=
  with_Seq (Z.of_nat (length h) + 1) (stamp_time now r) :: h.

Definition retained (c : Z) (h : history) : list Record' := take (Z.to_nat c) h.

Definition decided (d : string) (h : history) : list Record' :=
  filter (fun r => Decision' r = d) h.

(** The records a query asks for. *)
Definition selects (q : Query) (r : Record') : bool :=
  keeps q r && ((Before q <=? 0) || (Seq r <? Before q)).

Definition upto {A} (limit : Z) (l : list A) : list A :=
  if limit <=? 0 then l else take (Z.to_nat limit) l.

(** Sequence numbers count down from [n]. *)
Fixpoint countdown (n : Z) (h : history) : Prop :=
  match h with
  | [] => True
  | r :: h => Seq r = n /\ countdown (n - 1) h
  end.

(** The log [l] implements the history [h]. *)
Record implements (l : Log) (h : history) : Prop := {
  impl_cap : 0 < cap l;
  impl_bound : Z.of_nat (length h) < 2 ^ 62;
  impl_total : total l = Z.of_nat (length h);
  impl_size : size l = Z.min (cap l) (Z.of_nat (length h));
  impl_next : next l = Z.of_nat (length h) mod cap l;
  impl_ring : forall i, (i < Z.to_nat (size l))%nat ->
    buf l !! Z.to_nat ((Z.of_nat (length h) - 1 - Z.of_nat i) mod cap l) = h !! i;
  impl_seq : countdown (Z.of_nat (length h)) h;
  impl_counts : forall d, default 0 (counts l !! d) = Z.of_nat (length (decided d h));
}.

Lemma mod_sub_ne a d c : 0 < d < c -> (a - d) mod c <> a mod c.
Proof.
  intros Hd Heq. assert (Hz : (a - (a - d)) mod c = 0) by (rewrite Zminus_mod, Heq, Z.sub_diag; apply Zmod_0_l).
  replace (a - (a - d)) with d in Hz by lia. rewrite Z.mod_small in Hz; lia.
Qed.

Lemma mod_back a i c : (a mod c - i + c) mod c = (a - i) mod c.
Proof.
  replace (a mod c - i + c) with (a mod c - i + 1 * c) by lia.
  by rewrite Z_mod_plus_full, Zminus_mod_idemp_l.
Qed.

Lemma NewLog_implements capacity now : implements (NewLog capacity now) [].
Proof.
  assert (Hc : 0 < cap (NewLog capacity now)).
  { unfold NewLog, cap. simpl. rewrite length_replicate. unfold DefaultCapacity. case_if; lia. }
  split; try done.
  - change (size _) with 0. simpl (Z.of_nat _). lia.
  - intros i Hi. change (size _) with 0 in Hi. lia.
  - intros d. simpl.
    destruct (_ !! d) eqn:E; [|done]. simpl.
    apply lookup_insert_Some in E as [[_ <-]|[_ E]]; [done|].
    apply lookup_insert_Some in E as [[_ <-]|[_ E]]; [done|].
    by apply lookup_singleton_Some in E as [_ <-].
Qed.

Lemma cap_Add now r l : cap (Add now r l) = cap l.
Proof. unfold cap, Add. simpl. by rewrite length_insert. Qed.

Lemma Decision_stamped now r : Decision' (stamp_time now r) = Decision' r.
Proof. unfold stamp_time. by case_if. Qed.

Lemma decided_push d now r h :
  Z.of_nat (length (decided d (push now r h))) =
  Z.of_nat (length (decided d h)) + if bool_decide (Decision' r = d) then 1 else 0.
Proof.
  unfold decided, push. rewrite filter_cons. cbn [Decision' with_Seq]. rewrite Decision_stamped.
  case_bool_decide; destruct (decide _); simpl; try lia; done.
Qed.

Lemma length_decided d h : (length (decided d h) <= length h)%nat.
Proof. apply length_filter. Qed.

Lemma Add_implements l h now r :
  implements l h -> Z.of_nat (length h) + 1 < 2 ^ 62 -> implements (Add now r l) (push now r h).
Proof.
  intros [Hc _ Ht Hs Hn Hr Hq Hk] Hb.
  assert (Hw : wrap64 (total l + 1) = Z.of_nat (length h) + 1)
    by (rewrite Ht; apply wrap64_id; unfold int64_range; lia).
  split; rewrite ?cap_Add; simpl; try lia.
  - rewrite Hs. case_if; lia.
  - rewrite Hn. rewrite Zplus_mod_idemp_l. f_equal. lia.
  - intros i Hi. rewrite Hw, Hn.
    assert (Hi' : (i < Z.to_nat (Z.min (cap l) (Z.of_nat (length h) + 1)))%nat)
      by (revert Hi; rewrite Hs; case_if; lia).
    assert (Hb' : (Z.to_nat (Z.of_nat (length h) mod cap l) < length (buf l))%nat)
      by (pose proof (Z.mod_pos_bound (Z.of_nat (length h)) _ Hc); unfold cap in *; lia).
    destruct i as [|i]; simpl.
    + replace (_ - 1 - 0) with (Z.of_nat (length h)) by lia. by rewrite list_lookup_insert_eq.
    + replace (Z.of_nat (S (length h)) - 1 - Z.of_nat (S i)) with (Z.of_nat (length h) - (1 + Z.of_nat i)) by lia.
      rewrite list_lookup_insert_ne.
      * rewrite <-Hr by lia. f_equal. f_equal. f_equal. lia.
      * pose proof (mod_sub_ne (Z.of_nat (length h)) (1 + Z.of_nat i) (cap l) ltac:(lia)).
        pose proof (Z.mod_pos_bound (Z.of_nat (length h)) _ Hc).
        pose proof (Z.mod_pos_bound (Z.of_nat (length h) - (1 + Z.of_nat i)) _ Hc). lia.
  - split; [lia|]. replace (_ - 1) with (Z.of_nat (length h)) by lia. done.
  - intros d. rewrite decided_push.
    rewrite Decision_stamped.
    pose proof (length_decided (Decision' r) h).
    case_bool_decide as Hd.
    + subst d. rewrite lookup_insert_eq. simpl. rewrite Hk. apply wrap64_id. unfold int64_range. lia.
    + rewrite lookup_insert_ne by done. rewrite Hk. lia.
Qed.

(** *** Reading *)

Lemma filter_all {A} (P : A -> Prop) `{forall x, Decision (P x)} (l : list A) :
  (forall x, x ∈ l -> P x) -> filter P l = l.
Proof.
  induction l as [|x l IH]; intros HP; [done|].
  rewrite filter_cons_True by (apply HP; left). rewrite IH; [done|]. intros y Hy. apply HP. by right.
Qed.

Lemma slots_retained l h n i :
  implements l h -> 1 <= i -> i - 1 + Z.of_nat n <= size l ->
  slots l i n = take n (drop (Z.to_nat (i - 1)) h).
Proof.
  intros Hl. pose proof (impl_cap _ _ Hl). revert i. induction n as [|n IH]; intros i Hi Hn; [done|].
  simpl. unfold slot. rewrite (impl_next _ _ Hl).
  rewrite mod_back. replace (_ - i) with (Z.of_nat (length h) - 1 - Z.of_nat (Z.to_nat (i - 1))) by lia.
  rewrite (impl_ring _ _ Hl) by lia.
  pose proof (impl_size _ _ Hl).
  destruct (lookup_lt_is_Some_2 h (Z.to_nat (i - 1))) as [r Hr]; [lia|].
  rewrite Hr, (drop_S _ _ _ Hr), IH by lia. simpl. do 3 f_equal. lia.
Qed.

Lemma collect_upto q limit n rs :
  limit <= 0 \/ n < limit -> 0 <= n ->
  collect q limit n rs = if limit <=? 0 then filter (fun r => keeps q r = true) rs
                         else take (Z.to_nat (limit - n)) (filter (fun r => keeps q r = true) rs).
Proof.
  revert n. induction rs as [|r rs IH]; intros n Hn Hn0; simpl; [rewrite filter_nil, take_nil; by case_if|].
  rewrite filter_cons. destruct (keeps q r) eqn:Hk; simpl; [|by rewrite IH].
  destruct ((0 <? limit) && (n + 1 =? limit)) eqn:E.
  - rewrite (proj2 (Z.leb_gt limit 0)) by lia. replace (limit - n) with 1 by lia. simpl. by rewrite take_0.
  - rewrite IH by lia. case_if; [done|].
    replace (Z.to_nat (limit - n)) with (S (Z.to_nat (limit - (n + 1)))) by lia. done.
Qed.

Lemma countdown_take n k h : countdown n h -> countdown n (take k h).
Proof.
  revert n k. induction h as [|r h IH]; intros n [|k]; simpl; try done. intros [? ?]. auto.
Qed.

Lemma countdown_before n h b :
  countdown n h -> filter (fun r => Seq r < b) h = drop (Z.to_nat (n - b + 1)) h.
Proof.
  revert n. induction h as [|r h IH]; simpl; intros n H; [by rewrite drop_nil|]. destruct H as [Hr Hh].
  rewrite filter_cons, (IH (n - 1)) by done. destruct (decide (Seq r < b)) as [Hb|Hb].
  - replace (Z.to_nat (n - b + 1)) with O by lia. by replace (Z.to_nat (n - 1 - b + 1)) with O by lia.
  - by replace (Z.to_nat (n - b + 1)) with (S (Z.to_nat (n - 1 - b + 1))) by lia.
Qed.

(** What [scan] returns, in terms of the history. *)
Lemma scan_spec l h q limit :
  implements l h -> int64_range (Before q) ->
  scan l q limit = upto limit (filter (fun r => selects q r = true) (retained (cap l) h)).
Proof.
  intros Hl Hb. unfold scan.
  set (start := if 0 <? Before q then _ else _).
  assert (Hst : 1 <= start) by (unfold start; case_if; lia).
  assert (Hsz := impl_size _ _ Hl). assert (Hc := impl_cap _ _ Hl).
  assert (Hbd := impl_bound _ _ Hl).
  rewrite collect_upto by lia. rewrite Z.sub_0_r.
  assert (Hs : slots l start (Z.to_nat (size l + 1 - start)) =
               filter (fun r => Before q <= 0 \/ Seq r < Before q) (retained (cap l) h)).
  { transitivity (drop (Z.to_nat (start - 1)) (take (Z.to_nat (size l)) h)).
    - destruct (decide (start <= size l)).
      + rewrite (slots_retained l h) by (done || lia). rewrite skipn_firstn_comm.
        f_equal. lia.
      + replace (Z.to_nat (size l + 1 - start)) with O by lia.
        symmetry. apply drop_ge. rewrite length_take. lia.
    - replace (take (Z.to_nat (size l)) h) with (retained (cap l) h).
      2: { unfold retained. rewrite Hsz. destruct (decide (cap l <= Z.of_nat (length h))).
           - by rewrite Z.min_l by done.
           - rewrite !take_ge by lia. done. }
      unfold start. case_if.
      + rewrite (list_filter_iff _ (fun r => Seq r < Before q)) by lia.
        rewrite (countdown_before (Z.of_nat (length h))) by (apply countdown_take, Hl).
        rewrite (impl_total _ _ Hl).
        rewrite (wrap64_id (_ - _)) by (unfold int64_range in *; lia).
        rewrite wrap64_id by (unfold int64_range in *; lia). f_equal. lia.
      + simpl. rewrite drop_0. symmetry. apply filter_all. intros. lia. }
  rewrite Hs. unfold upto. rewrite list_filter_filter.
  rewrite (list_filter_iff _ (fun r => selects q r = true)); [done|].
  intros r. unfold selects. split; [intros []|intros ?]; bool_cases; lia.
Qed.

(** ** Runs of the log *)

(** Calls of [Add], each at a time, and the same on the history. *)
Definition adds (es : list (Z * Record')) (l : Log) : Log :=
  foldl (fun l e => Add e.1 e.2 l) l es.
Definition pushes (es : list (Z * Record')) (h : history) : history :=
  foldl (fun h e => push e.1 e.2 h) h es.

Lemma length_pushes es h : length (pushes es h) = (length es + length h)%nat.
Proof.
  revert h. induction es as [|e es IH]; intros h; [done|].
  change (pushes (e :: es) h) with (pushes es (push e.1 e.2 h)). rewrite IH. simpl. lia.
Qed.

Lemma pushes_app es h : exists h', pushes es h = h' ++ h.
Proof.
  revert h. induction es as [|e es IH]; intros h; [by exists []|].
  destruct (IH (push e.1 e.2 h)) as [h' Hh']. exists (h' ++ take 1 (push e.1 e.2 h)).
  change (pushes (e :: es) h) with (pushes es (push e.1 e.2 h)). rewrite Hh', <-app_assoc. done.
Qed.

Lemma decided_pushes d es h :
  length (decided d (pushes es h)) =
  (length (filter (fun e => Decision' e.2 = d) es) + length (decided d h))%nat.
Proof.
  revert h. induction es as [|e es IH]; intros h; [done|].
  change (pushes (e :: es) h) with (pushes es (push e.1 e.2 h)). rewrite IH, filter_cons.
  pose proof (decided_push d e.1 e.2 h). case_bool_decide; destruct (decide _); simpl; done || lia.
Qed.

Lemma adds_implements es l h :
  implements l h -> Z.of_nat (length es + length h) < 2 ^ 62 -> implements (adds es l) (pushes es h).
Proof.
  revert l h. induction es as [|e es IH]; intros l h Hl Hb; [done|].
  change (adds (e :: es) l) with (adds es (Add e.1 e.2 l)).
  change (pushes (e :: es) h) with (pushes es (push e.1 e.2 h)).
  simpl in Hb. apply IH; [apply Add_implements; [done|]|simpl]; lia.
Qed.

Lemma cap_adds es l : cap (adds es l) = cap l.
Proof.
  revert l. induction es as [|e es IH]; intros l; [done|].
  change (adds (e :: es) l) with (adds es (Add e.1 e.2 l)). by rewrite IH, cap_Add.
Qed.

(** ** Order of the records *)

Definition newer (r1 r2 : Record') : Prop := Seq r2 < Seq r1.

Lemma countdown_elem n h r : countdown n h -> r ∈ h -> n - Z.of_nat (length h) < Seq r <= n.
Proof.
  revert n. induction h as [|r' h IH]; intros n Hh Hr; [by apply not_elem_of_nil in Hr|].
  destruct Hh as [Hn Hh]. simpl. apply elem_of_cons in Hr as [->|Hr]; [lia|].
  specialize (IH _ Hh Hr). lia.
Qed.

Lemma countdown_app n h1 h2 : countdown n (h1 ++ h2) -> countdown (n - Z.of_nat (length h1)) h2.
Proof.
  revert n. induction h1 as [|r h1 IH]; intros n; simpl; [by rewrite Z.sub_0_r|].
  intros [_ Hh]. apply IH in Hh. by replace (n - Z.of_nat (S (length h1))) with (n - 1 - Z.of_nat (length h1)) by lia.
Qed.

Lemma countdown_sorted n h : countdown n h -> StronglySorted newer h.
Proof.
  revert n. induction h as [|r h IH]; intros n; [constructor|]. intros [Hr Hh].
  constructor; [by eapply IH|]. apply Forall_forall. intros r' Hr'.
  apply (countdown_elem _ _ _ Hh) in Hr'. unfold newer. lia.
Qed.

Lemma StronglySorted_filter {A} (R : A -> A -> Prop) (P : A -> Prop) `{forall x, Decision (P x)} l :
  StronglySorted R l -> StronglySorted R (filter P l).
Proof.
  induction 1 as [|x l Hl IH Hx]; [constructor|]. rewrite filter_cons.
  case_decide; [|done]. constructor; [done|].
  apply Forall_forall. intros y Hy. apply list_elem_of_filter in Hy as [_ Hy].
  by eapply Forall_forall in Hx.
Qed.

(** The records that [q] selects in [l]. *)
Definition selected (c : Z) (h : history) (q : Query) : list Record' :=
  filter (fun r => selects q r = true) (retained c h).

Lemma elem_of_retained c h r : r ∈ retained c h -> r ∈ h.
Proof. apply subseteq_take. Qed.

Lemma selected_sorted l h q : implements l h -> StronglySorted newer (selected (cap l) h q).
Proof. intros Hl. eapply StronglySorted_filter, countdown_sorted, countdown_take, Hl. Qed.

(** A record of [h] that a later history retains was retained before. *)
Lemma retained_earlier c h' h r :
  countdown (Z.of_nat (length (h' ++ h))) (h' ++ h) ->
  r ∈ retained c (h' ++ h) -> Seq r <= Z.of_nat (length h) -> r ∈ retained c h.
Proof.
  intros Hh Hr Hs. unfold retained in *. rewrite take_app in Hr. apply elem_of_app in Hr as [Hr|Hr].
  - apply subseteq_take in Hr.
    apply list_elem_of_split in Hr as (h1 & h2 & ->).
    rewrite <-app_assoc in Hh. apply countdown_app in Hh. destruct Hh as [Hq _].
    rewrite !length_app in Hq. simpl in Hq. lia.
  - apply elem_of_take in Hr as (i & Hi & Hlt). apply elem_of_take. exists i. split; [done|lia].
Qed.

Lemma scan_all l h q :
  implements l h -> int64_range (Before q) -> scan l q 0 = selected (cap l) h q.
Proof. intros Hl Hb. by rewrite (scan_spec _ _ _ _ Hl Hb). Qed.

Lemma length_selected c h q : (length (selected c h q) <= length h)%nat.
Proof.
  unfold selected, retained. etrans; [apply length_filter|]. rewrite length_take. lia.
Qed.

(** The two ways a page ends: everything selected was returned, or the page
    is full and the cursor is its oldest record. *)
Lemma Page_cases l h q :
  implements l h -> int64_range (Before q) -> 0 < Limit q -> int64_range (Limit q) ->
  let p := Page l q in
  Z.of_nat (length (Records p)) <= Limit q /\
  ((Records p = selected (cap l) h q /\ Next p = 0) \/
   (exists init r rest, selected (cap l) h q = init ++ r :: rest /\
      Records p = init ++ [r] /\ Next p = Seq r)).
Proof.
  intros Hl Hb Hn Hn64. cbv zeta. unfold Page.
  rewrite (proj2 (Z.leb_gt _ _) Hn), (scan_spec _ _ _ _ Hl Hb).
  change (filter _ (retained (cap l) h)) with (selected (cap l) h q).
  pose proof (length_selected (cap l) h q) as Hlen. pose proof (impl_bound _ _ Hl).
  set (L := selected _ _ _) in *.
  assert (Hup : upto (wrap64 (Limit q + 1)) L = take (Z.to_nat (Limit q + 1)) L).
  { destruct (decide (Limit q = 2 ^ 63 - 1)) as [E|E].
    - rewrite E. rewrite take_ge by lia. done.
    - rewrite wrap64_id by (unfold int64_range in *; lia). unfold upto.
      by rewrite (proj2 (Z.leb_gt _ _)) by lia. }
  rewrite Hup, length_take. case_if; simpl.
  - rewrite take_ge by lia. split; [lia|]. by left.
  - rewrite take_take, (Nat.min_l (Z.to_nat (Limit q))), length_take by lia. split; [lia|]. right.
    destruct (lookup_lt_is_Some_2 L (Z.to_nat (Limit q) - 1)) as [r Hr]; [lia|].
    exists (take (Z.to_nat (Limit q) - 1) L), r, (drop (Z.to_nat (Limit q)) L).
    assert (Ht : take (Z.to_nat (Limit q)) L = take (Z.to_nat (Limit q) - 1) L ++ [r]).
    { rewrite <-(take_S_r _ _ _ Hr). f_equal. lia. }
    split; [|split].
    + rewrite <-(take_drop (Z.to_nat (Limit q)) L) at 1. by rewrite Ht, <-app_assoc.
    + exact Ht.
    + by rewrite Ht, last_snoc.
Qed.

(** ** Walking the pages

    A client of GET /decisions reads a page, and continues with the cursor it
    returned; between two requests other decisions are recorded. *)
Definition with_Before (b : Z) (q : Query) : Query :=
  {| Limit := Limit q; q_Decision := q_Decision q; Before := b |}.

(** The records read, whether the listing was read to its end, and the log
    when it stopped; [batches] are the records added between the requests. *)
Fixpoint walk (l : Log) (q : Query) (batches : list (list (Z * Record'))) : list Record' * bool * Log :=
  let p := Page l q in
  if Next p =? 0 then (Records p, true, l)
  else match batches with
       | [] => (Records p, false, l)
       | b :: batches =>
         let '(rs, done, l') := walk (adds b l) (with_Before (Next p) q) batches in
         (Records p ++ rs, done, l')
       end.

(** The records that remain to be read are numbered below this. *)
Definition remaining (q : Query) (h : history) : Z :=
  if 0 <? Before q then Before q - 1 else Z.of_nat (length h).

Lemma elem_of_selected c h q r : r ∈ selected c h q <-> selects q r = true /\ r ∈ retained c h.
Proof. unfold selected. by rewrite list_elem_of_filter. Qed.

(** What a listing of [l] in at most [n] further requests has read. *)
Definition listed (l : Log) (h : history) (q : Query) (n : nat) (out : list Record') (done : bool) (l' : Log) : Prop :=
  exists h', implements l' (h' ++ h) /\ cap l' = cap l /\
    StronglySorted newer out /\
    (forall r, r ∈ out -> selects q r = true /\ r ∈ retained (cap l) h) /\
    (done = true -> forall r, r ∈ retained (cap l) (h' ++ h) -> r ∈ h -> selects q r = true -> r ∈ out) /\
    (remaining q h <= Z.of_nat n -> done = true).

Lemma elem_of_history l h r : implements l h -> r ∈ h -> 0 < Seq r <= Z.of_nat (length h).
Proof. intros Hl Hr. apply (countdown_elem _ _ _ (impl_seq _ _ Hl)) in Hr. lia. Qed.

Lemma listed_end l h q n : implements l h -> listed l h q n (selected (cap l) h q) true l.
Proof.
  intros Hl. exists []. split_and!; [done|done|by apply selected_sorted| | |done].
  - intros r. by rewrite elem_of_selected.
  - intros _ r Hr _ Hs. by apply elem_of_selected.
Qed.

Section FullPage.
Context (l : Log) (h : history) (q : Query) (init : list Record') (r : Record') (rest : list Record').
Hypothesis Hl : implements l h.
Hypothesis HL : selected (cap l) h q = init ++ r :: rest.

Lemma full_page_parts :
  StronglySorted newer (init ++ [r]) /\
  (forall x, x ∈ init ++ [r] -> selects q x = true /\ x ∈ retained (cap l) h /\ Seq r <= Seq x) /\
  (forall x, x ∈ rest -> Seq x < Seq r) /\ 0 < Seq r <= remaining q h.
Proof.
  pose proof (selected_sorted l h q Hl) as Hs. rewrite HL, cons_middle, app_assoc in Hs.
  assert (Hin : forall x, x ∈ init ++ [r] -> selects q x = true /\ x ∈ retained (cap l) h).
  { intros x Hx. apply elem_of_selected. rewrite HL, cons_middle, app_assoc. apply elem_of_app. by left. }
  pose proof (StronglySorted_app_1_l _ _ _ Hs) as Hs1.
  split; [done|]. split; [|split].
  - intros x Hx. destruct (Hin x Hx). split_and!; [done..|].
    apply elem_of_app in Hx as [Hx|Hx]; [|apply list_elem_of_singleton in Hx; subst; lia].
    apply Z.lt_le_incl. eapply (StronglySorted_app_1_elem_of newer init [r]); [done..|]. by left.
  - intros x Hx. eapply (StronglySorted_app_1_elem_of newer (init ++ [r]) rest); [done| |done].
    apply elem_of_app. right. by left.
  - destruct (Hin r) as [Hsel Hr]; [apply elem_of_app; right; by left|].
    pose proof (elem_of_history _ _ _ Hl (elem_of_retained _ _ _ Hr)). unfold remaining, selects in *. bool_cases. case_if; lia.
Qed.

Lemma listed_stop : listed l h q 0 (init ++ [r]) false l.
Proof.
  destruct full_page_parts as (Hs & Hin & _ & Hr). exists [].
  split_and!; [done|done|done| |done|simpl; lia].
  intros x Hx. by destruct (Hin x Hx) as (? & ? & _).
Qed.

Lemma selects_with_Before x :
  selects q r = true -> selects (with_Before (Seq r) q) x = selects q x && (Seq x <? Seq r).
Proof.
  destruct full_page_parts as (_ & _ & _ & Hr).
  unfold selects, keeps. simpl. intros Hsel. bool_cases.
  rewrite (proj2 (Z.leb_gt _ _)) by lia. simpl. rewrite <-andb_assoc. f_equal. lia.
Qed.

Lemma listed_step b n out done l' :
  Z.of_nat (length b + length h) < 2 ^ 62 ->
  listed (adds b l) (pushes b h) (with_Before (Seq r) q) n out done l' ->
  listed l h q (S n) ((init ++ [r]) ++ out) done l'.
Proof.
  destruct full_page_parts as (Hs & Hin & Hrest & Hr). intros Hlen.
  destruct (Hin r) as (Hsel & Hrh & _); [apply elem_of_app; right; by left|].
  pose proof (elem_of_history _ _ _ Hl (elem_of_retained _ _ _ Hrh)) as Hseq.
  destruct (pushes_app b h) as [hb Hhb]. rewrite Hhb.
  intros (h' & Himpl & Hcap & Hsort & Hout & Hall & Hdone). rewrite app_assoc in Himpl, Hall.
  rewrite cap_adds in *.
  assert (Hout' : forall x, x ∈ out -> selects q x = true /\ x ∈ retained (cap l) h /\ Seq x < Seq r).
  { intros x Hx. destruct (Hout x Hx) as [Hx1 Hx2].
    rewrite selects_with_Before in Hx1 by done. bool_cases. split_and!; [done| |lia].
    apply (retained_earlier _ hb); [|done|lia].
    pose proof (impl_seq _ _ Himpl) as Hq. rewrite <-app_assoc in Hq. apply countdown_app in Hq.
    rewrite !length_app in *. by replace (_ - _) with (Z.of_nat (length hb + length h)) in Hq by lia. }
  exists (h' ++ hb). split_and!; [done|done| | | |].
  - apply StronglySorted_app_2; [|done..]. intros x y Hx Hy.
    destruct (Hin x Hx) as (_ & _ & ?), (Hout' y Hy) as (_ & _ & ?). unfold newer. lia.
  - intros x [Hx|Hx]%elem_of_app; [by destruct (Hin x Hx) as (? & ? & _)|].
    by destruct (Hout' x Hx) as (? & ? & _).
  - intros Hd x Hx Hxh Hxs. apply elem_of_app.
    assert (Hx' : x ∈ selected (cap l) h q).
    { apply elem_of_selected. split; [done|].
      eapply retained_earlier; [apply Himpl|done|]. by apply (elem_of_history _ _ _ Hl). }
    rewrite HL, cons_middle, app_assoc in Hx'. apply elem_of_app in Hx' as [Hx'|Hx']; [by left|right].
    apply Hall; [done|done|apply elem_of_app; by right|].
    rewrite selects_with_Before by done. rewrite Hxs. simpl. apply Z.ltb_lt, Hrest, Hx'.
  - intros Hn. apply Hdone. unfold remaining in *. simpl. case_if; lia.
Qed.
End FullPage.

Lemma walk_spec batches l h q :
  implements l h -> 0 < Limit q -> int64_range (Limit q) -> 0 <= Before q < 2 ^ 63 ->
  Z.of_nat (length (concat batches) + length h) < 2 ^ 62 ->
  let '(out, done, l') := walk l q batches in listed l h q (length batches) out done l'.
Proof.
  revert l h q. induction batches as [|b batches IH]; intros l h q Hl Hlim Hlim64 Hb Hlen; simpl.
  all: destruct (Page_cases l h q Hl) as [_ [[HR HN]|(init & r & rest & HL & HR & HN)]];
    [unfold int64_range; lia|done..| |]; rewrite HN, HR; [by apply listed_end|].
  all: destruct (full_page_parts l h q init r rest) as (_ & _ & _ & Hr); [done..|].
  all: rewrite (proj2 (Z.eqb_neq _ 0)) by lia.
  - by eapply listed_stop.
  - simpl in Hlen. rewrite length_app in Hlen. specialize (IH (adds b l) (pushes b h) (with_Before (Seq r) q)).
    destruct (walk _ _ _) as [[out done] l']. eapply (listed_step _ _ _ _ _ _ Hl HL b); [lia|].
    apply IH; simpl; try done; [apply adds_implements; [done|lia]| |rewrite length_pushes; lia].
    pose proof (impl_bound _ _ Hl). unfold remaining in Hr. destruct (0 <? Before q); lia.
Qed.

(** *** The log and its history *)

(** The log after the calls [es] of [Add] on a new log, and its history. *)
Definition log_after (capacity t0 : Z) (es : list (Z * Record')) : Log := adds es (NewLog capacity t0).

Lemma log_after_implements capacity t0 es :
  Z.of_nat (length es) < 2 ^ 62 -> implements (log_after capacity t0 es) (pushes es []).
Proof. intros Hes. apply adds_implements; [apply NewLog_implements|simpl; lia]. Qed.

(** [None] when no record is selected; the newest one otherwise. *)
Lemma list_find_ext {A} (P : A -> Prop) `{forall x, Decision (P x)} (l : list A) :
  snd <$> list_find P l = head (filter P l).
Proof.
  induction l as [|x l IH]; [done|]. rewrite filter_cons. simpl. case_decide; [done|].
  rewrite <-IH. by destruct (list_find P l) as [[? ?]|].
Qed.

(** C6. The ring buffer implements the list of all decisions: after any
    sequence of [Add]s on a new log (fewer than 2^62, so that the sequence
    numbers do not wrap), [Recent] returns exactly the records among the last
    [capacity] added that the query selects, newest first and cut at the
    limit; [Get] the newest of them with the request id; and the counters are
    the lifetime counts, per decision, of everything added, evicted or not. *)
Theorem log_refines_history capacity t0 es q id d :
  Z.of_nat (length es) < 2 ^ 62 -> int64_range (Before q) ->
  let l := log_after capacity t0 es in
  let h := pushes es [] in
  Recent l q = upto (Limit q) (filter (fun r => selects q r = true) (retained (cap l) h)) /\
  Get l id = head (filter (fun r => RequestID r = id) (retained (cap l) h)) /\
  total l = Z.of_nat (length es) /\
  size l = Z.min (cap l) (Z.of_nat (length es)) /\
  default 0 (counts l !! d) = Z.of_nat (length (filter (fun e => Decision' e.2 = d) es)).
Proof.
  intros Hes Hb. cbv zeta. pose proof (log_after_implements capacity t0 es Hes) as Hl.
  pose proof (length_pushes es []) as Hlen. simpl in Hlen. rewrite Nat.add_0_r in Hlen.
  split_and!.
  - by apply scan_spec.
  - unfold Get, Recent. rewrite (scan_all _ _ _ Hl) by (simpl; unfold int64_range; lia).
    rewrite list_find_ext. do 2 f_equal. apply filter_all. intros r _. reflexivity.
  - by rewrite (impl_total _ _ Hl), Hlen.
  - by rewrite (impl_size _ _ Hl), Hlen.
  - rewrite (impl_counts _ _ Hl), decided_pushes. simpl. lia.
Qed.

(** ** Percentiles *)

(** The order of [sort.Float64s] is the lexicographic order of a key: the kind
    of number, then the exponent, then the mantissa. *)
Definition float_key (x : spec_float) : Z * Z * Z :=
  match x with
  | S754_nan => (-1, 0, 0)
  | S754_infinity true => (0, 0, 0)
  | S754_finite true m e => (1, - e, Z.neg m)
  | S754_zero _ => (2, 0, 0)
  | S754_finite false m e => (3, e, Z.pos m)
  | S754_infinity false => (4, 0, 0)
  end.
Definition key_ltb (k1 k2 : Z * Z * Z) : bool :=
  let '(a1, b1, c1) := k1 in let '(a2, b2, c2) := k2 in
  (a1 <? a2) || ((a1 =? a2) && ((b1 <? b2) || ((b1 =? b2) && (c1 <? c2)))).

Lemma float_less_key x y : float_less x y = key_ltb (float_key x) (float_key y).
Proof.
  destruct x as [sx|[]| |[] mx ex], y as [sy|[]| |[] my ey]; try reflexivity;
    unfold float_less, SFltb, SFcompare, key_ltb; simpl;
    rewrite ?orb_false_r; change (Pos.compare_cont Eq mx my) with (Pos.compare mx my);
    destruct (Z.compare_spec ex ey), (Pos.compare_spec mx my); simpl; lia.
Qed.

#[export] Instance float_le_total : Total float_le.
Proof.
  intros x y. unfold float_le. rewrite !float_less_key.
  destruct (float_key x) as [[a1 b1] c1], (float_key y) as [[a2 b2] c2]. simpl. lia.
Qed.
#[export] Instance float_le_trans : Transitive float_le.
Proof.
  intros x y z. unfold float_le. rewrite !float_less_key.
  destruct (float_key x) as [[a1 b1] c1], (float_key y) as [[a2 b2] c2], (float_key z) as [[a3 b3] c3].
  simpl. lia.
Qed.

Lemma Float64s_sorted values : StronglySorted float_le (Float64s values).
Proof. apply StronglySorted_merge_sort; apply _. Qed.
Lemma Float64s_perm values : Float64s values ≡ₚ values.
Proof. apply merge_sort_Permutation. Qed.

Lemma sorted_rank {A} (R : A -> A -> Prop) `{!Reflexive R, !RelDecision R} (l : list A) k x :
  StronglySorted R l -> l !! k = Some x ->
  (S k <= length (filter (fun y => R y x) l))%nat /\ (length l - k <= length (filter (fun y => R x y) l))%nat.
Proof.
  intros Hs Hx. rewrite <-(take_drop_middle _ _ _ Hx) in Hs.
  apply lookup_lt_Some in Hx as Hk.
  rewrite <-(take_drop_middle _ _ _ Hx) at 1 3. rewrite !filter_app, !filter_cons_True, !length_app by done.
  assert (Hlow : filter (fun y => R y x) (take k l) = take k l).
  { apply filter_all. intros y Hy. eapply StronglySorted_app_1_elem_of; [done..|by left]. }
  assert (Hhigh : filter (fun y => R x y) (drop (S k) l) = drop (S k) l).
  { apply filter_all. apply StronglySorted_app_1_r in Hs. apply StronglySorted_cons in Hs as [Hs _].
    by apply Forall_forall. }
  simpl. rewrite Hlow, Hhigh, length_take, length_drop. lia.
Qed.

(** [math.Ceil(p * float64(n))] is exact for the two percentiles and every
    number of records a log sized from the environment can retain. *)
Definition ranks_exact (p : spec_float) (num den : Z) (n : Z) : bool :=
  rank p n =? (num * n + den - 1) / den - 1.

Fixpoint all_upto (f : Z -> bool) (k : nat) (n : Z) : bool :=
  match k with O => true | S k => f n && all_upto f k (n - 1) end.

Lemma all_upto_spec f k n i : all_upto f k n = true -> n - Z.of_nat k < i <= n -> f i = true.
Proof.
  revert n. induction k as [|k IH]; simpl; intros n H Hi; [lia|]. bool_cases.
  destruct (decide (i = n)) as [->|]; [done|]. apply (IH (n - 1)); [done|lia].
Qed.

Lemma rank_p95 n : 0 < n <= MaxCapacity -> rank p95 n = (95 * n + 99) / 100 - 1.
Proof.
  assert (H : all_upto (ranks_exact p95 95 100) (Z.to_nat MaxCapacity) MaxCapacity = true)
    by (vm_compute; reflexivity).
  intros Hn. apply (all_upto_spec _ _ _ n) in H; [|rewrite Z2Nat.id; lia].
  unfold ranks_exact in H. apply Z.eqb_eq in H. rewrite H. f_equal. f_equal. lia.
Qed.

Lemma rank_p50 n : 0 < n <= MaxCapacity -> rank p50 n = (n + 1) / 2 - 1.
Proof.
  assert (H : all_upto (ranks_exact p50 1 2) (Z.to_nat MaxCapacity) MaxCapacity = true)
    by (vm_compute; reflexivity).
  intros Hn. apply (all_upto_spec _ _ _ n) in H; [|rewrite Z2Nat.id; lia].
  unfold ranks_exact in H. apply Z.eqb_eq in H. rewrite H. f_equal. f_equal. lia.
Qed.

(** [x] is a [num/den] quantile of [values] by nearest rank: it is one of
    them, at least that share of them is no larger, and the rest, with [x],
    is no smaller. *)
Definition nearest_rank (num den : Z) (values : list spec_float) (x : spec_float) : Prop :=
  let n := Z.of_nat (length values) in
  let k := (num * n + den - 1) / den in
  x ∈ values /\
  k <= Z.of_nat (length (filter (fun y => float_le y x) values)) /\
  n - k + 1 <= Z.of_nat (length (filter (fun y => float_le x y) values)).

#[export] Instance float_le_refl : Reflexive float_le.
Proof. intros x. destruct (float_le_total x x); done. Qed.

Lemma percentile_rank p num den values :
  values <> [] -> 0 < num <= den ->
  rank p (Z.of_nat (length values)) = (num * Z.of_nat (length values) + den - 1) / den - 1 ->
  exists x, percentile values p = Some x /\ nearest_rank num den values x.
Proof.
  intros Hne Hnd Hrank. set (n := Z.of_nat (length values)) in *.
  assert (0 < n) by (destruct values; [done|simpl in n; lia]).
  assert (Hk : 1 <= (num * n + den - 1) / den <= n).
  { split; [apply Z.div_le_lower_bound; nia|]. enough ((num * n + den - 1) / den < n + 1) by lia.
    apply Z.div_lt_upper_bound; nia. }
  set (k := (num * n + den - 1) / den) in *.
  assert (Hp : percentile values p = Float64s values !! Z.to_nat (k - 1)).
  { unfold percentile. rewrite <-Hrank. by destruct values. }
  pose proof (Permutation_length (Float64s_perm values)) as Hlen.
  destruct (lookup_lt_is_Some_2 (Float64s values) (Z.to_nat (k - 1))) as [x Hx]; [lia|].
  exists x. split; [by rewrite Hp|].
  destruct (sorted_rank float_le _ _ _ (Float64s_sorted values) Hx) as [H1 H2].
  unfold nearest_rank. fold n. fold k. rewrite Float64s_perm in H1, H2. split_and!; [|lia..].
  rewrite <-Float64s_perm. by eapply list_elem_of_lookup_2.
Qed.

Lemma percentiles_ok values :
  Z.of_nat (length values) <= MaxCapacity ->
  exists x y, percentile values p50 = Some x /\ percentile values p95 = Some y /\
    (values <> [] -> nearest_rank 1 2 values x /\ nearest_rank 95 100 values y).
Proof.
  intros Hmax. destruct values as [|v values]; [by eexists _, _|].
  assert (Hn : 0 < Z.of_nat (length (v :: values)) <= MaxCapacity) by (simpl in *; lia).
  destruct (percentile_rank p50 1 2 (v :: values)) as (x & Hx & Hx'); [done|lia| |].
  { rewrite rank_p50 by done. f_equal. f_equal. lia. }
  destruct (percentile_rank p95 95 100 (v :: values)) as (y & Hy & Hy'); [done|lia| |].
  { rewrite rank_p95 by done. f_equal. f_equal. lia. }
  exists x, y. done.
Qed.

(** ** Capacity from the environment *)

Lemma ParseCapacity_range raw : MinCapacity <= (ParseCapacity raw).1 <= MaxCapacity.
Proof.
  unfold ParseCapacity, MinCapacity, MaxCapacity, DefaultCapacity.
  repeat case_match; simpl; bool_cases; lia.
Qed.

Lemma cap_NewLog capacity t0 : 0 < capacity -> cap (NewLog capacity t0) = capacity.
Proof.
  intros Hc. unfold cap, NewLog. simpl. rewrite length_replicate.
  rewrite (proj2 (Z.leb_gt _ _)) by lia. lia.
Qed.

Lemma Recent_all l h : implements l h -> Recent l all_records = retained (cap l) h.
Proof.
  intros Hl. unfold Recent. rewrite (scan_all _ _ _ Hl) by (simpl; unfold int64_range; lia).
  apply filter_all. intros r _. reflexivity.
Qed.

(** Statistics: for a log sized from the environment, [Stats] never panics,
    even when other decisions ([es']) are recorded between its two critical
    sections; the capacity is in the accepted range; total and per-decision
    counts are those of all decisions; and the latency percentiles are
    nearest-rank percentiles of the latencies retained, the floating-point
    computation of the rank included. *)
Theorem Stats_correct getenv t0 es es' now :
  Z.of_nat (length es + length es') < 2 ^ 62 ->
  let l := adds es (NewLogFromEnv getenv t0) in
  let l' := adds es' l in
  let latencies := map LatencyMs (Recent l all_records) in
  exists s, Stats l l' now = Some s /\
    MinCapacity <= Capacity s <= MaxCapacity /\
    s_Total s = Z.of_nat (length (es ++ es')) /\
    (forall d, default 0 (ByDecision s !! d) =
               Z.of_nat (length (filter (fun e => Decision' e.2 = d) (es ++ es')))) /\
    Retained s = Z.min (Capacity s) (s_Total s) /\ 0 <= LastMinute s <= Retained s /\
    (latencies <> [] -> nearest_rank 1 2 latencies (LatencyP50Ms s) /\
                        nearest_rank 95 100 latencies (LatencyP95Ms s)).
Proof.
  intros Hlen. cbv zeta. unfold NewLogFromEnv.
  pose proof (ParseCapacity_range (getenv CapacityEnv)) as Hc.
  set (c := (ParseCapacity (getenv CapacityEnv)).1) in *.
  assert (Hl : implements (adds es (NewLog c t0)) (pushes es []))
    by (apply log_after_implements; lia).
  assert (Hl' : implements (adds es' (adds es (NewLog c t0))) (pushes es' (pushes es [])))
    by (apply adds_implements; [done|rewrite length_pushes; simpl; lia]).
  set (l := adds es (NewLog c t0)) in *. set (l' := adds es' l) in *.
  assert (Hcl : cap l = c) by (unfold l; rewrite cap_adds; apply cap_NewLog; unfold MinCapacity in *; lia).
  assert (Hcl' : cap l' = c) by (unfold l'; by rewrite cap_adds).
  pose proof (Recent_all _ _ Hl) as Hrec.
  assert (Hn : (length (Recent l all_records) <= Z.to_nat (size l'))%nat).
  { rewrite Hrec, (impl_size _ _ Hl'), Hcl', !length_pushes. unfold retained.
    rewrite Hcl, length_take, length_pushes. simpl. lia. }
  pose proof (impl_size _ _ Hl') as Hsz. pose proof (impl_total _ _ Hl') as Htot.
  rewrite Hcl', !length_pushes in Hsz. rewrite !length_pushes in Htot. simpl in Hsz, Htot.
  destruct (percentiles_ok (map LatencyMs (Recent l all_records))) as (x & y & Hx & Hy & Hxy);
    [rewrite length_map; unfold MinCapacity, MaxCapacity in *; lia|].
  unfold Stats. change (LatencyMs <$> Recent l all_records) with (map LatencyMs (Recent l all_records)).
  rewrite Hx, Hy. simpl. eexists. split; [done|]. simpl. rewrite Hcl', length_app.
  split_and!; [lia|lia|lia| |lia|lia| |done].
  - intros d. rewrite (impl_counts _ _ Hl'), !decided_pushes, filter_app, length_app. simpl. lia.
  - etrans; [apply inj_le, length_filter|]. unfold MinCapacity in *. lia.
Qed.

Lemma sorted_same_elements (l1 l2 : list Record') :
  StronglySorted newer l1 -> StronglySorted newer l2 -> (forall r, r ∈ l1 <-> r ∈ l2) -> l1 = l2.
Proof.
  assert (Hirr : forall l, StronglySorted newer l -> NoDup l).
  { induction 1 as [|x l Hl IH Hx]; constructor; [|done]. intros Hin.
    rewrite Forall_forall in Hx. specialize (Hx x Hin). unfold newer in Hx. lia. }
  intros H1 H2 H12. apply (StronglySorted_unique_strong newer); [|done..|].
  - intros x y _ _. unfold newer. lia.
  - apply NoDup_Permutation; auto.
Qed.

Lemma walk_quiet batches l q : concat batches = [] -> (walk l q batches).2 = l.
Proof.
  revert q. induction batches as [|b batches IH]; intros q Hq; simpl; [by case_if|].
  simpl in Hq. apply app_nil in Hq as [-> Hq]. case_if; [done|]. simpl.
  specialize (IH (with_Before (Next (Page l q)) q) Hq). by destruct (walk _ _ _) as [[? ?] ?].
Qed.

Lemma implements_length l h1 h2 : implements l h1 -> implements l h2 -> length h1 = length h2.
Proof. intros H1 H2. pose proof (impl_total _ _ H1). pose proof (impl_total _ _ H2). lia. Qed.

(** C10. Paging is complete and stable: a client that reads the pages of a
    listing one after the other, while any records are added between its
    requests, reads strictly decreasing sequence numbers (so no record twice),
    only matching records that were in the log when it began, and, when it
    reaches the last page, every one of them that has not been evicted; it
    reaches it after at most as many requests as there were records; and if
    nothing was added meanwhile it has read exactly what an unlimited [Recent]
    returns. *)
Theorem pages_enumerate capacity t0 es q batches :
  Z.of_nat (length es + length (concat batches)) < 2 ^ 62 ->
  0 < Limit q < 2 ^ 63 -> Before q = 0 ->
  let l := log_after capacity t0 es in
  let '(out, done, l') := walk l q batches in
  StronglySorted newer out /\
  (forall r, r ∈ out -> keeps q r = true /\ r ∈ Recent l all_records) /\
  (done = true -> forall r, r ∈ pushes es [] -> r ∈ Recent l' all_records -> keeps q r = true -> r ∈ out) /\
  (Z.of_nat (length es) <= Z.of_nat (length batches) -> done = true) /\
  (done = true -> concat batches = [] -> out = Recent l {| Limit := 0; q_Decision := q_Decision q; Before := 0 |}).
Proof.
  intros Hlen Hlim Hb. cbv zeta.
  pose proof (log_after_implements capacity t0 es ltac:(lia)) as Hl.
  pose proof (length_pushes es []) as Hp. simpl in Hp. rewrite Nat.add_0_r in Hp.
  set (l := log_after capacity t0 es) in *. set (h := pushes es []) in *.
  pose proof (walk_spec batches l h q Hl) as Hw. destruct (walk l q batches) as [[out done] l'] eqn:E.
  destruct Hw as (h' & Hl' & Hcap & Hsort & Hin & Hall & Hdone);
    [lia|unfold int64_range; lia|lia|lia|].
  assert (Hsel : forall r, selects q r = keeps q r)
    by (intros r; unfold selects; rewrite Hb; apply andb_true_r).
  setoid_rewrite Hsel in Hin. setoid_rewrite Hsel in Hall. rewrite (Recent_all _ _ Hl), (Recent_all _ _ Hl'), Hcap.
  split_and!; [done|done|auto| |].
  - intros Hn. apply Hdone. unfold remaining. rewrite Hb. simpl. lia.
  - intros Hd Hq. pose proof (walk_quiet batches l q Hq) as Hll. rewrite E in Hll. simpl in Hll. subst l'.
    pose proof (implements_length _ _ _ Hl Hl') as Hh. rewrite length_app in Hh.
    destruct h'; [|simpl in Hh; lia]. unfold Recent. rewrite (scan_all _ _ _ Hl) by (simpl; unfold int64_range; lia).
    apply sorted_same_elements; [done|by apply selected_sorted|]. intros r. rewrite elem_of_selected.
    split; [intros Hr; destruct (Hin r Hr)|intros [Hr1 Hr2]].
    + split; [|done]. unfold selects. simpl. by rewrite andb_true_r.
    + apply Hall; [done|done|by eapply elem_of_retained|]. unfold selects in Hr1. simpl in Hr1.
      by rewrite andb_true_r in Hr1.
Qed.

Module DecisionWitnesses.

Definition rec (id d : string) (us : Z) : Z * Record' :=
  (1, {| Seq := 0; RequestID := id; Time := 7; Path := "/check"; Decision' := d; Reason := ""; Status := 200;
         LatencyMs := float_div (float_of_int us) (float_of_int 1000); BytesIn := 10; Violations := 0;
         Matches := [] |}).

(** Three decisions in a ring of two, then a fourth between two requests. *)
Definition es : list (Z * Record') := [rec "a" Allow 1500; rec "b" Deny 250; rec "c" Allow 900].
Definition q : Query := {| Limit := 1; q_Decision := ""; Before := 0 |}.

Lemma log_refines_history_witness :
  map RequestID (Recent (log_after 2 0 es) q) = ["c"%string] /\
  Recent (log_after 2 0 es) q =
    upto 1 (filter (fun r => selects q r = true) (retained (cap (log_after 2 0 es)) (pushes es []))).
Proof.
  split; [reflexivity|].
  apply (log_refines_history 2 0 es q "b" Allow); [reflexivity|unfold int64_range; simpl; lia].
Defined.

Lemma pages_enumerate_witness :
  map RequestID (walk (log_after 2 0 es) q [[]; []; []]).1.1 = ["c"%string; "b"%string] /\
  let '(out, done, l') := walk (log_after 2 0 es) q [[rec "d" Deny 10]; []; []] in
  done = true /\ StronglySorted newer out.
Proof.
  split; [reflexivity|].
  pose proof (pages_enumerate 2 0 es q [[rec "d" Deny 10]; []; []] eq_refl ltac:(simpl; lia) eq_refl) as H.
  cbv zeta in H. destruct (walk _ _ _) as [[out done] l']. destruct H as (Hs & _ & _ & Hd & _).
  split; [apply Hd; simpl; lia|done].
Defined.

Lemma Stats_correct_witness :
  exists s, Stats (adds es (NewLogFromEnv (fun _ => "12"%string) 0)) (adds es (NewLogFromEnv (fun _ => "12"%string) 0)) 5 = Some s /\
    Capacity s = 12 /\ s_Total s = 3.
Proof.
  destruct (Stats_correct (fun _ => "12"%string) 0 es [] 5) as (s & Hs & _ & Ht & _); [simpl; lia|].
  exists s. split; [exact Hs|]. split; [|exact Ht].
  assert (Hc : (Capacity <$> Stats (adds es (NewLogFromEnv (fun _ => "12"%string) 0))
                  (adds es (NewLogFromEnv (fun _ => "12"%string) 0)) 5) = Some 12) by reflexivity.
  change (adds [] ?l) with l in Hs. rewrite Hs in Hc. by injection Hc.
Defined.

End DecisionWitnesses.
