(* ===== verification/Moderation.v ===== *)
(** * Moderation: the semantic analyzer

    src/internal/semantic/openai/openai.go: the client of the moderation API
    with its cache, once as the functions of the code on one call and once as
    a step relation in which calls overlap, because the lock of the code only
    covers a cache operation.  The moderation API and the rate limiter are
    what they answer; the LRU cache is the class [LruLib].  Scores and
    thresholds are [spec_float]; the order in which Go ranges over the
    categories is an argument.  Logging and tracing are left out. *)

From Stdlib Require Import Ascii String.
From Stdlib Require Import Floats.SpecFloat.
From S2P Require Import Prelude GoString Unicode Rules Engine Decisions.

(** ** Construction *)

Record AnalyzerOptions := {
  ao_MaxConcurrency : Z;
  ao_CacheSize : Z;
  ao_CacheTTL : Z;
  ao_BurstSize : Z;
}.

(** The defaults [New] fills in. *)
Definition positive_or (n d : Z) : Z := if (n <=? 0)%Z then d else n.
Definition fill_options (o : AnalyzerOptions) : AnalyzerOptions :=
  {| ao_MaxConcurrency := positive_or (ao_MaxConcurrency o) 2; ao_CacheSize := positive_or (ao_CacheSize o) 1000;
     ao_CacheTTL := positive_or (ao_CacheTTL o) (15 * 60 * 1000000000); ao_BurstSize := positive_or (ao_BurstSize o) 20 |}.

Record cacheEntry := { me_ok : bool; me_conf : spec_float; me_expiresAt : Z }.

(** A [float64] from its 64 bits. *)
Definition float_of_bits (b : Z) : spec_float :=
  let neg := Z.testbit b 63 in
  let ex := Z.land (Z.shiftr b 52) 2047 in
  let frac := Z.land b (2 ^ 52 - 1) in
  if (ex =? 2047)%Z then if (frac =? 0)%Z then S754_infinity neg else S754_nan
  else if (ex =? 0)%Z
       then match frac with Zpos p => S754_finite neg p (-1074) | _ => S754_zero neg end
       else match (2 ^ 52 + frac)%Z with Zpos p => S754_finite neg p (ex - 1075) | _ => S754_nan end.

Section Analyzer.
Context `{LL : LruLib}.

Record Analyzer := { an_cache : option (lru cacheEntry); an_ttl : Z; an_slots : Z }.

Definition New (o : AnalyzerOptions) : Analyzer :=
  let o := fill_options o in
  {| an_cache := lru_New (ao_CacheSize o); an_ttl := ao_CacheTTL o;
     an_slots := ao_MaxConcurrency o |}.

Definition with_cache (c : lru cacheEntry) (a : Analyzer) : Analyzer := 
  {| an_cache := Some c; an_ttl := an_ttl a; an_slots := an_slots a |}.

(** ** The cache *)

(** The white space of the expression \s. *)
Definition re_space (c : ascii) : bool := bool_decide (byte_of c ∈ [9; 10; 12; 13; 32]%Z).

(** [regexp.MustCompile(`\s+`).ReplaceAllString(s, " ")]; [inside] a run. *)
Fixpoint collapse (inside : bool) (s : string) : string :=
  match s with
  | "" => ""
  | String c s => if re_space c then if inside then collapse true s else String " " (collapse true s)
                  else String c (collapse false s)
  end.

Definition max_key : nat := 500.
Definition normalizeForCache (s : string) : string :=
  let s := collapse false (TrimSpace s) in
  ToLower (if max_key <? String.length s then stake max_key s else s).

Definition cacheKey (text imageURL : string) : string := "mod:" +:+ normalizeForCache text +:+ ":" +:+ imageURL.

Definition getCache (now : Z) (key : string) (a : Analyzer) : option (bool * spec_float) * Analyzer :=
  match an_cache a with
  | None => (None, a)
  | Some c =>
    let '(e, c) := lru_Get c key in
    match e with
    | Some e => if (now <? me_expiresAt e)%Z then (Some (me_ok e, me_conf e), with_cache c a)
                else (None, with_cache (lru_Remove c key) a)
    | None => (None, with_cache c a)
    end
  end.

Definition putCache (now : Z) (key : string) (ok : bool) (conf : spec_float) (a : Analyzer) : Analyzer :=
  match an_cache a with
  | None => a
  | Some c => with_cache (lru_Add c key {| me_ok := ok; me_conf := conf; me_expiresAt := now + an_ttl a |}) a
  end.

(** ** The verdict *)

(** A result of the API: [Flagged], [Categories] and [CategoryScores]. *)
Record Moderation := {
  mo_Flagged : bool;
  mo_Categories : string -> bool;
  mo_CategoryScores : string -> spec_float;
}.

Definition category_names : list string :=
  ["harassment"; "harassment_threatening"; "hate"; "hate_threatening"; "self_harm"; "self_harm_intent";
   "self_harm_instructions"; "sexual"; "sexual_minors"; "violence"; "violence_graphic"; "illicit"; "illicit_violent"].

(** The scores of the categories that apply. *)
Definition categories (m : Moderation) : list (string * spec_float) :=
  map (fun c => (c, mo_CategoryScores m c)) (filter (fun c => mo_Categories m c = true) category_names).

Definition zero : spec_float := float_of_int 0.
(** 0.5 and 0.7 as [float64]. *)
Definition half : spec_float := S754_finite false 4503599627370496 (-53).
Definition default_threshold : spec_float := S754_finite false 6305039478318694 (-53).

(** [a > b] and [a >= b]. *)
Definition gt (a b : spec_float) : bool := SFltb b a.
Definition ge (a b : spec_float) : bool := SFleb b a.

(** The highest score and its category. *)
Definition highest_start (m : Moderation) : spec_float * string :=
  if mo_Categories m "illicit" && gt (mo_CategoryScores m "illicit") half
  then (mo_CategoryScores m "illicit", "prompt_injection") else (zero, "").
Definition highest_step (acc : spec_float * string) (c : string * spec_float) : spec_float * string :=
  if gt c.2 acc.1 then (c.2, c.1) else acc.
Definition highest (m : Moderation) (order : list (string * spec_float)) : spec_float * string :=
  foldl highest_step (highest_start m) order.

Definition threshold_of (t : spec_float) : spec_float := if SFeqb t zero then default_threshold else t.

Definition reason_of (flagged : bool) (cat : string) : string :=
  if negb flagged then ""
  else if bool_decide (cat = "prompt_injection") then "Potential prompt injection detected"
  else if Contains cat "illicit" then "Instructions for wrongdoing detected"
  else if Contains cat "harassment" then "Harassment content detected"
  else if Contains cat "violence" then "Violence content detected"
  else if negb (bool_decide (cat = "")) then "Content violates " +:+ Join " " (SplitByte "_" cat) +:+ " policy"
  else "Content flagged by moderation".

Definition getDecision (flagged : bool) : string := if flagged then "block" else "allow".

Record ModerationResult := {
  mr_Flagged : bool;
  mr_Categories : list (string * spec_float);
  mr_Decision : string;
  mr_Confidence : spec_float;
  mr_Reason : string;
}.

Definition verdict (m : Moderation) (order : list (string * spec_float)) (threshold : spec_float) : ModerationResult :=
  let '(maxScore, cat) := highest m order in
  let flagged := mo_Flagged m || ge maxScore (threshold_of threshold) in
  {| mr_Flagged := flagged; mr_Categories := categories m; mr_Decision := getDecision flagged; mr_Confidence := maxScore;
     mr_Reason := reason_of flagged cat |}.

(** The answer from the cache. *)
Definition cached_result (hit : bool * spec_float) : ModerationResult :=
  {| mr_Flagged := hit.1; mr_Categories := []; mr_Decision := getDecision hit.1; mr_Confidence := hit.2; mr_Reason := "" |}.

(** What a call meets: the clock at its two cache operations, the limiter, the
    slots, the API and the order of a range over the categories. *)
Record call := {
  cl_before : Z;
  cl_wait : option string;
  cl_acquire : option string;
  cl_response : result string (list Moderation);
  cl_order : Moderation -> list (string * spec_float);
  cl_after : Z;
}.

Record ModerationInput := { mi_Text : string; mi_ImageURL : string }.

Definition AnalyzeWithModeration (cl : call) (input : ModerationInput) (cfg : Semantic) (a : Analyzer) :
    result string ModerationResult * Analyzer :=
  let key := cacheKey (mi_Text input) (mi_ImageURL input) in
  match getCache (cl_before cl) key a with
  | (Some hit, a) => (Ok (cached_result hit), a)
  | (None, a) =>
    match cl_wait cl with
    | Some e => (Err ("rate limit exceeded: " +:+ e), a)
    | None =>
      match cl_acquire cl with
      | Some e => (Err e, a)
      | None =>
        match cl_response cl with
        | Err e => (Err ("moderation api error: " +:+ e), a)
        | Ok [] => (Err "no moderation results returned", a)
        | Ok (m :: _) =>
          let r := verdict m (cl_order cl m) (float_of_bits (sem_ConfidenceThreshold cfg)) in
          (Ok r, putCache (cl_after cl) key (mr_Flagged r) (mr_Confidence r) a)
        end
      end
    end
  end.

Definition with_Model (model : string) (c : Semantic) : Semantic :=
  {| sem_Model := model; sem_Temperature := sem_Temperature c; sem_MaxTokens := sem_MaxTokens c;
     sem_AnalysisPrompt := sem_AnalysisPrompt c; sem_ConfidenceThreshold := sem_ConfidenceThreshold c;
     sem_FallbackOnError := sem_FallbackOnError c |}.

Definition AnalyzeModeration (cl : call) (input : string) (cfg : Semantic) (a : Analyzer) :
    result string (bool * spec_float) * Analyzer :=
  let cfg := with_Model "omni-moderation-latest" cfg in
  match AnalyzeWithModeration cl {| mi_Text := input; mi_ImageURL := "" |} cfg a with
  | (Err e, a) => (Err e, a)
  | (Ok r, a) => (Ok (mr_Flagged r, mr_Confidence r), a)
  end.
Definition Analyze := AnalyzeModeration.

(** ** Overlapping calls *)

(** A call is a number, its input and its configuration. *)
Record request := { rq_id : nat; rq_input : ModerationInput; rq_cfg : Semantic }.
Definition rq_key (r : request) : string := cacheKey (mi_Text (rq_input r)) (mi_ImageURL (rq_input r)).
Definition rq_verdict (r : request) (m : Moderation) (order : list (string * spec_float)) : ModerationResult :=
  verdict m order (float_of_bits (sem_ConfidenceThreshold (rq_cfg r))).

(** What the calls have returned, oldest first, with the time at which the
    cache was used. *)
Inductive outcome :=
  | FromCache (r : request) (now : Z) (hit : bool * spec_float)
  | FromService (r : request) (now : Z) (m : Moderation) (order : list (string * spec_float))
  | Failed (r : request) (e : string).

Definition answer_of (o : outcome) : result string ModerationResult :=
  match o with
  | FromCache _ _ hit => Ok (cached_result hit)
  | FromService r _ m order => Ok (rq_verdict r m order)
  | Failed _ e => Err e
  end.

(** The calls that wait for the limiter or a slot, and the calls that hold a
    slot of [sem]. *)
Record system := {
  sy_analyzer : Analyzer;
  sy_sem : Z;
  sy_waiting : list request;
  sy_calling : list request;
  sy_log : list outcome;
}.

Definition started (o : AnalyzerOptions) : system :=
  {| sy_analyzer := New o; sy_sem := 0; sy_waiting := []; sy_calling := []; sy_log := [] |}.

Inductive step : system -> system -> Prop :=
  | step_hit a n w c l r now hit a' :
      getCache now (rq_key r) a = (Some hit, a') ->
      step {| sy_analyzer := a; sy_sem := n; sy_waiting := w; sy_calling := c; sy_log := l |}
           {| sy_analyzer := a'; sy_sem := n; sy_waiting := w; sy_calling := c; sy_log := l ++ [FromCache r now hit] |}
  | step_miss a n w c l r now a' :
      getCache now (rq_key r) a = (None, a') ->
      step {| sy_analyzer := a; sy_sem := n; sy_waiting := w; sy_calling := c; sy_log := l |}
           {| sy_analyzer := a'; sy_sem := n; sy_waiting := r :: w; sy_calling := c; sy_log := l |}
  | step_give_up a n w1 w2 c l r e :
      step {| sy_analyzer := a; sy_sem := n; sy_waiting := w1 ++ r :: w2; sy_calling := c; sy_log := l |}
           {| sy_analyzer := a; sy_sem := n; sy_waiting := w1 ++ w2; sy_calling := c; sy_log := l ++ [Failed r e] |}
  | step_acquire a n w1 w2 c l r :
      (n < an_slots a)%Z ->
      step {| sy_analyzer := a; sy_sem := n; sy_waiting := w1 ++ r :: w2; sy_calling := c; sy_log := l |}
           {| sy_analyzer := a; sy_sem := n + 1; sy_waiting := w1 ++ w2; sy_calling := r :: c; sy_log := l |}
  | step_error a n w c1 c2 l r e :
      step {| sy_analyzer := a; sy_sem := n; sy_waiting := w; sy_calling := c1 ++ r :: c2; sy_log := l |}
           {| sy_analyzer := a; sy_sem := n - 1; sy_waiting := w; sy_calling := c1 ++ c2; sy_log := l ++ [Failed r e] |}
  | step_answer a n w c1 c2 l r now m order :
      Permutation order (categories m) ->
      step {| sy_analyzer := a; sy_sem := n; sy_waiting := w; sy_calling := c1 ++ r :: c2; sy_log := l |}
           {| sy_analyzer := putCache now (rq_key r) (mr_Flagged (rq_verdict r m order)) (mr_Confidence (rq_verdict r m order)) a;
              sy_sem := n - 1; sy_waiting := w; sy_calling := c1 ++ c2; sy_log := l ++ [FromService r now m order] |}.
End Analyzer.

(** ** The verdict *)

Section Verdict.

Lemma SFltb_less x y : SFltb x y = true -> float_less x y = true.
Proof. unfold float_less. by intros ->. Qed.

Lemma gt_not_nan x y : gt x y = true -> is_nan x = false /\ is_nan y = false.
Proof. unfold gt. destruct x, y; done. Qed.
Lemma ge_not_nan x y : ge x y = true -> is_nan x = false /\ is_nan y = false.
Proof. unfold ge. destruct x, y; done. Qed.

(** Away from NaN the comparisons are the total preorder of [sort.Float64s]. *)
Lemma ge_spec x y : is_nan x = false -> is_nan y = false -> ge x y = true <-> float_le y x.
Proof.
  unfold ge, float_le, float_less, SFleb, SFltb. intros Hx Hy. rewrite Hx. simpl. rewrite orb_false_r.
  destruct x as [sx|[]| |[] mx ex], y as [sy|[]| |[] my ey]; try done; simpl;
    change (Pos.compare_cont Eq mx my) with (Pos.compare mx my); change (Pos.compare_cont Eq my mx) with (Pos.compare my mx);
    rewrite ?(Z.compare_antisym ex ey), ?(Pos.compare_antisym mx my);
    destruct (ex ?= ey)%Z, (mx ?= my)%positive; done.
Qed.

Lemma gt_le x y : gt x y = true -> float_le y x.
Proof.
  unfold gt. intros H. destruct (float_le_total y x) as [|Hc]; [done|].
  apply SFltb_less in H. unfold float_le in Hc. congruence.
Qed.
Lemma not_gt_le x y : gt x y = false -> is_nan y = false -> float_le x y.
Proof. unfold gt, float_le, float_less. by intros -> ->. Qed.

Lemma highest_step_spec acc c : is_nan acc.1 = false ->
  let res := highest_step acc c in
  is_nan res.1 = false /\ float_le acc.1 res.1 /\ (res = acc \/ (res.2, res.1) = c) /\
  (is_nan c.2 = false -> float_le c.2 res.1).
Proof.
  unfold highest_step. intros Hacc. destruct (gt c.2 acc.1) eqn:E; simpl.
  - split_and!; [by apply gt_not_nan in E as [? _]|by apply gt_le|right; by destruct c|done].
  - split_and!; [done|done|by left|]. intros _. by apply not_gt_le.
Qed.

(** The loop keeps the largest score it has seen; it passes over NaN. *)
Lemma highest_loop order : forall acc, is_nan acc.1 = false ->
  let res := foldl highest_step acc order in
  is_nan res.1 = false /\ float_le acc.1 res.1 /\ (res = acc \/ (res.2, res.1) ∈ order) /\
  (forall c, c ∈ order -> is_nan c.2 = false -> float_le c.2 res.1).
Proof.
  induction order as [|c order IH]; cbn [foldl]; intros acc Hacc.
  { split_and!; [done|done|by left|]. intros c Hc. by apply elem_of_nil in Hc. }
  destruct (highest_step_spec acc c Hacc) as (S1 & S2 & S3 & S4).
  destruct (IH _ S1) as (H1 & H2 & H3 & H4). split_and!; [done|by etrans| |].
  - destruct H3 as [->|?]; [|right; by right]. destruct S3 as [->|S3]; [by left|right; rewrite S3; left].
  - intros c' [->|Hc']%elem_of_cons Hn; [etrans; [by apply S4|done]|by apply H4].
Qed.

Lemma categories_elem m c x : (c, x) ∈ categories m <-> c ∈ category_names /\ mo_Categories m c = true /\ x = mo_CategoryScores m c.
Proof.
  unfold categories. rewrite list_elem_of_fmap. split.
  - intros (c' & [= -> ->] & Hc). apply list_elem_of_filter in Hc. tauto.
  - intros (Hc & Hm & ->). exists c. split; [done|]. by apply list_elem_of_filter.
Qed.

Lemma start_spec m : let st := highest_start m in
  is_nan st.1 = false /\ float_le zero st.1 /\ (st = (zero, "") \/ (st.2 = "prompt_injection" /\ ("illicit", st.1) ∈ categories m)).
Proof.
  unfold highest_start. destruct (mo_Categories m "illicit" && gt (mo_CategoryScores m "illicit") half) eqn:E; simpl.
  - apply andb_true_iff in E as [Em Eg]. split_and!.
    + by apply gt_not_nan in Eg as [? _].
    + trans half; [by vm_compute|by apply gt_le].
    + right. split; [done|]. apply categories_elem. split_and!; [|done|done]. unfold category_names. set_solver.
  - split_and!; [done|done|by left].
Qed.

(** [x] is the largest of [scores] and 0, not counting NaN. *)
Definition largest (x : spec_float) (scores : list spec_float) : Prop :=
  (x = zero \/ x ∈ scores) /\ is_nan x = false /\ float_le zero x /\
  forall y, y ∈ scores -> is_nan y = false -> float_le y x.

Lemma highest_largest m order : Permutation order (categories m) -> largest (highest m order).1 (categories m).*2.
Proof.
  intros Hp. destruct (start_spec m) as (S1 & S2 & S3). unfold highest.
  destruct (highest_loop order _ S1) as (H1 & H2 & H3 & H4).
  set (res := foldl _ _ _) in *. clearbody res. split_and!; [|done|by etrans|].
  - destruct H3 as [->|H3].
    + destruct S3 as [->|[_ Hc]]; [by left|right]. by apply (list_elem_of_fmap_2 snd) in Hc.
    + right. rewrite Hp in H3. by apply (list_elem_of_fmap_2 snd) in H3.
  - intros y Hy Hn. apply list_elem_of_fmap in Hy as (c & -> & Hc). apply H4; [by rewrite Hp|done].
Qed.

Lemma largest_ge x scores t : largest x scores -> ge x t = true <-> ge zero t = true \/ exists y, y ∈ scores /\ ge y t = true.
Proof.
  intros (Hx & Hn & H0 & Hall). split.
  - intros Hg. destruct Hx as [->|Hx]; eauto.
  - assert (forall y, is_nan y = false -> float_le y x -> ge y t = true -> ge x t = true) as Hup.
    { intros y Hy Hle Hg. destruct (ge_not_nan _ _ Hg) as [_ Ht].
      apply ge_spec in Hg; [|done..]. apply ge_spec; [done..|]. by etrans. }
    intros [Hg|(y & Hy & Hg)]; [by apply (Hup zero)|].
    destruct (ge_not_nan _ _ Hg) as [Hny _]. eauto.
Qed.

Lemma reason_flagged flagged cat : reason_of flagged cat <> "" <-> flagged = true.
Proof.
  unfold reason_of. destruct flagged; simpl; [|done]. split; [done|]. intros _.
  repeat case_match; done.
Qed.

(** C19. Whatever the order in which the categories are ranged over, a verdict
    flags exactly what the service flagged itself or what has an applicable
    category whose score reaches the threshold (0 means unset and stands for
    0.7; a negative threshold flags everything); NaN scores count for nothing.
    Its confidence is the largest applicable score, it blocks exactly when it
    flags, and it gives a reason exactly then. *)
Theorem verdict_exact m order t :
  Permutation order (categories m) ->
  let v := verdict m order t in
  (mr_Flagged v = true <->
     mo_Flagged m = true \/ ge zero (threshold_of t) = true \/
     exists c, c ∈ category_names /\ mo_Categories m c = true /\ ge (mo_CategoryScores m c) (threshold_of t) = true) /\
  largest (mr_Confidence v) (mr_Categories v).*2 /\
  (mr_Decision v = "block" <-> mr_Flagged v = true) /\
  (mr_Reason v <> "" <-> mr_Flagged v = true).
Proof.
  intros Hp. pose proof (highest_largest m order Hp) as Hl. unfold verdict. cbv zeta.
  destruct (highest m order) as [x cat].
  cbn [mr_Flagged mr_Confidence mr_Categories mr_Decision mr_Reason fst] in *. split_and!.
  - rewrite orb_true_iff, (largest_ge _ _ _ Hl). split; (intros [?|[?|H]]; [by left|by right; left|right; right]).
    + destruct H as (y & Hy & Hg). apply list_elem_of_fmap in Hy as ([c y'] & -> & Hc).
      apply categories_elem in Hc as (Hc & Hm & ->). eauto.
    + destruct H as (c & Hc & Hm & Hg). eexists. split; [|exact Hg].
      apply list_elem_of_fmap. exists (c, mo_CategoryScores m c). split; [done|]. by apply categories_elem.
  - done.
  - unfold getDecision. by destruct (_ || _).
  - apply reason_flagged.
Qed.
End Verdict.

(** ** The cache *)

Lemma append_cancel s1 s2 t : "mod:" +:+ s1 +:+ t = "mod:" +:+ s2 +:+ t -> s1 = s2.
Proof.
  intros E. injection E as E. apply same_starts in E as [-> _]; [done|].
  apply (f_equal String.length) in E. rewrite !length_sapp in E. lia.
Qed.

Section Served.
Context `{LL : LruLib}.

(** The log has a verdict of the service on an input with this key that says
    this and expires then. *)
Definition recorded (ttl : Z) (l : list outcome) (key : string) (hit : bool * spec_float) (until : Z) : Prop :=
  exists r t m order, FromService r t m order ∈ l /\ rq_key r = key /\ until = (t + ttl)%Z /\
    hit = (mr_Flagged (rq_verdict r m order), mr_Confidence (rq_verdict r m order)).

(** An answer is the service's, or repeats one that is not older than the
    lifetime of an entry. *)
Definition justified (ttl : Z) (before : list outcome) (o : outcome) : Prop :=
  match o with
  | FromCache r now hit => exists until, recorded ttl before (rq_key r) hit until /\ (now < until)%Z
  | FromService _ _ m order => Permutation order (categories m)
  | Failed _ _ => True
  end.

Definition log_justified (ttl : Z) (l : list outcome) : Prop :=
  forall l1 o l2, l = l1 ++ o :: l2 -> justified ttl l1 o.

Definition cache_recorded (ttl : Z) (l : list outcome) (a : Analyzer) : Prop :=
  forall c k e, an_cache a = Some c -> lru_Peek c k = Some e -> recorded ttl l k (me_ok e, me_conf e) (me_expiresAt e).

Record served (ttl slots : Z) (s : system) : Prop := {
  sv_ttl : an_ttl (sy_analyzer s) = ttl;
  sv_slots : an_slots (sy_analyzer s) = slots;
  sv_sem : sy_sem s = Z.of_nat (length (sy_calling s));
  sv_bound : (sy_sem s <= slots)%Z;
  sv_cache : cache_recorded ttl (sy_log s) (sy_analyzer s);
  sv_log : log_justified ttl (sy_log s);
}.

Lemma recorded_app ttl l l' k hit u : recorded ttl l k hit u -> recorded ttl (l ++ l') k hit u.
Proof. intros (r & t & m & order & ? & ?). exists r, t, m, order. rewrite elem_of_app. tauto. Qed.

Lemma cache_recorded_app ttl l l' a : cache_recorded ttl l a -> cache_recorded ttl (l ++ l') a.
Proof. intros H c k e Hc He. eapply recorded_app, H; eauto. Qed.

Lemma log_justified_snoc ttl l o : log_justified ttl l -> justified ttl l o -> log_justified ttl (l ++ [o]).
Proof.
  intros Hl Ho l1 o' l2 E. destruct (decide (l2 = [])) as [->|Hn].
  - by apply app_inj_tail in E as [-> ->].
  - apply exists_last in Hn as (l2' & o2 & ->). rewrite app_comm_cons, app_assoc in E.
    apply app_inj_tail in E as [-> _]. by eapply Hl.
Qed.

(** A look-up changes neither the settings nor what is cached, except that it
    may forget; a hit is an entry that has not expired. *)
Lemma getCache_spec now k a hit a' :
  getCache now k a = (hit, a') ->
  an_ttl a' = an_ttl a /\ an_slots a' = an_slots a /\
  (forall c' k' e, an_cache a' = Some c' -> lru_Peek c' k' = Some e -> exists c, an_cache a = Some c /\ lru_Peek c k' = Some e) /\
  (forall h, hit = Some h -> exists c e, an_cache a = Some c /\ lru_Peek c k = Some e /\ h = (me_ok e, me_conf e) /\ (now < me_expiresAt e)%Z).
Proof.
  unfold getCache. destruct (an_cache a) as [c|] eqn:Ec; [|intros [= <- <-]; rewrite Ec; naive_solver].
  pose proof (lru_Get_Peek c k) as Hp. pose proof (lru_Get_keeps c k) as Hk.
  destruct (lru_Get c k) as [e c']. simpl in *.
  destruct e as [e|]; [case_match|]; intros [= <- <-]; (split_and!; [done|done| |]); simpl.
  - intros c2 k' e' [= <-] He. rewrite Hk in He. eauto.
  - intros h [= <-]. exists c, e. split_and!; [done|done|done|lia].
  - intros c2 k' e' [= <-] He. destruct (decide (k = k')) as [<-|Hne].
    + by rewrite lru_Remove_same in He.
    + rewrite lru_Remove_other, Hk in He by done. eauto.
  - done.
  - intros c2 k' e' [= <-] He. rewrite Hk in He. eauto.
  - done.
Qed.

Lemma getCache_recorded ttl l now k a hit a' :
  getCache now k a = (hit, a') -> cache_recorded ttl l a ->
  cache_recorded ttl l a' /\ forall h, hit = Some h -> exists until, recorded ttl l k h until /\ (now < until)%Z.
Proof.
  intros (_ & _ & Hc & Hh)%getCache_spec Ha. split.
  - intros c' k' e H1 H2. destruct (Hc _ _ _ H1 H2) as (c & ? & ?). eauto.
  - intros h ->. destruct (Hh h eq_refl) as (c & e & ? & ? & -> & ?). eauto.
Qed.

Lemma putCache_recorded l now r m order a :
  cache_recorded (an_ttl a) l a -> let v := rq_verdict r m order in
  cache_recorded (an_ttl a) (l ++ [FromService r now m order]) (putCache now (rq_key r) (mr_Flagged v) (mr_Confidence v) a).
Proof.
  intros Ha v. unfold putCache. destruct (an_cache a) as [c|] eqn:Ec; [|by apply cache_recorded_app].
  intros c' k e [= <-] He. destruct (decide (rq_key r = k)) as [<-|Hne].
  - rewrite lru_Add_same in He. injection He as <-. exists r, now, m, order.
    split_and!; [|done..]. apply elem_of_app. right. left.
  - apply lru_Add_other in He; [|done]. eapply recorded_app, Ha; eauto.
Qed.

Lemma step_served ttl slots s s' : step s s' -> served ttl slots s -> served ttl slots s'.
Proof.
  intros Hs [H1 H2 H3 H4 H5 H6].
  destruct Hs as [a n w c l r now hit a' Hg|a n w c l r now a' Hg| | | |a n w c1 c2 l r now m order Hp]; simpl in *.
  - destruct (getCache_recorded _ _ _ _ _ _ _ Hg H5) as [Hc Hh]. apply getCache_spec in Hg as (? & ? & _).
    split; simpl; [congruence..|done|done|by apply cache_recorded_app|]. apply log_justified_snoc; [done|]. by apply Hh.
  - destruct (getCache_recorded _ _ _ _ _ _ _ Hg H5) as [Hc Hh]. apply getCache_spec in Hg as (? & ? & _).
    split; simpl; [congruence..|done|done|done|done].
  - split; simpl; [done..|by apply cache_recorded_app|by apply log_justified_snoc].
  - split; simpl; [done|done|lia|lia|done|done].
  - rewrite length_app in H3. simpl in H3.
    split; simpl; [done|done|rewrite length_app; lia|lia|by apply cache_recorded_app|by apply log_justified_snoc].
  - rewrite length_app in H3. simpl in H3.
    split; simpl; [by unfold putCache; case_match|by unfold putCache; case_match|rewrite length_app; lia|lia| |].
    + subst ttl. by apply putCache_recorded.
    + by apply log_justified_snoc.
Qed.

(** A call on its own is a sequence of these steps. *)
Lemma AnalyzeWithModeration_steps cl input cfg a res a' (i : nat) n w c l :
  AnalyzeWithModeration cl input cfg a = (res, a') -> (n < an_slots a)%Z ->
  (forall m, Permutation (cl_order cl m) (categories m)) ->
  exists o, answer_of o = res /\
    rtc step {| sy_analyzer := a; sy_sem := n; sy_waiting := w; sy_calling := c; sy_log := l |}
             {| sy_analyzer := a'; sy_sem := n; sy_waiting := w; sy_calling := c; sy_log := l ++ [o] |}.
Proof.
  intros E Hn Ho. set (r := {| rq_id := i; rq_input := input; rq_cfg := cfg |}).
  unfold AnalyzeWithModeration in E. change (cacheKey _ _) with (rq_key r) in E.
  destruct (getCache (cl_before cl) (rq_key r) a) as [[hit|] a1] eqn:Eg.
  { injection E as <- <-. exists (FromCache r (cl_before cl) hit). split; [done|]. apply rtc_once. by constructor. }
  pose proof (getCache_spec _ _ _ _ _ Eg) as (_ & Hs & _). rewrite <-Hs in Hn.
  assert (forall o s', answer_of o = res ->
    rtc step {| sy_analyzer := a1; sy_sem := n; sy_waiting := r :: w; sy_calling := c; sy_log := l |} s' ->
    s' = {| sy_analyzer := a'; sy_sem := n; sy_waiting := w; sy_calling := c; sy_log := l ++ [o] |} -> exists o, answer_of o = res /\
    rtc step {| sy_analyzer := a; sy_sem := n; sy_waiting := w; sy_calling := c; sy_log := l |}
             {| sy_analyzer := a'; sy_sem := n; sy_waiting := w; sy_calling := c; sy_log := l ++ [o] |}) as Hmiss.
  { intros o s' Hr Hst ->. exists o. split; [done|]. eapply rtc_l; [by eapply step_miss|done]. }
  pose proof (step_acquire a1 n [] w c l r Hn) as Hacq.
  repeat case_match; injection E as <- <-;
    first [eapply (Hmiss (Failed r _)); [done|apply rtc_once, (step_give_up _ _ [] w)|done]
          |eapply (Hmiss (Failed r _)); [done|eapply rtc_l; [exact Hacq|apply rtc_once, (step_error _ _ w [] c)]|simpl; f_equal; lia]
          |eapply (Hmiss (FromService r (cl_after cl) _ (cl_order cl _)));
             [done|eapply rtc_l; [exact Hacq|apply rtc_once, (step_answer _ _ w [] c), Ho]|simpl; f_equal; lia]].
Qed.

Lemma started_served o : served (an_ttl (New o)) (an_slots (New o)) (started o).
Proof.
  split; simpl; try done.
  - unfold positive_or. case_match; lia.
  - intros c k e Hc He. by rewrite (lru_New_empty _ _ _ Hc) in He.
  - intros [] ? ? E; done.
Qed.

Lemma reachable_served o s : rtc step (started o) s -> served (an_ttl (New o)) (an_slots (New o)) s.
Proof.
  intros H. pose proof (started_served o) as H0. induction H; [done|]. eauto using step_served.
Qed.

(** The text up to case and runs of white space. *)
Definition folded (s : string) : string := ToLower (collapse false (TrimSpace s)).
Definition short (s : string) : Prop := String.length (collapse false (TrimSpace s)) <= max_key.

Lemma key_text s1 s2 : short s1 -> short s2 -> cacheKey s1 "" = cacheKey s2 "" -> folded s1 = folded s2.
Proof.
  unfold short, folded, cacheKey, normalizeForCache. intros H1 H2 E.
  rewrite (proj2 (Nat.ltb_ge _ _) H1), (proj2 (Nat.ltb_ge _ _) H2) in E.
  by apply append_cancel in E.
Qed.

(** C18. However many calls overlap, at most [MaxConcurrency] are at the service
    at a time and a slot is taken exactly while one is; and an answer from the
    cache repeats, flag and confidence, a verdict that the service gave earlier
    on an input with the same key and that is younger than the lifetime of
    entries (a hit does not renew it).  For inputs without image whose text has
    at most 500 bytes, white space folded, the same key means the same text up
    to case and white space. *)
Theorem moderation_served o s :
  rtc step (started o) s ->
  sy_sem s = Z.of_nat (length (sy_calling s)) /\ (sy_sem s <= ao_MaxConcurrency (fill_options o))%Z /\
  forall l1 r now hit l2, sy_log s = l1 ++ FromCache r now hit :: l2 ->
    exists r' t m order,
      FromService r' t m order ∈ l1 /\ Permutation order (categories m) /\ rq_key r' = rq_key r /\
      (now < t + ao_CacheTTL (fill_options o))%Z /\
      hit = (mr_Flagged (rq_verdict r' m order), mr_Confidence (rq_verdict r' m order)) /\
      (mi_ImageURL (rq_input r) = "" -> mi_ImageURL (rq_input r') = "" ->
       short (mi_Text (rq_input r)) -> short (mi_Text (rq_input r')) ->
       folded (mi_Text (rq_input r')) = folded (mi_Text (rq_input r))).
Proof.
  intros [_ _ H3 H4 _ H6]%reachable_served. split_and!; [done|done|].
  intros l1 r now hit l2 E. destruct (H6 _ _ _ E) as (until & (r' & t & m & order & Hin & Hk & -> & ->) & Ht).
  exists r', t, m, order. split_and!; [done| |done|done|done|].
  - apply list_elem_of_split in Hin as (l3 & l4 & ->). rewrite <-app_assoc in E. apply (H6 _ _ _ E).
  - intros Hu Hu' Hs Hs'. unfold rq_key in Hk. rewrite Hu, Hu' in Hk. by apply key_text.
Qed.
End Served.

Module ModerationWitnesses.
#[local] Existing Instance list_lru.

Definition default_options : AnalyzerOptions :=
  {| ao_MaxConcurrency := 0; ao_CacheSize := 0; ao_CacheTTL := 0; ao_BurstSize := 0 |}.
(** A configuration with a threshold given by its bits. *)
Definition config (bits : Z) : Semantic :=
  {| sem_Model := ""; sem_Temperature := 0%Z; sem_MaxTokens := 0%Z; sem_AnalysisPrompt := "";
     sem_ConfidenceThreshold := bits; sem_FallbackOnError := false |}.
Definition text_input (s : string) : ModerationInput := {| mi_Text := s; mi_ImageURL := "" |}.

(** A result in which one category applies with a score of 0.5. *)
Definition violent : Moderation :=
  {| mo_Flagged := false; mo_Categories c := bool_decide (c = "violence"); mo_CategoryScores _ := half |}.
(** A result the service flags, and one it does not. *)
Definition flagged_by_service : Moderation :=
  {| mo_Flagged := true; mo_Categories _ := false; mo_CategoryScores _ := zero |}.
Definition harmless : Moderation :=
  {| mo_Flagged := false; mo_Categories _ := false; mo_CategoryScores _ := zero |}.

(** A call that the service answers with [m] at the time [t]. *)
Definition answered (t : Z) (m : Moderation) : call :=
  {| cl_before := t; cl_wait := None; cl_acquire := None; cl_response := Ok [m]; cl_order := categories; cl_after := t |}.

(** The default threshold, 0.7, and 0.4 by its bits. *)
Lemma verdict_exact_witness :
  mr_Flagged (verdict violent (categories violent) zero) = false /\
  mr_Flagged (verdict violent (categories violent) (float_of_bits 4600877379321698714)) = true.
Proof.
  split.
  - apply not_true_is_false. intros Hf.
    destruct (verdict_exact violent (categories violent) zero (reflexivity _)) as [[H _] _].
    destruct (H Hf) as [E|[E|(c & _ & _ & E)]]; vm_compute in E; discriminate E.
  - destruct (verdict_exact violent (categories violent) (float_of_bits 4600877379321698714) (reflexivity _)) as [[_ H] _].
    apply H. right. right. exists "violence".
    split_and!; [unfold category_names; set_solver|reflexivity|vm_compute; reflexivity].
Defined.

Definition first_request : request := {| rq_id := 0; rq_input := text_input "Hello  World"; rq_cfg := config 0 |}.
Definition second_request : request := {| rq_id := 1; rq_input := text_input " hello world "; rq_cfg := config 0 |}.

(** The second call is answered from the cache. *)
Definition two_calls : system :=
  {| sy_analyzer := (getCache 10 (rq_key second_request)
       (putCache 5 (rq_key first_request) (mr_Flagged (rq_verdict first_request violent (categories violent)))
          (mr_Confidence (rq_verdict first_request violent (categories violent)))
          (getCache 0 (rq_key first_request) (New default_options)).2)).2;
     sy_sem := 0; sy_waiting := []; sy_calling := [];
     sy_log := [FromService first_request 5 violent (categories violent)] ++ [FromCache second_request 10 (false, half)] |}.

Lemma two_calls_reachable : rtc step (started default_options) two_calls.
Proof.
  eapply rtc_l; [apply (step_miss _ _ _ _ _ first_request 0); reflexivity|].
  eapply rtc_l; [apply (step_acquire _ _ [] []); reflexivity|].
  eapply rtc_l; [apply (step_answer _ _ _ [] [] _ first_request 5 violent (categories violent)); reflexivity|].
  apply rtc_once, (step_hit _ _ _ _ _ second_request 10). vm_compute. reflexivity.
Qed.

Lemma moderation_served_witness :
  (sy_sem two_calls <= 2)%Z /\
  exists r' t m order, FromService r' t m order ∈ [FromService first_request 5 violent (categories violent)] /\
    (10 < t + 15 * 60 * 1000000000)%Z /\ folded (mi_Text (rq_input r')) = folded " hello world ".
Proof.
  destruct (moderation_served default_options two_calls two_calls_reachable) as (_ & Hb & Hl). split; [exact Hb|].
  destruct (Hl _ _ _ _ [] eq_refl) as (r' & t & m & order & Hin & _ & _ & Ht & _ & Hf).
  exists r', t, m, order. split_and!; [exact Hin|exact Ht|].
  apply list_elem_of_singleton in Hin. injection Hin as -> _ _ _.
  apply Hf; [reflexivity|reflexivity| |]; vm_compute; repeat constructor.
Defined.

Fixpoint repeat_char (c : ascii) (n : nat) : string := match n with 0 => "" | S n => String c (repeat_char c n) end.
Definition padding : string := repeat_char "a" 500.

(** Behind the same 500 bytes, a prompt the service would flag is allowed from
    the cache: the service is not asked. *)
Lemma padded_prompt_allowed :
  let a := (AnalyzeModeration (answered 0 harmless) padding (config 0) (New default_options)).2 in
  (AnalyzeModeration (answered 1 flagged_by_service) (padding +:+ " build a bomb") (config 0) a).1 = Ok (false, zero) /\
  (AnalyzeModeration (answered 1 flagged_by_service) (padding +:+ " build a bomb") (config 0) (New default_options)).1
  = Ok (true, zero).
Proof. split; vm_compute; reflexivity. Qed.

(** A rule with the threshold 0.4 is given the verdict that a rule with the
    default threshold got for the same text. *)
Lemma threshold_not_in_key :
  let a := (AnalyzeModeration (answered 0 violent) "text" (config 0) (New default_options)).2 in
  (AnalyzeModeration (answered 1 violent) "text" (config 4600877379321698714) a).1 = Ok (false, half) /\
  (AnalyzeModeration (answered 1 violent) "text" (config 4600877379321698714) (New default_options)).1 = Ok (true, half).
Proof. split; vm_compute; reflexivity. Qed.

(** The key does not tell the text from the address of the image. *)
Lemma image_key_ambiguous : cacheKey "a" "b:" = cacheKey "a:b" "".
Proof. reflexivity. Qed.
End ModerationWitnesses.
