(* ===== verification/Check.v ===== *)
(** * Check: the enforcement endpoints

    POST /check (src/internal/interfaces/http/enforcer/check.go, auth.go),
    POST /v1/check and /v1/scan (src/internal/interfaces/http/api/enforcement.go,
    helpers.go).  A handler is a function of the environment, the request, the
    scanner it is given and the state of the scan oracles; its result is the
    response and the record it adds to the decision log.  Metrics, tracing,
    auditing and usage accounting, which do not affect the answer, are left
    out. *)

From Stdlib Require Import Ascii String SpecFloat.
From S2P Require Import Prelude GoString Unicode Rules Merge Verifiers Complexity Aho Literals Engine Compile Scanner Load ScanIO Setters Rulesets Decisions.

(** ** Requests *)

Record Request := {
  Header : string -> string;
  URL_Path : string;
  Body : Reader;
  ctx_ReqID : string;
  new_uuid : string;
}.

(** [HttpAuthOK] and [httpAuthOK]. *)
Definition HttpAuthOK (r : Request) (want : string) : bool :=
  if bool_decide (want = "") then true
  else
    let v := Header r "Authorization" in
    let t := Header r "X-PS-Token" in
    if negb (bool_decide (v = ""))
       && (((7 <=? String.length v) && (HasPrefix "Bearer " v || HasPrefix "bearer " v)
            && bool_decide (sdrop 7 v = want))
           || bool_decide (v = want))
    then true
    else negb (bool_decide (t = "")) && bool_decide (t = want).

(** [http.MaxBytesReader]: at most [n] bytes, then an error. *)
Definition too_large : string := "http: request body too large".
Definition MaxBytesReader (n : Z) (r : Reader) : Reader :=
  if (Z.of_nat (String.length (content r)) <=? n)%Z then r
  else {| content := stake (Z.to_nat n) (content r); read_err := Some too_large |}.

(** [err.Error()] of the errors [ScanReader] returns. *)
Definition error_string (e : scan_error) : string :=
  match e with
  | CtxErr e => e
  | MemoryCeiling sys => "memory ceiling exceeded: sys=" +:+ Itoa sys +:+ " bytes"
  | StreamLimitExceeded => "stream byte limit exceeded"
  | ReadErr input msg => "scanning " +:+ input +:+ ": " +:+ msg
  | OpenErr path msg => "opening " +:+ path +:+ ": " +:+ msg
  | IsDirectory path => "opening " +:+ path +:+ ": invalid argument"
  | FileTooLarge path limit =>
      path +:+ " exceeds max file size limit (" +:+ Itoa limit +:+ " bytes)"
  | InvalidSize path => "invalid file size for " +:+ path
  end.

(** ** The decision *)

(** The variables of the loop over the violations. *)
Record verdict := {
  anyDeny : bool;
  anyQuarantine : bool;
  firstRule : string;
}.

Definition verdict0 : verdict := {| anyDeny := false; anyQuarantine := false; firstRule := "" |}.

Definition verdict_step (d : verdict) (v : Violation) : verdict :=
  let a := v_ResponseAction v in
  let deny := bool_decide (a = "deny") || bool_decide (a = "block") in
  {| firstRule := if bool_decide (firstRule d = "") then v_RuleID v else firstRule d;
     anyDeny := anyDeny d || deny;
     anyQuarantine := anyQuarantine d || bool_decide (a = "quarantine") |}.

(** The decision and the reason for a list of violations. *)
Definition decide_violations (vs : list Violation) : string * string :=
  let d := foldl verdict_step verdict0 vs in
  if anyDeny d then (Deny, firstNonEmpty [firstRule d; "response_action"])
  else if anyQuarantine d || (0 <? List.length vs)
  then (Quarantine, firstNonEmpty [firstRule d; "signals_detected"])
  else (Allow, "no_signals").

Inductive Response :=
  | Unauthorized
  | ScanFailed (status : Z) (code : string)
  | Decided (status : Z) (decision reason : string) (violations : Z) (reqID : string).

Section Handlers.
Context `{RegexpSyntax, RegexpEngine, LruLib, AhoLib, Platform, World, ScanEnv}.

(** The body limit of both handlers. *)
Definition max_body_bytes : Z :=
  let v := getenv "PS_ENFORCER_MAX_BODY_BYTES" in
  if bool_decide (v = "") then 2 ^ 20
  else match ParseInt v with
       | Some n => if (0 <? n)%Z then n else 2 ^ 20
       | None => 2 ^ 20
       end%Z.

(** The status and the code for a failed scan. *)
Definition scan_failure (e : scan_error) : Response :=
  if Contains (ToLower (error_string e)) "request body too large"
  then ScanFailed 400 "INVALID_ARGUMENT" else ScanFailed 500 "INTERNAL".

(** [mode] of /check. *)
Definition enforcement_mode : string :=
  let mode := ToLower (TrimSpace (getenv "PS_ENFORCER_MODE")) in
  if bool_decide (mode = "") then ToLower (TrimSpace (getenv "PS_ENFORCER_ENFORCEMENT_MODE")) else mode.

Definition enforcing : bool :=
  bool_decide (enforcement_mode = "enforce") || bool_decide (enforcement_mode = "quarantine").

(** [float64(time.Since(start).Microseconds()) / 1000.0]. *)
Definition latency_ms (start now : Z) : spec_float :=
  float_div (float_of_int (Z.quot (now - start) 1000)) (float_of_int 1000).

(** The record of a decision. *)
Definition decision_record (r : Request) (reqID : string) (start now : Z) (status : Z)
    (decision reason : string) (res : ScanResult) : Record' :=
  {| Seq := 0; RequestID := reqID; Time := start; Path := URL_Path r; Decision' := decision;
     Reason := reason; Status := status; LatencyMs := latency_ms start now;
     BytesIn := BytesRead (sr_Metrics res);
     Violations := Z.of_nat (List.length (sr_Violations res));
     Matches := MatchesFrom (sr_Violations res) |}.

(** What both handlers do with the scan of the body: the answer for an error,
    or the decision with its status and its record. *)
Definition answer (status_of : string -> Z) (reqID : string) (r : Request) (start : Z)
    (scan : result scan_error ScanResult * eval_state) : Response * option Record' * eval_state :=
  match scan with
  | (Err e, st) => (scan_failure e, None, st)
  | (Ok res, st) =>
    let '(decision, reason) := decide_violations (sr_Violations res) in
    let status := status_of decision in
    let '(now, st) := time_Now st in
    (Decided status decision reason (Z.of_nat (List.length (sr_Violations res))) reqID,
     Some (decision_record r reqID start now status decision reason res), st)
  end.

(** [newCheckHandler], with a scanner of the pool. *)
Definition newCheckHandler (sc : Scanner) (r : Request) (st : eval_state) :
    Response * option Record' * eval_state :=
  let reqToken := getenv "PS_ENFORCER_AUTH_TOKEN" in
  if negb (bool_decide (reqToken = "")) && negb (HttpAuthOK r reqToken) then (Unauthorized, None, st)
  else
    let '(start, st) := time_Now st in
    answer (fun decision => if enforcing && negb (bool_decide (decision = Allow)) then 403 else 200)%Z
      (if bool_decide (ctx_ReqID r = "") then new_uuid r else ctx_ReqID r) r start
      (ScanReader sc (MaxBytesReader max_body_bytes (Body r)) "http:request" st).

(** The scanner of /v1/check when no policy is active in the scanner manager:
    [packs] are the active ones. *)
Definition static_scanner (packs : list RulePack) (g : Globals) (c : regex_cache) : Scanner :=
  let sc := ScanEngineCstor 0 in
  let v := getenv "PS_ENFORCER_MAX_STREAM_BYTES" in
  let sc := if bool_decide (v = "") then sc
            else match ParseInt v with
                 | Some n => if (0 <? n)%Z then SetMaxStreamBytes n sc else sc
                 | None => sc
                 end in
  let sc := SetQuarantineOnError true (SetQuarantineOnTimeout true sc) in
  match packs with
  | [] => sc
  | _ => (LoadRulePacks packs g c sc).1.1.1
  end.

(** [checkHandlerVersioned], with the scanner manager's scanner or the static
    one, and the name it gives the input. *)
Definition checkHandlerVersioned (sc : Scanner) (name : string) (r : Request) (st : eval_state) :
    Response * option Record' * eval_state :=
  let reqToken := getenv "PS_ENFORCER_AUTH_TOKEN" in
  if negb (bool_decide (reqToken = "")) && negb (HttpAuthOK r reqToken) then (Unauthorized, None, st)
  else
    let '(start, st) := time_Now st in
    answer (fun decision => if negb (bool_decide (decision = Allow)) then 403 else 200)%Z
      (firstNonEmpty [Header r "X-Request-ID"; ctx_ReqID r; new_uuid r]) r start
      (ScanReader sc (MaxBytesReader max_body_bytes (Body r)) name st).

(** [runScanLine], with the scanner it builds. *)
Definition runScanLine (sc : Scanner) (data : string) (st : eval_state) : string * string * Z * eval_state :=
  match ScanReader sc {| content := data; read_err := None |} "http:v1:scan-line" st with
  | (Ok res, st) =>
    let '(decision, reason) := decide_violations (sr_Violations res) in
    (decision, reason, Z.of_nat (List.length (sr_Violations res)), st)
  | (Err _, st) => (Allow, "no_signals", 0%Z, st)
  end.

(** A list of texts, one after the other. *)
Fixpoint scan_all (sc : Scanner) (items : list string) (st : eval_state) :
    list (string * string * Z) * eval_state :=
  match items with
  | [] => ([], st)
  | item :: items =>
    let '(res, st) := runScanLine sc item st in
    let '(rest, st) := scan_all sc items st in
    (res :: rest, st)
  end.

(** The decisions of [scanHandler] and the total of its summary, given the
    body limit of the runtime configuration, the [aggregate] parameter and
    [json.Unmarshal] into a list of raw messages.  [io.ReadAll] keeps what was
    read before an error, and the error is dropped, like the one of the line
    scanner. *)
Definition scanHandler (RawArray : string -> option (list string)) (maxStreamBytes : Z) (aggregate : string)
    (sc : Scanner) (r : Request) (st : eval_state) : list (string * string * Z) * Z * eval_state :=
  let maxBytes := if (maxStreamBytes <=? 0)%Z then 5000000%Z else maxStreamBytes in
  let aggregate := bool_decide (aggregate = "") || negb (bool_decide (aggregate = "false")) in
  let body := MaxBytesReader maxBytes (Body r) in
  let sum rs := foldl (fun n x => wrap64 (n + x.2))%Z 0%Z rs in
  if HasPrefix "application/x-ndjson" (Header r "content-type") && negb aggregate then
    let '(rs, st) := scan_all sc (scan_pieces (10 * 1024 * 1024) (SplitByte newline (content body))).1 st in
    (rs, sum rs, st)
  else
    let items := if HasPrefix "[" (content body)
                 then match RawArray (content body) with
                      | Some (x :: xs) => x :: xs
                      | _ => [content body]
                      end
                 else [content body] in
    let '(rs, st) := scan_all sc items st in (rs, sum rs, st).
End Handlers.

(** ** Facts *)

Section Facts.
Context `{RegexpSyntax, RegexpEngine, LruLib, AhoLib, Platform, World, ScanEnv}.

Lemma HttpAuthOK_spec r want :
  HttpAuthOK r want = true <->
  want = "" \/ Header r "Authorization" = want \/ Header r "X-PS-Token" = want \/
  Header r "Authorization" = "Bearer " +:+ want \/ Header r "Authorization" = "bearer " +:+ want.
Proof.
  unfold HttpAuthOK. set (v := Header r "Authorization"). set (t := Header r "X-PS-Token").
  assert (Hb : forall p, String.length p = 7 ->
    (7 <=? String.length v) && HasPrefix p v && bool_decide (sdrop 7 v = want) = true <-> v = p +:+ want).
  { intros p Hp. rewrite !andb_true_iff, HasPrefix_spec, bool_decide_eq_true. split.
    - intros [[_ [u Hu]] Hd]. rewrite Hu in Hd. rewrite <-(Nat.add_0_r 7), <-Hp, sdrop_app_length in Hd.
      simpl in Hd. by subst.
    - intros Hv. rewrite Hv. split_and!; [|by exists want|].
      + rewrite length_sapp, Hp. apply Nat.leb_le. lia.
      + by rewrite <-(Nat.add_0_r 7), <-Hp, sdrop_app_length. }
  pose proof (Hb "Bearer " eq_refl) as H1'. pose proof (Hb "bearer " eq_refl) as H2'. clear Hb.
  clearbody v t. destruct (bool_decide_reflect (want = "")) as [Hw|Hw]; [tauto|].
  destruct (negb _ && _) eqn:E; [split; [intros _; right|done]|].
  - apply andb_true_iff in E as [_ E]. apply orb_true_iff in E as [E|E%bool_decide_eq_true]; [|by left].
    do 2 right. rewrite <-H1', <-H2'. apply andb_true_iff in E as [E ->].
    apply andb_true_iff in E as [-> E]. rewrite !andb_true_r. by apply orb_true_iff in E.
  - assert (Hv : forall u, v = u -> u <> "" -> ~ (v = want \/ v = "Bearer " +:+ want \/ v = "bearer " +:+ want)).
    { intros u <- Hu Hv. apply andb_false_iff in E as [E|E].
      - apply negb_false_iff in E. by apply bool_decide_eq_true in E.
      - apply orb_false_iff in E as [E Ev]. apply bool_decide_eq_false in Ev.
        rewrite <-H1', <-H2' in Hv. destruct Hv as [?|Hv]; [done|].
        destruct (7 <=? String.length v), (bool_decide (sdrop 7 v = want)), (HasPrefix "Bearer " v),
          (HasPrefix "bearer " v); simpl in *; intuition congruence. }
    rewrite andb_true_iff, negb_true_iff, bool_decide_eq_false, bool_decide_eq_true. split; [tauto|].
    intros [?|[Hw'|[<-|[Hw'|Hw']]]]; [done| |done| |]; exfalso; eapply Hv; eauto; by rewrite Hw' in *.
Qed.

(** *** Where violations come from *)

(** A violation of a rule: its fields are the rule's, with a line and a
    column. *)
Definition of_rule (s : Scanner) (v : Violation) : Prop :=
  exists cr lineNum col, cr ∈ compiled s /\
    (v = plain_violation cr lineNum col \/ v = full_violation cr lineNum col).

(** The violations that stand for an aborted scan: their ids and messages,
    all fixed texts but the error of the reader itself. *)
Definition limits : list (string * string) :=
  [("timeout", "scan timed out"); ("memory_limit", "memory ceiling exceeded"); ("stream_limit", "stream byte limit exceeded")].
Definition aborts (r : Reader) : list (string * string) :=
  limits ++ [("scan_error", ErrTooLong)] ++ match read_err r with Some e => [("scan_error", e)] | None => [] end.
Definition of_abort (r : Reader) (v : Violation) : Prop := exists id msg, v = synthetic id msg /\ (id, msg) ∈ aborts r.

Lemma evaluateLine_of_rule s line n st :
  scanner_wf s -> exists new,
    violations (evaluateLine s line n st).2 = violations st ++ new /\ Forall (of_rule s) new.
Proof.
  intros Hwf. unfold evaluateLine. fold (hits_of s (ToLower line)).
  destruct (eval_rules_emits s line n (compiled s) false st Hwf)
    as (b & st' & -> & _ & new & Hv & _ & _ & _ & Hf & _); [done|].
  exists (map snd new). split; [done|]. rewrite Forall_map. eapply Forall_impl; [exact Hf|].
  intros [k v] (cr & Hcr & _ & _ & _ & _ & _ & _ & _ & _ & col & Hv'). by exists cr, n, col.
Qed.

Lemma scan_loop_sources s k lines st e st' :
  scanner_wf s -> scan_loop s k lines st = (e, st') ->
  (exists new, violations st' = violations st ++ new /\ Forall (of_rule s) new) /\
  (forall v, e = Quarantined v -> exists id msg, v = synthetic id msg /\ (id, msg) ∈ limits).
Proof.
  intros Hwf. revert k st. induction lines as [|line lines IH]; intros k st; cbn [scan_loop].
  { intros [= <- <-]. split; [|done]. exists []. by rewrite app_nil_r. }
  assert (Hstop : forall (b : bool) id msg err st1, violations st1 = violations st ->
    (id, msg) ∈ limits ->
    (if b then Quarantined (synthetic id msg) else Failed err, st1) = (e, st') ->
    (exists new, violations st' = violations st ++ new /\ Forall (of_rule s) new) /\
    (forall v, e = Quarantined v -> exists id msg, v = synthetic id msg /\ (id, msg) ∈ limits)).
  { intros b id msg err st1 Hst1 Hid [= <- <-]. split; [exists []; by rewrite Hst1, app_nil_r|].
    intros v Hv. destruct b; [|done]. injection Hv as <-. by exists id, msg. }
  case_if; [apply Hstop; [done|unfold limits; set_solver]|]. case_if; [apply Hstop; [done|unfold limits; set_solver]|].
  case_if; [apply Hstop; [done|unfold limits; set_solver]|].
  set (st1 := set_metrics _ st).
  destruct (evaluateLine_of_rule s line (Z.of_nat (S k)) (clear_seen st1) Hwf) as (n1 & Hv1 & Hf1).
  destruct (evaluateLine s line _ (clear_seen st1)) as [b st2]. simpl in Hv1.
  intros Hl. destruct (IH _ _ Hl) as [(n2 & Hv2 & Hf2) Hq]. split; [|done].
  exists (n1 ++ n2). rewrite Hv2, Hv1, app_assoc. split; [done|]. by apply Forall_app.
Qed.

Lemma ScanReader_sources s r name st res st' :
  scanner_wf s -> ScanReader s r name st = (Ok res, st') ->
  Forall (fun v => of_rule s v \/ of_abort r v) (sr_Violations res).
Proof.
  intros Hwf. unfold ScanReader. destruct (scan_lines _ r) as [lines long]. simpl.
  set (st0 := Build_eval_state _ _ _ _ _ _).
  destruct (scan_loop s 0 lines st0) as [e st1] eqn:E.
  destruct (scan_loop_sources s 0 lines st0 e st1 Hwf E) as [(new & Hv & Hf) Hq]. simpl in Hv.
  assert (Hn : Forall (fun v => of_rule s v \/ of_abort r v) (violations st1))
    by (rewrite Hv; eapply Forall_impl; [exact Hf|auto]).
  assert (Hp : forall v, of_abort r v -> Forall (fun v => of_rule s v \/ of_abort r v) (violations st1 ++ [v]))
    by (intros v Ha; apply Forall_app; split; [done|constructor; [by right|constructor]]).
  destruct e as [|v|e].
  - destruct (if long then _ else _) as [msg|] eqn:Em; [|by intros [= <- _]].
    destruct (quarantineOnError s); [|done]. intros [= <- _]. apply Hp.
    exists "scan_error", msg. split; [done|]. unfold aborts. apply elem_of_app. right.
    destruct long; [injection Em as <-; left|]. rewrite Em. right. left.
  - intros [= <- _]. apply Hp. destruct (Hq v eq_refl) as (id & msg & -> & Hin). exists id, msg. split; [done|].
    unfold aborts. apply elem_of_app. by left.
  - done.
Qed.

(** *** The decision *)

Definition denies (v : Violation) : Prop := v_ResponseAction v = "deny" \/ v_ResponseAction v = "block".

Lemma foldl_verdict vs d :
  let d' := foldl verdict_step d vs in
  (anyDeny d' = true <-> anyDeny d = true \/ Exists denies vs).
Proof.
  revert d. induction vs as [|v vs IH]; intros d; simpl.
  - rewrite Exists_nil. tauto.
  - rewrite IH, Exists_cons. simpl. rewrite !orb_true_iff, !bool_decide_eq_true. unfold denies. tauto.
Qed.

(** Deny wins over quarantine, and any violation at all prevents allow. *)
Lemma decide_violations_spec vs :
  let d := (decide_violations vs).1 in
  (d = Deny <-> Exists denies vs) /\ (d = Allow <-> vs = []) /\ d ∈ [Allow; Deny; Quarantine].
Proof.
  cbv zeta. unfold decide_violations.
  pose proof (foldl_verdict vs verdict0) as Hd. simpl in Hd.
  destruct (anyDeny _) eqn:E; simpl.
  - assert (Exists denies vs) by (by destruct (proj1 Hd eq_refl)).
    split_and!; [done| |set_solver]. split; [done|]. intros ->. by apply Exists_nil in H6.
  - assert (~ Exists denies vs) by (intros Hx; by destruct Hd as [_ Hd]; specialize (Hd (or_intror Hx))).
    destruct vs as [|v vs]; [simpl; split_and!; [done|done|set_solver]|].
    replace (0 <? List.length (v :: vs)) with true by done. rewrite orb_true_r. simpl.
    split_and!; [done|done|set_solver].
Qed.

(** *** Scanners of the pool *)

Lemma build_ok msb packs g c :
  let sc := (build msb packs g c).1.1 in
  scanner_wf sc /\ quarantineOnTimeout sc = true /\ quarantineOnError sc = true.
Proof.
  cbv zeta. unfold build.
  set (sc0 := SetQuarantineOnError _ _).
  assert (H0' : scanner_wf sc0 /\ quarantineOnTimeout sc0 = true /\ quarantineOnError sc0 = true)
    by (unfold sc0; case_if; split_and!; done).
  clearbody sc0. destruct H0' as (Hw & Ht & He).
  assert (Hl : let sc1 := match packs with [] => (sc0, g, c)
      | _ => let '(sc, _, g, c) := LoadRulePacks packs g c sc0 in (sc, g, c) end in
      scanner_wf sc1.1.1 /\ quarantineOnTimeout sc1.1.1 = true /\ quarantineOnError sc1.1.1 = true).
  { destruct packs as [|p packs]; [done|].
    pose proof (LoadRulePacks_wf (p :: packs) g c sc0 Hw) as Hw'. revert Hw'. unfold LoadRulePacks.
    destruct (compileRules _ _ _ _ _ _) as [[crs errs] c']. cbn. intros Hw'. split; [exact Hw'|done]. }
  destruct (match packs with [] => _ | _ => _ end) as [[sc1 g1] c1]. simpl in *. by case_if.
Qed.

Lemma MaxBytesReader_ok n r :
  read_err (MaxBytesReader n r) = None ->
  MaxBytesReader n r = r /\ (Z.of_nat (String.length (content r)) <= n)%Z.
Proof. unfold MaxBytesReader. case_if; [|done]. intros _. split; [done|lia]. Qed.

(** What [answer] makes of a scan by a scanner that fails closed. *)
Lemma answer_closed sc status_of reqID r start name body st :
  scanner_wf sc -> quarantineOnTimeout sc = true -> quarantineOnError sc = true ->
  exists res st1 decision reason now st',
    ScanReader sc body name st = (Ok res, st1) /\
    answer status_of reqID r start (ScanReader sc body name st) =
      (Decided (status_of decision) decision reason (Z.of_nat (List.length (sr_Violations res))) reqID,
       Some (decision_record r reqID start now (status_of decision) decision reason res), st') /\
    (decision = Deny <-> Exists denies (sr_Violations res)) /\
    (decision = Allow <-> sr_Violations res = []) /\ decision ∈ [Allow; Deny; Quarantine] /\
    Forall (fun v => of_rule sc v \/ of_abort body v) (sr_Violations res) /\
    (decision = Allow ->
     (scan_lines (bufferSizeBytes sc) body).2 = false /\ read_err body = None /\
     LinesRead (sr_Metrics res) = Z.of_nat (List.length (scan_lines (bufferSizeBytes sc) body).1) /\
     (aho sc = None -> Forall (clean_line sc) (scan_lines (bufferSizeBytes sc) body).1)).
Proof.
  intros Hw Ht He. destruct (ScanReader_clean sc body name st Hw Ht He) as (res & st1 & E & Hc).
  pose proof (ScanReader_sources sc body name st res st1 Hw E) as Hsrc.
  pose proof (decide_violations_spec (sr_Violations res)) as (Hd & Ha & Hin).
  rewrite E. unfold answer. destruct (decide_violations _) as [decision reason]. simpl in Hd, Ha, Hin.
  destruct (time_Now st1) as [now st2]. exists res, st1, decision, reason, now, st2.
  split_and!; [done|done|done|done|done|done|]. intros Hal. apply Ha in Hal. destruct (Hc Hal) as (? & ? & ? & _ & ?). done.
Qed.

Lemma status_403 (e : bool) d :
  (if e && negb (bool_decide (d = Allow)) then 403 else 200)%Z = 403%Z <-> e = true /\ d <> Allow.
Proof. destruct e; simpl; [case_bool_decide|]; simpl; intuition congruence. Qed.

(** The request presents the token, if one is configured. *)
Definition authorized (r : Request) : Prop :=
  getenv "PS_ENFORCER_AUTH_TOKEN" = "" \/ HttpAuthOK r (getenv "PS_ENFORCER_AUTH_TOKEN") = true.

Lemma authorized_test r :
  negb (bool_decide (getenv "PS_ENFORCER_AUTH_TOKEN" = "")) && negb (HttpAuthOK r (getenv "PS_ENFORCER_AUTH_TOKEN"))
    = false <-> authorized r.
Proof.
  unfold authorized. rewrite andb_false_iff, !negb_false_iff, bool_decide_eq_true. done.
Qed.

(** A violation that is the work of a rule with a deny or block response. *)
Definition denied_by_rule (sc : Scanner) (v : Violation) : Prop := denies v /\ of_rule sc v.

Lemma abort_not_denied r v : of_abort r v -> ~ denies v.
Proof. intros (id & msg & -> & _) [Hd|Hd]; discriminate Hd. Qed.

(** C1. End to end, /check fails closed.  With a scanner of the pool, an
    authorized request always gets a decision and a record of it, never an
    error, both for the result of scanning its body.  Every violation of that
    result is a rule's, or stands for an aborted scan; the decision is deny
    exactly when one of them is of a rule with a deny or block response, allow
    exactly when there is none, and quarantine otherwise; the status is 403
    when the gateway enforces and the decision is not allow, and 200 otherwise;
    and allow means that the body was within the limit, was read to its end
    and every line of it scanned, and (without the keyword automaton) that no
    rule fires on any of its lines. *)
Theorem check_fails_closed msb packs sc r st :
  built_from msb packs sc -> authorized r ->
  exists res st1 status decision reason n reqID rec st',
    ScanReader sc (MaxBytesReader max_body_bytes (Body r)) "http:request" (time_Now st).2 = (Ok res, st1) /\
    newCheckHandler sc r st = (Decided status decision reason n reqID, Some rec, st') /\
    Forall (fun v => of_rule sc v \/ of_abort (MaxBytesReader max_body_bytes (Body r)) v) (sr_Violations res) /\
    (decision = Deny <-> Exists (denied_by_rule sc) (sr_Violations res)) /\
    (decision = Allow <-> sr_Violations res = []) /\ decision ∈ [Allow; Deny; Quarantine] /\
    status = (if enforcing && negb (bool_decide (decision = Allow)) then 403 else 200)%Z /\
    n = Z.of_nat (List.length (sr_Violations res)) /\
    Decision' rec = decision /\ Status rec = status /\ Violations rec = n /\ RequestID rec = reqID /\ Reason rec = reason /\
    Matches rec = MatchesFrom (sr_Violations res) /\
    (decision = Allow ->
       n = 0%Z /\ (Z.of_nat (String.length (content (Body r))) <= max_body_bytes)%Z /\
       read_err (Body r) = None /\
       (scan_lines (bufferSizeBytes sc) (Body r)).2 = false /\
       (aho sc = None -> Forall (clean_line sc) (scan_lines (bufferSizeBytes sc) (Body r)).1)).
Proof.
  intros (g & c & ->) Hauth. destruct (build_ok msb packs g c) as (Hw & Ht & He).
  set (sc := (build msb packs g c).1.1) in *. unfold newCheckHandler.
  rewrite (proj2 (authorized_test r) Hauth). destruct (time_Now st) as [start st1] eqn:Et.
  destruct (answer_closed sc (fun decision => if enforcing && negb (bool_decide (decision = Allow)) then 403 else 200)%Z
    (if bool_decide (ctx_ReqID r = "") then new_uuid r else ctx_ReqID r) r start "http:request"
    (MaxBytesReader max_body_bytes (Body r)) st1 Hw Ht He)
    as (res & st2 & decision & reason & now & st' & Es & E & Hd & Ha & Hin & Hsrc & Hal).
  exists res, st2. eexists _, decision, reason, _, _, _, st'. split; [exact Es|]. split; [exact E|]. split_and!; try done.
  - rewrite Hd. rewrite Forall_forall in Hsrc. rewrite !Exists_exists. split; intros (v & Hv & Hdv); exists v; (split; [done|]).
    + split; [done|]. destruct (Hsrc v Hv) as [Hr|Hr]; [done|]. by destruct (abort_not_denied _ _ Hr).
    + apply Hdv.
  - intros Hd'. destruct (Hal Hd') as (H1' & H2' & _ & H4').
    destruct (MaxBytesReader_ok _ _ H2') as [Hm Hlen]. rewrite Hm in *.
    apply Ha in Hd'. rewrite Hd'. done.
Qed.

(** *** Any scanner of the gateway *)

(** What the pool, the static branch of /v1/check and the scanner manager
    make of a new scanner: they set its limits and load packs into it. *)
Inductive configured : Scanner -> Prop :=
  | configured_new n : configured (ScanEngineCstor n)
  | configured_stream n sc : configured sc -> configured (SetMaxStreamBytes n sc)
  | configured_timeout b sc : configured sc -> configured (SetQuarantineOnTimeout b sc)
  | configured_error b sc : configured sc -> configured (SetQuarantineOnError b sc)
  | configured_semantic b sc : configured sc -> configured (SetSemanticAnalyzer b sc)
  | configured_load packs g c sc : configured sc -> configured (LoadRulePacks packs g c sc).1.1.1.

Lemma configured_wf sc : configured sc -> scanner_wf sc.
Proof. induction 1; [done|exact IHconfigured..|by apply LoadRulePacks_wf]. Qed.

Lemma built_configured msb packs sc : built_from msb packs sc -> configured sc.
Proof.
  intros (g & c & ->). unfold build. set (sc0 := SetQuarantineOnError _ _).
  assert (H0' : configured sc0) by (unfold sc0; repeat first [constructor|case_if]). clearbody sc0.
  destruct packs as [|p packs]; [by case_if; simpl; [constructor|]|].
  pose proof (configured_load (p :: packs) g c sc0 H0') as Hl. destruct (LoadRulePacks _ _ _ _) as [[[sc1 e] g1] c1].
  simpl in *. by case_if; [constructor|].
Qed.

Lemma static_scanner_configured packs g c : configured (static_scanner packs g c).
Proof.
  unfold static_scanner. repeat case_match; repeat first [apply configured_new|constructor].
Qed.

Lemma answer_sources sc status_of reqID r start body name st resp rec st' :
  scanner_wf sc -> answer status_of reqID r start (ScanReader sc body name st) = (resp, Some rec, st') ->
  exists res, Forall (fun v => of_rule sc v \/ of_abort body v) (sr_Violations res) /\
    Matches rec = MatchesFrom (sr_Violations res) /\ Reason rec = (decide_violations (sr_Violations res)).2.
Proof.
  intros Hw. destruct (ScanReader sc body name st) as [[res|e] st1] eqn:E; [|by intros [= ]]. simpl.
  pose proof (ScanReader_sources sc body name st res st1 Hw E) as Hsrc.
  destruct (decide_violations _) as [decision reason] eqn:Ed. destruct (time_Now st1) as [now st2]. intros [= _ <- _].
  exists res. rewrite Ed. done.
Qed.

Lemma firstRule_first vs d :
  firstRule (foldl verdict_step d vs) = firstRule d \/ firstRule (foldl verdict_step d vs) ∈ map v_RuleID vs.
Proof.
  revert d. induction vs as [|v vs IH]; intros d; simpl; [by left|]. destruct (IH (verdict_step d v)) as [->|Hin]; [|right; by right].
  unfold verdict_step. simpl. case_bool_decide; [right; left|by left].
Qed.

Lemma reason_source vs :
  (decide_violations vs).2 ∈ ["response_action"; "signals_detected"; "no_signals"] \/ (decide_violations vs).2 ∈ map v_RuleID vs.
Proof.
  unfold decide_violations. destruct (firstRule_first vs verdict0) as [E|E]; simpl in E.
  - rewrite E. repeat case_match; simpl; left; set_solver.
  - repeat case_match; simpl; try (left; set_solver); case_bool_decide; first [left; set_solver|by right].
Qed.

(** C37. The log keeps no prompt text: whatever the body, every match in the
    record of a decision, by /check or by /v1/check with any scanner the pool,
    the static branch or the scanner manager configures, is exactly that of a
    loaded rule (its id, severity, category, response and message), or one of
    the fixed violations of an aborted scan, whose only other text is the error
    of the reader; and the reason is the id of a match or a fixed text. *)
Theorem records_hold_no_prompt sc name r st resp rec st' :
  configured sc ->
  newCheckHandler sc r st = (resp, Some rec, st') \/
  checkHandlerVersioned sc name r st = (resp, Some rec, st') ->
  Forall (fun m =>
    (exists cr, cr ∈ compiled sc /\ (m = match_of (plain_violation cr 0 0) \/ m = match_of (full_violation cr 0 0))) \/
    (exists id msg, (id, msg) ∈ aborts (MaxBytesReader max_body_bytes (Body r)) /\ m = match_of (synthetic id msg))) (Matches rec) /\
  (Reason rec ∈ ["response_action"; "signals_detected"; "no_signals"] \/ Reason rec ∈ map m_RuleID (Matches rec)).
Proof.
  intros Hw%configured_wf Hc. unfold newCheckHandler, checkHandlerVersioned in Hc.
  destruct (negb _ && negb _); [by destruct Hc|]. destruct (time_Now st) as [start st1].
  assert (Hm : exists res, Forall (fun v => of_rule sc v \/ of_abort (MaxBytesReader max_body_bytes (Body r)) v) (sr_Violations res) /\
    Matches rec = MatchesFrom (sr_Violations res) /\ Reason rec = (decide_violations (sr_Violations res)).2)
    by (destruct Hc as [Hc|Hc]; by eapply answer_sources).
  destruct Hm as (res & Hf & -> & ->). split.
  - unfold MatchesFrom. rewrite Forall_map. eapply Forall_impl; [exact Hf|].
    intros v [(cr & ln & col & Hcr & Hv)|(id & msg & -> & Hid)]; [left|right; by exists id, msg].
    exists cr. split; [done|]. by destruct Hv as [->| ->]; [left|right].
  - unfold MatchesFrom. rewrite map_map. exact (reason_source (sr_Violations res)).
Qed.
End Facts.

(** ** Examples and findings *)

Module CheckWitnesses.
Import Load.Demo.
#[local] Existing Instance literal_syntax.
#[local] Existing Instance literal_engine.
#[local] Existing Instance list_lru.
#[local] Existing Instance naive_lib.
#[local] Existing Instance quiet_world.
#[local] Existing Instance calm_env.

(** An enforcing gateway with bodies of at most 16 bytes. *)
#[local] Instance enforcing_platform : Platform :=
  {| getenv := fun v => if bool_decide (v = "PS_ENFORCER_MODE") then "Enforce"
                        else if bool_decide (v = "PS_ENFORCER_MAX_BODY_BYTES") then "16" else "";
     ParseDuration := fun _ => None |}.

Definition packs : list RulePack := [pack "p" None "" [rule "a" 1 ["foo"] []]].
Definition sc : Scanner := (build 0 packs globals0 None).1.1.
Definition request (body : string) : Request :=
  {| Header := fun _ => ""; URL_Path := "/check"; Body := {| content := body; read_err := None |};
     ctx_ReqID := "r1"; new_uuid := "u1" |}.
Definition st0 : eval_state :=
  {| violations := []; metrics := metrics0; seen := ∅; caches := ∅; calls := 0; ticks := 0 |}.

Lemma sc_configured : configured sc.
Proof. eapply (built_configured 0 packs). by exists globals0, None. Qed.

Lemma check_fails_closed_witness :
  (newCheckHandler sc (request "a Foo") st0).1.1 = Decided 403 Quarantine "a" 1 "r1" /\
  exists res st1, ScanReader sc (MaxBytesReader max_body_bytes (Body (request "fine"))) "http:request" (time_Now st0).2 = (Ok res, st1) /\
    exists status decision reason n reqID rec st',
      newCheckHandler sc (request "fine") st0 = (Decided status decision reason n reqID, Some rec, st') /\
      (decision = Deny <-> Exists (denied_by_rule sc) (sr_Violations res)).
Proof.
  split; [vm_compute; reflexivity|].
  destruct (check_fails_closed 0 packs sc (request "fine") st0) as
    (res & st1 & status & decision & reason & n & reqID & rec & st' & Es & E & _ & Hd & _).
  - by exists globals0, None.
  - by left.
  - exists res, st1. split; [exact Es|]. exists status, decision, reason, n, reqID, rec, st'. split; [exact E|exact Hd].
Defined.

Lemma records_hold_no_prompt_witness :
  exists resp rec st', newCheckHandler sc (request "a Foo") st0 = (resp, Some rec, st') /\
    map m_RuleID (Matches rec) = ["a"] /\
    (Reason rec ∈ ["response_action"; "signals_detected"; "no_signals"] \/ Reason rec ∈ map m_RuleID (Matches rec)).
Proof.
  destruct (newCheckHandler sc (request "a Foo") st0) as [[resp [rec|]] st'] eqn:E;
    [|exfalso; assert (Hn : (newCheckHandler sc (request "a Foo") st0).1.2 <> None) by (vm_compute; discriminate);
      by rewrite E in Hn].
  exists resp, rec, st'. split; [reflexivity|]. split.
  - assert (Hm : (fun r => map m_RuleID (Matches r)) <$> (newCheckHandler sc (request "a Foo") st0).1.2 = Some ["a"])
      by (vm_compute; reflexivity).
    rewrite E in Hm. by injection Hm.
  - eapply (records_hold_no_prompt sc "" (request "a Foo") st0 resp rec st'); [exact sc_configured|].
    by left.
Defined.

(** A body over the limit is not answered with 400: the reader's error is
    turned into a violation by the scanner, so the error branch of the
    handler is not reached and the answer is a quarantine decision. *)
Lemma oversized_body_is_quarantined :
  (newCheckHandler sc (request "0123456789 0123456789") st0).1.1 = Decided 403 Quarantine "scan_error" 1 "r1".
Proof. vm_compute. reflexivity. Qed.

(** /v1/scan fails open on the same body: what lies beyond the limit is
    dropped without a trace and the rest is allowed. *)
Definition no_array (_ : string) : option (list string) := None.

Lemma scan_drops_what_exceeds_the_limit :
  (scanHandler no_array 16 "" sc (request "0123456789 0123456789 foo") st0).1.1 = [(Allow, "no_signals", 0%Z)] /\
  (scanHandler no_array 64 "" sc (request "0123456789 0123456789 foo") st0).1.1 = [(Quarantine, "a", 1%Z)].
Proof. split; vm_compute; reflexivity. Qed.
End CheckWitnesses.
