(* ===== verification/Loader.v ===== *)
(** * Loader: reading rule packs and their imports

    src/internal/rules/loader.go, loader_file.go, loader_imports.go,
    loader_validate.go and patterns.go.  The file system, globbing, YAML and
    HTTP are the class [Sources]; the paths of path/filepath are modelled for
    Unix. *)

From Stdlib Require Import Ascii String.
From S2P Require Import Prelude GoString Unicode Rules Merge Verifiers Complexity Aho Literals Engine Compile Scanner Load.

Local Open Scope string_scope.

(** ** path/filepath *)

(** One element of a path, on the stack of the elements kept (innermost
    first). *)
Definition clean_step (rooted : bool) (stack : list string) (e : string) : list string :=
  if bool_decide (e = "") || bool_decide (e = ".") then stack
  else if bool_decide (e = "..") then
    match stack with
    | top :: rest => if bool_decide (top = "..") then e :: stack else rest
    | [] => if rooted then [] else [e]
    end
  else e :: stack.

Definition IsAbs (path : string) : bool := HasPrefix "/" path.

Definition Clean (path : string) : string :=
  let rooted := IsAbs path in
  let body := Join "/" (rev (foldl (clean_step rooted) [] (SplitByte "/" path))) in
  if rooted then "/" ++ body else if bool_decide (body = "") then "." else body.

Definition JoinPath (base p : string) : string :=
  if bool_decide (base = "") then (if bool_decide (p = "") then "" else Clean p)
  else Clean (base ++ "/" ++ p).

(** The last element of a path split at the separators, and the text before
    it, its separator included. *)
Definition split_last (path : string) : string * string :=
  match rev (SplitByte "/" path) with
  | leaf :: d :: rest => (Join "/" (rev (d :: rest)) ++ "/", leaf)
  | leaf :: [] => ("", leaf)
  | [] => ("", "")
  end.


Definition Dir (path : string) : string := Clean (split_last path).1.

Lemma Dir_examples :
  map Dir ["a/b.yaml"; "b.yaml"; "/b"; "/a//b"; "a/../../b"; ""] = ["a"; "."; "/"; "/a"; ".."; "."] /\
  map Clean ["a//b/./c/.."; "/.."; "../x"; "/a/../b"; "."] = ["a/b"; "/"; "../x"; "/b"; "."].
Proof. split; vm_compute; reflexivity. Qed.

Fixpoint trim_slashes (l : list string) : list string :=
  match l with "" :: l => trim_slashes l | _ => l end.

Definition Base (path : string) : string :=
  if bool_decide (path = "") then "."
  else match trim_slashes (rev (SplitByte "/" path)) with
       | leaf :: _ => leaf
       | [] => "/"
       end.

(** The suffix from the last dot of the last element. *)
Definition Ext (path : string) : string :=
  match rev (SplitByte "." (split_last path).2) with
  | e :: _ :: _ => "." ++ e
  | _ => ""
  end.

Definition hasYAMLExt (path : string) : bool :=
  bool_decide (Ext path = ".yaml") || bool_decide (Ext path = ".yml").

(** ** The outside *)

(** What [filepath.WalkDir] visits: files, directories with their entries in
    lexical order, and entries that cannot be read. *)
Inductive node :=
  | FileNode (path : string)
  | DirNode (path : string) (entries : list node)
  | BadNode (path msg : string).

Class Sources := {
  Stat : string -> result string bool;      (* is it a directory? *)
  ReadFile : string -> result string string;
  Unmarshal : string -> result string RulePack;
  Tree : string -> node;
  Glob : string -> result string (list string);
  PathMatch : string -> string -> bool;
  Rel : string -> string -> string;
  HTTPGet : string -> result string string;
  (** Opening the empty path fails. *)
  ReadFile_empty : is_ok (ReadFile "") = false;
}.

(** ** Supported features *)

Inductive feature_error :=
  | UnsupportedStrategy (strategy : string)
  | UnsupportedLogic (ruleID logic : string).

(** [validateRuleFeatures] on the rules: the first one with an unsupported
    [logic]. *)
Fixpoint validateRules (rs : list Rule) : result feature_error unit :=
  match rs with
  | [] => Ok tt
  | r :: rs =>
    if bool_decide (r_Logic r ∈ [""; "any"; "all"]) then validateRules rs
    else Err (UnsupportedLogic (r_ID r) (r_Logic r))
  end.

Definition validateSupportedFeatures (p : RulePack) : result feature_error unit :=
  match rp_Composition p with
  | Some c => if bool_decide (comp_Strategy c ∈ [""; "all_matches"; "first_match"; "priority_order"])
              then validateRules (rp_Rules p)
              else Err (UnsupportedStrategy (comp_Strategy c))
  | None => validateRules (rp_Rules p)
  end.

(** The errors of reading one pack or one import specification. *)
Inductive import_error :=
  | ReadError (path msg : string)
  | UnmarshalError (source msg : string)
  | UnsupportedFeature (path : string) (e : feature_error)
  | WalkError (msg : string)
  | GlobError (msg : string)
  | PathError (msg : string)
  | InvalidRecursiveGlob (pattern : string)
  | HTTPError (msg : string)
  | InvalidSlug (slug : string)
  | NotInMarketplace
  | NetworkDisabled
  | UnsupportedImport (spec : string).

Section Loader.
Context `{RegexpEngine, Platform, Sources}.

(** ** Files *)

(** [p] with the defaults of [loadFile] for the file [path]. *)
Definition with_defaults (path : string) (p : RulePack) : RulePack :=
  let md := rp_Metadata p in
  {| rp_APIVersion := if bool_decide (rp_APIVersion p = "") then "promptshield.io/v1" else rp_APIVersion p;
     rp_Kind := if bool_decide (rp_Kind p = "") then "RulePack" else rp_Kind p;
     rp_Metadata := {| md_Name := if bool_decide (md_Name md = "") then Base path else md_Name md;
                       md_Version := md_Version md; md_Description := md_Description md;
                       md_Author := md_Author md; md_License := md_License md;
                       md_Homepage := md_Homepage md; md_Repository := md_Repository md;
                       md_Tags := md_Tags md |};
     rp_Rules := rp_Rules p; rp_Extends := rp_Extends p; rp_Imports := rp_Imports p;
     rp_Composition := rp_Composition p; rp_Performance := rp_Performance p;
     rp_Overrides := rp_Overrides p; rp_Context := rp_Context p; rp_SourcePath := path |}.

Definition loadFile (path : string) : result import_error RulePack :=
  match ReadFile path with
  | Err e => Err (ReadError path e)
  | Ok data =>
    match Unmarshal data with
    | Err e => Err (UnmarshalError path e)
    | Ok p =>
      let p := with_defaults path p in
      match validateSupportedFeatures p with
      | Err e => Err (UnsupportedFeature path e)
      | Ok _ => Ok p
      end
    end
  end.

(** The callback of [loadDir] on the entries of the directory. *)
Fixpoint loadEntries (es : list node) : result import_error (list RulePack) :=
  match es with
  | [] => Ok []
  | BadNode _ msg :: _ => Err (WalkError msg)
  | DirNode _ _ :: es => loadEntries es
  | FileNode path :: es =>
    if hasYAMLExt path then
      match loadFile path with
      | Err e => Err e
      | Ok p => match loadEntries es with Ok ps => Ok (p :: ps) | Err e => Err e end
      end
    else loadEntries es
  end.

Definition loadDir (dir : string) : result import_error (list RulePack) :=
  match Tree dir with
  | DirNode _ es => loadEntries es
  | FileNode path => loadEntries [FileNode path]
  | BadNode _ msg => Err (WalkError msg)
  end.

(** ** Imports *)

(** The files below a directory that [walkAndMatch] looks at. *)
Definition skipped_dirs : list string := [".git"; "node_modules"; "dist"; "vendor"; "build"; "target"].

Fixpoint walk_files (n : node) : list string :=
  match n with
  | FileNode path => [path]
  | BadNode _ _ => []
  | DirNode path es => if bool_decide (Base path ∈ skipped_dirs) then [] else flat_map walk_files es
  end.

Definition walkAndMatch (pattern : string) : result import_error (list RulePack) :=
  match Index pattern "**" with
  | None => Err (InvalidRecursiveGlob pattern)
  | Some idx =>
    let root := Dir (stake idx pattern) in
    let leaf := sdrop (idx + 2) pattern in
    let leaf := if HasPrefix "/" leaf then sdrop 1 leaf else leaf in
    let step out path :=
      let test := if Contains leaf "/" then Rel root path else Base path in
      if PathMatch leaf test && hasYAMLExt path
      then match loadFile path with Ok p => (out ++ [p])%list | Err _ => out end
      else out in
    Ok (foldl step [] (walk_files (Tree root)))
  end.

(** [p.SourcePath = ""]. *)
Definition without_source (p : RulePack) : RulePack :=
  {| rp_APIVersion := rp_APIVersion p; rp_Kind := rp_Kind p; rp_Metadata := rp_Metadata p;
     rp_Rules := rp_Rules p; rp_Extends := rp_Extends p; rp_Imports := rp_Imports p;
     rp_Composition := rp_Composition p; rp_Performance := rp_Performance p;
     rp_Overrides := rp_Overrides p; rp_Context := rp_Context p; rp_SourcePath := "" |}.

Definition fetchRemotePack (url : string) : result import_error (list RulePack) :=
  match HTTPGet url with
  | Err e => Err (HTTPError e)
  | Ok data => match Unmarshal data with
               | Err e => Err (UnmarshalError url e)
               | Ok p => Ok [without_source p]
               end
  end.

(** The first candidate that is a file. *)
Fixpoint first_candidate (cs : list string) : option string :=
  match cs with
  | [] => None
  | c :: cs => match Stat c with Ok false => Some c | _ => first_candidate cs end
  end.

(** The first URL that can be fetched, or the last error. *)
Fixpoint first_fetched (urls : list string) (last : import_error) : result import_error (list RulePack) :=
  match urls with
  | [] => Err last
  | u :: urls => match fetchRemotePack u with Ok ps => Ok ps | Err e => first_fetched urls e end
  end.

Fixpoint TrimRightSlash (s : string) : string :=
  match s with
  | EmptyString => EmptyString
  | String c s' => if forallb_str (fun c => bool_decide (c = "/"%char)) s then EmptyString
                   else String c (TrimRightSlash s')
  end.

Definition net_imports : bool := bool_decide (getenv "PS_ALLOW_NET_IMPORTS" = "1").

Definition resolveMarketplace (slug : string) : result import_error (list RulePack) :=
  match CutByte "@" slug with
  | None => Err (InvalidSlug slug)
  | Some (nsAndName, ver) =>
    match CutByte "/" nsAndName with
    | None => Err (InvalidSlug slug)
    | Some (ns, name) =>
      let base := getenv "PS_MARKETPLACE_DIR" in
      let base := if bool_decide (base = "") then "rules" else base in
      let at_ p := JoinPath (JoinPath base ns) p in
      match first_candidate [at_ (name ++ "@" ++ ver ++ ".yaml"); JoinPath (at_ name) (ver ++ ".yaml");
                             JoinPath (JoinPath (at_ name) ver) "rulepack.yaml"] with
      | Some c => match loadFile c with Ok p => Ok [p] | Err e => Err e end
      | None =>
        if net_imports then
          let reg := getenv "PS_REGISTRY_URL" in
          let reg := TrimRightSlash (if bool_decide (reg = "") then "https://registry.promptshield.io" else reg) in
          first_fetched [reg ++ "/" ++ ns ++ "/" ++ name ++ "/" ++ ver ++ "/rulepack.yaml";
                         reg ++ "/" ++ ns ++ "/" ++ name ++ "@" ++ ver ++ ".yaml"] NotInMarketplace
        else Err NotInMarketplace
      end
    end
  end.

(** The matches of a glob, loaded. *)
Fixpoint load_matches (ms : list string) : result import_error (list RulePack) :=
  match ms with
  | [] => Ok []
  | m :: ms =>
    match Stat m with
    | Err _ => load_matches ms
    | Ok isDir =>
      let here := if (isDir : bool) then loadDir m
                  else if hasYAMLExt m then match loadFile m with Ok p => Ok [p] | Err e => Err e end
                  else Ok [] in
      match here with
      | Err e => Err e
      | Ok ps => match load_matches ms with Ok qs => Ok (ps ++ qs)%list | Err e => Err e end
      end
    end
  end.

Definition is_glob (spec : string) : bool :=
  Contains spec "*" || Contains spec "?" || Contains spec "[" || Contains spec "**".

Definition in_base (baseDir p : string) : string := if IsAbs p then p else JoinPath baseDir p.

(** The rest of [resolveImportSpec], for globs and files. *)
Definition resolveFiles (baseDir spec : string) : result import_error (list RulePack) :=
  if is_glob spec then
    let pattern := in_base baseDir spec in
    if Contains pattern "**" then walkAndMatch pattern
    else match Glob pattern with Err e => Err (GlobError e) | Ok ms => load_matches ms end
  else
    let impPath := in_base baseDir spec in
    match Stat impPath with
    | Err e => Err (PathError e)
    | Ok true => loadDir impPath
    | Ok false =>
      if hasYAMLExt impPath
      then match loadFile impPath with Ok p => Ok [p] | Err e => Err e end
      else Err (UnsupportedImport spec)
    end.

Definition resolveImportSpec (baseDir spec : string) : result import_error (list RulePack) :=
  let spec := TrimSpace spec in
  if bool_decide (spec = "") then Ok []
  else if HasPrefix "http://" spec || HasPrefix "https://" spec then
    if net_imports then fetchRemotePack spec
    else Err NetworkDisabled
  else
    let marketplace := if Contains spec "@" && Contains spec "/"
                       then match resolveMarketplace spec with
                            | Ok (p :: ps) => Some (p :: ps)
                            | _ => None
                            end
                       else None in
    match marketplace with
    | Some ps => Ok ps
    | None => resolveFiles baseDir spec
    end.

(** ** Import resolution *)

Inductive load_error :=
  | StatError (path msg : string)
  | LoadFailed (e : import_error)
  | ImportError (spec name : string) (e : import_error)
  | DuplicateName (name first second : string)
  | BadPatterns (errs : list (string * nat * string))
  | OutOfFuel.

(** The variables the closure [resolve] captures. *)
Record resolution := {
  seen_keys : gset string;
  emitted : gset string;
  out : list RulePack;
  importErr : option load_error;
}.

Definition self_key (p : RulePack) : string :=
  if bool_decide (rp_SourcePath p = "") then rp_Name p else rp_SourcePath p.

(** "Emit current pack once". *)
Definition emit (p : RulePack) (s : resolution) : resolution :=
  if bool_decide (self_key p ∈ emitted s) then s
  else {| seen_keys := seen_keys s; emitted := {[self_key p]} ∪ emitted s; out := (out s ++ [p])%list;
          importErr := importErr s |}.

Definition fail_import (e : load_error) (s : resolution) : resolution :=
  {| seen_keys := seen_keys s; emitted := emitted s; out := out s; importErr := Some e |}.

Definition mark_seen (k : string) (s : resolution) : resolution :=
  {| seen_keys := {[k]} ∪ seen_keys s; emitted := emitted s; out := out s; importErr := importErr s |}.

Definition import_key (spec : string) (sp : RulePack) : string :=
  if bool_decide (rp_SourcePath sp = "") then spec ++ "::" ++ rp_Name sp else rp_SourcePath sp.

(** [filepath.Dir("")] is ".", so a pack without a source keeps the base
    directory of its importer. *)
Definition base_of (baseDir : string) (sp : RulePack) : string :=
  let b := Dir (rp_SourcePath sp) in
  if bool_decide (b = ".") && bool_decide (rp_SourcePath sp = "") then baseDir else b.

(** One imported pack; [rec] is the recursive call. *)
Definition visit_sub (rec : string -> RulePack -> resolution -> resolution) (baseDir spec : string)
    (s : resolution) (sp : RulePack) : resolution :=
  let key := import_key spec sp in
  if bool_decide (key ∈ seen_keys s) then s
  else rec (base_of baseDir sp) sp (mark_seen key s).

(** The loop over the imports; an error ends it. *)
Fixpoint visit_imports (rec : string -> RulePack -> resolution -> resolution) (baseDir name : string)
    (specs : list string) (s : resolution) : resolution :=
  match specs with
  | [] => s
  | spec :: specs =>
    match resolveImportSpec baseDir spec with
    | Err e => fail_import (ImportError spec name e) s
    | Ok subpacks =>
      visit_imports rec baseDir name specs (foldl (visit_sub rec baseDir spec) s subpacks)
    end
  end.

(** [resolve]; the recursion is bounded by [fuel]. *)
Fixpoint resolve (fuel : nat) (baseDir : string) (p : RulePack) (s : resolution) : resolution :=
  match fuel with
  | O => fail_import OutOfFuel s
  | S fuel => visit_imports (resolve fuel) baseDir (rp_Name p) (rp_Imports p) (emit p s)
  end.

(** The loop over the packs of the path itself. *)
Fixpoint resolve_roots (fuel : nat) (packs : list RulePack) (s : resolution) : resolution :=
  match packs with
  | [] => s
  | p :: packs =>
    let s := resolve fuel (base_of "." p) p (mark_seen (self_key p) s) in
    match importErr s with
    | Some _ => s
    | None => resolve_roots fuel packs s
    end
  end.

Definition resolution0 : resolution :=
  {| seen_keys := ∅; emitted := ∅; out := []; importErr := None |}.

(** ** Checks *)

Definition source_name (p : RulePack) : string :=
  if bool_decide (rp_SourcePath p = "") then "(remote)" else rp_SourcePath p.

Fixpoint unique_names (seen : gmap string string) (packs : list RulePack) : option load_error :=
  match packs with
  | [] => None
  | p :: packs =>
    let name := rp_Name p in
    if bool_decide (name = "") then unique_names seen packs
    else match seen !! name with
         | Some prev => Some (DuplicateName name prev (source_name p))
         | None => unique_names (<[name := source_name p]> seen) packs
         end
  end.
Definition checkUniqueNames (packs : list RulePack) : option load_error := unique_names ∅ packs.

Definition CompilePattern (expr : string) (flags : list string) : result string regexp :=
  if bool_decide (expr = "") then Err "empty regex" else regexp_Compile (inline_flags flags ++ expr).

(** The errors of a list of patterns: the rule, the index and the message. *)
Definition check_patterns (id : string) (ps : list Pattern) : list (string * nat * string) :=
  omap (fun ip => match CompilePattern (pat_Regex ip.2) (pat_Flags ip.2) with
                  | Err e => Some (id, ip.1, e)
                  | Ok _ => None
                  end) (indexed ps).

(** [CheckPatterns]; no error is the empty list. *)
Definition CheckPatterns (p : RulePack) : list (string * nat * string) :=
  flat_map (fun r => (check_patterns (r_ID r) (r_Patterns r) ++
                      match r_Fallback r with
                      | Some fb => check_patterns (r_ID r) (fb_Patterns fb)
                      | None => []
                      end)%list) (rp_Rules p).

Fixpoint check_all (packs : list RulePack) : option load_error :=
  match packs with
  | [] => None
  | p :: packs => match CheckPatterns p with [] => check_all packs | errs => Some (BadPatterns errs) end
  end.

(** The packs of the path itself. *)
Definition root_packs (path : string) : result load_error (list RulePack) :=
  match Stat path with
  | Err e => Err (StatError path e)
  | Ok true => match loadDir path with Ok ps => Ok ps | Err e => Err (LoadFailed e) end
  | Ok false => match loadFile path with Ok p => Ok [p] | Err e => Err (LoadFailed e) end
  end.

Definition LoadPacks (fuel : nat) (path : string) : result load_error (list RulePack) :=
  match root_packs path with
  | Err e => Err e
  | Ok packs =>
    let s := resolve_roots fuel packs resolution0 in
    match importErr s with
    | Some e => Err e
    | None =>
      match checkUniqueNames (out s) with
      | Some e => Err e
      | None => match check_all (out s) with Some e => Err e | None => Ok (out s) end
      end
    end
  end.
End Loader.

(** ** Facts *)

Section LoaderFacts.
Context `{RegexpEngine, Platform, Sources}.

(** [p] is what its source file holds. *)
Definition loaded (p : RulePack) : Prop := loadFile (rp_SourcePath p) = Ok p.

Lemma loadFile_loaded path p : loadFile path = Ok p -> loaded p /\ rp_SourcePath p = path.
Proof.
  intros E. assert (Hp : rp_SourcePath p = path).
  { unfold loadFile in E. destruct (ReadFile path); [|done]. destruct (Unmarshal _); [|done].
    cbv zeta in E. destruct (validateSupportedFeatures _); [|done]. by injection E as <-. }
  split; [|done]. unfold loaded. by rewrite Hp.
Qed.

Lemma loaded_source p : loaded p -> rp_SourcePath p <> "".
Proof.
  unfold loaded, loadFile. intros Hl E. rewrite E in Hl. pose proof ReadFile_empty as He.
  by destruct (ReadFile "").
Qed.

Lemma loaded_inj p q : loaded p -> loaded q -> rp_SourcePath p = rp_SourcePath q -> p = q.
Proof. unfold loaded. intros Hp Hq E. rewrite E in Hp. rewrite Hp in Hq. by injection Hq. Qed.

Definition all_loaded (r : result import_error (list RulePack)) : Prop :=
  match r with Ok ps => Forall loaded ps | Err _ => True end.

Lemma loadFile_single path :
  all_loaded (match loadFile path with Ok p => Ok [p] | Err e => Err e end).
Proof.
  destruct (loadFile path) eqn:E; [|done]. constructor; [|constructor]. by apply loadFile_loaded in E as [? _].
Qed.

Lemma loadEntries_loaded es : all_loaded (loadEntries es).
Proof.
  induction es as [|[path|path es'|path msg] es IH]; simpl; [constructor| |done|done].
  case_if; [|done]. destruct (loadFile path) eqn:Ef; [|done].
  destruct (loadEntries es); [|done]. constructor; [|done]. by apply loadFile_loaded in Ef as [? _].
Qed.

Lemma loadDir_loaded dir : all_loaded (loadDir dir).
Proof. unfold loadDir. destruct (Tree dir); [apply loadEntries_loaded..|done]. Qed.

Lemma load_matches_loaded ms : all_loaded (load_matches ms).
Proof.
  induction ms as [|m ms IH]; simpl; [constructor|]. destruct (Stat m) as [isDir|]; [|done].
  set (here := if isDir then _ else _). assert (Hh : all_loaded here).
  { unfold here. destruct isDir; [apply loadDir_loaded|]. case_if; [apply loadFile_single|constructor]. }
  destruct here as [ps|]; [|done]. destruct (load_matches ms); [|done]. by apply Forall_app.
Qed.

Lemma walkAndMatch_loaded pattern : all_loaded (walkAndMatch pattern).
Proof.
  unfold walkAndMatch. destruct (Index pattern "**"); [|done]. cbv zeta. simpl.
  set (step := fun (out : list RulePack) (path : string) => _).
  generalize (walk_files (Tree (Dir (stake n pattern)))) as fs.
  assert (Hf : forall fs o, Forall loaded o -> Forall loaded (foldl step o fs)).
  { induction fs as [|f fs IH]; intros o Ho; [done|]. simpl. apply IH. unfold step at 1.
    case_if; [|done]. destruct (loadFile f) eqn:Ef; [|done].
    apply Forall_app. split; [done|]. constructor; [|constructor]. by apply loadFile_loaded in Ef as [? _]. }
  intros fs. by apply Hf.
Qed.

Lemma resolveMarketplace_loaded slug : net_imports = false -> all_loaded (resolveMarketplace slug).
Proof.
  intros Hn. unfold resolveMarketplace. destruct (CutByte "@" slug) as [[a ver]|]; [|done].
  destruct (CutByte "/" a) as [[ns name]|]; [|done]. cbv zeta.
  destruct (first_candidate _); [apply loadFile_single|]. by rewrite Hn.
Qed.

(** Without network imports everything imported comes from a file. *)
Lemma resolveImportSpec_loaded baseDir spec :
  net_imports = false -> all_loaded (resolveImportSpec baseDir spec).
Proof.
  intros Hn. unfold resolveImportSpec. cbv zeta. case_if; [constructor|]. case_if; [by rewrite Hn|].
  set (mk := if _ && _ then _ else _).
  assert (Hm : match mk with Some ps => Forall loaded ps | None => True end).
  { unfold mk. case_if; [|done]. pose proof (resolveMarketplace_loaded (TrimSpace spec) Hn) as Hr.
    by destruct (resolveMarketplace _) as [[|? ?]|]. }
  destruct mk; [done|]. unfold resolveFiles. cbv zeta. case_if; [case_if|].
  - apply walkAndMatch_loaded.
  - destruct (Glob _); [apply load_matches_loaded|done].
  - destruct (Stat _) as [[]|]; [apply loadDir_loaded| |done]. case_if; [apply loadFile_single|done].
Qed.

Lemma root_packs_loaded path : match root_packs path with Ok ps => Forall loaded ps | Err _ => True end.
Proof.
  unfold root_packs. destruct (Stat path) as [[]|]; [| |done].
  - pose proof (loadDir_loaded path). by destruct (loadDir path).
  - pose proof (loadFile_single path). by destruct (loadFile path).
Qed.

(** *** What resolution computes *)

(** [q] is imported by [p]. *)
Definition imports (p q : RulePack) : Prop :=
  exists spec sps, spec ∈ rp_Imports p /\
    resolveImportSpec (Dir (rp_SourcePath p)) spec = Ok sps /\ q ∈ sps.

Lemma imports_loaded p q : net_imports = false -> imports p q -> loaded q.
Proof.
  intros Hn (spec & sps & _ & E & Hin). pose proof (resolveImportSpec_loaded (Dir (rp_SourcePath p)) spec Hn) as Hs.
  rewrite E in Hs. by eapply (proj1 (Forall_forall _ _) Hs).
Qed.

(** Every import of [p] resolves, to packs of [o]. *)
Definition closed_in (o : list RulePack) (p : RulePack) : Prop :=
  forall spec, spec ∈ rp_Imports p ->
    exists sps, resolveImportSpec (Dir (rp_SourcePath p)) spec = Ok sps /\ sps ⊆ o.

Record resolution_ok (s : resolution) : Prop := {
  res_emitted : emitted s = list_to_set (map rp_SourcePath (out s));
  res_nodup : NoDup (map rp_SourcePath (out s));
  res_loaded : Forall loaded (out s);
  res_seen : seen_keys s ⊆ emitted s;
}.

(** Going from [s] to [s'] kept the packs and added packs that satisfy [R],
    with all their imports. *)
Definition grows (R : RulePack -> Prop) (s s' : resolution) : Prop :=
  importErr s = None /\ resolution_ok s' /\ out s ⊆ out s' /\
  forall q, q ∈ out s' -> q ∈ out s \/ (closed_in (out s') q /\ R q).

Lemma closed_in_mono o o' p : o ⊆ o' -> closed_in o p -> closed_in o' p.
Proof.
  intros Ho Hc spec Hs. destruct (Hc spec Hs) as (sps & E & Hsub). exists sps. split; [done|].
  intros q Hq. auto.
Qed.

Lemma grows_refl R s : importErr s = None -> resolution_ok s -> grows R s s.
Proof. intros He Hs. split_and!; auto. Qed.

Lemma grows_trans R s1 s2 s3 : grows R s1 s2 -> grows R s2 s3 -> grows R s1 s3.
Proof.
  intros (He & Hs & Ho & Hq) (_ & Hs' & Ho' & Hq'). split_and!; [done|done|intros q ?; auto|].
  intros q Hin. destruct (Hq' q Hin) as [Hin'|?]; [|by right].
  destruct (Hq q Hin') as [?|[Hc HR]]; [by left|right]. split; [|done]. by eapply closed_in_mono.
Qed.

Lemma grows_impl (R R' : RulePack -> Prop) s s' : (forall q, R q -> R' q) -> grows R s s' -> grows R' s s'.
Proof.
  intros HR (He & Hs & Ho & Hq). split_and!; [done..|]. intros q Hin. destruct (Hq q Hin) as [?|[? ?]]; auto.
Qed.

Lemma self_key_loaded p : loaded p -> self_key p = rp_SourcePath p.
Proof. intros Hp%loaded_source. unfold self_key. by rewrite bool_decide_eq_false_2. Qed.
Lemma import_key_loaded spec p : loaded p -> import_key spec p = rp_SourcePath p.
Proof. intros Hp%loaded_source. unfold import_key. by rewrite bool_decide_eq_false_2. Qed.
Lemma base_of_loaded base p : loaded p -> base_of base p = Dir (rp_SourcePath p).
Proof.
  intros Hp%loaded_source. unfold base_of. cbv zeta.
  by rewrite (bool_decide_eq_false_2 (rp_SourcePath p = "")), andb_false_r.
Qed.

Lemma emitted_elem s p : resolution_ok s -> loaded p -> rp_SourcePath p ∈ emitted s -> p ∈ out s.
Proof.
  intros Hs Hp. rewrite (res_emitted _ Hs), elem_of_list_to_set. intros Hin.
  apply list_elem_of_fmap in Hin as (q & Hq & Hin). pose proof (res_loaded _ Hs) as Hl.
  rewrite Forall_forall in Hl. by rewrite (loaded_inj p q Hp (Hl q Hin) Hq).
Qed.

(** The state after [seen] has gained the key of [p] and [p] is emitted. *)
Lemma emit_ok p s :
  resolution_ok s -> loaded p ->
  resolution_ok (emit p (mark_seen (rp_SourcePath p) s)) /\ p ∈ out (emit p (mark_seen (rp_SourcePath p) s)) /\
  out s ⊆ out (emit p (mark_seen (rp_SourcePath p) s)) /\
  (forall q, q ∈ out (emit p (mark_seen (rp_SourcePath p) s)) -> q ∈ out s \/ q = p).
Proof.
  intros Hs Hp. unfold emit. rewrite (self_key_loaded p Hp). simpl. case_bool_decide as He.
  - pose proof (emitted_elem s p Hs Hp He). split_and!; [|done|done|auto].
    destruct Hs as [H1' H2' H3' H4']. split; simpl; [done|done|done|set_solver].
  - simpl. split_and!; [|set_solver..]. destruct Hs as [H1' H2' H3' H4']. split; simpl.
    + rewrite map_app, list_to_set_app_L, H1'. simpl. set_solver.
    + rewrite map_app. apply NoDup_app. split_and!; [done| |apply NoDup_singleton].
      intros k Hk Hk'. simpl in Hk'. apply list_elem_of_singleton in Hk'. subst k.
      apply He. by rewrite H1', elem_of_list_to_set.
    + apply Forall_app. by repeat constructor.
    + set_solver.
Qed.

(** What the recursive call guarantees on a pack whose key was just marked. *)
Definition resolves (rec : string -> RulePack -> resolution -> resolution) : Prop :=
  forall p s, loaded p -> resolution_ok s ->
    let s' := rec (Dir (rp_SourcePath p)) p (mark_seen (rp_SourcePath p) s) in
    importErr s' = None ->
    grows (rtc imports p) s s' /\ p ∈ out s' /\ closed_in (out s') p.

(** An import error is never forgotten. *)
Definition sticky (rec : string -> RulePack -> resolution -> resolution) : Prop :=
  forall base p s, importErr (rec base p s) = None -> importErr s = None.

Section Step.
Context (rec : string -> RulePack -> resolution -> resolution).
Hypothesis Hsticky : sticky rec.

Lemma visit_sub_sticky base spec s sp :
  importErr (visit_sub rec base spec s sp) = None -> importErr s = None.
Proof. unfold visit_sub. cbv zeta. case_if; [done|]. by intros ?%Hsticky. Qed.

Lemma visit_subs_sticky base spec sps s :
  importErr (foldl (visit_sub rec base spec) s sps) = None -> importErr s = None.
Proof.
  revert s. induction sps as [|sp sps IH]; intros s; simpl; [done|]. by intros ?%IH%visit_sub_sticky.
Qed.

Lemma visit_imports_sticky base name specs s :
  importErr (visit_imports rec base name specs s) = None -> importErr s = None.
Proof.
  revert s. induction specs as [|spec specs IH]; intros s; simpl; [done|].
  destruct (resolveImportSpec base spec); [|done]. by intros ?%IH%visit_subs_sticky.
Qed.

Hypothesis Hrec : resolves rec.

Lemma visit_sub_grows base spec s sp :
  loaded sp -> resolution_ok s -> importErr (visit_sub rec base spec s sp) = None ->
  grows (rtc imports sp) s (visit_sub rec base spec s sp) /\ sp ∈ out (visit_sub rec base spec s sp).
Proof.
  intros Hp Hs. unfold visit_sub. cbv zeta. rewrite import_key_loaded, base_of_loaded by done.
  case_bool_decide as Hk; intros He.
  - split; [by apply grows_refl|]. apply emitted_elem; [done..|]. by apply (res_seen _ Hs).
  - destruct (Hrec sp s Hp Hs He) as (? & ? & _). done.
Qed.

Lemma visit_subs_grows base spec sps s :
  Forall loaded sps -> resolution_ok s -> importErr (foldl (visit_sub rec base spec) s sps) = None ->
  grows (fun q => exists sp, sp ∈ sps /\ rtc imports sp q) s (foldl (visit_sub rec base spec) s sps) /\
  sps ⊆ out (foldl (visit_sub rec base spec) s sps).
Proof.
  revert s. induction sps as [|sp sps IH]; intros s Hl Hs He; simpl in *.
  { split; [by apply grows_refl|]. intros q ?%not_elem_of_nil. done. }
  apply Forall_cons in Hl as [Hp Hl]. pose proof (visit_subs_sticky _ _ _ _ He) as He1.
  destruct (visit_sub_grows base spec s sp Hp Hs He1) as [Hg Hin].
  destruct (IH _ Hl ltac:(apply Hg) He) as [Hg' Hsub].
  split.
  - eapply grows_trans; (eapply grows_impl; [|done]); simpl; [intros q Hq; exists sp; set_solver|].
    intros q (sp' & ? & ?). exists sp'. set_solver.
  - intros q [->|Hq]%elem_of_cons; [|by apply Hsub]. apply Hg'. done.
Qed.

Lemma visit_imports_grows p specs s :
  net_imports = false -> specs ⊆ rp_Imports p -> resolution_ok s ->
  let s' := visit_imports rec (Dir (rp_SourcePath p)) (rp_Name p) specs s in
  importErr s' = None ->
  grows (rtc imports p) s s' /\
  (forall spec, spec ∈ specs ->
     exists sps, resolveImportSpec (Dir (rp_SourcePath p)) spec = Ok sps /\ sps ⊆ out s').
Proof.
  intros Hn. revert s. induction specs as [|spec specs IH]; intros s Hsub Hs; cbv zeta; simpl.
  { intros He. split; [by apply grows_refl|]. by intros ? ?%not_elem_of_nil. }
  pose proof (resolveImportSpec_loaded (Dir (rp_SourcePath p)) spec Hn) as Hl.
  destruct (resolveImportSpec _ spec) as [sps|] eqn:E; [|done]. simpl in Hl. intros He.
  pose proof (visit_imports_sticky _ _ _ _ He) as He1.
  destruct (visit_subs_grows _ spec sps s Hl Hs He1) as [Hg Hin].
  destruct (IH (foldl (visit_sub rec (Dir (rp_SourcePath p)) spec) s sps)) as [Hg' Hall];
    [set_solver|apply Hg|done|].
  split.
  - eapply grows_trans; [|done]. eapply grows_impl; [|done]. intros q (sp & Hsp & Hr).
    eapply rtc_l; [|done]. exists spec, sps. set_solver.
  - intros spec' [->|Hs']%elem_of_cons; [|auto]. exists sps. split; [done|].
    destruct Hg' as (_ & _ & Ho & _). intros q Hq. auto.
Qed.
End Step.

Lemma resolve_sticky fuel : sticky (resolve fuel).
Proof.
  induction fuel as [|fuel IH]; intros base p s; [done|]. simpl. intros He.
  apply visit_imports_sticky in He; [|done]. revert He. unfold emit. by case_if.
Qed.

Lemma resolve_resolves fuel : net_imports = false -> resolves (resolve fuel).
Proof.
  intros Hn. induction fuel as [|fuel IH]; intros p s Hp Hs; cbv zeta; [done|]. simpl. intros He.
  destruct (emit_ok p s Hs Hp) as (Hs1 & Hin & Ho & Hq).
  destruct (visit_imports_grows (resolve fuel) (resolve_sticky fuel) IH p (rp_Imports p) _ Hn ltac:(done) Hs1 He)
    as [(He1 & Hs2 & Ho2 & Hq2) Hall].
  split_and!; [|auto|done]. split_and!; [|done|set_solver|].
  - revert He1. unfold emit. by case_if.
  - intros q Hq'. destruct (Hq2 q Hq') as [Hq1|?]; [|by right]. destruct (Hq q Hq1) as [?| ->]; [by left|].
    right. split; [done|apply rtc_refl].
Qed.

Lemma resolve_roots_grows fuel packs s :
  net_imports = false -> Forall loaded packs -> resolution_ok s ->
  let s' := resolve_roots fuel packs s in
  importErr s' = None ->
  grows (fun q => exists p, p ∈ packs /\ rtc imports p q) s s' /\ packs ⊆ out s'.
Proof.
  intros Hn. revert s. induction packs as [|p packs IH]; intros s Hl Hs; cbv zeta; simpl.
  { intros He. split; [by apply grows_refl|]. by intros ? ?%not_elem_of_nil. }
  apply Forall_cons in Hl as [Hp Hl]. rewrite self_key_loaded, base_of_loaded by done.
  destruct (importErr (resolve fuel _ p _)) eqn:E; [congruence|]. intros He.
  destruct (resolve_resolves fuel Hn p s Hp Hs E) as (Hg & Hin & _).
  destruct (IH _ Hl ltac:(apply Hg) He) as [Hg' Hsub]. split.
  - eapply grows_trans; (eapply grows_impl; [|done]); simpl; [intros q Hq; exists p; set_solver|].
    intros q (p' & ? & ?). exists p'. set_solver.
  - intros q [->|Hq]%elem_of_cons; [|auto]. destruct Hg' as (_ & _ & Ho & _). auto.
Qed.

(** *** Termination *)

(** The keys of [U] that are not yet marked bound the depth of the
    recursion. *)
Definition unseen (U : gset string) (s : resolution) : nat := size (U ∖ seen_keys s).

Lemma unseen_mono U s s' : seen_keys s ⊆ seen_keys s' -> unseen U s' <= unseen U s.
Proof. intros Hs. apply subseteq_size. set_solver. Qed.

Lemma unseen_mark U s k : k ∈ U -> k ∉ seen_keys s -> S (unseen U (mark_seen k s)) <= unseen U s.
Proof.
  intros HU Hk. unfold unseen. simpl.
  apply subset_size. split; [set_solver|]. intros Hsub.
  assert (Hin : k ∈ U ∖ seen_keys s) by set_solver. apply Hsub in Hin. set_solver.
Qed.

(** The recursion with [bot] in place of the calls beyond the fuel.  If [bot]
    does not matter, no such call is made. *)
Definition call : Type := string -> RulePack -> resolution -> resolution.
Fixpoint resolve_or (bot : call) (fuel : nat) (baseDir : string) (p : RulePack) (s : resolution) : resolution :=
  match fuel with
  | O => bot baseDir p s
  | S fuel => visit_imports (resolve_or bot fuel) baseDir (rp_Name p) (rp_Imports p) (emit p s)
  end.
Fixpoint resolve_roots_or (bot : call) (fuel : nat) (packs : list RulePack) (s : resolution) : resolution :=
  match packs with
  | [] => s
  | p :: packs =>
    let s := resolve_or bot fuel (base_of "." p) p (mark_seen (self_key p) s) in
    match importErr s with
    | Some _ => s
    | None => resolve_roots_or bot fuel packs s
    end
  end.
Definition out_of_fuel : call := fun _ _ s => fail_import OutOfFuel s.

Lemma visit_imports_ext (rec1 rec2 : call) base name specs s :
  (forall b p s, rec1 b p s = rec2 b p s) -> visit_imports rec1 base name specs s = visit_imports rec2 base name specs s.
Proof.
  intros He. revert s. induction specs as [|spec specs IH]; intros s; simpl; [done|]. destruct (resolveImportSpec base spec) as [sps|]; [|done].
  rewrite IH. f_equal. revert s. induction sps as [|sp sps IHs]; intros s; simpl; [done|]. unfold visit_sub at 2 4. by rewrite He.
Qed.

Lemma resolve_or_resolve fuel : forall b p s, resolve_or out_of_fuel fuel b p s = resolve fuel b p s.
Proof. induction fuel as [|fuel IH]; intros b p s; [done|]. by apply visit_imports_ext. Qed.

(** More fuel is another [bot]. *)
Lemma resolve_or_add bot k fuel : forall b p s, resolve_or (resolve_or bot k) fuel b p s = resolve_or bot (fuel + k) b p s.
Proof. induction fuel as [|fuel IH]; intros b p s; [done|]. by apply visit_imports_ext. Qed.

Lemma resolve_roots_or_ext bot1 fuel1 bot2 fuel2 packs s :
  (forall b p s, resolve_or bot1 fuel1 b p s = resolve_or bot2 fuel2 b p s) ->
  resolve_roots_or bot1 fuel1 packs s = resolve_roots_or bot2 fuel2 packs s.
Proof. intros He. revert s. induction packs as [|p packs IH]; intros s; simpl; [done|]. rewrite He. by case_match. Qed.

Lemma resolve_roots_or_resolve fuel packs s : resolve_roots_or out_of_fuel fuel packs s = resolve_roots fuel packs s.
Proof. revert s. induction packs as [|p packs IH]; intros s; simpl; [done|]. rewrite resolve_or_resolve. by case_match. Qed.

(** [R] holds of the packs that are reached; their files are in [U]. *)
Section Fuel.
Context (U : gset string) (R : RulePack -> Prop).
Hypothesis HR : forall p, R p -> loaded p /\ rp_SourcePath p ∈ U.
Hypothesis Himports : forall p q, R p -> imports p q -> R q.

(** Two calls agree when the packs not yet seen are fewer than [n]. *)
Definition agree (n : nat) (rec1 rec2 : call) : Prop :=
  forall p s, R p -> unseen U s < n ->
    rec1 (Dir (rp_SourcePath p)) p s = rec2 (Dir (rp_SourcePath p)) p s /\
    seen_keys s ⊆ seen_keys (rec1 (Dir (rp_SourcePath p)) p s).

Lemma visit_subs_agree n rec1 rec2 base spec sps s :
  agree n rec1 rec2 -> Forall R sps -> unseen U s <= n ->
  foldl (visit_sub rec1 base spec) s sps = foldl (visit_sub rec2 base spec) s sps /\
  seen_keys s ⊆ seen_keys (foldl (visit_sub rec1 base spec) s sps).
Proof.
  intros Ha Hl. revert s. induction Hl as [|sp sps Hp Hl IH]; intros s Hn; simpl; [done|]. destruct (HR sp Hp) as [Hld HU].
  assert (Hv : visit_sub rec1 base spec s sp = visit_sub rec2 base spec s sp /\ seen_keys s ⊆ seen_keys (visit_sub rec1 base spec s sp)).
  { unfold visit_sub. cbv zeta. rewrite import_key_loaded, base_of_loaded by done. case_bool_decide as Hk; [done|].
    pose proof (unseen_mark U s (rp_SourcePath sp) HU Hk).
    destruct (Ha sp (mark_seen (rp_SourcePath sp) s) Hp) as [E Hs]; [lia|]. split; [done|]. simpl in Hs. set_solver. }
  destruct Hv as [<- Hs1]. pose proof (unseen_mono U _ _ Hs1).
  destruct (IH (visit_sub rec1 base spec s sp)) as [E Hs2]; [lia|]. split; [done|]. by etrans.
Qed.

Lemma visit_imports_agree n rec1 rec2 p specs s :
  net_imports = false -> agree n rec1 rec2 -> R p -> specs ⊆ rp_Imports p -> unseen U s <= n ->
  visit_imports rec1 (Dir (rp_SourcePath p)) (rp_Name p) specs s = visit_imports rec2 (Dir (rp_SourcePath p)) (rp_Name p) specs s /\
  seen_keys s ⊆ seen_keys (visit_imports rec1 (Dir (rp_SourcePath p)) (rp_Name p) specs s).
Proof.
  intros Hnet Ha Hp. revert s. induction specs as [|spec specs IH]; intros s Hsub Hn; simpl; [done|].
  destruct (resolveImportSpec _ spec) as [sps|] eqn:E; [|done].
  assert (Hl : Forall R sps).
  { apply Forall_forall. intros q Hq. apply (Himports p); [done|]. exists spec, sps. set_solver. }
  destruct (visit_subs_agree n rec1 rec2 (Dir (rp_SourcePath p)) spec sps s Ha Hl Hn) as [<- Hs].
  pose proof (unseen_mono U _ _ Hs). destruct (IH (foldl (visit_sub rec1 (Dir (rp_SourcePath p)) spec) s sps)) as [E2 Hs2]; [set_solver|lia|].
  split; [done|]. by etrans.
Qed.

Lemma resolve_or_agree n bot1 bot2 : net_imports = false -> agree n (resolve_or bot1 n) (resolve_or bot2 n).
Proof.
  intros Hnet. induction n as [|n IH]; intros p s Hp Hn; [lia|]. simpl.
  assert (Hs : seen_keys (emit p s) = seen_keys s) by (unfold emit; by case_if). rewrite <-Hs.
  apply (visit_imports_agree n); [done..|]. unfold unseen in *. rewrite Hs. lia.
Qed.

Lemma resolve_roots_agree n bot1 bot2 packs s :
  net_imports = false -> size U < n -> Forall R packs -> resolve_roots_or bot1 n packs s = resolve_roots_or bot2 n packs s.
Proof.
  intros Hnet Hn Hl. revert s. induction Hl as [|p packs Hp Hl IH]; intros s; simpl; [done|].
  rewrite base_of_loaded by apply (HR p Hp).
  destruct (resolve_or_agree n bot1 bot2 Hnet p (mark_seen (self_key p) s) Hp) as [<- _].
  { unfold unseen. eapply Nat.le_lt_trans; [apply subseteq_size|exact Hn]. set_solver. }
  by case_match.
Qed.
End Fuel.

(** A recursion whose [bot] does nothing never reports the lack of fuel. *)
Lemma resolve_or_not_fuel fuel base p s :
  importErr s <> Some OutOfFuel -> importErr (resolve_or (fun _ _ s => s) fuel base p s) <> Some OutOfFuel.
Proof.
  revert base p s. induction fuel as [|fuel IH]; intros base p s Hs; [done|]. simpl.
  assert (He : importErr (emit p s) <> Some OutOfFuel) by (unfold emit; by case_if). revert He. generalize (emit p s) as s0.
  generalize (rp_Imports p) as specs. induction specs as [|spec specs IHs]; intros s0 He; simpl; [done|].
  destruct (resolveImportSpec base spec) as [sps|]; [|done]. apply IHs. revert s0 He.
  induction sps as [|sp sps IHp]; intros s0 He; simpl; [done|]. apply IHp. unfold visit_sub. cbv zeta. case_if; [done|]. by apply IH.
Qed.

Lemma resolve_roots_or_not_fuel fuel packs s :
  importErr s <> Some OutOfFuel -> importErr (resolve_roots_or (fun _ _ s => s) fuel packs s) <> Some OutOfFuel.
Proof.
  revert s. induction packs as [|p packs IH]; intros s Hs; simpl; [done|].
  pose proof (resolve_or_not_fuel fuel (base_of "." p) p (mark_seen (self_key p) s) Hs) as He. case_match eqn:E; [congruence|].
  apply IH. congruence.
Qed.

Lemma unique_names_not_fuel m packs : unique_names m packs <> Some OutOfFuel.
Proof.
  revert m. induction packs as [|p packs IH]; intros m; simpl; [done|]. case_if; [apply IH|]. destruct (m !! _); [done|apply IH].
Qed.
Lemma check_all_not_fuel packs : check_all packs <> Some OutOfFuel.
Proof. induction packs as [|p packs IH]; simpl; [done|]. by destruct (CheckPatterns p). Qed.

(** *** The checks on the result *)

Lemma unique_names_NoDup seen packs :
  unique_names seen packs = None ->
  NoDup (filter (fun n => n <> "") (map rp_Name packs)) /\
  (forall n, n ∈ map rp_Name packs -> n <> "" -> seen !! n = None).
Proof.
  revert seen. induction packs as [|p packs IH]; intros seen; simpl; [split; [constructor|by intros ? ?%not_elem_of_nil]|].
  case_bool_decide as Hn.
  - intros Hu. destruct (IH _ Hu) as [Hd Hs]. rewrite filter_cons_False by (by intros ?). split; [done|].
    intros n [->|Hin]%elem_of_cons; [done|auto].
  - destruct (seen !! rp_Name p) eqn:E; [done|]. intros Hu. destruct (IH _ Hu) as [Hd Hs].
    rewrite filter_cons_True by done. split.
    + constructor; [|done]. intros [_ Hin]%list_elem_of_filter. specialize (Hs _ Hin Hn).
      by rewrite lookup_insert_eq in Hs.
    + intros n [->|Hin]%elem_of_cons Hne; [done|]. specialize (Hs n Hin Hne).
      by apply lookup_insert_None in Hs as [? _].
Qed.

Lemma trim_slashes_head l e r : trim_slashes l = e :: r -> e <> "".
Proof. induction l as [|[|c x] l IH]; simpl; [done|done|]. by intros [= <- _]. Qed.

Lemma Base_nonempty path : Base path <> "".
Proof.
  unfold Base. case_bool_decide; [done|]. destruct (trim_slashes _) eqn:E; [done|].
  by eapply trim_slashes_head.
Qed.

Lemma loaded_name p : loaded p -> rp_Name p <> "".
Proof.
  unfold loaded, loadFile. generalize (rp_SourcePath p) as path. intros path. destruct (ReadFile path); [|done].
  destruct (Unmarshal _) as [p0|]; [|done]. cbv zeta. destruct (validateSupportedFeatures _); [|done].
  intros [= <-]. unfold rp_Name. simpl. case_bool_decide; [apply Base_nonempty|done].
Qed.

Lemma checkUniqueNames_NoDup packs :
  Forall loaded packs -> checkUniqueNames packs = None -> NoDup (map rp_Name packs).
Proof.
  intros Hl Hu. apply unique_names_NoDup in Hu as [Hd _].
  replace (filter _ _) with (map rp_Name packs) in Hd; [done|]. clear Hd.
  induction Hl as [|p packs Hp Hl IH]; [done|]. simpl. rewrite filter_cons_True by (by apply loaded_name).
  by rewrite <-IH.
Qed.

Lemma check_all_None packs : check_all packs = None -> Forall (fun p => CheckPatterns p = []) packs.
Proof.
  induction packs as [|p packs IH]; simpl; [constructor|]. destruct (CheckPatterns p) eqn:E; [|done].
  constructor; auto.
Qed.

Lemma LoadPacks_checked fuel path o :
  LoadPacks fuel path = Ok o -> Forall (fun p => CheckPatterns p = []) o.
Proof.
  unfold LoadPacks. destruct (root_packs path); [|done]. cbv zeta. destruct (importErr _); [done|].
  destruct (checkUniqueNames _); [done|]. destruct (check_all _) eqn:E; [done|]. intros [= <-].
  by apply check_all_None.
Qed.

(** C11. Import resolution computes the import closure.  Without network
    imports, when [LoadPacks] succeeds its result contains the packs of the
    path, and with every pack all the packs its import specifications resolve
    to; it contains nothing else than what can be reached from the path
    through imports, cycles included; no source file and no pack name occurs
    twice; and every expression of every pack compiles. *)
Theorem LoadPacks_closure fuel path o :
  net_imports = false -> LoadPacks fuel path = Ok o ->
  exists roots, root_packs path = Ok roots /\ roots ⊆ o /\
    (forall p, p ∈ o -> closed_in o p) /\
    (forall p, p ∈ o -> exists r, r ∈ roots /\ rtc imports r p) /\
    NoDup (map rp_SourcePath o) /\ NoDup (map rp_Name o) /\
    Forall (fun p => CheckPatterns p = []) o.
Proof.
  intros Hn. unfold LoadPacks. pose proof (root_packs_loaded path) as Hl.
  destruct (root_packs path) as [roots|]; [|done]. cbv zeta. intros HL. exists roots.
  destruct (importErr _) eqn:Ei in HL; [done|].
  assert (H0' : resolution_ok resolution0) by (split; [done|constructor|constructor|done]).
  destruct (resolve_roots_grows fuel roots resolution0 Hn Hl H0' Ei) as [(_ & Hok & _ & Hq) Hsub].
  destruct (checkUniqueNames _) eqn:Eu in HL; [done|]. destruct (check_all _) eqn:Ec in HL; [done|].
  injection HL as <-.
  assert (Hall : forall p, p ∈ out (resolve_roots fuel roots resolution0) ->
    closed_in (out (resolve_roots fuel roots resolution0)) p /\ exists r, r ∈ roots /\ rtc imports r p).
  { intros p Hp. destruct (Hq p Hp) as [Hp'|?]; [by apply not_elem_of_nil in Hp'|done]. }
  split_and!; [done|done|apply Hall|apply Hall|apply Hok| |by apply check_all_None].
  apply checkUniqueNames_NoDup; [apply Hok|done].
Qed.

(** C30. Import resolution terminates, whatever cycles the imports form.  Without
    network imports, let [U] hold the source paths of the packs that are
    reached from the packs of the path through imports (a path as the loader
    writes it: a symbolic link that leads back above itself gives one file
    many, and they must be finitely many).  Then the recursion is never deeper
    than the number of those paths: with more fuel than that no call beyond
    the fuel is made, since what such a call would do ([bot], anything at all)
    never shows in the state the resolution ends with; and [LoadPacks] returns
    the packs or an error of the code, the same whatever the fuel. *)
Theorem LoadPacks_terminates (U : gset string) fuel path :
  net_imports = false ->
  (forall roots r p, root_packs path = Ok roots -> r ∈ roots -> rtc imports r p -> rp_SourcePath p ∈ U) ->
  size U < fuel ->
  (forall roots bot, root_packs path = Ok roots -> resolve_roots_or bot fuel roots resolution0 = resolve_roots fuel roots resolution0) /\
  (forall more, LoadPacks (fuel + more) path = LoadPacks fuel path) /\
  LoadPacks fuel path <> Err OutOfFuel.
Proof.
  intros Hn HU Hf. pose proof (root_packs_loaded path) as Hl. destruct (root_packs path) as [roots|e] eqn:Er.
  - assert (Hall : forall bot1 bot2, resolve_roots_or bot1 fuel roots resolution0 = resolve_roots_or bot2 fuel roots resolution0).
    { intros bot1 bot2. apply (resolve_roots_agree U (fun q => loaded q /\ exists r, r ∈ roots /\ rtc imports r q)); try done.
      - intros p [Hp (r & Hr & Hi)]. split; [done|by eapply HU].
      - intros p q [Hp (r & Hr & Hi)] Hq. split.
        + by eapply imports_loaded.
        + exists r. split; [done|]. by eapply rtc_r.
      - rewrite Forall_forall in Hl |- *. intros r Hr. split; [by apply Hl|]. exists r. by split; [|apply rtc_refl]. }
    split_and!.
    + intros roots' bot [= <-]. rewrite <-resolve_roots_or_resolve. apply Hall.
    + intros more. unfold LoadPacks. rewrite Er. cbv zeta. rewrite <-!resolve_roots_or_resolve, (Hall out_of_fuel (resolve_or out_of_fuel more)).
      by rewrite (resolve_roots_or_ext (resolve_or out_of_fuel more) fuel out_of_fuel (fuel + more)) by apply resolve_or_add.
    + unfold LoadPacks. rewrite Er. cbv zeta. rewrite <-resolve_roots_or_resolve, (Hall _ (fun _ _ s => s)).
      pose proof (resolve_roots_or_not_fuel fuel roots resolution0 ltac:(done)) as He. destruct (importErr _); [congruence|].
      pose proof (unique_names_not_fuel ∅ (out (resolve_roots_or (fun _ _ s => s) fuel roots resolution0))) as Hu.
      pose proof (check_all_not_fuel (out (resolve_roots_or (fun _ _ s => s) fuel roots resolution0))) as Hc.
      unfold checkUniqueNames. destruct (unique_names _ _); [congruence|]. destruct (check_all _); congruence.
  - unfold LoadPacks. rewrite Er. split_and!; [done|done|]. unfold root_packs in Er. intros [= ->]. destruct (Stat path) as [[]|]; [| |done].
    + by destruct (loadDir path).
    + by destruct (loadFile path).
Qed.
End LoaderFacts.

(** ** From files to compiled rules *)

Section Chain.
Context `{RegexpSyntax, RegexpEngine, LruLib, AhoLib, Platform, Sources}.

Lemma foldl_override_patterns ovs r :
  r_Patterns (foldl apply_override r ovs) = r_Patterns r /\
  r_Fallback (foldl apply_override r ovs) = r_Fallback r.
Proof.
  revert r. induction ovs as [|ov ovs IH]; intros r; [done|]. simpl. destruct (IH (apply_override r ov)) as [-> ->].
  unfold apply_override. cbv zeta. destruct (decide _), (ov_Enabled ov); done.
Qed.

Lemma elem_of_rules_of byName ord r :
  r ∈ flat_map (rules_of byName) ord -> exists n p, byName !! n = Some p /\ r ∈ rp_Rules p.
Proof.
  intros Hr. apply list_elem_of_In, in_flat_map in Hr as (n & _ & Hn). apply list_elem_of_In in Hn.
  unfold rules_of in Hn. destruct (byName !! n) as [p|] eqn:E; [by exists n, p|]. by apply not_elem_of_nil in Hn.
Qed.

(** A merged rule has the patterns of a rule of one of the packs. *)
Lemma merged_origin s packs r :
  r ∈ merged_rules s packs ->
  exists p r0, p ∈ packs /\ r0 ∈ rp_Rules p /\ r_Patterns r = r_Patterns r0 /\ r_Fallback r = r_Fallback r0.
Proof.
  unfold merged_rules. destruct (usePriority s packs).
  - rewrite elem_of_priority_merge. intros (_ & r0 & Hh & Hr).
    assert (Hin : r0 ∈ priority_rules packs).
    { destruct (filter _ (priority_rules packs)) as [|x l] eqn:E; [done|]. injection Hh as ->.
      assert (Hx : r0 ∈ r0 :: l) by left. rewrite <-E in Hx. by apply list_elem_of_filter in Hx as [_ ?]. }
    apply elem_of_rules_of in Hin as (n & p & Hp%index_by_name_in & Hr0). rewrite sort_packs_perm in Hp.
    destruct (foldl_override_patterns (filter (fun ov => ov_RuleID ov = r_ID r) (priority_overrides packs)) r0) as [E1 E2].
    rewrite <-Hr in E1, E2. by exists p, r0.
  - unfold MergePacks. rewrite elem_of_materialize by apply merged_keyed. rewrite merged_lookup.
    unfold effective. intros [(r0 & Hl & Hr)%fmap_Some _]. apply last_Some in Hl as [l Hl].
    assert (Hin : r0 ∈ (l ++ [r0])%list) by (apply elem_of_app; right; by left). rewrite <-Hl in Hin.
    apply list_elem_of_filter in Hin as [_ Hin].
    apply elem_of_rules_of in Hin as (n & p & Hp%index_by_name_in & Hr0).
    match type of Hr with _ = foldl _ _ ?ovs => destruct (foldl_override_patterns ovs r0) as [E1 E2] end.
    rewrite <-Hr in E1, E2. by exists p, r0.
Qed.

(** *** Expressions that compile *)

Definition compiles (pat : Pattern) : Prop :=
  is_ok (CompilePattern (pat_Regex pat) (pat_Flags pat)) = true.

Lemma omap_nil {A B} (f : A -> option B) l : omap f l = [] -> Forall (fun x => f x = None) l.
Proof.
  induction l as [|x l IH]; [constructor|]. simpl. destruct (f x) eqn:E; [done|]. constructor; auto.
Qed.

Lemma check_patterns_nil id ps : check_patterns id ps = [] -> Forall compiles ps.
Proof.
  intros Hn%omap_nil. apply Forall_forall. intros p Hp.
  apply list_elem_of_lookup in Hp as [i Hi].
  assert (Hin : (i, p) ∈ indexed ps).
  { apply list_elem_of_lookup. exists i. unfold indexed. rewrite lookup_zip_with, Hi.
    rewrite lookup_seq_lt by (by eapply lookup_lt_Some). done. }
  rewrite Forall_forall in Hn. specialize (Hn _ Hin). simpl in Hn. unfold compiles.
  by destruct (CompilePattern _ _).
Qed.

(** The patterns of a rule, all of which compile and are short enough. *)
Definition compiling_rule (max : Z) (r : Rule) : Prop :=
  let ok pat := compiles pat /\ (Z.of_nat (String.length (pat_Regex pat)) <= max)%Z in
  Forall ok (r_Patterns r) /\ match r_Fallback r with Some fb => Forall ok (fb_Patterns fb) | None => True end.

Lemma CheckPatterns_rule p r :
  CheckPatterns p = [] -> r ∈ rp_Rules p ->
  Forall compiles (r_Patterns r) /\ match r_Fallback r with Some fb => Forall compiles (fb_Patterns fb) | None => True end.
Proof.
  unfold CheckPatterns. induction (rp_Rules p) as [|r' rs IH]; simpl; [by intros _ ?%not_elem_of_nil|].
  intros [[H1' H2']%app_nil H3']%app_nil [->|Hr]%elem_of_cons; [|auto].
  split; [by eapply check_patterns_nil|]. destruct (r_Fallback r'); [by eapply check_patterns_nil|done].
Qed.

Lemma trim_rule_compiling max r :
  Forall compiles (r_Patterns r) /\ match r_Fallback r with Some fb => Forall compiles (fb_Patterns fb) | None => True end ->
  compiling_rule max (trim_rule max r).
Proof.
  intros [Hp Hf]. assert (Hs : forall ps, Forall compiles ps ->
    Forall (fun pat => compiles pat /\ (Z.of_nat (String.length (pat_Regex pat)) <= max)%Z) (short_patterns max ps)).
  { intros ps Hps. apply Forall_forall. intros pat [? Hin]%list_elem_of_filter.
    rewrite Forall_forall in Hps. auto. }
  split; simpl; [auto|]. destruct (r_Fallback r); simpl; auto.
Qed.

(** The only error left for such a rule. *)
Definition complexity_error (e : compile_error) : Prop :=
  exists id i msg, e = RulePattern id i (PatternTooComplex msg).

Lemma compileRegex_compiles g pat :
  globalMaxPatternLength g = 0%Z -> compiles pat ->
  exists rx, compileRegex g (pat_Regex pat) (pat_Flags pat) None = (Ok rx, None).
Proof.
  unfold compiles, CompilePattern, compileRegex. intros ->. case_bool_decide; [done|]. simpl.
  destruct (regexp_Compile _) as [rx|]; [|done]. by exists rx.
Qed.

Lemma compile_patterns_errs g id l a :
  globalMaxPatternLength g = 0%Z ->
  Forall (fun ip : nat * Pattern => compiles ip.2 /\ (Z.of_nat (String.length (pat_Regex ip.2)) <= 1000)%Z) l ->
  acc_cache a = None -> Forall complexity_error (acc_errs a) ->
  acc_cache (foldl (compile_pattern g id) a l) = None /\
  Forall complexity_error (acc_errs (foldl (compile_pattern g id) a l)).
Proof.
  intros Hg Hl. revert a. induction Hl as [|[i pat] l [Hc Hlen] _ IH]; intros a Ha He; [done|].
  simpl in Hc, Hlen. simpl foldl. apply IH; clear IH; unfold compile_pattern; unfold maxPatternLength;
    rewrite (proj2 (Z.ltb_ge _ _)) by done;
    destruct (CheckRegexComplexity _ _ _) as [[]|e]; try done;
    destruct (compileRegex_compiles g pat Hg Hc) as [rx Hrx]; rewrite ?Ha, ?Hrx; try done.
  simpl. apply Forall_app. split; [done|]. constructor; [|constructor]. by exists id, i, e.
Qed.

Lemma compile_fallbacks_errs g id l rxs errs :
  globalMaxPatternLength g = 0%Z -> Forall (fun ip : nat * Pattern => compiles ip.2) l ->
  exists rxs', foldl (compile_fallback g id) (rxs, errs, None) l = (rxs', errs, None).
Proof.
  intros Hg Hl. revert rxs. induction Hl as [|[i pat] l Hc _ IH]; intros rxs; [by exists rxs|].
  simpl. destruct (compileRegex_compiles g pat Hg Hc) as [rx Hrx]. simpl in Hc. rewrite Hrx. apply IH.
Qed.

Lemma compileRules_errs g t cs ww rs :
  globalMaxPatternLength g = 0%Z -> Forall (compiling_rule 1000) rs ->
  Forall complexity_error (compileRules g t cs ww rs None).1.2 /\ (compileRules g t cs ww rs None).2 = None.
Proof.
  intros Hg Hrs. induction Hrs as [|r rs [Hp Hf] _ IH]; [done|]. cbn [compileRules]. unfold compileRule.
  destruct (compile_patterns_errs g (r_ID r) (indexed (r_Patterns r))
    {| acc_regexes := []; acc_verifiers := []; acc_tokens := []; acc_errs := []; acc_cache := None |})
    as [Hc He]; [done|exact (Forall_indexed _ _ Hp)|done|constructor|].
  fold (compile_patterns g r None) in Hc, He. rewrite Hc.
  assert (Hfb : exists fbs, compile_fallbacks g r (acc_errs (compile_patterns g r None)) None =
    (fbs, acc_errs (compile_patterns g r None), None)).
  { unfold compile_fallbacks. destruct (r_Fallback r) as [fb|]; [|by eexists].
    apply compile_fallbacks_errs; [done|]. apply Forall_indexed. eapply Forall_impl; [exact Hf|]. by intros ? []. }
  destruct Hfb as [fbs ->]. destruct (compileRules g t cs ww rs None) as [[crs errs] c]. simpl in *.
  destruct IH as [IH ->]. split; [|done]. by apply Forall_app.
Qed.

(** From files to compiled rules: the packs that [LoadPacks] returns
    compile, in a new scanner, without any expression being rejected as
    invalid or empty; the only expressions the scanner still refuses are the
    ones above the complexity limits, each reported with its rule. *)
Theorem loaded_packs_compile fuel path packs maxTokenBytes g :
  LoadPacks fuel path = Ok packs -> globalMaxPatternLength g = 0%Z ->
  Forall complexity_error (LoadRulePacks packs g None (ScanEngineCstor maxTokenBytes)).1.1.2.
Proof.
  intros HL Hg. apply LoadPacks_checked in HL. unfold LoadRulePacks.
  set (s := ScanEngineCstor maxTokenBytes).
  destruct (compileRules_errs g (defaultRuleTimeoutMs s) (defaultCaseSensitive s) (defaultWholeWord s)
    (trim_rules s (merged_rules s packs)) Hg) as [He _].
  - unfold trim_rules. simpl. apply Forall_forall. intros r' Hr'.
    apply list_elem_of_fmap in Hr' as (r & -> & Hr). apply trim_rule_compiling.
    apply merged_origin in Hr as (p & r0 & Hp & Hr0 & -> & ->). rewrite Forall_forall in HL.
    apply (CheckPatterns_rule p r0); [by apply HL|done].
  - by destruct (compileRules _ _ _ _ _ _) as [[crs errs] c].
Qed.
End Chain.

(** ** Examples and findings *)

Module LoaderWitnesses.
#[local] Existing Instance literal_syntax.
#[local] Existing Instance literal_engine.
#[local] Existing Instance list_lru.
#[local] Existing Instance naive_lib.
#[local] Existing Instance bare_platform.

Definition rule (id logic pat : string) : Rule :=
  {| r_ID := id; r_Name := ""; r_Level := 2; r_Severity := ""; r_Category := ""; r_Enabled := None;
     r_Verifier := ""; r_Keywords := [];
     r_Patterns := [{| pat_Name := ""; pat_Regex := pat; pat_Flags := []; pat_Verifier := "" |}];
     r_Semantic := None; r_Fallback := None; r_Logic := logic;
     r_Options := {| opt_CaseSensitive := false; opt_WholeWord := false |};
     r_Response := None; r_Cache := None; r_When := None; r_Unless := None; r_Timeout := "" |}.
Definition importing (name : string) (specs : list string) (r : Rule) : RulePack :=
  {| rp_APIVersion := ""; rp_Kind := ""; rp_Metadata := metadata0 name; rp_Rules := [r];
     rp_Extends := []; rp_Imports := specs; rp_Composition := None; rp_Performance := None;
     rp_Overrides := []; rp_Context := ∅; rp_SourcePath := "" |}.

(** Two files that import each other, and two servers of packs. *)
Definition disk : list (string * RulePack) :=
  [("r/a.yaml", importing "a" ["b.yaml"] (rule "ra" "" "foo"));
   ("r/b.yaml", importing "" ["./a.yaml"] (rule "rb" "any" "bar"));
   ("r/n.yaml", importing "n" ["https://one/p"; "https://two/p"] (rule "rn" "" "baz"))].
Definition web : list (string * RulePack) :=
  [("https://one/p", importing "same" [] (rule "r1" "custom" "one"));
   ("https://two/p", importing "same" [] (rule "r2" "" "two"))].

Fixpoint find_pack (l : list (string * RulePack)) (k : string) : option RulePack :=
  match l with [] => None | (k', p) :: l => if bool_decide (k' = k) then Some p else find_pack l k end.

#[local] Instance demo_sources : Sources.
Proof.
  refine {| Stat path := match find_pack disk path with Some _ => Ok false | None => Err "no such file" end;
            ReadFile path := match find_pack disk path with Some _ => Ok path | None => Err "no such file" end;
            Unmarshal data := match find_pack (disk ++ web) data with Some p => Ok p | None => Err "yaml" end;
            Tree path := BadNode path "not a directory";
            Glob _ := Ok []; PathMatch _ _ := false; Rel _ p := p;
            HTTPGet url := match find_pack web url with Some _ => Ok url | None => Err "404" end |}.
  reflexivity.
Defined.

Definition netted : Platform :=
  {| getenv v := if bool_decide (v = "PS_ALLOW_NET_IMPORTS") then "1" else ""; ParseDuration _ := None |}.

Definition load (pf : Platform) (path : string) : result load_error (list string) :=
  match @LoadPacks literal_engine pf demo_sources 10 path with
  | Ok ps => Ok (map rp_Name ps)
  | Err e => Err e
  end.

Lemma load_cycle : load bare_platform "r/a.yaml" = Ok ["a"; "b.yaml"].
Proof. vm_compute. reflexivity. Qed.

Lemma LoadPacks_closure_witness :
  exists o, @LoadPacks literal_engine bare_platform demo_sources 10 "r/a.yaml" = Ok o /\
    NoDup (map rp_Name o) /\ length o = 2.
Proof.
  destruct (@LoadPacks literal_engine bare_platform demo_sources 10 "r/a.yaml") as [o|] eqn:E.
  - exists o. split; [reflexivity|]. split.
    + destruct (@LoadPacks_closure literal_engine bare_platform demo_sources 10 "r/a.yaml" o eq_refl E)
        as (roots & _ & _ & _ & _ & _ & Hn & _). exact Hn.
    + assert (Hl : (match @LoadPacks literal_engine bare_platform demo_sources 10 "r/a.yaml" with
                    | Ok o => Some (length o) | Err _ => None end) = Some 2) by (vm_compute; reflexivity).
      rewrite E in Hl. by injection Hl.
  - exfalso. assert (Hl : is_ok (@LoadPacks literal_engine bare_platform demo_sources 10 "r/a.yaml") = true)
      by (vm_compute; reflexivity). by rewrite E in Hl.
Defined.

(** The two packs import each other. *)
Lemma LoadPacks_terminates_witness :
  (forall more, @LoadPacks literal_engine bare_platform demo_sources (4 + more) "r/a.yaml" =
     @LoadPacks literal_engine bare_platform demo_sources 4 "r/a.yaml") /\
  @LoadPacks literal_engine bare_platform demo_sources 4 "r/a.yaml" <> Err OutOfFuel.
Proof.
  apply (@LoadPacks_terminates literal_engine bare_platform demo_sources {["r/a.yaml"; "r/b.yaml"; "r/n.yaml"]}).
  - reflexivity.
  - intros roots r p Hr Hin Hi. assert (Hp : loaded p).
    { clear - Hr Hin Hi. pose proof (root_packs_loaded "r/a.yaml") as Hl. rewrite Hr in Hl.
      assert (Hlr : loaded r) by (by eapply (proj1 (Forall_forall _ _) Hl)). clear Hr Hin Hl.
      induction Hi as [x|x y z Hxy _ IH]; [exact Hlr|]. apply IH. by eapply imports_loaded. }
    unfold loaded, loadFile in Hp. simpl in Hp. repeat (case_bool_decide; [set_solver|]). discriminate Hp.
  - vm_compute. lia.
Defined.

Lemma loaded_packs_compile_witness :
  exists packs, @LoadPacks literal_engine bare_platform demo_sources 10 "r/a.yaml" = Ok packs /\
    Forall complexity_error (LoadRulePacks packs globals0 None (ScanEngineCstor 0)).1.1.2.
Proof.
  destruct (@LoadPacks literal_engine bare_platform demo_sources 10 "r/a.yaml") as [o|] eqn:E.
  - exists o. split; [reflexivity|].
    apply (loaded_packs_compile 10 "r/a.yaml" o 0 globals0 E eq_refl).
  - exfalso. assert (Hl : is_ok (@LoadPacks literal_engine bare_platform demo_sources 10 "r/a.yaml") = true)
      by (vm_compute; reflexivity). by rewrite E in Hl.
Defined.

(** Two remote packs of the same name: [checkUniqueNames] never sees the
    second one, which [resolve] drops because it emits packs without a source
    by name; and the first one is accepted with a [logic] that a file is
    rejected for. *)
Lemma remote_pack_dropped :
  load netted "r/n.yaml" = Ok ["n"; "same"] /\
  (exists p, find_pack web "https://one/p" = Some p /\ is_ok (validateSupportedFeatures p) = false).
Proof. split; [vm_compute; reflexivity|]. eexists. split; [reflexivity|]. vm_compute. reflexivity. Qed.
End LoaderWitnesses.
