(* ===== verification/Validate.v ===== *)
(** * Validate: strict validation of a rule pack

    src/internal/rules/validate.go.  The JSON-schema library and the embedded
    schema are the class [SchemaLib]; the generic values that YAML decodes to,
    the tree of validation errors, and everything this package does with them,
    are modelled. *)

From Stdlib Require Import Ascii String.
From S2P Require Import Prelude GoString Unicode Rules Merge Verifiers Complexity Aho Literals Engine Compile Scanner Load Loader.

Local Open Scope string_scope.

(** ** Generic values *)

(** What YAML and JSON decode to; a map is the list of its entries. *)
Inductive value :=
  | Null
  | Scalar (s : string)
  | Seq' (vs : list value)
  | Map (kvs : list (string * value)).

Definition is_null (v : value) : bool := match v with Null => true | _ => false end.

(** [pruneNulls]: null entries of maps are deleted, at every depth; elements
    of sequences are kept. *)
Fixpoint pruneNulls (v : value) : value :=
  match v with
  | Map kvs =>
    Map (flat_map (fun kv => let '(k, x) := kv in
                             match x with Null => [] | _ => [(k, pruneNulls x)] end) kvs)
  | Seq' vs => Seq' (map pruneNulls vs)
  | v => v
  end.

(** ** Validation errors *)

Inductive ValidationError := VErr (location message : string) (causes : list ValidationError).

(** [strings.ReplaceAll(s, old, new)] for an [old] of the two bytes [a], [b]. *)
Fixpoint ReplaceAll2 (a b : ascii) (new : string) (s : string) : string :=
  match s with
  | String x ((String y r) as rest) =>
    if bool_decide (x = a) && bool_decide (y = b) then new ++ ReplaceAll2 a b new r
    else String x (ReplaceAll2 a b new rest)
  | s => s
  end.

(** The tokens of a JSON pointer are unescaped, [~1] before [~0]. *)
Definition unescape (p : string) : string :=
  ReplaceAll2 "~" "0" "~" (ReplaceAll2 "~" "1" "/" p).

Definition TrimPrefix (s p : string) : string :=
  if HasPrefix p s then sdrop (String.length p) s else s.

Definition normalizeInstanceLocation (ptr : string) : string :=
  if bool_decide (ptr = "") || bool_decide (ptr = "#") then "#"
  else
    let ptr := TrimPrefix (TrimPrefix ptr "#") "/" in
    if bool_decide (ptr = "") then "#" else Join "." (map unescape (SplitByte "/" ptr)).

(** The leaves of the tree, depth first. *)
Fixpoint flatten (e : ValidationError) : list string :=
  match e with
  | VErr loc msg [] =>
    let loc := normalizeInstanceLocation loc in
    [((if bool_decide (loc = "") then "#" else loc) ++ ": " ++ msg)]
  | VErr _ _ causes => flat_map flatten causes
  end.

(** ** [ValidatePack] *)

Class SchemaLib := {
  (** The embedded schema, compiled. *)
  schema_compiles : result string unit;
  Validate : value -> option ValidationError;
  (** The source file as YAML, if it can be read; the pack re-encoded. *)
  source_value : string -> option value;
  Marshal : RulePack -> value;
}.

Inductive strict_error :=
  | EmptyExpression
  | InvalidFlag (flag : string)
  | InvalidExpression (msg : string).

Inductive pack_error :=
  | SchemaError (msg : string)
  | MissingID
  | DuplicateID (id : string)
  | NoKeywords (id : string)
  | NoPatterns (id : string)
  | RegexTooLong (id : string)
  | RegexError (id : string) (e : strict_error)
  | RegexComplexity (id msg : string)
  | BadTimeout (id t : string)
  | NoSemantic (id : string)
  | NoModel (id : string)
  | BadLevel (id : string) (level : Z).

Section Validate.
Context `{RegexpSyntax, RegexpEngine, Platform, SchemaLib}.

Definition schema_errors (p : RulePack) : list pack_error :=
  match schema_compiles with
  | Err e => [SchemaError ("schema compile error: " ++ e)]
  | Ok _ =>
    let generic := if bool_decide (rp_SourcePath p = "") then None else source_value (rp_SourcePath p) in
    let generic := match generic with
                   | Some v => if is_null v then Marshal p else v
                   | None => Marshal p
                   end in
    match Validate (pruneNulls generic) with
    | Some e => map SchemaError (flatten e)
    | None => []
    end
  end.

(** The loop over the ids. *)
Fixpoint id_errors (seen : gset string) (rs : list Rule) : list pack_error :=
  match rs with
  | [] => []
  | r :: rs =>
    if bool_decide (r_ID r = "") then MissingID :: id_errors seen rs
    else ((if bool_decide (r_ID r ∈ seen) then [DuplicateID (r_ID r)] else []) ++
          id_errors ({[r_ID r]} ∪ seen) rs)%list
  end.

(** [compileRegexStrict]: flags other than the four known ones are errors. *)
Fixpoint strict_flags (prefix : string) (flags : list string) : result strict_error string :=
  match flags with
  | [] => Ok prefix
  | f :: flags => match flag_prefix f with
                  | Some q => strict_flags (q ++ prefix) flags
                  | None => Err (InvalidFlag (ToLower f))
                  end
  end.

Definition compileRegexStrict (expr : string) (flags : list string) : result strict_error regexp :=
  if bool_decide (expr = "") then Err EmptyExpression
  else match strict_flags "" flags with
       | Err e => Err e
       | Ok prefix => match regexp_Compile (prefix ++ expr) with
                      | Ok rx => Ok rx
                      | Err e => Err (InvalidExpression e)
                      end
       end.

Definition pattern_errors (id : string) (pat : Pattern) : list pack_error :=
  if (1000 <? Z.of_nat (String.length (pat_Regex pat)))%Z then [RegexTooLong id]
  else match compileRegexStrict (pat_Regex pat) (pat_Flags pat) with
       | Err e => [RegexError id e]
       | Ok _ => match CheckRegexComplexity getenv (pat_Regex pat) (pat_Flags pat) with
                 | Err e => [RegexComplexity id e]
                 | Ok _ => []
                 end
       end.

(** The [switch r.Level]. *)
Definition level_errors (r : Rule) : list pack_error :=
  let id := r_ID r in
  if (r_Level r =? 1)%Z then (if bool_decide (r_Keywords r = []) then [NoKeywords id] else [])
  else if (r_Level r =? 2)%Z then
    ((if bool_decide (List.length (r_Patterns r) = 0) then [NoPatterns id] else []) ++
     flat_map (pattern_errors id) (r_Patterns r) ++
     (if bool_decide (r_Timeout r = "") then []
      else match ParseDuration (r_Timeout r) with Some _ => [] | None => [BadTimeout id (r_Timeout r)] end))%list
  else if (r_Level r =? 3)%Z then
    match r_Semantic r with
    | None => [NoSemantic id]
    | Some sem => if bool_decide (TrimSpace (sem_Model sem) = "") then [NoModel id] else []
    end
  else [BadLevel id (r_Level r)].

Definition ValidatePack (p : RulePack) : list pack_error :=
  (schema_errors p ++ id_errors ∅ (rp_Rules p) ++ flat_map level_errors (rp_Rules p))%list.
End Validate.

(** ** Facts *)

Section ValidateFacts.
Context `{RegexpSyntax, RegexpEngine, LruLib, Platform, SchemaLib}.

Lemma id_errors_nil seen rs :
  id_errors seen rs = [] <->
  Forall (fun r => r_ID r <> "" /\ r_ID r ∉ seen) rs /\ NoDup (map r_ID rs).
Proof.
  revert seen. induction rs as [|r rs IH]; intros seen; simpl.
  { split; [intros _; split; constructor|done]. }
  case_bool_decide as Hid; [split; [done|intros [[[? _] _]%Forall_cons _]; done]|].
  rewrite app_nil, IH, Forall_cons, NoDup_cons. case_bool_decide as Hin.
  { split; [by intros [? _]|intros [[[_ ?] _] _]; done]. }
  assert (Hf : Forall (fun x => r_ID x <> "" /\ r_ID x ∉ ({[r_ID r]} ∪ seen : gset string)) rs <->
    Forall (fun x => r_ID x <> "" /\ r_ID x ∉ seen) rs /\ r_ID r ∉ map r_ID rs).
  { rewrite !Forall_forall. split.
    - intros Hx. split; [intros x Hin'; specialize (Hx x Hin'); set_solver|].
      intros (x & Hx1 & Hx2)%list_elem_of_fmap. specialize (Hx x Hx2). set_solver.
    - intros [Hx Hn] x Hin'. specialize (Hx x Hin'). split; [tauto|].
      assert (r_ID x <> r_ID r) by (intros E; apply Hn; rewrite <-E; by apply list_elem_of_fmap_2).
      set_solver. }
  rewrite Hf. tauto.
Qed.

Lemma strict_flags_ok prefix flags :
  Forall (fun f => is_Some (flag_prefix f)) flags ->
  strict_flags prefix flags =
    Ok (foldl (fun prefix f => match flag_prefix f with Some p => (p ++ prefix) | None => prefix end) prefix flags).
Proof.
  intros Hf. revert prefix. induction Hf as [|f flags [q Hq] _ IH]; intros prefix; [done|].
  simpl. rewrite Hq. apply IH.
Qed.

Lemma strict_flags_err prefix flags :
  ~ Forall (fun f => is_Some (flag_prefix f)) flags -> is_ok (strict_flags prefix flags) = false.
Proof.
  revert prefix. induction flags as [|f flags IH]; intros prefix Hf; [by destruct Hf|].
  simpl. destruct (flag_prefix f) as [q|] eqn:E; [|done]. apply IH. intros Hf'. apply Hf.
  constructor; [by rewrite E|done].
Qed.

(** What validation asks of a pattern. *)
Definition valid_pattern (pat : Pattern) : Prop :=
  (Z.of_nat (String.length (pat_Regex pat)) <= 1000)%Z /\ pat_Regex pat <> "" /\
  Forall (fun f => is_Some (flag_prefix f)) (pat_Flags pat) /\
  is_ok (regexp_Compile (inline_flags (pat_Flags pat) ++ pat_Regex pat)) = true /\
  CheckRegexComplexity getenv (pat_Regex pat) (pat_Flags pat) = Ok tt.

Lemma pattern_errors_nil id pat : pattern_errors id pat = [] <-> valid_pattern pat.
Proof.
  unfold pattern_errors, valid_pattern, compileRegexStrict. case_if; [split; [done|lia]|].
  case_bool_decide as He; [split; [done|tauto]|].
  destruct (decide (Forall (fun f => is_Some (flag_prefix f)) (pat_Flags pat))) as [Hf|Hf].
  - rewrite (strict_flags_ok "" _ Hf). fold (inline_flags (pat_Flags pat)).
    destruct (regexp_Compile _); simpl; [|split; [done|by intros (_ & _ & _ & ? & _)]].
    destruct (CheckRegexComplexity _ _ _) as [[]|]; (split; [intros ?; split_and!|]); try done; try lia.
    by intros (_ & _ & _ & _ & ?).
  - pose proof (strict_flags_err "" _ Hf). destruct (strict_flags "" _); [done|]. split; [done|tauto].
Qed.

(** What it asks of a rule. *)
Definition valid_rule (r : Rule) : Prop :=
  (r_Level r = 1%Z /\ r_Keywords r <> []) \/
  (r_Level r = 2%Z /\ r_Patterns r <> [] /\ Forall valid_pattern (r_Patterns r) /\
   (r_Timeout r = "" \/ is_Some (ParseDuration (r_Timeout r)))) \/
  (r_Level r = 3%Z /\ exists sem, r_Semantic r = Some sem /\ TrimSpace (sem_Model sem) <> "").

Lemma flat_map_nil {A B} (f : A -> list B) l : flat_map f l = [] <-> Forall (fun x => f x = []) l.
Proof.
  induction l as [|x l IH]; simpl; [split; [constructor|done]|]. by rewrite app_nil, IH, Forall_cons.
Qed.

Lemma Forall_equiv {A} (P Q : A -> Prop) l : (forall x, P x <-> Q x) -> Forall P l <-> Forall Q l.
Proof. intros HPQ. rewrite !Forall_forall. split; intros Hl x Hx; apply HPQ; auto. Qed.

Lemma if_nil {A} (b : bool) (x : A) : (if b then [x] else []) = [] <-> b = false.
Proof. by destruct b. Qed.

Lemma level_errors_nil r : level_errors r = [] <-> valid_rule r.
Proof.
  unfold level_errors, valid_rule. cbv zeta.
  destruct (Z.eqb_spec (r_Level r) 1) as [E|E1].
  { rewrite if_nil, bool_decide_eq_false. intuition congruence. }
  destruct (Z.eqb_spec (r_Level r) 2) as [E|E2].
  { rewrite !app_nil, if_nil, bool_decide_eq_false, flat_map_nil.
    assert (Ht : (if bool_decide (r_Timeout r = "") then []
      else match ParseDuration (r_Timeout r) with Some _ => [] | None => [BadTimeout (r_ID r) (r_Timeout r)] end) = [] <->
      r_Timeout r = "" \/ is_Some (ParseDuration (r_Timeout r))).
    { case_bool_decide; [tauto|]. destruct (ParseDuration (r_Timeout r)).
      - split; [right; by eexists|done].
      - split; [done|]. by intros [?|[? ?]]. }
    rewrite Ht, (Forall_equiv _ valid_pattern) by (intros; apply pattern_errors_nil).
    assert (Hl : List.length (r_Patterns r) <> 0 <-> r_Patterns r <> []) by (by destruct (r_Patterns r)).
    rewrite Hl. split; [intros (? & ? & ?); right; left; done|].
    intros [[? _]|[(_ & ?)|[? _]]]; [congruence|tauto|congruence]. }
  destruct (Z.eqb_spec (r_Level r) 3) as [E|E3]; [|intuition congruence].
  destruct (r_Semantic r) as [sem|].
  - rewrite if_nil, bool_decide_eq_false. split; [intros ?; do 2 right; split; [done|by exists sem]|].
    intros [[? _]|[[? _]|(_ & s & [= <-] & ?)]]; [congruence..|done].
  - split; [done|]. intros [[? _]|[[? _]|(_ & s & ? & _)]]; [congruence..|done].
Qed.

(** [ValidatePack] reports nothing exactly when the schema accepts the pack,
    every rule has an id and no two share one, and every rule has what its
    level requires: keywords; or patterns that are short, have only known
    flags, compile and are within the complexity limits, and a timeout that
    parses; or a semantic configuration with a model. *)
Theorem ValidatePack_spec p :
  ValidatePack p = [] <->
  schema_errors p = [] /\ NoDup (map r_ID (rp_Rules p)) /\
  Forall (fun r => r_ID r <> "" /\ valid_rule r) (rp_Rules p).
Proof.
  unfold ValidatePack. rewrite !app_nil, id_errors_nil, flat_map_nil.
  rewrite (Forall_equiv (fun r => level_errors r = []) valid_rule) by (intros; apply level_errors_nil).
  rewrite !Forall_forall. split.
  - intros (Hs & [Hi Hd] & Hl). split_and!; [done|done|]. intros r Hr. split; [by apply Hi|auto].
  - intros (Hs & Hd & Hr). split_and!; [done| |done|]; intros r Hin; destruct (Hr r Hin) as [? ?]; [|done].
    split; [done|apply not_elem_of_empty].
Qed.

(** *** Validated patterns compile in the scanner *)

Lemma compile_valid_patterns g id l a :
  globalMaxPatternLength g = 0%Z -> Forall (fun ip : nat * Pattern => valid_pattern ip.2) l ->
  acc_cache a = None -> acc_errs a = [] ->
  acc_cache (foldl (compile_pattern g id) a l) = None /\ acc_errs (foldl (compile_pattern g id) a l) = [] /\
  List.length (acc_regexes (foldl (compile_pattern g id) a l)) = List.length (acc_regexes a) + List.length l.
Proof.
  intros Hg Hl. revert a. induction Hl as [|[i pat] l (Hlen & Hne & _ & Hc & Hx) _ IH]; intros a Ha He.
  { split_and!; [done|done|simpl; lia]. }
  simpl in Hlen, Hne, Hc, Hx. simpl foldl.
  assert (Hcr : exists rx, compileRegex g (pat_Regex pat) (pat_Flags pat) None = (Ok rx, None)).
  { apply compileRegex_compiles; [done|]. unfold compiles, CompilePattern. by rewrite bool_decide_eq_false_2. }
  destruct Hcr as [rx Hrx].
  assert (Hstep : let a' := compile_pattern g id a (i, pat) in
    acc_cache a' = None /\ acc_errs a' = [] /\ List.length (acc_regexes a') = S (List.length (acc_regexes a))).
  { unfold compile_pattern, maxPatternLength. rewrite (proj2 (Z.ltb_ge _ _)) by done.
    rewrite Hx, Ha, Hrx. simpl. rewrite length_app. simpl. split_and!; [done|done|lia]. }
  destruct Hstep as (Ha' & He' & Hn'). destruct (IH _ Ha' He') as (? & ? & Hn).
  split_and!; [done|done|]. etrans; [exact Hn|].
  etrans; [apply (f_equal (fun n => n + List.length l)), Hn'|]. simpl. lia.
Qed.

(** Validation is enough for the scanner: a level 2 rule of a valid pack,
    without fallback patterns, compiles without any error, and every one of
    its patterns becomes an expression of the compiled rule. *)
Theorem valid_rule_compiles p r g t cs ww :
  ValidatePack p = [] -> r ∈ rp_Rules p -> r_Level r = 2%Z -> r_Fallback r = None ->
  globalMaxPatternLength g = 0%Z ->
  let '(cr, errs, _) := compileRule g t cs ww r None in
  errs = [] /\ List.length (cr_regexes cr) = List.length (r_Patterns r).
Proof.
  intros Hv Hr Hlev Hfb Hg. unfold ValidatePack in Hv. rewrite !app_nil, flat_map_nil in Hv.
  destruct Hv as (_ & _ & Hv). rewrite Forall_forall in Hv. specialize (Hv r Hr).
  apply level_errors_nil in Hv. unfold valid_rule in Hv.
  assert (Hp : Forall valid_pattern (r_Patterns r)) by (destruct Hv as [[? _]|[(_ & _ & ? & _)|[? _]]]; [congruence|done|congruence]).
  destruct (compile_valid_patterns g (r_ID r) (indexed (r_Patterns r))
    {| acc_regexes := []; acc_verifiers := []; acc_tokens := []; acc_errs := []; acc_cache := None |})
    as (Hc & He & Hn); [done|exact (Forall_indexed _ _ Hp)|done|done|].
  unfold compileRule, compile_fallbacks. rewrite Hfb. fold (compile_patterns g r None) in Hc, He, Hn.
  rewrite He. split; [done|]. simpl. rewrite Hn, length_indexed. done.
Qed.
End ValidateFacts.

(** ** JSON pointers *)

(** The escaping of a pointer token. *)
Fixpoint escape (p : string) : string :=
  match p with
  | EmptyString => ""
  | String "~" p => "~0" ++ escape p
  | String "/" p => "~1" ++ escape p
  | String c p => String c (escape p)
  end.

(** With the slashes back but the tildes still escaped. *)
Fixpoint escape_tilde (p : string) : string :=
  match p with
  | EmptyString => ""
  | String "~" p => "~0" ++ escape_tilde p
  | String c p => String c (escape_tilde p)
  end.

Lemma ReplaceAll2_cons a b new c s :
  c <> a -> ReplaceAll2 a b new (String c s) = String c (ReplaceAll2 a b new s).
Proof. intros Hc. destruct s; [done|]. simpl. by rewrite (bool_decide_eq_false_2 (c = a)). Qed.

Lemma ReplaceAll2_hit a b new s : ReplaceAll2 a b new (String a (String b s)) = new ++ ReplaceAll2 a b new s.
Proof. cbn [ReplaceAll2]. rewrite (bool_decide_eq_true_2 (a = a)), (bool_decide_eq_true_2 (b = b)) by done. done. Qed.

Lemma ReplaceAll2_other a b new d s :
  d <> b -> d <> a -> ReplaceAll2 a b new (String a (String d s)) = String a (String d (ReplaceAll2 a b new s)).
Proof.
  intros Hb Ha. cbn [ReplaceAll2]. rewrite (bool_decide_eq_false_2 (d = b)), andb_false_r by done.
  f_equal. by apply ReplaceAll2_cons.
Qed.

Ltac each_char p c := match goal with |- context [String c p] => idtac end;
  destruct (decide (c = "~"%char)) as [->|]; [|destruct (decide (c = "/"%char)) as [->|]].

Lemma escape_other c p : c <> "~"%char -> c <> "/"%char -> escape (String c p) = String c (escape p).
Proof.
  intros H1 H2. destruct c as [[] [] [] [] [] [] [] []]; first [reflexivity|by destruct H1|by destruct H2].
Qed.
Lemma escape_tilde_other c p : c <> "~"%char -> escape_tilde (String c p) = String c (escape_tilde p).
Proof. intros H1. destruct c as [[] [] [] [] [] [] [] []]; first [reflexivity|by destruct H1]. Qed.

Lemma unescape_slash p : ReplaceAll2 "~" "1" "/" (escape p) = escape_tilde p.
Proof.
  induction p as [|c p IH]; [done|]. each_char p c.
  - change (escape (String "~" p)) with (String "~" (String "0" (escape p))).
    rewrite ReplaceAll2_other, IH by done. done.
  - change (escape (String "/" p)) with (String "~" (String "1" (escape p))).
    rewrite ReplaceAll2_hit, IH. done.
  - rewrite escape_other, escape_tilde_other, ReplaceAll2_cons, IH by done. done.
Qed.

Lemma unescape_tilde p : ReplaceAll2 "~" "0" "~" (escape_tilde p) = p.
Proof.
  induction p as [|c p IH]; [done|]. destruct (decide (c = "~"%char)) as [->|].
  - change (escape_tilde (String "~" p)) with (String "~" (String "0" (escape_tilde p))).
    rewrite ReplaceAll2_hit, IH. done.
  - rewrite escape_tilde_other, ReplaceAll2_cons, IH by done. done.
Qed.

Lemma unescape_escape p : unescape (escape p) = p.
Proof. unfold unescape. by rewrite unescape_slash, unescape_tilde. Qed.

Lemma escape_no_slash p : CountByte "/" (escape p) = 0.
Proof.
  induction p as [|c p IH]; [done|]. each_char p c; [done|done|].
  rewrite escape_other by done. cbn [CountByte]. rewrite IH. by rewrite bool_decide_eq_false_2.
Qed.

(** Locations of schema errors are decoded faithfully: the JSON pointer of
    a path, with [~] and [/] escaped in each token, with or without the
    leading [#], is normalised to the tokens themselves joined with dots;
    the path of a single empty token, like the root, is [#]. *)
Theorem normalize_pointer_roundtrip tokens :
  tokens <> [] ->
  let ptr := "/" ++ Join "/" (map escape tokens) in
  normalizeInstanceLocation ptr = (if bool_decide (tokens = [""]) then "#" else Join "." tokens) /\
  normalizeInstanceLocation ("#" ++ ptr) = normalizeInstanceLocation ptr.
Proof.
  intros Hne. cbv zeta. set (body := Join "/" (map escape tokens)).
  assert (Hp : forall pre, pre = "" \/ pre = "#" ->
    normalizeInstanceLocation (pre ++ "/" ++ body) = if bool_decide (body = "") then "#" else Join "." tokens).
  { intros pre Hpre. unfold normalizeInstanceLocation.
    rewrite (bool_decide_eq_false_2 (pre ++ "/" ++ body = "")) by (destruct Hpre; by subst).
    rewrite (bool_decide_eq_false_2 (pre ++ "/" ++ body = "#")) by (destruct Hpre; by subst).
    assert (Ht : TrimPrefix (TrimPrefix (pre ++ "/" ++ body) "#") "/" = body) by (destruct Hpre; by subst).
    rewrite Ht. simpl. case_bool_decide; [done|]. f_equal. unfold body.
    rewrite SplitByte_Join.
    - rewrite map_map. rewrite <-(map_id tokens) at 2. apply map_ext. apply unescape_escape.
    - by destruct tokens.
    - apply Forall_map, Forall_forall. intros t _. apply escape_no_slash. }
  assert (Hb : bool_decide (body = "") = bool_decide (tokens = [""])).
  { apply bool_decide_ext. unfold body. destruct tokens as [|t [|t' ts]]; [done| |].
    - simpl. split; [|by intros [= ->]]. intros E. f_equal. by rewrite <-(unescape_escape t), E.
    - simpl. split; [|done]. by destruct (escape t). }
  pose proof (Hp "" (or_introl eq_refl)) as H1. pose proof (Hp "#" (or_intror eq_refl)) as H2.
  change ("" ++ "/" ++ body) with ("/" ++ body) in H1. rewrite H1, H2, Hb. done.
Qed.

Lemma normalize_pointer_roundtrip_witness :
  normalizeInstanceLocation "/rules/0/a~1b~0c" = "rules.0.a/b~c" /\
  normalizeInstanceLocation ("#" ++ "/" ++ Join "/" (map escape ["rules"; "0"; "a/b~c"])) =
    normalizeInstanceLocation ("/" ++ Join "/" (map escape ["rules"; "0"; "a/b~c"])).
Proof.
  split; [reflexivity|].
  destruct (normalize_pointer_roundtrip ["rules"; "0"; "a/b~c"]) as [_ H]; [discriminate|exact H].
Defined.

Module ValidateWitnesses.
#[local] Existing Instance literal_syntax.
#[local] Existing Instance literal_engine.
#[local] Existing Instance list_lru.
#[local] Existing Instance bare_platform.
#[local] Instance open_schema : SchemaLib :=
  {| schema_compiles := Ok tt; Validate v := match v with Map _ => None | _ => Some (VErr "" "expected object" []) end;
     source_value _ := None; Marshal p := Map [("name", Scalar (rp_Name p)); ("extends", Null)] |}.

Definition p : RulePack := pack0 "p" [] [LoaderWitnesses.rule "a" "" "foo"; LoaderWitnesses.rule "b" "" "bar"].

Lemma valid_rule_compiles_witness :
  ValidatePack p = [] /\
  let '(cr, errs, _) := compileRule globals0 0 false false (LoaderWitnesses.rule "b" "" "bar") None in
  errs = [] /\ List.length (cr_regexes cr) = 1.
Proof.
  split; [vm_compute; reflexivity|].
  apply (valid_rule_compiles p (LoaderWitnesses.rule "b" "" "bar") globals0 0 false false);
    [vm_compute; reflexivity|right; left|reflexivity..].
Defined.

(** Two rules with one id, one without patterns. *)
Lemma invalid_pack :
  ValidatePack (pack0 "q" [] [LoaderWitnesses.rule "a" "" "foo"; LoaderWitnesses.rule "a" "" ""]) =
  [DuplicateID "a"; RegexError "a" EmptyExpression].
Proof. vm_compute. reflexivity. Qed.
End ValidateWitnesses.
