(* ===== verification/Jobs.v ===== *)
(** * Jobs: the asynchronous job manager

    src/internal/jobs/manager.go.  A job is a heap object that the manager's
    map, and a worker that is processing it, both point to; it is identified
    by its id, which is fresh.  The worker leaves the critical section while
    the processor runs on a copy, so the manager is a step relation whose
    steps are the critical sections: submitting, taking a job (from the
    in-memory channel or from the durable queue, which may deliver a message
    again), finishing it, cancelling and cleaning up, in any order.  What the
    processor does to its copy is arbitrary, except that it only reads the
    metadata, whose values are strings here; it returns, and the manager is
    not shut down. *)

From Stdlib Require Import Ascii String.
From S2P Require Import Prelude GoString.

Inductive JobStatus := Pending | Running | Completed | Failed | Cancelled.
#[export] Instance JobStatus_eq_dec : EqDecision JobStatus.
Proof. solve_decision. Defined.

Record Job := {
  ID : string;
  Type' : string;
  Status : JobStatus;
  Input : string;
  Result : string;
  Error : string;
  CreatedAt : Z;
  StartedAt : option Z;
  CompletedAt : option Z;
  Progress : Z;
  Metadata : gmap string string;
}.

(** The manager; [running] are the workers between their two critical
    sections, with the job they hold and the copy it was started on.
    [processed] is a ghost: the calls of [Process], oldest first. *)
Record Manager := {
  heap : gmap string Job;
  jobs : gset string;
  queue : list string;
  processors : gset string;
  workers : nat;
  durable : bool;
  messages : gset string;
  running : list (string * Job);
  processed : list string;
}.

Definition NewManager (n : Z) (withDurable : bool) : Manager :=
  {| heap := ∅; jobs := ∅; queue := []; processors := ∅;
     workers := if (n <=? 0)%Z then 2 else Z.to_nat n;
     durable := withDurable; messages := ∅; running := []; processed := [] |}.

(** [make(chan string, 1000)]. *)
Definition queue_cap : nat := 1000.

(** Writing a field of the object [id]. *)
Definition set_job (id : string) (j : Job) (m : Manager) : Manager :=
  {| heap := <[id := j]> (heap m); jobs := jobs m; queue := queue m; processors := processors m;
     workers := workers m; durable := durable m; messages := messages m; running := running m;
     processed := processed m |}.

Definition RegisterProcessor (t : string) (m : Manager) : Manager :=
  {| heap := heap m; jobs := jobs m; queue := queue m; processors := {[t]} ∪ processors m;
     workers := workers m; durable := durable m; messages := messages m; running := running m;
     processed := processed m |}.

Definition new_job (id t input : string) (metadata : gmap string string) (now : Z) : Job :=
  {| ID := id; Type' := t; Status := Pending; Input := input; Result := ""; Error := "";
     CreatedAt := now; StartedAt := None; CompletedAt := None; Progress := 0; Metadata := metadata |}.

(** [job.Status = Failed; job.Error = e]. *)
Definition failed_with (e : string) (j : Job) : Job :=
  {| ID := ID j; Type' := Type' j; Status := Failed; Input := Input j; Result := Result j; Error := e;
     CreatedAt := CreatedAt j; StartedAt := StartedAt j; CompletedAt := CompletedAt j;
     Progress := Progress j; Metadata := Metadata j |}.

Definition completed_at (t : Z) (j : Job) : Job :=
  {| ID := ID j; Type' := Type' j; Status := Status j; Input := Input j; Result := Result j;
     Error := Error j; CreatedAt := CreatedAt j; StartedAt := StartedAt j; CompletedAt := Some t;
     Progress := Progress j; Metadata := Metadata j |}.

(** [m.jobs[jobID] = job]. *)
Definition store (id : string) (j : Job) (m : Manager) : Manager :=
  {| heap := <[id := j]> (heap m); jobs := {[id]} ∪ jobs m; queue := queue m; processors := processors m;
     workers := workers m; durable := durable m; messages := messages m; running := running m;
     processed := processed m |}.

Definition with_queue (q : list string) (m : Manager) : Manager :=
  {| heap := heap m; jobs := jobs m; queue := q; processors := processors m; workers := workers m;
     durable := durable m; messages := messages m; running := running m; processed := processed m |}.
Definition with_message (id : string) (m : Manager) : Manager :=
  {| heap := heap m; jobs := jobs m; queue := queue m; processors := processors m; workers := workers m;
     durable := durable m; messages := {[id]} ∪ messages m; running := running m;
     processed := processed m |}.

Inductive job_error :=
  | NoProcessor (t : string)
  | EnqueueFailed (e : string)
  | QueueFull
  | JobNotFound (id : string)
  | CannotCancel (s : JobStatus).

(** [Submit], with the id [uuid.New()] returns and the error of the durable
    queue, if any: the id, the error and the manager. *)
Definition Submit (id t input : string) (metadata : gmap string string) (enqueue : option string) (now : Z)
    (m : Manager) : string * option job_error * Manager :=
  if bool_decide (t ∈ processors m) then
    let job := new_job id t input metadata now in
    let m := store id job m in
    if durable m then
      match enqueue with
      | Some e => (id, Some (EnqueueFailed e), set_job id (failed_with ("enqueue failed: " +:+ e) job) m)
      | None => (id, None, with_message id m)
      end
    else if List.length (queue m) <? queue_cap then (id, None, with_queue (queue m ++ [id]) m)
    else (id, Some QueueFull, set_job id (failed_with "job queue is full" job) m)
  else ("", Some (NoProcessor t), m).

Definition Get (id : string) (m : Manager) : option Job :=
  if bool_decide (id ∈ jobs m) then heap m !! id else None.

Definition List' (status : option JobStatus) (m : Manager) : list Job :=
  filter (fun j => match status with None => true | Some s => bool_decide (Status j = s) end = true)
    (omap (fun id => heap m !! id) (elements (jobs m))).

Definition cancelled (now : Z) (j : Job) : Job :=
  {| ID := ID j; Type' := Type' j; Status := Cancelled; Input := Input j; Result := Result j;
     Error := "cancelled by user"; CreatedAt := CreatedAt j; StartedAt := StartedAt j;
     CompletedAt := Some now; Progress := Progress j; Metadata := Metadata j |}.

Definition Cancel (id : string) (now : Z) (m : Manager) : option job_error * Manager :=
  match Get id m with
  | None => (Some (JobNotFound id), m)
  | Some j =>
    if bool_decide (Status j = Completed) || bool_decide (Status j = Failed)
    then (Some (CannotCancel (Status j)), m)
    else (None, set_job id (cancelled now j) m)
  end.

(** ** [processJob] *)

Definition started (now : Z) (j : Job) : Job :=
  {| ID := ID j; Type' := Type' j; Status := Running; Input := Input j; Result := Result j;
     Error := Error j; CreatedAt := CreatedAt j; StartedAt := Some now; CompletedAt := CompletedAt j;
     Progress := Progress j; Metadata := Metadata j |}.

Definition add_running (id : string) (j : Job) (m : Manager) : Manager :=
  {| heap := heap m; jobs := jobs m; queue := queue m; processors := processors m; workers := workers m;
     durable := durable m; messages := messages m; running := running m ++ [(id, j)];
     processed := processed m ++ [id] |}.

(** The first critical section. *)
Definition processJob_begin (id : string) (now : Z) (m : Manager) : Manager :=
  match Get id m with
  | None => m
  | Some j =>
    if negb (bool_decide (Status j = Pending)) then m
    else if negb (bool_decide (Type' j ∈ processors m))
    then set_job id (completed_at now (failed_with ("no processor for job type: " +:+ Type' j) j)) m
    else add_running id (started now j) (set_job id (started now j) m)
  end.

(** The job when the processor is done, with what it made of its copy. *)
Definition finished (work : Job) (err : option string) (now : Z) (j : Job) : Job :=
  {| ID := ID j; Type' := Type' j;
     Status := match err with Some _ => Failed | None => Completed end;
     Input := Input j; Result := Result work;
     Error := match err with Some e => e | None => Error j end;
     CreatedAt := CreatedAt j; StartedAt := StartedAt j; CompletedAt := Some now;
     Progress := match err with Some _ => Progress work | None => 100 end;
     Metadata := Metadata j |}.

Definition drop_running (k : nat) (m : Manager) : Manager :=
  {| heap := heap m; jobs := jobs m; queue := queue m; processors := processors m; workers := workers m;
     durable := durable m; messages := messages m; running := delete k (running m);
     processed := processed m |}.

(** The second critical section of the [k]-th busy worker; it writes through
    its pointer, whether or not the job is still in the map. *)
Definition processJob_end (k : nat) (work : Job) (err : option string) (now : Z) (m : Manager) : Manager :=
  match running m !! k with
  | None => m
  | Some (id, _) =>
    match heap m !! id with
    | None => drop_running k m
    | Some j => if bool_decide (Status j = Cancelled) then drop_running k m
                else drop_running k (set_job id (finished work err now j) m)
    end
  end.

(** ** Cleaning up *)

Definition terminal (s : JobStatus) : bool :=
  bool_decide (s = Completed) || bool_decide (s = Failed) || bool_decide (s = Cancelled).

Definition expired (cutoff : Z) (j : Job) : bool :=
  terminal (Status j) && match CompletedAt j with Some t => (t <? cutoff)%Z | None => false end.

Definition removable (maxAge now : Z) (m : Manager) : gset string :=
  filter (fun id => match heap m !! id with Some j => expired (now - maxAge) j | None => false end = true) (jobs m).

Definition CleanupCompleted (maxAge now : Z) (m : Manager) : Z * Manager :=
  let rm := removable maxAge now m in
  (Z.of_nat (size rm),
   {| heap := heap m; jobs := jobs m ∖ rm; queue := queue m; processors := processors m;
      workers := workers m; durable := durable m; messages := messages m; running := running m;
      processed := processed m |}).

(** ** Steps *)

(** What the workers do. *)
Inductive worker_step : Manager -> Manager -> Prop :=
  | step_take id rest now m :
      durable m = false -> queue m = id :: rest -> List.length (running m) < workers m ->
      worker_step m (processJob_begin id now (with_queue rest m))
  | step_finish k work err now m :
      k < List.length (running m) -> worker_step m (processJob_end k work err now m).

Inductive step : Manager -> Manager -> Prop :=
  | step_worker m m' : worker_step m m' -> step m m'
  | step_deliver id now m :
      durable m = true -> id ∈ messages m -> step m (processJob_begin id now m)
  | step_register t m : step m (RegisterProcessor t m)
  | step_submit id t input metadata enqueue now m :
      heap m !! id = None -> step m (Submit id t input metadata enqueue now m).2
  | step_cancel id now m : step m (Cancel id now m).2
  | step_cleanup maxAge now m : step m (CleanupCompleted maxAge now m).2.

Definition reachable (m : Manager) : Prop := exists n d, rtc step (NewManager n d) m.

(** ** The invariant *)

(** The timestamps and the progress fit the status. *)
Definition job_ok (j : Job) : Prop :=
  match Status j with
  | Pending => StartedAt j = None /\ CompletedAt j = None
  | Running => is_Some (StartedAt j)
  | Completed => is_Some (StartedAt j) /\ is_Some (CompletedAt j) /\ Progress j = 100%Z
  | Failed => True
  | Cancelled => is_Some (CompletedAt j)
  end.

Definition busy (m : Manager) : list string := map fst (running m).

Record Inv (m : Manager) : Prop := {
  inv_jobs : forall id, id ∈ jobs m -> is_Some (heap m !! id);
  inv_ok : forall id j, heap m !! id = Some j -> job_ok j;
  inv_busy : forall id, id ∈ busy m ->
    exists j, heap m !! id = Some j /\ (Status j = Running \/ Status j = Cancelled) /\ is_Some (StartedAt j);
  inv_busy_once : NoDup (busy m);
  inv_running : forall id j, heap m !! id = Some j -> Status j = Running -> id ∈ busy m;
  inv_pending : forall id j, heap m !! id = Some j -> Status j = Pending ->
    id ∈ jobs m /\ (durable m = false -> id ∈ queue m);
  inv_once : NoDup (processed m);
  inv_processed : forall id, id ∈ processed m -> exists j, heap m !! id = Some j /\ is_Some (StartedAt j);
  inv_workers : 0 < workers m;
}.

Lemma Get_Some id m j : Get id m = Some j <-> id ∈ jobs m /\ heap m !! id = Some j.
Proof. unfold Get. case_bool_decide; naive_solver. Qed.

Lemma NewManager_inv n d : Inv (NewManager n d).
Proof.
  split; simpl; try (intros; set_solver); try constructor.
  case_if; lia.
Qed.

Lemma heap_set_job m id j' i x :
  heap (set_job id j' m) !! i = Some x -> (i = id /\ x = j') \/ (i <> id /\ heap m !! i = Some x).
Proof. simpl. rewrite lookup_insert_Some. naive_solver. Qed.

Section SetJob.
Context (m : Manager) (id : string) (j j' : Job).
Hypothesis Hm : Inv m.
Hypothesis Hj : heap m !! id = Some j.

(** Ending a job that no worker holds, or cancelling any job. *)
Lemma set_job_inv :
  job_ok j' -> Status j' <> Pending -> Status j' <> Running ->
  (id ∈ busy m -> Status j' = Cancelled) -> StartedAt j' = StartedAt j ->
  Inv (set_job id j' m).
Proof.
  intros Hok Hnp Hnr Hb Hs. destruct Hm as [H1 H2 H3 H4 H5 H6 H7 H8 H9].
  split; [| | |exact H4| | |exact H7| |exact H9].
  - intros i Hi. simpl. destruct (decide (i = id)) as [->|]; [by rewrite lookup_insert_eq|].
    rewrite lookup_insert_ne by done. by apply H1.
  - intros i x [[-> ->]|[_ Hx]]%heap_set_job; [done|by eapply H2].
  - intros i Hi. destruct (H3 i Hi) as (x & Hx & Hst & Hsa). simpl.
    destruct (decide (i = id)) as [->|]; [|exists x; by rewrite lookup_insert_ne].
    exists j'. rewrite lookup_insert_eq. simplify_eq. split_and!; [done|right; by apply Hb|by rewrite Hs].
  - intros i x [[-> ->]|[_ Hx]]%heap_set_job Hr; [done|by eapply H5].
  - intros i x [[-> ->]|[_ Hx]]%heap_set_job Hp; [done|by eapply H6].
  - intros i Hi. destruct (H8 i Hi) as (x & Hx & Hsa). simpl.
    destruct (decide (i = id)) as [->|]; [|exists x; by rewrite lookup_insert_ne].
    exists j'. rewrite lookup_insert_eq. simplify_eq. split; [done|by rewrite Hs].
Qed.
End SetJob.

Lemma with_queue_inv m q :
  Inv m ->
  (forall id j, heap m !! id = Some j -> Status j = Pending -> durable m = false -> id ∈ q) ->
  Inv (with_queue q m).
Proof.
  intros [H1 H2 H3 H4 H5 H6 H7 H8 H9] Hq. split; [done..| |done|done|done].
  intros id j Hj Hp. split; [by eapply H6|by apply (Hq id j)].
Qed.

(** A worker starts a pending job. *)
Lemma start_inv m id j now :
  Inv m -> heap m !! id = Some j -> Status j = Pending ->
  Inv (add_running id (started now j) (set_job id (started now j) m)).
Proof.
  intros Hm Hj Hp. pose proof (inv_ok _ Hm _ _ Hj) as Hok. unfold job_ok in Hok. rewrite Hp in Hok.
  assert (Hnb : id ∉ busy m) by (intros (x & Hx & Hs & _)%(inv_busy _ Hm); simplify_eq; destruct Hs; congruence).
  assert (Hnp : id ∉ processed m)
    by (intros (x & Hx & [t Hs])%(inv_processed _ Hm); simplify_eq; destruct Hok; congruence).
  destruct Hm as [H1 H2 H3 H4 H5 H6 H7 H8 H9].
  assert (Hbusy : busy (add_running id (started now j) (set_job id (started now j) m)) = busy m ++ [id])
    by (unfold busy; simpl; by rewrite map_app).
  split; rewrite ?Hbusy; [| | | | | | | |exact H9].
  - intros i Hi. simpl. destruct (decide (i = id)) as [->|]; [by rewrite lookup_insert_eq|].
    rewrite lookup_insert_ne by done. by apply H1.
  - intros i x [[-> ->]|[_ Hx]]%(heap_set_job m); [by eexists|by eapply H2].
  - intros i [Hi|Hi]%elem_of_app.
    + assert (i <> id) by (by intros ->). destruct (H3 i Hi) as (x & Hx & ?). exists x. simpl.
      by rewrite lookup_insert_ne.
    + apply list_elem_of_singleton in Hi as ->. exists (started now j). simpl. rewrite lookup_insert_eq.
      split_and!; [done|by left|by eexists].
  - apply NoDup_app. split_and!; [done| |apply NoDup_singleton]. intros x Hx Hx'%list_elem_of_singleton. by subst.
  - intros i x [[-> ->]|[_ Hx]]%(heap_set_job m) Hr; apply elem_of_app; [right; by left|left; by eapply H5].
  - intros i x [[-> ->]|[_ Hx]]%(heap_set_job m) Hpe; [done|by eapply H6].
  - apply NoDup_app. split_and!; [done| |apply NoDup_singleton]. intros x Hx Hx'%list_elem_of_singleton. by subst.
  - intros i Hi. simpl in Hi. apply elem_of_app in Hi as [Hi|Hi].
    + assert (i <> id) by (by intros ->). destruct (H8 i Hi) as (x & Hx & ?). exists x. simpl.
      by rewrite lookup_insert_ne.
    + apply list_elem_of_singleton in Hi as ->. exists (started now j). simpl. rewrite lookup_insert_eq.
      split; [done|by eexists].
Qed.

Lemma begin_inv id now q m :
  Inv m -> (forall i, i ∈ queue m -> i = id \/ i ∈ q) -> Inv (processJob_begin id now (with_queue q m)).
Proof.
  intros Hm Hq. unfold processJob_begin. change (Get id (with_queue q m)) with (Get id m).
  assert (Hother : (forall j, heap m !! id = Some j -> Status j <> Pending) -> Inv (with_queue q m)).
  { intros Hn. apply with_queue_inv; [done|]. intros i x Hx Hp Hd.
    destruct (Hq i) as [->|]; [by eapply inv_pending|by destruct (Hn x)|done]. }
  destruct (Get id m) as [j|] eqn:Eg.
  2: { apply Hother. intros j Hj Hp. destruct (inv_pending _ Hm _ _ Hj Hp) as [Hl _].
       assert (Get id m = Some j) by (by apply Get_Some). congruence. }
  apply Get_Some in Eg as [Hl Hj].
  destruct (negb (bool_decide (Status j = Pending))) eqn:Es.
  { apply Hother. intros x Hx. apply negb_true_iff, bool_decide_eq_false in Es. congruence. }
  apply negb_false_iff, bool_decide_eq_true in Es.
  assert (Hnb : id ∉ busy m) by (intros (x & Hx & Hs & _)%(inv_busy _ Hm); simplify_eq; destruct Hs; congruence).
  assert (Hrest : forall j', Status j' <> Pending -> forall i x,
    heap (set_job id j' m) !! i = Some x -> Status x = Pending -> durable m = false -> i ∈ q).
  { intros j' Hj' i x [[-> ->]|[Hne Hx]]%(heap_set_job m) Hp Hd; [done|].
    destruct (Hq i) as [->|]; [by eapply inv_pending|done|done]. }
  destruct (negb (bool_decide (Type' j ∈ _))).
  - set (j' := completed_at _ _). change (set_job id j' (with_queue q m)) with (with_queue q (set_job id j' m)).
    apply with_queue_inv; [|by apply Hrest].
    eapply set_job_inv; [done|exact Hj|done|done|done|done|done].
  - change (add_running id (started now j) (set_job id (started now j) (with_queue q m)))
      with (with_queue q (add_running id (started now j) (set_job id (started now j) m))).
    apply with_queue_inv; [by apply start_inv|]. by apply Hrest.
Qed.

Lemma elem_of_delete {A} (l : list A) k x y :
  NoDup l -> l !! k = Some x -> y ∈ delete k l <-> y ∈ l /\ y <> x.
Proof.
  intros Hd Hk. rewrite delete_take_drop. rewrite <-(take_drop_middle l k x Hk) in Hd |- * at 3.
  apply NoDup_app in Hd as (_ & Hx & Hd). apply NoDup_cons in Hd as [Hx' _].
  rewrite !elem_of_app, elem_of_cons. split; [|naive_solver].
  intros [Hy|Hy]; (split; [tauto|intros ->]); [|done]. apply (Hx x); [done|by left].
Qed.

Lemma busy_drop k m : busy (drop_running k m) = delete k (busy m).
Proof. unfold busy. simpl. apply list_fmap_delete. Qed.

(** A worker lets go of its job, which is not running any more. *)
Lemma retire_inv k id w j j' m :
  Inv m -> running m !! k = Some (id, w) -> heap m !! id = Some j -> job_ok j' ->
  Status j' <> Pending -> Status j' <> Running -> StartedAt j' = StartedAt j ->
  Inv (drop_running k (set_job id j' m)).
Proof.
  intros [H1 H2 H3 H4 H5 H6 H7 H8 H9] Hk Hj Hok Hnp Hnr Hs.
  assert (Hb : busy m !! k = Some id) by (unfold busy; by rewrite list_lookup_fmap, Hk).
  assert (Hin : forall i, i ∈ busy (drop_running k (set_job id j' m)) <-> i ∈ busy m /\ i <> id)
    by (intros i; rewrite busy_drop; by apply elem_of_delete).
  split; [| | | | | |exact H7| |exact H9].
  - intros i Hi. simpl. destruct (decide (i = id)) as [->|]; [by rewrite lookup_insert_eq|].
    rewrite lookup_insert_ne by done. by apply H1.
  - intros i x [[-> ->]|[_ Hx]]%(heap_set_job m); [done|by eapply H2].
  - intros i [Hi Hne]%Hin. destruct (H3 i Hi) as (x & Hx & ?). exists x. simpl. by rewrite lookup_insert_ne.
  - rewrite busy_drop. eapply sublist_NoDup; [exact H4|apply sublist_delete].
  - intros i x [[-> ->]|[Hne Hx]]%(heap_set_job m) Hrun; [done|]. apply Hin. split; [by eapply H5|done].
  - intros i x [[-> ->]|[_ Hx]]%(heap_set_job m) Hp; [done|by eapply H6].
  - intros i Hi. destruct (H8 i Hi) as (x & Hx & Hxa). simpl.
    destruct (decide (i = id)) as [->|]; [|exists x; by rewrite lookup_insert_ne].
    exists j'. rewrite lookup_insert_eq. simplify_eq. split; [done|by rewrite Hs].
Qed.

Lemma set_job_same id j m : heap m !! id = Some j -> set_job id j m = m.
Proof. intros Hj. unfold set_job. rewrite insert_id by done. by destruct m. Qed.

Lemma finish_inv k work err now m : Inv m -> Inv (processJob_end k work err now m).
Proof.
  intros Hm. unfold processJob_end. destruct (running m !! k) as [[id w]|] eqn:Hk; [|done].
  assert (Hb : id ∈ busy m) by (apply (list_elem_of_fmap_2 fst (running m) (id, w)), list_elem_of_lookup; by exists k).
  destruct (inv_busy _ Hm _ Hb) as (j & Hj & _ & Hsa). rewrite Hj. pose proof (inv_ok _ Hm _ _ Hj) as Hok.
  case_bool_decide as Hc.
  - rewrite <-(set_job_same id j m Hj). eapply retire_inv; [done|done|done|done|by rewrite Hc..|done].
  - eapply retire_inv; [done|done|done| | | |done]; unfold job_ok; destruct err; simpl; try done.
Qed.

(** A fresh job enters the map, pending; the queue that names it comes next. *)
Lemma store_inv id j m :
  Inv m -> heap m !! id = None -> job_ok j -> Status j <> Running ->
  (Status j = Pending -> durable m = false -> id ∈ queue m) -> Inv (store id j m).
Proof.
  intros [H1 H2 H3 H4 H5 H6 H7 H8 H9] Hid Hok Hnr Hq.
  assert (Hfresh : forall i x, heap m !! i = Some x -> <[id:=j]> (heap m) !! i = Some x)
    by (intros i x Hx; rewrite lookup_insert_ne; congruence).
  split; simpl; [| | |exact H4| | |exact H7| |exact H9].
  - intros i [->%elem_of_singleton|Hi]%elem_of_union; [by rewrite lookup_insert_eq|].
    destruct (H1 i Hi) as [x Hx]. exists x. by apply Hfresh.
  - intros i x [[<- <-]|[_ Hx]]%lookup_insert_Some; [done|by eapply H2].
  - intros i Hi. destruct (H3 i Hi) as (x & Hx & ?). exists x. split; [by apply Hfresh|done].
  - intros i x [[<- <-]|[_ Hx]]%lookup_insert_Some Hr; [done|by eapply H5].
  - intros i x [[<- <-]|[_ Hx]]%lookup_insert_Some Hp; [split; [set_solver|auto]|].
    destruct (H6 i x Hx Hp). split; [set_solver|done].
  - intros i Hi. destruct (H8 i Hi) as (x & Hx & ?). exists x. split; [by apply Hfresh|done].
Qed.

Lemma queue_grow_inv m q : Inv m -> (forall i, i ∈ queue m -> i ∈ q) -> Inv (with_queue q m).
Proof. intros Hm Hq. apply with_queue_inv; [done|]. intros i x Hx Hp Hd. apply Hq. by eapply inv_pending. Qed.

Lemma store_fail id j e m : set_job id (failed_with e j) (store id j m) = store id (failed_with e j) m.
Proof. unfold set_job, store. simpl. by rewrite insert_insert_eq. Qed.

Lemma Submit_inv id t input metadata enqueue now m :
  Inv m -> heap m !! id = None -> Inv (Submit id t input metadata enqueue now m).2.
Proof.
  intros Hm Hid. unfold Submit. destruct (bool_decide (t ∈ processors m)); [|done].
  set (j := new_job id t input metadata now).
  assert (Hf : forall e, Inv (set_job id (failed_with e j) (store id j m)))
    by (intros e; rewrite store_fail; by apply store_inv).
  destruct (durable (store id j m)) eqn:Hd.
  - destruct enqueue as [e|]; [apply Hf|].
    assert (Hs : Inv (store id j m)) by (apply store_inv; [done..|intros _ H; simpl in Hd; congruence]).
    destruct Hs. by split.
  - destruct (List.length (queue (store id j m)) <? queue_cap); [|apply Hf].
    change (Inv (store id j (with_queue (queue m ++ [id]) m))).
    apply store_inv; [apply queue_grow_inv; [done|set_solver]|done..|]. simpl. set_solver.
Qed.

Lemma Cancel_inv id now m : Inv m -> Inv (Cancel id now m).2.
Proof.
  intros Hm. unfold Cancel. destruct (Get id m) as [j|] eqn:E; [|done]. apply Get_Some in E as [_ Hj].
  case_if; [done|]. simpl. eapply set_job_inv; [done|exact Hj|by eexists|done|done|done|done].
Qed.

Lemma Cleanup_inv maxAge now m : Inv m -> Inv (CleanupCompleted maxAge now m).2.
Proof.
  intros [H1 H2 H3 H4 H5 H6 H7 H8 H9]. split; simpl; try done.
  - intros id Hid. apply H1. set_solver.
  - intros id j Hj Hp. destruct (H6 id j Hj Hp) as [Hl Hq]. split; [|done].
    apply elem_of_difference. split; [done|]. unfold removable. rewrite elem_of_filter, Hj.
    unfold expired, terminal. rewrite Hp. simpl. by intros [? _].
Qed.

Lemma RegisterProcessor_inv t m : Inv m -> Inv (RegisterProcessor t m).
Proof. intros []. by split. Qed.

Lemma with_queue_same m : with_queue (queue m) m = m.
Proof. by destruct m. Qed.

Lemma worker_step_inv m m' : worker_step m m' -> Inv m -> Inv m'.
Proof.
  intros [id rest now m0 Hd Hq Hw|k work err now m0 Hk] Hm; [|by apply finish_inv].
  apply begin_inv; [done|]. rewrite Hq. intros i [->|Hi]%elem_of_cons; auto.
Qed.

Lemma step_inv m m' : step m m' -> Inv m -> Inv m'.
Proof.
  intros Hs Hm. destruct Hs as [m m' Hw|id now m Hd Hid|t m|id t input md enq now m Hid|id now m|a now m].
  - by eapply worker_step_inv.
  - rewrite <-(with_queue_same m). apply begin_inv; auto.
  - by apply RegisterProcessor_inv.
  - by apply Submit_inv.
  - by apply Cancel_inv.
  - by apply Cleanup_inv.
Qed.

Lemma steps_inv m m' : rtc step m m' -> Inv m -> Inv m'.
Proof. induction 1; [done|]. eauto using step_inv. Qed.

Lemma reachable_inv m : reachable m -> Inv m.
Proof. intros (n & d & H). eapply steps_inv; [exact H|apply NewManager_inv]. Qed.

(** ** The life of a job *)

(** The statuses a job can have after it had [s]. *)
Definition advances (s s' : JobStatus) : bool :=
  match s with
  | Pending => true
  | Running => negb (bool_decide (s' = Pending))
  | _ => bool_decide (s' = s)
  end.

Definition evolves (j j' : Job) : Prop :=
  advances (Status j) (Status j') = true /\
  (Status j = Completed \/ Status j = Failed -> j' = j) /\
  (Status j = Cancelled -> Result j' = Result j) /\
  ID j' = ID j /\ Type' j' = Type' j /\ Input j' = Input j /\ CreatedAt j' = CreatedAt j.

#[export] Instance evolves_preorder : PreOrder evolves.
Proof.
  split.
  - intros j. unfold evolves. split_and!; try done. by destruct (Status j).
  - intros j1 j2 j3 (A & F & C & ? & ? & ? & ?) (A' & F' & C' & ? & ? & ? & ?).
    unfold evolves. split_and!; try congruence.
    + destruct (Status j1), (Status j2), (Status j3); done.
    + intros Hs. rewrite (F Hs) in *. by apply F'.
    + intros Hs. rewrite Hs in A. simpl in A. apply bool_decide_eq_true in A. rewrite C' by done. by apply C.
Qed.

Lemma terminal_evolves j j' : evolves j j' -> terminal (Status j) = true -> terminal (Status j') = true.
Proof. intros (A & _) H. destruct (Status j), (Status j'); done. Qed.

(** What holds of the job [id], which is [j], after the manager became [m']. *)
Definition kept (id : string) (m : Manager) (j : Job) (m' : Manager) : Prop :=
  exists j', heap m' !! id = Some j' /\ evolves j j' /\
    (id ∈ jobs m -> id ∈ jobs m' \/ terminal (Status j') = true) /\
    (id ∈ processed m' -> id ∈ processed m \/ Status j = Pending).

Lemma kept_same id m j m' :
  heap m !! id = Some j -> heap m' = heap m -> jobs m' = jobs m -> processed m' = processed m -> kept id m j m'.
Proof. intros Hj Hh Hjs Hp. exists j. rewrite Hh, Hjs, Hp. split_and!; auto. reflexivity. Qed.

(** One object is replaced by [x']. *)
Lemma kept_set id i m j x x' m' :
  heap m !! id = Some j -> heap m !! i = Some x -> heap m' = <[i := x']> (heap m) -> jobs m' = jobs m ->
  (forall k, k ∈ processed m' -> k ∈ processed m \/ k = i /\ Status x = Pending) -> evolves x x' -> kept id m j m'.
Proof.
  intros Hj Hx Hh Hjs Hp He. unfold kept. rewrite Hh, Hjs. destruct (decide (id = i)) as [->|Hne].
  - simplify_eq. exists x'. rewrite lookup_insert_eq. split_and!; auto. intros [|[_ ?]]%Hp; auto.
  - exists j. rewrite lookup_insert_ne by done. split_and!; auto; [reflexivity|].
    intros [|[-> _]]%Hp; auto; done.
Qed.

Lemma begin_kept id i now m j : heap m !! id = Some j -> kept id m j (processJob_begin i now m).
Proof.
  intros Hj. unfold processJob_begin. destruct (Get i m) as [x|] eqn:E; [|by apply kept_same].
  apply Get_Some in E as [_ Hx]. case_bool_decide as Hp; simpl; [|by apply kept_same].
  assert (He : forall x', ID x' = ID x -> Type' x' = Type' x -> Input x' = Input x ->
    CreatedAt x' = CreatedAt x -> evolves x x')
    by (intros x' ? ? ? ?; unfold evolves; rewrite Hp; split_and!; try done; intros [|]; done).
  destruct (negb _); eapply kept_set; [done|exact Hx|done|done| |by apply He|done|exact Hx|done|done| |by apply He];
    simpl; auto.
  intros k [H| ->%list_elem_of_singleton]%elem_of_app; auto.
Qed.

Lemma end_kept id k work err now m j :
  Inv m -> heap m !! id = Some j -> kept id m j (processJob_end k work err now m).
Proof.
  intros Hm Hj. unfold processJob_end. destruct (running m !! k) as [[i w]|] eqn:Hk; [|by apply kept_same].
  destruct (heap m !! i) as [x|] eqn:Hx; [|by apply kept_same].
  case_bool_decide as Hc; [by apply kept_same|].
  assert (Hb : i ∈ busy m) by (apply (list_elem_of_fmap_2 fst (running m) (i, w)), list_elem_of_lookup; by exists k).
  destruct (inv_busy _ Hm _ Hb) as (y & Hy & [Hr|Hr] & _); simplify_eq.
  eapply kept_set; [done|exact Hx|done|done|auto|].
  unfold evolves. rewrite Hr. split_and!; try done; [by destruct err|intros [|]; done].
Qed.

Lemma step_kept m m' id j : Inv m -> step m m' -> heap m !! id = Some j -> kept id m j m'.
Proof.
  intros Hm Hs. destruct Hs as [m m' Hw|i now m Hd Hid|t m|i t input md enq now m Hid|i now m|a now m]; intros Hj.
  - destruct Hw as [i rest now m Hd Hq Hw|k work err now m Hk]; [|by apply end_kept].
    by apply (begin_kept id i now (with_queue rest m) j).
  - by apply begin_kept.
  - by apply kept_same.
  - assert (i <> id) by congruence. unfold Submit. destruct (bool_decide _); [|by apply kept_same].
    exists j. repeat case_match; simpl; rewrite ?lookup_insert_ne by done;
      (split_and!; [done|reflexivity|set_solver|auto]).
  - unfold Cancel. destruct (Get i m) as [x|] eqn:E; [|by apply kept_same]. apply Get_Some in E as [_ Hx].
    destruct (_ || _) eqn:Eb; [by apply kept_same|]. apply orb_false_iff in Eb as [E1 E2].
    apply bool_decide_eq_false in E1, E2.
    eapply kept_set; [done|exact Hx|done|done|auto|]. unfold evolves.
    split_and!; try done; [destruct (Status x); done|by intros [?|?]].
  - exists j. split_and!; [done|reflexivity| |auto]. intros Hl.
    destruct (decide (id ∈ removable a now m)) as [Hr|Hr]; [right|left; simpl; set_solver].
    apply elem_of_filter in Hr as [Hr _]. rewrite Hj in Hr. by apply andb_true_iff in Hr as [? _].
Qed.

Lemma steps_kept m m' id j : Inv m -> rtc step m m' -> heap m !! id = Some j -> kept id m j m'.
Proof.
  intros Hm Hs. revert j Hm. induction Hs as [m|m m1 m' H1 Hs IH]; intros j Hm Hj; [by apply kept_same|].
  destruct (step_kept m m1 id j Hm H1 Hj) as (j1 & Hj1 & He1 & Hl1 & Hp1).
  destruct (IH j1 (step_inv _ _ H1 Hm) Hj1) as (j' & Hj' & He & Hl & Hp).
  exists j'. split_and!; [done|by etrans| |].
  - intros Hin. destruct (Hl1 Hin) as [|Ht]; [by apply Hl|]. right. by eapply terminal_evolves.
  - intros [|Hpe]%Hp; [by apply Hp1|]. right. destruct He1 as (A & _). rewrite Hpe in A. by destruct (Status j).
Qed.

(** C38. From any reachable state, whatever submissions, cancellations,
    deliveries (repeated ones included), completions and cleanups follow, a
    job that the manager lists stays listed until its status is terminal; its
    status only advances from pending over running to completed, failed or
    cancelled; a completed or failed job is never changed again and a
    cancelled one stays cancelled with the result it had; and no processor is
    called for a job twice, nor for one that has left the pending status. *)
Theorem job_lifecycle (m m' : Manager) (id : string) (j : Job) :
  reachable m -> rtc step m m' -> Get id m = Some j ->
  NoDup (processed m') /\
  (Status j <> Pending -> id ∈ processed m' -> id ∈ processed m) /\
  exists j', heap m' !! id = Some j' /\ evolves j j' /\
    (Get id m' = Some j' \/ Get id m' = None /\ terminal (Status j') = true).
Proof.
  intros Hr Hs [Hl Hj]%Get_Some. apply reachable_inv in Hr as Hm.
  destruct (steps_kept m m' id j Hm Hs Hj) as (j' & Hj' & He & Hl' & Hp).
  split_and!; [apply (inv_once _ (steps_inv _ _ Hs Hm))|naive_solver|].
  exists j'. split_and!; [done..|]. unfold Get. case_bool_decide; [by left|]. destruct (Hl' Hl); auto.
Qed.

(** ** Draining the queue *)

Definition pending_work (m : Manager) : nat := 2 * List.length (queue m) + List.length (running m).

Definition idle (m : Manager) : Prop := forall m', ~ worker_step m m'.

Lemma begin_queue id now m :
  queue (processJob_begin id now m) = queue m /\
  List.length (running (processJob_begin id now m)) <= S (List.length (running m)) /\
  durable (processJob_begin id now m) = durable m.
Proof.
  unfold processJob_begin. destruct (Get id m); [|auto]. repeat case_match; simpl; rewrite ?length_app; simpl; split_and!; lia || done.
Qed.

Lemma end_queue k work err now m :
  k < List.length (running m) ->
  queue (processJob_end k work err now m) = queue m /\
  List.length (running (processJob_end k work err now m)) < List.length (running m) /\
  durable (processJob_end k work err now m) = durable m.
Proof.
  intros Hk. unfold processJob_end. destruct (lookup_lt_is_Some_2 (running m) k Hk) as [[i w] E].
  rewrite E. assert (List.length (delete k (running m)) < List.length (running m))
    by (rewrite length_delete by (by rewrite E); lia).
  repeat case_match; simpl; auto.
Qed.

Lemma worker_step_less m m' :
  worker_step m m' -> pending_work m' < pending_work m /\ durable m' = durable m.
Proof.
  unfold pending_work. intros [id rest now m0 Hd Hq Hw|k work err now m0 Hk].
  - destruct (begin_queue id now (with_queue rest m0)) as (-> & Hr & ->). simpl in *. rewrite Hq. simpl. split; [lia|done].
  - destruct (end_queue k work err now m0 Hk) as (-> & Hr & ->). split; [lia|done].
Qed.

Lemma idle_or_step m : Inv m -> durable m = false ->
  (queue m = [] /\ running m = []) \/ exists m', worker_step m m'.
Proof.
  intros Hm Hd. destruct (running m) as [|[i w] r] eqn:Er.
  - destruct (queue m) as [|id rest] eqn:Eq; [by left|]. right. eexists.
    apply (step_take id rest 0%Z); [done..|]. rewrite Er. apply inv_workers, Hm.
  - right. eexists. apply (step_finish 0 w None 0%Z). rewrite Er. simpl. lia.
Qed.

Lemma drained_terminal m id j :
  Inv m -> durable m = false -> idle m -> heap m !! id = Some j -> terminal (Status j) = true.
Proof.
  intros Hm Hd Hi Hj. destruct (idle_or_step m Hm Hd) as [[Hq Hr]|[m' H]]; [|by destruct (Hi m')].
  destruct (Status j) eqn:Es; [| |done..].
  - destruct (inv_pending _ Hm _ _ Hj Es) as [_ H]. specialize (H Hd). rewrite Hq in H. by apply elem_of_nil in H.
  - apply (inv_running _ Hm _ _ Hj) in Es. unfold busy in Es. rewrite Hr in Es. by apply elem_of_nil in Es.
Qed.

Lemma drain_exists m : Inv m -> durable m = false -> exists m', rtc worker_step m m' /\ idle m'.
Proof.
  induction (Wf_nat.well_founded_ltof _ pending_work m) as [m _ IH]. intros Hm Hd.
  destruct (idle_or_step m Hm Hd) as [[Hq Hr]|[m1 H1]].
  - exists m. split; [done|]. intros m' H. apply worker_step_less in H as [H _].
    unfold pending_work in H. rewrite Hq, Hr in H. simpl in H. lia.
  - destruct (worker_step_less _ _ H1) as [Hlt Hd1].
    destruct (IH m1 Hlt) as (m' & Hs & Hi); [by eapply worker_step_inv|congruence|].
    exists m'. split; [by econstructor|done].
Qed.

Lemma worker_nsteps n m m' :
  nsteps worker_step n m m' -> Inv m -> n + pending_work m' <= pending_work m /\ durable m' = durable m /\ Inv m'.
Proof.
  induction 1 as [m|n m m1 m' H1 Hs IH]; intros Hm; [auto|].
  destruct (worker_step_less _ _ H1) as [Hlt Hd1]. destruct IH as (Hle & Hd & Hm'); [by eapply worker_step_inv|].
  split_and!; [lia|congruence|done].
Qed.

(** C39. With the in-memory queue the workers drain what was submitted: from
    any reachable state every run of the workers takes at most two steps for
    each queued job and one for each running job, some run reaches a state in
    which no worker can move, and in every such state all jobs, those that
    were submitted when the queue was full or cancelled included, are
    completed, failed or cancelled. *)
Theorem jobs_drain (m : Manager) :
  reachable m -> durable m = false ->
  (exists m', rtc worker_step m m' /\ idle m') /\
  forall n m', nsteps worker_step n m m' ->
    n <= pending_work m /\
    (idle m' -> forall id j, heap m' !! id = Some j -> terminal (Status j) = true).
Proof.
  intros Hm%reachable_inv Hd. split; [by apply drain_exists|]. intros n m' Hs.
  destruct (worker_nsteps n m m' Hs Hm) as (Hle & Hd' & Hm'). split; [lia|].
  intros Hi id j Hj. eapply drained_terminal; [done|congruence|done|done].
Qed.

(** A job whose submission failed never gets a completion time, so no
    cleanup removes it. *)
Lemma failed_submission_kept id t input md enq now m maxAge now' :
  heap m !! id = None -> t ∈ processors m ->
  (Submit id t input md enq now m).1.2 <> None ->
  let m' := (Submit id t input md enq now m).2 in
  exists j, Get id m' = Some j /\ Status j = Failed /\
    Get id (CleanupCompleted maxAge now' m').2 = Some j.
Proof.
  intros Hid Ht He. unfold Submit in *. rewrite bool_decide_true in * by done.
  assert (Hkeep : forall e, let m' := set_job id (failed_with e (new_job id t input md now))
                                     (store id (new_job id t input md now) m) in
    exists j, Get id m' = Some j /\ Status j = Failed /\ Get id (CleanupCompleted maxAge now' m').2 = Some j).
  { intros e m'. exists (failed_with e (new_job id t input md now)).
    assert (Hh : heap m' !! id = Some (failed_with e (new_job id t input md now))) by apply lookup_insert_eq.
    split_and!; [apply Get_Some; simpl; split; [set_solver|apply lookup_insert_eq]|done|].
    apply Get_Some. split; [|done]. simpl. apply elem_of_difference. split; [set_solver|].
    unfold removable. rewrite elem_of_filter, Hh. by intros [? _]. }
  repeat case_match; simpl in *; [apply Hkeep|done|done|apply Hkeep].
Qed.

Module JobWitnesses.
Definition m0 : Manager := RegisterProcessor "scan" (NewManager 0 false).
Definition m1 : Manager := (Submit "a" "scan" "x" ∅ None 1 m0).2.
Definition m2 : Manager := (Submit "b" "scan" "y" ∅ None 2 m1).2.
Definition m3 : Manager := processJob_begin "a" 3 (with_queue ["b"] m2).
Definition m4 : Manager := (Cancel "a" 4 m3).2.
Definition ja : Job := started 3 (new_job "a" "scan" "x" ∅ 1).
Definition done_a : Job :=
  {| ID := "a"; Type' := "scan"; Status := Running; Input := "x"; Result := "r"; Error := "";
     CreatedAt := 1; StartedAt := Some 3%Z; CompletedAt := None; Progress := 40; Metadata := ∅ |}.
Definition m5 : Manager := processJob_end 0 done_a None 5 m4.
Definition m6 : Manager := (CleanupCompleted 10 20 m5).2.

Lemma m3_reachable : reachable m3.
Proof.
  exists 0%Z, false. eapply rtc_l; [apply (step_register "scan")|].
  eapply rtc_l; [apply (step_submit "a" "scan" "x" ∅ None 1); reflexivity|].
  eapply rtc_l; [apply (step_submit "b" "scan" "y" ∅ None 2); reflexivity|].
  apply rtc_once, step_worker, (step_take "a" ["b"]); [reflexivity..|vm_compute; lia].
Qed.

Lemma m3_m6 : rtc step m3 m6.
Proof.
  eapply rtc_l; [apply (step_cancel "a" 4)|].
  eapply rtc_l; [apply step_worker, (step_finish 0 done_a None 5); vm_compute; lia|].
  apply rtc_once, step_cleanup.
Qed.

(** Cancelled while it ran: what the worker brings back is discarded, and
    the cleanup removes it. *)
Lemma job_lifecycle_witness :
  Get "a" m3 = Some ja /\
  (option_map Status (Get "a" m5), option_map Result (Get "a" m5), Get "a" m6) = (Some Cancelled, Some ""%string, None) /\
  NoDup (processed m6) /\
  exists j', heap m6 !! "a" = Some j' /\ evolves ja j' /\
    (Get "a" m6 = Some j' \/ Get "a" m6 = None /\ terminal (Status j') = true).
Proof.
  split; [vm_compute; reflexivity|]. split; [vm_compute; reflexivity|].
  destruct (job_lifecycle m3 m6 "a" ja m3_reachable m3_m6) as (H1 & _ & H2); [vm_compute; reflexivity|].
  exact (conj H1 H2).
Defined.

Lemma jobs_drain_witness :
  pending_work m3 = 3 /\
  (exists m', rtc worker_step m3 m' /\ idle m') /\
  forall n m', nsteps worker_step n m3 m' ->
    n <= 3 /\ (idle m' -> forall id j, heap m' !! id = Some j -> terminal (Status j) = true).
Proof. split; [reflexivity|]. exact (jobs_drain m3 m3_reachable eq_refl). Defined.
End JobWitnesses.
