(* ===== verification/Repos.v ===== *)
(** * Repos: the in-memory repositories

    src/internal/infrastructure/persistence/memory: [rulepack_repository.go]
    (rule packs with numbered versions, one of which can be active) and
    [policy_repository.go], with the interface of src/internal/contracts that
    the services are written against.  A repository is a record of Go maps;
    [range] over a map visits its entries in an unspecified order, which is
    the class [RangeOrder].  Ids and times that an operation draws are
    arguments.  The lock of each operation makes it one step. *)

From Stdlib Require Import Ascii String.
From S2P Require Import Prelude GoString.

Notation uuid := string (only parsing).
Definition uuid_Nil : uuid := "00000000-0000-0000-0000-000000000000".

(** [for k, v := range m]: every entry once, in any order. *)
Class RangeOrder := {
  range : forall {V : Type}, gmap string V -> list (string * V);
  range_perm : forall V (m : gmap string V), range m ≡ₚ map_to_list m;
}.

Definition some_order : RangeOrder :=
  {| range V m := map_to_list m; range_perm V m := reflexivity _ |}.
Definition reverse_order : RangeOrder :=
  {| range V m := reverse (map_to_list m); range_perm V m := reverse_Permutation _ |}.

Lemma elem_of_range `{RangeOrder} {V} (m : gmap string V) k v : (k, v) ∈ range m <-> m !! k = Some v.
Proof. rewrite range_perm. apply elem_of_map_to_list. Qed.

Lemma NoDup_range `{RangeOrder} {V} (m : gmap string V) : NoDup (range m).*1.
Proof. rewrite range_perm. apply NoDup_fst_map_to_list. Qed.

(** ** Rule packs *)

Record rulepack := {
  rk_ID : uuid;
  rk_TenantID : uuid;
  rk_Name : string;
  rk_Description : string;
  rk_CreatedAt : Z;
}.

Record rulepackVersion := {
  ver_ID : uuid;
  ver_RulepackID : uuid;
  ver_Version : Z;
  ver_DSL : string;
  ver_Status : string;
  ver_CreatedBy : uuid;
  ver_CreatedAt : Z;
}.

Record RulepackRepositoryImpl := {
  rulepacks : gmap uuid rulepack;
  versions : gmap uuid rulepackVersion;
  activeVersion : gmap uuid uuid;
}.

Record RulepackInfo := {
  info_ID : uuid;
  info_Name : string;
  info_Description : string;
  info_Version : Z;
  info_Active : bool;
}.

Inductive repo_error :=
  | ErrRulepackNameExists
  | RulepackNotFound (packID : uuid)
  | NoActiveVersion (packID : uuid)
  | VersionNotFound (versionID : uuid)
  | NumberNotFound (version : Z) (packID : uuid)
  | NoVersions (packID : uuid)
  | StoreError (msg : string).

Definition with_rulepacks (m : gmap uuid rulepack) (r : RulepackRepositoryImpl) : RulepackRepositoryImpl :=
  {| rulepacks := m; versions := versions r; activeVersion := activeVersion r |}.
Definition with_versions (m : gmap uuid rulepackVersion) (r : RulepackRepositoryImpl) : RulepackRepositoryImpl :=
  {| rulepacks := rulepacks r; versions := m; activeVersion := activeVersion r |}.
Definition with_active (m : gmap uuid uuid) (r : RulepackRepositoryImpl) : RulepackRepositoryImpl :=
  {| rulepacks := rulepacks r; versions := versions r; activeVersion := m |}.

Definition default_pack_id : uuid := "f47ac10b-58cc-4372-a567-0e02b2c3d479".

(** [NewRulepackRepository], seeded with the default pack, whose text is
    [dsl], and its first version. *)
Definition NewRulepackRepository (verID : uuid) (dsl : string) (now : Z) : RulepackRepositoryImpl :=
  {| rulepacks := {[ default_pack_id :=
       {| rk_ID := default_pack_id; rk_TenantID := uuid_Nil; rk_Name := "Default Security Rules";
          rk_Description := "Built-in security rules for prompt injection detection";
          rk_CreatedAt := now - 24 * 3600 * 1000000000 |} ]};
     versions := {[ verID :=
       {| ver_ID := verID; ver_RulepackID := default_pack_id; ver_Version := 1; ver_DSL := dsl;
          ver_Status := "approved"; ver_CreatedBy := uuid_Nil;
          ver_CreatedAt := now - 24 * 3600 * 1000000000 |} ]};
     activeVersion := {[ default_pack_id := verID ]} |}%Z.

Definition new_version (id packID : uuid) (version : Z) (dsl status : string) (by_ : uuid) (now : Z) :
    rulepackVersion :=
  {| ver_ID := id; ver_RulepackID := packID; ver_Version := version; ver_DSL := dsl; ver_Status := status;
     ver_CreatedBy := by_; ver_CreatedAt := now |}.

Section Ops.
Context `{RangeOrder}.

Definition Create (id tenantID : uuid) (name desc : string) (now : Z) (r : RulepackRepositoryImpl) :
    result repo_error uuid * RulepackRepositoryImpl :=
  if existsb (fun p => bool_decide (rk_TenantID p = tenantID) && bool_decide (rk_Name p = name))
       (range (rulepacks r)).*2
  then (Err ErrRulepackNameExists, r)
  else (Ok id, with_rulepacks (<[id := {| rk_ID := id; rk_TenantID := tenantID; rk_Name := name;
                                          rk_Description := desc; rk_CreatedAt := now |}]> (rulepacks r)) r).

Definition CreateVersion (id packID : uuid) (version : Z) (dsl status : string) (createdBy : uuid) (now : Z)
    (r : RulepackRepositoryImpl) : result repo_error uuid * RulepackRepositoryImpl :=
  match rulepacks r !! packID with
  | None => (Err (RulepackNotFound packID), r)
  | Some _ =>
    (Ok id, with_versions (<[id := new_version id packID version dsl status createdBy now]> (versions r)) r)
  end.

Definition CreateVersionActivateTx (id packID : uuid) (version : Z) (dsl : string) (createdBy : uuid) (now : Z)
    (r : RulepackRepositoryImpl) : result repo_error uuid * RulepackRepositoryImpl :=
  match rulepacks r !! packID with
  | None => (Err (RulepackNotFound packID), r)
  | Some _ =>
    (Ok id, with_active (<[packID := id]> (activeVersion r))
              (with_versions (<[id := new_version id packID version dsl "approved" createdBy now]> (versions r)) r))
  end.

Definition GetActive (packID : uuid) (r : RulepackRepositoryImpl) : result repo_error (string * Z) :=
  match activeVersion r !! packID with
  | None => Err (NoActiveVersion packID)
  | Some versionID =>
    match versions r !! versionID with
    | None => Err (VersionNotFound versionID)
    | Some ver => Ok (ver_DSL ver, ver_Version ver)
    end
  end.

Definition Activate (packID versionID : uuid) (r : RulepackRepositoryImpl) :
    result repo_error unit * RulepackRepositoryImpl :=
  match rulepacks r !! packID with
  | None => (Err (RulepackNotFound packID), r)
  | Some _ =>
    match versions r !! versionID with
    | None => (Err (VersionNotFound versionID), r)
    | Some _ => (Ok tt, with_active (<[packID := versionID]> (activeVersion r)) r)
    end
  end.

(** [ver.RulepackID == packID]. *)
Definition of_pack (packID : uuid) (ver : rulepackVersion) : bool := bool_decide (ver_RulepackID ver = packID).

Definition GetVersion (packID : uuid) (version : Z) (r : RulepackRepositoryImpl) :
    result repo_error (string * string) :=
  match filter (fun ver => of_pack packID ver && (ver_Version ver =? version)%Z = true) (range (versions r)).*2 with
  | ver :: _ => Ok (ver_DSL ver, ver_Status ver)
  | [] => Err (NumberNotFound version packID)
  end.

(** The loop variable [latestVer]. *)
Definition latest_step (packID : uuid) (latest : option rulepackVersion) (ver : rulepackVersion) :
    option rulepackVersion :=
  if of_pack packID ver
  then match latest with
       | None => Some ver
       | Some l => if (ver_Version l <? ver_Version ver)%Z then Some ver else latest
       end
  else latest.

Definition GetLatestVersion (packID : uuid) (r : RulepackRepositoryImpl) : result repo_error (uuid * Z) :=
  match foldl (latest_step packID) None (range (versions r)).*2 with
  | None => Err (NoVersions packID)
  | Some ver => Ok (ver_ID ver, ver_Version ver)
  end.

Definition ActivateLatest (packID : uuid) (r : RulepackRepositoryImpl) :
    result repo_error unit * RulepackRepositoryImpl :=
  match GetLatestVersion packID r with
  | Err e => (Err e, r)
  | Ok (versionID, _) => Activate packID versionID r
  end.

Definition info_of (r : RulepackRepositoryImpl) (p : rulepack) : RulepackInfo :=
  let ver := activeVersion r !! rk_ID p ≫= fun v => versions r !! v in
  {| info_ID := rk_ID p; info_Name := rk_Name p; info_Description := rk_Description p;
     info_Version := match ver with Some v => ver_Version v | None => 0%Z end;
     info_Active := match ver with Some _ => true | None => false end |}.

Definition ListByTenant (tenantID : uuid) (r : RulepackRepositoryImpl) : list RulepackInfo :=
  map (info_of r)
    (filter (fun p => bool_decide (rk_TenantID p = tenantID) || bool_decide (tenantID = uuid_Nil) = true)
       (range (rulepacks r)).*2).

Definition Delete (packID : uuid) (r : RulepackRepositoryImpl) :
    result repo_error unit * RulepackRepositoryImpl :=
  match rulepacks r !! packID with
  | None => (Err (RulepackNotFound packID), r)
  | Some _ =>
    (Ok tt, {| rulepacks := delete packID (rulepacks r);
               versions := filter (fun kv => of_pack packID kv.2 = false) (versions r);
               activeVersion := delete packID (activeVersion r) |})
  end.

(** One turn of the deleting loop of [PurgeOldVersions], on the number of
    deletions and the map. *)
Definition purge_step (packID : uuid) (active : option uuid) (toDelete : Z)
    (acc : Z * gmap uuid rulepackVersion) (kv : uuid * rulepackVersion) : Z * gmap uuid rulepackVersion :=
  if of_pack packID kv.2 && (acc.1 <? toDelete)%Z
  then if bool_decide (active = Some kv.1) then acc else ((acc.1 + 1)%Z, delete kv.1 acc.2)
  else acc.

Definition versions_of (packID : uuid) (r : RulepackRepositoryImpl) : list rulepackVersion :=
  filter (fun ver => of_pack packID ver = true) (range (versions r)).*2.

Definition PurgeOldVersions (packID : uuid) (retention : Z) (r : RulepackRepositoryImpl) : RulepackRepositoryImpl :=
  let n := Z.of_nat (List.length (versions_of packID r)) in
  if (retention <? n)%Z
  then with_versions
         (foldl (purge_step packID (activeVersion r !! packID) (n - retention)) (0%Z, versions r)
            (range (versions r))).2 r
  else r.
End Ops.

(** ** Steps *)

Inductive op :=
  | OpCreate (id tenantID : uuid) (name desc : string) (now : Z)
  | OpCreateVersion (id packID : uuid) (version : Z) (dsl status : string) (createdBy : uuid) (now : Z)
  | OpCreateActivate (id packID : uuid) (version : Z) (dsl : string) (createdBy : uuid) (now : Z)
  | OpActivate (packID versionID : uuid)
  | OpActivateLatest (packID : uuid)
  | OpDelete (packID : uuid)
  | OpPurge (packID : uuid) (retention : Z).

Definition apply `{RangeOrder} (o : op) (r : RulepackRepositoryImpl) : RulepackRepositoryImpl :=
  match o with
  | OpCreate id t n d now => (Create id t n d now r).2
  | OpCreateVersion id p v dsl s b now => (CreateVersion id p v dsl s b now r).2
  | OpCreateActivate id p v dsl b now => (CreateVersionActivateTx id p v dsl b now r).2
  | OpActivate p v => (Activate p v r).2
  | OpActivateLatest p => (ActivateLatest p r).2
  | OpDelete p => (Delete p r).2
  | OpPurge p n => PurgeOldVersions p n r
  end.

(** The ids drawn by [uuid.New()] are fresh. *)
Definition fresh_op (o : op) (r : RulepackRepositoryImpl) : Prop :=
  match o with
  | OpCreate id _ _ _ _ => rulepacks r !! id = None /\ activeVersion r !! id = None
  | OpCreateVersion id _ _ _ _ _ _ | OpCreateActivate id _ _ _ _ _ => versions r !! id = None
  | _ => True
  end.

(** Each step iterates over the maps in an order of its own. *)
Inductive repo_step (o : op) (r : RulepackRepositoryImpl) : RulepackRepositoryImpl -> Prop :=
  | Repo_step (R : RangeOrder) : fresh_op o r -> repo_step o r (apply o r).

Inductive repo_run : RulepackRepositoryImpl -> list op -> RulepackRepositoryImpl -> Prop :=
  | run_nil r : repo_run r [] r
  | run_cons o os r r1 r2 : repo_step o r r1 -> repo_run r1 os r2 -> repo_run r (o :: os) r2.

(** ** The invariant *)

Record repo_ok (r : RulepackRepositoryImpl) : Prop := {
  ok_pack_id : forall i p, rulepacks r !! i = Some p -> rk_ID p = i;
  ok_version : forall i v, versions r !! i = Some v -> ver_ID v = i /\ is_Some (rulepacks r !! ver_RulepackID v);
  ok_active : forall p v, activeVersion r !! p = Some v -> is_Some (rulepacks r !! p);
  ok_names : forall i j p q, rulepacks r !! i = Some p -> rulepacks r !! j = Some q ->
    rk_TenantID p = rk_TenantID q -> rk_Name p = rk_Name q -> i = j;
}.

Lemma NewRulepackRepository_ok verID dsl now : repo_ok (NewRulepackRepository verID dsl now).
Proof.
  split; simpl.
  - by intros i p [<- <-]%lookup_singleton_Some.
  - intros i v [<- <-]%lookup_singleton_Some. simpl. split; [done|]. rewrite lookup_singleton_eq. by eexists.
  - intros p v [<- _]%lookup_singleton_Some. rewrite lookup_singleton_eq. by eexists.
  - by intros i j p q [<- _]%lookup_singleton_Some [<- _]%lookup_singleton_Some.
Qed.

(** The purge deletes some versions of the pack, never the active one, and
    leaves all others. *)
Lemma purge_fold packID active n kvs acc :
  let acc' := foldl (purge_step packID active n) acc kvs in
  acc'.2 ⊆ acc.2 /\
  (forall i v, acc.2 !! i = Some v -> acc'.2 !! i = None ->
     exists v', (i, v') ∈ kvs /\ ver_RulepackID v' = packID /\ active <> Some i).
Proof.
  revert acc. induction kvs as [|[k x] kvs IH]; intros acc; simpl; [split; [done|congruence]|].
  specialize (IH (purge_step packID active n acc (k, x))) as [IH1 IH2].
  set (acc1 := purge_step packID active n acc (k, x)) in *.
  assert (Hc : acc1 = acc \/ (acc1.2 = delete k acc.2 /\ ver_RulepackID x = packID /\ active <> Some k)).
  { subst acc1. unfold purge_step, of_pack. simpl. case_if; [|by left]. bool_cases. case_bool_decide; auto. }
  clearbody acc1. destruct Hc as [->|(Hd & Hp & Ha)].
  - split; [done|]. intros i v Hi Hn. destruct (IH2 i v Hi Hn) as (v' & ? & ?). exists v'. set_solver.
  - rewrite Hd in *. split; [etrans; [done|apply delete_subseteq]|]. intros i v Hi Hn.
    destruct (decide (i = k)) as [->|Hne]; [exists x; split_and!; [left|done..]|].
    destruct (IH2 i v) as (v' & ? & ?); [by rewrite lookup_delete_ne|done|]. exists v'. set_solver.
Qed.

Section Purge.
Context `{RangeOrder}.

Lemma Purge_subseteq packID n r : versions (PurgeOldVersions packID n r) ⊆ versions r.
Proof. unfold PurgeOldVersions. case_if; [|done]. simpl. apply purge_fold. Qed.

(** A version the purge removed belonged to the pack and was not active. *)
Lemma Purge_removed packID n r i v :
  versions r !! i = Some v -> versions (PurgeOldVersions packID n r) !! i = None ->
  ver_RulepackID v = packID /\ activeVersion r !! packID <> Some i.
Proof.
  intros Hi. unfold PurgeOldVersions. case_if; [|simpl; congruence]. simpl. intros Hn.
  destruct (purge_fold packID (activeVersion r !! packID) (Z.of_nat (List.length (versions_of packID r)) - n)
              (range (versions r)) (0%Z, versions r)) as [_ Hrm].
  destruct (Hrm i v Hi Hn) as (v' & Hin & Hp & Ha). apply elem_of_range in Hin. simplify_eq. done.
Qed.

Lemma Purge_maps packID n r :
  rulepacks (PurgeOldVersions packID n r) = rulepacks r /\
  activeVersion (PurgeOldVersions packID n r) = activeVersion r.
Proof. unfold PurgeOldVersions. by case_if. Qed.
End Purge.

Lemma Create_new `{RangeOrder} id t name desc now r id' r' :
  Create id t name desc now r = (Ok id', r') ->
  id' = id /\
  r' = with_rulepacks (<[id := {| rk_ID := id; rk_TenantID := t; rk_Name := name;
                                  rk_Description := desc; rk_CreatedAt := now |}]> (rulepacks r)) r /\
  forall i p, rulepacks r !! i = Some p -> rk_TenantID p = t -> rk_Name p <> name.
Proof.
  unfold Create. destruct (existsb _ _) eqn:E; [done|]. intros [= <- <-]. split_and!; [done..|].
  intros i p Hp Ht Hn. apply not_true_iff_false in E. apply E, existsb_exists. exists p. split.
  - apply list_elem_of_In, list_elem_of_fmap. exists (i, p). split; [done|]. by apply elem_of_range.
  - by rewrite !bool_decide_true.
Qed.

Lemma with_active_ok m r :
  repo_ok r -> (forall p v, m !! p = Some v -> is_Some (rulepacks r !! p)) -> repo_ok (with_active m r).
Proof. intros [H1 H2 H3 H4] Hm. by split. Qed.

Lemma insert_version_ok id packID v dsl s b now r :
  repo_ok r -> is_Some (rulepacks r !! packID) ->
  repo_ok (with_versions (<[id := new_version id packID v dsl s b now]> (versions r)) r).
Proof.
  intros [H1 H2 H3 H4] Hp. split; simpl; [done| |done|done].
  intros i x [[<- <-]|[_ Hx]]%lookup_insert_Some; [done|by apply H2].
Qed.

Lemma insert_active_ok p v r :
  repo_ok r -> is_Some (rulepacks r !! p) -> repo_ok (with_active (<[p := v]> (activeVersion r)) r).
Proof.
  intros Hr Hp. apply with_active_ok; [done|]. intros q w [[<- _]|[_ Hq]]%lookup_insert_Some; [done|].
  by eapply ok_active.
Qed.

Lemma Create_ok `{RangeOrder} id t name desc now r :
  repo_ok r -> rulepacks r !! id = None -> repo_ok (Create id t name desc now r).2.
Proof.
  intros Hr Hid. destruct (Create id t name desc now r) as [[id'|e] r'] eqn:E; simpl.
  2: { unfold Create in E. case_match; naive_solver. }
  apply Create_new in E as (-> & -> & Hnew). destruct Hr as [H1 H2 H3 H4].
  assert (Hsome : forall i x, rulepacks r !! i = Some x ->
    is_Some (<[id := {| rk_ID := id; rk_TenantID := t; rk_Name := name; rk_Description := desc; rk_CreatedAt := now |}]>
               (rulepacks r) !! i))
    by (intros i x Hx; destruct (decide (i = id)) as [->|]; [by rewrite lookup_insert_eq|rewrite lookup_insert_ne; by eauto]).
  split; simpl.
  - intros i p [[<- <-]|[_ Hp]]%lookup_insert_Some; [done|by apply H1].
  - intros i v Hv. destruct (H2 i v Hv) as [? [x Hx]]. by eauto.
  - intros p v Hv. destruct (H3 p v Hv) as [x Hx]. by eauto.
  - intros i j p q [[<- <-]|[? Hp]]%lookup_insert_Some [[<- <-]|[? Hq]]%lookup_insert_Some; simpl; intros Ht Hn;
      [done| | |by eapply H4]; exfalso; eapply Hnew; eauto.
Qed.

Lemma Delete_ok packID r : repo_ok r -> repo_ok (Delete packID r).2.
Proof.
  intros [H1 H2 H3 H4]. unfold Delete. destruct (rulepacks r !! packID) eqn:E; [|done].
  assert (Hkeep : forall i, i <> packID -> is_Some (rulepacks r !! i) -> is_Some (delete packID (rulepacks r) !! i))
    by (intros i Hi; by rewrite lookup_delete_ne).
  split; simpl.
  - intros i p [_ Hp]%lookup_delete_Some. by apply H1.
  - intros i v [Hv Hp]%map_lookup_filter_Some. destruct (H2 i v Hv) as [? ?]. split; [done|].
    apply Hkeep; [|done]. simpl in Hp. unfold of_pack in Hp. by bool_cases.
  - intros p v [Hne Hv]%lookup_delete_Some. apply Hkeep; [done|]. by eapply H3.
  - intros i j p q [_ Hp]%lookup_delete_Some [_ Hq]%lookup_delete_Some. by apply H4.
Qed.

Lemma Activate_ok packID v r : repo_ok r -> repo_ok (Activate packID v r).2.
Proof.
  intros Hr. unfold Activate. destruct (rulepacks r !! packID) eqn:E; [|done].
  destruct (versions r !! v); [|done]. apply insert_active_ok; [done|by eexists].
Qed.

Lemma apply_ok `{RangeOrder} o r : repo_ok r -> fresh_op o r -> repo_ok (apply o r).
Proof.
  intros Hr Hf. destruct o as [id t n d now|id p v dsl s b now|id p v dsl b now|p v|p|p|p n]; simpl.
  - apply Create_ok; [done|apply Hf].
  - unfold CreateVersion. destruct (rulepacks r !! p) eqn:E; [|done]. apply insert_version_ok; [done|by eexists].
  - unfold CreateVersionActivateTx. destruct (rulepacks r !! p) eqn:E; [|done].
    apply (insert_active_ok p id (with_versions _ r)); [apply insert_version_ok; [done|]|]; by eexists.
  - by apply Activate_ok.
  - unfold ActivateLatest. destruct (GetLatestVersion p r) as [[id v]|e]; [by apply Activate_ok|done].
  - by apply Delete_ok.
  - destruct Hr as [H1 H2 H3 H4]. destruct (Purge_maps p n r) as [Hp Ha].
    split; rewrite ?Hp, ?Ha; [done| |done|done].
    intros i x Hx. apply H2. eapply lookup_weaken; [done|apply Purge_subseteq].
Qed.

Lemma run_ok r os r' : repo_run r os r' -> repo_ok r -> repo_ok r'.
Proof. induction 1 as [|o os r r1 r2 [R Hf] _ IH]; [done|]. intros Hr. apply IH. by apply apply_ok. Qed.

(** ** Listing and activation *)

Lemma info_active r p :
  info_Active (info_of r p) = true <->
  exists dsl, GetActive (info_ID (info_of r p)) r = Ok (dsl, info_Version (info_of r p)).
Proof.
  unfold GetActive. simpl. destruct (activeVersion r !! rk_ID p) as [v|]; simpl; [|naive_solver].
  destruct (versions r !! v) as [x|]; naive_solver.
Qed.

Lemma elem_of_ListByTenant `{RangeOrder} t r info :
  info ∈ ListByTenant t r <->
  exists i p, rulepacks r !! i = Some p /\ (rk_TenantID p = t \/ t = uuid_Nil) /\ info = info_of r p.
Proof.
  unfold ListByTenant. rewrite list_elem_of_fmap. setoid_rewrite list_elem_of_filter.
  setoid_rewrite orb_true_iff. setoid_rewrite bool_decide_eq_true. split.
  - intros (p & -> & Ht & ([i p'] & -> & Hin)%list_elem_of_fmap). apply elem_of_range in Hin. eauto.
  - intros (i & p & Hp & Ht & ->). exists p. split_and!; [done|done|]. apply list_elem_of_fmap.
    exists (i, p). split; [done|]. by apply elem_of_range.
Qed.

(** C8. Whatever operations ran on the in-memory repository, in whatever order
    its maps are iterated: names are unique per tenant, every version and every
    activation belongs to an existing pack, and the listing of a tenant shows
    exactly its packs, one entry each, marked active with a version number
    exactly when [GetActive] returns that version. *)
Theorem repository_invariant verID dsl now os r t :
  repo_run (NewRulepackRepository verID dsl now) os r ->
  repo_ok r /\
  forall R : RangeOrder,
    NoDup (map info_ID (ListByTenant t r)) /\
    (forall i, (exists info, info ∈ ListByTenant t r /\ info_ID info = i) <->
       exists p, rulepacks r !! i = Some p /\ (rk_TenantID p = t \/ t = uuid_Nil)) /\
    (forall info, info ∈ ListByTenant t r ->
       info_Active info = true <-> exists d, GetActive (info_ID info) r = Ok (d, info_Version info)).
Proof.
  intros Hrun. assert (Hr : repo_ok r) by (eapply run_ok; [done|apply NewRulepackRepository_ok]).
  split; [done|]. intros R. split_and!.
  - unfold ListByTenant. rewrite map_map. simpl.
    assert (Hall : Forall (fun kv => rk_ID kv.2 = kv.1) (range (rulepacks r)))
      by (apply Forall_forall; intros [k x] Hin%elem_of_range; by apply (ok_pack_id _ Hr)).
    assert (Hnd : NoDup (map rk_ID (range (rulepacks r)).*2)).
    { rewrite map_map. erewrite map_ext_in; [apply NoDup_range|]. intros kv Hin%list_elem_of_In.
      by apply (proj1 (Forall_forall _ _) Hall). }
    eapply sublist_NoDup; [exact Hnd|]. apply (fmap_sublist rk_ID), sublist_filter.
  - intros i. setoid_rewrite elem_of_ListByTenant. split.
    + intros (info & (k & p & Hp & Ht & ->) & <-). simpl. exists p. rewrite (ok_pack_id _ Hr _ _ Hp). done.
    + intros (p & Hp & Ht). exists (info_of r p). split; [by eauto|]. simpl. by apply (ok_pack_id _ Hr).
  - intros info (k & p & Hp & Ht & ->)%elem_of_ListByTenant. apply info_active.
Qed.

(** The operations that may change what is active for [p]. *)
Definition activates (p : uuid) (o : op) : Prop :=
  match o with
  | OpCreateActivate _ q _ _ _ _ | OpActivate q _ | OpActivateLatest q | OpDelete q => q = p
  | _ => False
  end.

(** The active version of [p], which is one of its own. *)
Definition active_own (p v : uuid) (x : rulepackVersion) (r : RulepackRepositoryImpl) : Prop :=
  activeVersion r !! p = Some v /\ versions r !! v = Some x /\ ver_RulepackID x = p.

Lemma active_own_get p v x r : active_own p v x r -> GetActive p r = Ok (ver_DSL x, ver_Version x).
Proof. intros (Ha & Hv & _). unfold GetActive. by rewrite Ha, Hv. Qed.

Lemma Activate_other p q w r :
  q <> p -> activeVersion (Activate q w r).2 !! p = activeVersion r !! p /\
            versions (Activate q w r).2 = versions r.
Proof.
  intros Hne. unfold Activate. destruct (rulepacks r !! q); [|done]. destruct (versions r !! w); [|done].
  simpl. by rewrite lookup_insert_ne.
Qed.

Lemma apply_active `{RangeOrder} o p v x r :
  fresh_op o r -> ~ activates p o -> active_own p v x r -> active_own p v x (apply o r).
Proof.
  intros Hf Hn (Ha & Hv & Hp). unfold active_own.
  destruct o as [id t n d now|id q w dsl s b now|id q w dsl b now|q w|q|q|q n]; simpl in *.
  - unfold Create. by case_if.
  - unfold CreateVersion. destruct (rulepacks r !! q); [|done]. simpl. rewrite lookup_insert_ne by congruence. done.
  - unfold CreateVersionActivateTx. destruct (rulepacks r !! q); [|done]. simpl.
    rewrite !lookup_insert_ne by congruence. done.
  - destruct (Activate_other p q w r Hn) as [-> ->]. done.
  - unfold ActivateLatest. destruct (GetLatestVersion q r) as [[w n]|e]; [|done].
    destruct (Activate_other p q w r Hn) as [-> ->]. done.
  - unfold Delete. destruct (rulepacks r !! q); [|done]. simpl. rewrite lookup_delete_ne by done.
    split_and!; [done| |done]. apply map_lookup_filter_Some. split; [done|]. simpl. unfold of_pack.
    rewrite bool_decide_false; congruence.
  - destruct (Purge_maps q n r) as [_ ->]. split_and!; [done| |done].
    destruct (versions (PurgeOldVersions q n r) !! v) as [y|] eqn:E.
    + by rewrite <-(lookup_weaken _ _ _ _ E (Purge_subseteq q n r)), Hv.
    + destruct (Purge_removed q n r v x Hv E) as [Hq Hna]. congruence.
Qed.

Lemma run_active r os r' p v x :
  repo_run r os r' -> Forall (fun o => ~ activates p o) os -> active_own p v x r -> active_own p v x r'.
Proof.
  induction 1 as [|o os r r1 r2 [R Hf] _ IH]; [done|]. intros [Hn Hns]%Forall_cons Ha.
  apply IH; [done|]. by apply apply_active.
Qed.

(** The version a pack was given stays the active one: after a version was
    created and activated, [GetActive] returns its text and its number until
    the pack is activated again or deleted, whatever else is created,
    activated, deleted or purged, purges of the same pack included. *)
Theorem active_version_stable `{RangeOrder} r id p version dsl createdBy now id' r1 os r2 :
  CreateVersionActivateTx id p version dsl createdBy now r = (Ok id', r1) ->
  repo_run r1 os r2 -> Forall (fun o => ~ activates p o) os ->
  GetActive p r2 = Ok (dsl, version).
Proof.
  unfold CreateVersionActivateTx. destruct (rulepacks r !! p) eqn:E; [|done]. intros [= <- <-] Hrun Hos.
  change dsl with (ver_DSL (new_version id p version dsl "approved" createdBy now)).
  change version with (ver_Version (new_version id p version dsl "approved" createdBy now)) at 2.
  eapply active_own_get, run_active; [done|done|]. unfold active_own. simpl. by rewrite !lookup_insert_eq.
Qed.

(** ** How many versions a purge leaves *)

Definition own (packID : uuid) (m : gmap uuid rulepackVersion) : nat :=
  size (filter (fun kv => of_pack packID kv.2 = true) m).

Lemma own_range `{RangeOrder} packID m :
  own packID m = List.length (filter (fun kv => of_pack packID kv.2 = true) (range m)).
Proof.
  unfold own. rewrite <-length_map_to_list, map_filter_alt. rewrite range_perm.
  rewrite map_to_list_to_map; [done|].
  apply (sublist_NoDup (filter _ (map_to_list m)).*1 (map_to_list m).*1); [apply NoDup_fst_map_to_list|].
  apply fmap_sublist, sublist_filter.
Qed.

Lemma versions_of_own `{RangeOrder} packID r : List.length (versions_of packID r) = own packID (versions r).
Proof.
  rewrite own_range. unfold versions_of. induction (range (versions r)) as [|[k v] l IH]; [done|].
  rewrite fmap_cons, !filter_cons. simpl. case_decide; [by f_equal/=|done].
Qed.

Lemma own_delete packID m k v :
  m !! k = Some v -> ver_RulepackID v = packID -> own packID (delete k m) = Nat.pred (own packID m).
Proof.
  intros Hk Hp. unfold own. rewrite map_filter_delete. apply map_size_delete_Some. exists v.
  apply map_lookup_filter_Some. split; [done|]. by apply bool_decide_true.
Qed.

Lemma own_pos packID m k v : m !! k = Some v -> ver_RulepackID v = packID -> 0 < own packID m.
Proof.
  intros Hk Hp. unfold own. rewrite Nat.lt_nge. intros Hle. assert (Hz : size (filter (fun kv => of_pack packID kv.2 = true) m) = 0) by lia.
  apply map_size_empty_inv in Hz. apply (f_equal (.!! k)) in Hz. rewrite lookup_empty in Hz.
  apply map_lookup_filter_None in Hz as [?|Hz]; [congruence|]. apply (Hz v Hk). by apply bool_decide_true.
Qed.

(** The entries the loop may delete. *)
Definition deletable (packID : uuid) (active : option uuid) (kv : uuid * rulepackVersion) : bool :=
  of_pack packID kv.2 && negb (bool_decide (active = Some kv.1)).

Lemma purge_fold_count packID active n kvs acc :
  NoDup kvs.*1 -> (forall k v, (k, v) ∈ kvs -> acc.2 !! k = Some v) -> (acc.1 <= n)%Z ->
  let acc' := foldl (purge_step packID active n) acc kvs in
  let d := Z.of_nat (List.length (filter (fun kv => deletable packID active kv = true) kvs)) in
  acc'.1 = Z.min n (acc.1 + d) /\
  (Z.of_nat (own packID acc'.2) = Z.of_nat (own packID acc.2) - (acc'.1 - acc.1))%Z.
Proof.
  revert acc. induction kvs as [|[k x] kvs IH]; intros acc Hnd Hin Hn; simpl; [split; lia|].
  apply NoDup_cons in Hnd as [Hk Hnd]. simpl in Hk. rewrite filter_cons.
  assert (Hx : acc.2 !! k = Some x) by (apply Hin; left).
  assert (Hrest : forall k' v, (k', v) ∈ kvs -> acc.2 !! k' = Some v) by (intros k' v Hkv; apply Hin; by right).
  set (acc1 := purge_step packID active n acc (k, x)).
  assert (Hacc : acc1 = if deletable packID active (k, x) && (acc.1 <? n)%Z
                        then ((acc.1 + 1)%Z, delete k acc.2) else acc).
  { subst acc1. unfold purge_step, deletable. simpl.
    by destruct (of_pack packID x), (acc.1 <? n)%Z, (bool_decide (active = Some k)). }
  clearbody acc1. case_decide as Hd; [|rewrite (not_true_is_false _ Hd) in Hacc; subst acc1; by apply IH].
  rewrite Hd in Hacc. simpl in *. destruct (acc.1 <? n)%Z eqn:En; subst acc1.
  - destruct (IH ((acc.1 + 1)%Z, delete k acc.2)) as [-> ->]; simpl; [done| |lia|].
    + intros k' v Hkv. rewrite lookup_delete_ne; [by apply Hrest|]. intros ->. apply Hk.
      apply list_elem_of_fmap. by exists (k', v).
    + unfold deletable, of_pack in Hd. simpl in Hd. bool_cases. rewrite (own_delete packID acc.2 k x) by done.
      assert (0 < own packID acc.2) by (by eapply own_pos). split; lia.
  - destruct (IH acc Hnd Hrest Hn) as [-> ->]. split; lia.
Qed.

Lemma own_filter `{RangeOrder} packID active m :
  List.length (filter (fun kv => deletable packID active kv = true) (range m)) <= own packID m /\
  own packID m <= S (List.length (filter (fun kv => deletable packID active kv = true) (range m))).
Proof.
  rewrite own_range. generalize (NoDup_range m).
  assert (Hnone : forall l : list (string * rulepackVersion), (forall kv, kv ∈ l -> active <> Some kv.1) ->
    filter (fun kv => deletable packID active kv = true) l = filter (fun kv => of_pack packID kv.2 = true) l).
  { intros l Hl. induction l as [|kv l IH]; [done|]. rewrite !filter_cons. 
    assert (Hkv : deletable packID active kv = of_pack packID kv.2).
    { unfold deletable. rewrite (bool_decide_false (active = Some kv.1)) by (apply Hl; left). apply andb_true_r. }
    rewrite Hkv. rewrite IH; [done|]. intros kv' ?. apply Hl. by right. }
  induction (range m) as [|[k v] l IH]; simpl; [intros _; split; simpl; lia|].
  intros Hnd. apply NoDup_cons in Hnd as [Hk Hnd]. simpl in Hk. rewrite !filter_cons.
  case_decide as Hd; [rewrite decide_True by (unfold deletable in Hd; by bool_cases); simpl; destruct (IH Hnd); lia|].
  case_decide as Hp; [|by apply IH]. rewrite Hnone; [simpl; lia|]. intros [k' v'] Hin Hc. simpl in *.
  apply Hd. unfold deletable. simpl. rewrite Hp, Hc. simpl. apply negb_true_iff, bool_decide_eq_false. intros [= ->].
  apply Hk, list_elem_of_fmap. by exists (k, v').
Qed.

(** [PurgeOldVersions] with a positive retention leaves exactly that many
    versions of the pack, or all of them when there are fewer; it never deletes
    the active version and touches no other pack. *)
Theorem PurgeOldVersions_spec `{RangeOrder} packID retention r :
  (1 <= retention)%Z ->
  let r' := PurgeOldVersions packID retention r in
  Z.of_nat (own packID (versions r')) = Z.min retention (Z.of_nat (own packID (versions r))) /\
  versions r' ⊆ versions r /\ rulepacks r' = rulepacks r /\ activeVersion r' = activeVersion r /\
  (forall i v, versions r !! i = Some v ->
     ver_RulepackID v <> packID \/ activeVersion r !! packID = Some i -> versions r' !! i = Some v).
Proof.
  intros Hret r'. destruct (Purge_maps packID retention r) as [Hp Ha].
  split_and!; [|apply Purge_subseteq|done|done|].
  - subst r'. unfold PurgeOldVersions. rewrite versions_of_own.
    destruct (retention <? Z.of_nat (own packID (versions r)))%Z eqn:E; [simpl|lia].
    destruct (own_filter packID (activeVersion r !! packID) (versions r)) as [Hle Hge].
    destruct (purge_fold_count packID (activeVersion r !! packID) (Z.of_nat (own packID (versions r)) - retention)
                (range (versions r)) (0%Z, versions r)) as [E1 E2]; simpl.
    + apply NoDup_range.
    + intros k v. apply elem_of_range.
    + lia.
    + simpl in *. rewrite E2, E1. lia.
  - intros i v Hv Hor. destruct (versions r' !! i) as [y|] eqn:E.
    + by rewrite <-(lookup_weaken _ _ _ _ E (Purge_subseteq packID retention r)), Hv.
    + destruct (Purge_removed packID retention r i v Hv E). naive_solver.
Qed.

(** ** The interface of the services *)

(** [contracts.RulepackRepository] with the behaviour the services rely on:
    an operation that fails changes nothing, what was activated is what is
    active, and a purge of a pack leaves what is active for it.  [repo_dsl] is
    the form in which a store keeps a text. *)
Class RulepackRepo := {
  repo : Type;
  repo_dsl : string -> string;
  repo_Create : uuid -> uuid -> string -> string -> Z -> repo -> result repo_error uuid * repo;
  repo_CreateVersion : uuid -> uuid -> Z -> string -> string -> uuid -> Z -> repo -> result repo_error uuid * repo;
  repo_CreateVersionActivateTx : uuid -> uuid -> Z -> string -> uuid -> Z -> repo -> result repo_error uuid * repo;
  repo_GetActive : uuid -> repo -> result repo_error (string * Z);
  repo_Activate : uuid -> uuid -> repo -> result repo_error unit * repo;
  repo_GetVersion : uuid -> Z -> repo -> result repo_error (string * string);
  repo_GetLatestVersion : uuid -> repo -> result repo_error (uuid * Z);
  repo_ActivateLatest : uuid -> repo -> result repo_error unit * repo;
  repo_ListByTenant : uuid -> repo -> result repo_error (list RulepackInfo);
  repo_Delete : uuid -> repo -> result repo_error unit * repo;
  repo_PurgeOldVersions : uuid -> Z -> repo -> repo;
  repo_Create_fails : forall id t n d now r e r',
    repo_Create id t n d now r = (Err e, r') -> r' = r;
  repo_CreateVersion_fails : forall id p v dsl s b now r e r',
    repo_CreateVersion id p v dsl s b now r = (Err e, r') -> r' = r;
  repo_CreateVersionActivateTx_fails : forall id p v dsl b now r e r',
    repo_CreateVersionActivateTx id p v dsl b now r = (Err e, r') -> r' = r;
  repo_CreateVersionActivateTx_active : forall id p v dsl b now r id' r',
    repo_CreateVersionActivateTx id p v dsl b now r = (Ok id', r') -> repo_GetActive p r' = Ok (repo_dsl dsl, v);
  repo_Activate_fails : forall p v r e r', repo_Activate p v r = (Err e, r') -> r' = r;
  repo_Activate_active : forall id p v dsl s b now r id' r1 r2,
    repo_CreateVersion id p v dsl s b now r = (Ok id', r1) -> repo_Activate p id' r1 = (Ok tt, r2) ->
    repo_GetActive p r2 = Ok (repo_dsl dsl, v);
  repo_Purge_active : forall p n r, repo_GetActive p (repo_PurgeOldVersions p n r) = repo_GetActive p r;
  repo_Delete_inactive : forall p r r',
    repo_Delete p r = (Ok tt, r') -> is_ok (repo_GetActive p r') = false;
  repo_ActivateLatest_fails : forall p r e r', repo_ActivateLatest p r = (Err e, r') -> r' = r;
  repo_Delete_fails : forall p r e r', repo_Delete p r = (Err e, r') -> r' = r;
  repo_List_active : forall t r infos info,
    repo_ListByTenant t r = Ok infos -> info ∈ infos -> info_Active info = true ->
    exists dsl, repo_GetActive (info_ID info) r = Ok (dsl, info_Version info);
}.

Lemma Purge_GetActive `{RangeOrder} p n r : GetActive p (PurgeOldVersions p n r) = GetActive p r.
Proof.
  unfold GetActive. destruct (Purge_maps p n r) as [_ ->].
  destruct (activeVersion r !! p) as [v|] eqn:Ha; [|done].
  destruct (versions r !! v) as [x|] eqn:Hv.
  - destruct (versions (PurgeOldVersions p n r) !! v) as [y|] eqn:E.
    + rewrite (lookup_weaken _ _ _ _ E (Purge_subseteq p n r)) in Hv. by simplify_eq.
    + by destruct (Purge_removed p n r v x Hv E) as [_ ?].
  - destruct (versions (PurgeOldVersions p n r) !! v) as [y|] eqn:E; [|done].
    rewrite (lookup_weaken _ _ _ _ E (Purge_subseteq p n r)) in Hv. done.
Qed.

(** The in-memory repository implements the interface, in every order of
    iteration. *)
Program Definition memory_repo (R : RangeOrder) : RulepackRepo :=
  {| repo := RulepackRepositoryImpl; repo_dsl dsl := dsl; repo_Create := Create; repo_CreateVersion := CreateVersion;
     repo_CreateVersionActivateTx := CreateVersionActivateTx; repo_GetActive := GetActive;
     repo_Activate := Activate; repo_GetVersion := GetVersion; repo_GetLatestVersion := GetLatestVersion;
     repo_ActivateLatest := ActivateLatest; repo_ListByTenant t r := Ok (ListByTenant t r);
     repo_Delete := Delete; repo_PurgeOldVersions := PurgeOldVersions |}.
Next Obligation. intros R id t n d now r e r'. unfold Create. case_if; naive_solver. Qed.
Next Obligation. intros R id p v dsl s b now r e r'. unfold CreateVersion. case_match; naive_solver. Qed.
Next Obligation. intros R id p v dsl b now r e r'. unfold CreateVersionActivateTx. case_match; naive_solver. Qed.
Next Obligation.
  intros R id p v dsl b now r id' r'. unfold CreateVersionActivateTx, GetActive. case_match; [|done].
  intros [= <- <-]. simpl. by rewrite !lookup_insert_eq.
Qed.
Next Obligation. intros R p v r e r'. unfold Activate. repeat case_match; naive_solver. Qed.
Next Obligation.
  intros R id p v dsl s b now r id' r1 r2. unfold CreateVersion, Activate, GetActive.
  destruct (rulepacks r !! p) eqn:E; [|done]. intros [= <- <-]. simpl. rewrite E, !lookup_insert_eq.
  intros [= <-]. simpl. by rewrite !lookup_insert_eq.
Qed.
Next Obligation. intros R p n r. apply Purge_GetActive. Qed.
Next Obligation.
  intros R p r r'. unfold Delete, GetActive. case_match; [|done]. intros [= <-]. simpl.
  by rewrite lookup_delete_eq.
Qed.
Next Obligation.
  intros R p r e r'. unfold ActivateLatest, Activate. destruct (GetLatestVersion p r) as [[v n]|]; [|naive_solver].
  repeat case_match; naive_solver.
Qed.
Next Obligation. intros R p r e r'. unfold Delete. case_match; naive_solver. Qed.
Next Obligation.
  intros R t r infos info. intros [= <-]. unfold ListByTenant. intros Hin Ha.
  apply list_elem_of_fmap in Hin as (p & -> & _). unfold GetActive. simpl in *.
  destruct (activeVersion r !! rk_ID p) as [v|]; simpl in *; [|done].
  destruct (versions r !! v) as [x|]; simpl in *; [|done]. by eexists.
Qed.

(** ** Examples *)

Module RepoWitnesses.
Definition r0 : RulepackRepositoryImpl := NewRulepackRepository "v1" "dsl" 0.
Definition os : list op :=
  [OpCreate "p" "t" "mine" "" 1; OpCreateVersion "v2" "p" 1 "one" "approved" uuid_Nil 2;
   OpCreateActivate "v3" "p" 2 "two" uuid_Nil 3].
Definition r3 : RulepackRepositoryImpl := foldl (fun r o => @apply some_order o r) r0 os.

Lemma r0_r3 : repo_run r0 os r3.
Proof.
  repeat (eapply run_cons; [apply (Repo_step _ _ some_order); vm_compute; try split; reflexivity|]). apply run_nil.
Qed.

Lemma repository_invariant_witness :
  repo_ok r3 /\ forall R : RangeOrder,
    NoDup (map info_ID (ListByTenant "t" r3)) /\
    (forall i, (exists info, info ∈ ListByTenant "t" r3 /\ info_ID info = i) <->
       exists p, rulepacks r3 !! i = Some p /\ (rk_TenantID p = "t"%string \/ "t"%string = uuid_Nil)) /\
    (forall info, info ∈ ListByTenant "t" r3 ->
       info_Active info = true <-> exists d, GetActive (info_ID info) r3 = Ok (d, info_Version info)).
Proof. exact (repository_invariant "v1" "dsl" 0 os r3 "t" r0_r3). Defined.

Definition later : list op := [OpCreateVersion "v4" "p" 3 "three" "approved" uuid_Nil 4; OpPurge "p" 1].
Definition r5 : RulepackRepositoryImpl := foldl (fun r o => @apply some_order o r) r3 later.

Lemma active_version_stable_witness : GetActive "p" r5 = Ok ("two"%string, 2%Z).
Proof.
  apply (@active_version_stable some_order (foldl (fun r o => @apply some_order o r) r0 (take 2 os))
           "v3" "p" 2 "two" uuid_Nil 3 "v3" r3 later r5).
  - vm_compute. reflexivity.
  - repeat (eapply run_cons; [apply (Repo_step _ _ some_order); vm_compute; try split; reflexivity|]). apply run_nil.
  - repeat constructor; simpl; tauto.
Defined.

Definition r4 : RulepackRepositoryImpl := foldl (fun r o => @apply some_order o r) r3 (take 1 later).

Lemma PurgeOldVersions_spec_witness :
  own "p" (versions r4) = 3 /\
  Z.of_nat (own "p" (versions (@PurgeOldVersions some_order "p" 1 r4))) = 1%Z.
Proof.
  split; [vm_compute; reflexivity|].
  exact (proj1 (@PurgeOldVersions_spec some_order "p" 1 r4 ltac:(discriminate))).
Defined.

(** Which of the older versions go depends on the iteration order: with two
    versions kept and version 2 active, one order keeps the oldest version
    and deletes the newest. *)
Lemma purge_drops_newest :
  exists R : RangeOrder,
    match @GetVersion R "p" 1 (@PurgeOldVersions R "p" 2 r4), @GetVersion R "p" 3 (@PurgeOldVersions R "p" 2 r4) with
    | Ok _, Err _ => True
    | _, _ => False
    end.
Proof. first [exists some_order; vm_compute; exact I|exists reverse_order; vm_compute; exact I]. Qed.

(** A version of another pack can be activated; when that pack is deleted the
    activation dangles. *)
Lemma foreign_version_activated :
  let r := (Activate default_pack_id "v3" r3).2 in
  GetActive default_pack_id r = Ok ("two"%string, 2%Z) /\
  GetActive default_pack_id (Delete "p" r).2 = Err (VersionNotFound "v3").
Proof. split; vm_compute; reflexivity. Qed.
End RepoWitnesses.
