(* ===== verification/PolicyRepo.v ===== *)
(** * PolicyRepo: the in-memory policy repository

    src/internal/infrastructure/persistence/memory/policy_repository.go and the
    policy of src/internal/shared/types/policy.go.  Every operation stores and
    returns copies, so a policy is a value; [range] over the map has the
    unspecified order of [RangeOrder]. *)

From Stdlib Require Import Ascii String.
From S2P Require Import Prelude GoString Repos.

Inductive PolicyType := Builtin | Custom | Managed | OtherType (s : string).
#[export] Instance PolicyType_eq_dec : EqDecision PolicyType.
Proof. solve_decision. Defined.

Record Policy := {
  po_ID : uuid;
  po_Name : string;
  po_Version : Z;
  po_Content : string;
  po_Type : PolicyType;
  po_CreatedBy : option uuid;
  po_CreatedAt : Z;
  po_UpdatedAt : Z;
}.

Notation PolicyRepositoryImpl := (gmap string Policy) (only parsing).

Inductive policy_error :=
  | PolicyExists (id : uuid)
  | PolicyNotFound (id : uuid)
  | NameNotFound (name : string).

Definition builtin_id : uuid := "550e8400-e29b-41d4-a716-446655440000".

Definition NewPolicyRepository (content : string) (now : Z) : PolicyRepositoryImpl :=
  {[ builtin_id := {| po_ID := builtin_id; po_Name := "Prompt Injection Detection"; po_Version := 1;
                      po_Content := content; po_Type := Builtin; po_CreatedBy := None;
                      po_CreatedAt := now - 24 * 3600 * 1000000000; po_UpdatedAt := now - 3600 * 1000000000 |} ]}%Z.

Definition Create (p : Policy) (r : PolicyRepositoryImpl) : option policy_error * PolicyRepositoryImpl :=
  match r !! po_ID p with
  | Some _ => (Some (PolicyExists (po_ID p)), r)
  | None => (None, <[po_ID p := p]> r)
  end.

Definition Get (id : uuid) (r : PolicyRepositoryImpl) : result policy_error Policy :=
  match r !! id with Some p => Ok p | None => Err (PolicyNotFound id) end.

Definition Update (p : Policy) (r : PolicyRepositoryImpl) : option policy_error * PolicyRepositoryImpl :=
  match r !! po_ID p with
  | None => (Some (PolicyNotFound (po_ID p)), r)
  | Some _ => (None, <[po_ID p := p]> r)
  end.

Definition Delete (id : uuid) (r : PolicyRepositoryImpl) : option policy_error * PolicyRepositoryImpl :=
  match r !! id with
  | None => (Some (PolicyNotFound id), r)
  | Some _ => (None, delete id r)
  end.

(** ** Searching *)

(** [findInString]: [n] start positions are left, the next one is the head of
    [s]. *)
Fixpoint find_from (n : nat) (s substr : string) : bool :=
  match n with
  | O => false
  | S n => if bool_decide (stake (String.length substr) s = substr) then true
           else find_from n (sdrop 1 s) substr
  end.

Definition findInString (s substr : string) : bool :=
  find_from (S (String.length s) - String.length substr) s substr.

Definition contains (s substr : string) : bool :=
  (String.length substr <=? String.length s)
  && (bool_decide (s = substr)
      || ((String.length substr <? String.length s)
          && (bool_decide (stake (String.length substr) s = substr)
              || bool_decide (sdrop (String.length s - String.length substr) s = substr)
              || findInString s substr))).

(** The values of the [filter] map that the assertions distinguish. *)
Inductive filter_value :=
  | FType (t : PolicyType)
  | FString (s : string)
  | FInt (n : Z)
  | FBool (b : bool).

Notation filters := (gmap string filter_value) (only parsing).

Definition matchesFilter (p : Policy) (f : filters) : bool :=
  match f !! "type" with Some (FType t) => bool_decide (po_Type p = t) | _ => true end
  && match f !! "name" with
     | Some (FString n) => bool_decide (n = "") || contains (po_Name p) n
     | _ => true
     end.

Section Ordered.
Context `{RangeOrder}.

Definition GetByName (name : string) (r : PolicyRepositoryImpl) : result policy_error Policy :=
  match filter (fun p => po_Name p = name) (range r).*2 with
  | p :: _ => Ok p
  | [] => Err (NameNotFound name)
  end.

(** [List]: the page and the number of all matches. *)
Definition List' (t : option PolicyType) (offset limit : Z) (r : PolicyRepositoryImpl) : list Policy * Z :=
  let result := filter (fun p => match t with None => true | Some t => bool_decide (po_Type p = t) end = true) (range r).*2 in
  let total := Z.of_nat (List.length result) in
  let result := if ((0 <? offset) && (offset <? Z.of_nat (List.length result)))%Z
                then drop (Z.to_nat offset) result else result in
  let result := if ((0 <? limit) && (limit <? Z.of_nat (List.length result)))%Z
                then take (Z.to_nat limit) result else result in
  (result, total).

Definition latest_policy (name : string) (latest : option Policy) (p : Policy) : option Policy :=
  if bool_decide (po_Name p = name)
  then match latest with
       | None => Some p
       | Some l => if (po_Version l <? po_Version p)%Z then Some p else latest
       end
  else latest.

Definition GetLatestVersion (name : string) (r : PolicyRepositoryImpl) : result policy_error Policy :=
  match foldl (latest_policy name) None (range r).*2 with
  | Some p => Ok p
  | None => Err (NameNotFound name)
  end.

Definition ListWithFilter (f : filters) (r : PolicyRepositoryImpl) : list Policy * Z :=
  let result := filter (fun p => matchesFilter p f = true) (range r).*2 in
  let result := match f !! "limit" with
                | Some (FInt limit) =>
                  if ((0 <? limit) && (limit <? Z.of_nat (List.length result)))%Z
                  then take (Z.to_nat limit) result else result
                | _ => result
                end in
  (result, Z.of_nat (size r)).

Definition GetActive (r : PolicyRepositoryImpl) : list Policy :=
  (ListWithFilter {["active" := FBool true]} r).1.
End Ordered.

(** ** Facts *)

Lemma stake_prefix p s : stake (String.length p) s = p <-> HasPrefix p s = true.
Proof.
  rewrite HasPrefix_spec. split.
  - intros Hp. exists (sdrop (String.length p) s). rewrite <-(stake_sdrop (String.length p) s) at 1. by rewrite Hp.
  - intros [t ->]. apply stake_app_length.
Qed.

Lemma find_from_spec n s p :
  n + String.length p <= S (String.length s) ->
  find_from n s p = true <-> exists i, i < n /\ occurs_at p s i.
Proof.
  unfold occurs_at. revert s. induction n as [|n IH]; intros s Hn; cbn [find_from]; [split; [done|intros (i & Hi & _); lia]|].
  case_bool_decide as Hp.
  - split; [|done]. intros _. exists 0. split_and!; [lia|lia|]. simpl. by apply stake_prefix.
  - rewrite IH by (rewrite length_sdrop; lia). rewrite length_sdrop. split.
    + intros (i & Hi & Hl & Ho). exists (S i). split_and!; [lia|lia|]. by rewrite sdrop_sdrop in Ho.
    + intros ([|i] & Hi & Hl & Ho); [by apply stake_prefix in Ho|]. exists i. split_and!; [lia|lia|].
      by rewrite sdrop_sdrop.
Qed.

(** The hand-written [contains] is [strings.Contains], on all inputs: the
    empty pattern, patterns longer than the text and matches at either end
    included.  It is case sensitive. *)
Theorem contains_Contains s substr : contains s substr = Contains s substr.
Proof.
  apply eq_true_iff_eq. rewrite Contains_spec. unfold contains, findInString. rewrite andb_true_iff, Nat.leb_le. split.
  - intros [Hle Hc]. apply orb_true_iff in Hc as [->%bool_decide_eq_true|Hc].
    { exists 0. split; [lia|]. simpl. apply stake_prefix, stake_ge. lia. }
    apply andb_true_iff in Hc as [Hlt Hc]. apply Nat.ltb_lt in Hlt.
    apply orb_true_iff in Hc as [Hc|Hc]; [apply orb_true_iff in Hc as [Hc|Hc]|].
    + exists 0. split; [lia|]. simpl. apply stake_prefix. by bool_cases.
    + bool_cases. exists (String.length s - String.length substr). split; [lia|]. rewrite Hc.
      apply stake_prefix, stake_ge. lia.
    + apply find_from_spec in Hc as (i & _ & ?); [by exists i|lia].
  - intros [i Ho]. pose proof (occurs_at_bound _ _ _ Ho). split; [lia|].
    destruct (decide (String.length substr = String.length s)) as [He|He].
    + assert (i = 0) as -> by lia. destruct Ho as [_ Ho]. simpl in Ho. apply stake_prefix in Ho.
      rewrite He, stake_ge in Ho by lia. apply orb_true_iff. left. by apply bool_decide_true.
    + apply orb_true_iff. right. apply andb_true_iff. split; [apply Nat.ltb_lt; lia|]. apply orb_true_iff. right.
      apply find_from_spec; [lia|]. exists i. split; [lia|done].
Qed.

(** Every policy counts as active: the filter has no such criterion. *)
Lemma GetActive_all `{RangeOrder} r : GetActive r ≡ₚ (map_to_list r).*2.
Proof.
  unfold GetActive, ListWithFilter, matchesFilter. cbn [fst].
  rewrite !(lookup_singleton_ne "active") by done. cbn.
  rewrite <-(range_perm _ r). induction (range r).*2 as [|p l IH]; [done|]. rewrite filter_cons, decide_True by done.
  by rewrite IH.
Qed.

(** The pages of [List] that start within the result, in one order of
    iteration, are consecutive parts of it; a page past the end starts over
    at the beginning. *)
Lemma List_page `{RangeOrder} t offset limit r :
  let all := (List' t 0 0 r).1 in
  (0 <= offset < Z.of_nat (List.length all))%Z -> (0 < limit)%Z ->
  (List' t offset limit r).1 = take (Z.to_nat limit) (drop (Z.to_nat offset) all).
Proof.
  unfold List'. simpl. set (l := filter _ _). intros Ho Hl.
  assert (Hd : (if ((0 <? offset) && (offset <? Z.of_nat (List.length l)))%Z then drop (Z.to_nat offset) l else l)
               = drop (Z.to_nat offset) l).
  { case_if; [done|]. assert (offset = 0%Z) as -> by lia. by rewrite drop_0. }
  rewrite Hd. case_if; [done|]. rewrite take_ge; [done|]. rewrite length_drop. bool_cases.
  destruct E as [E|E]; [lia|]. rewrite length_drop in E. lia.
Qed.

Lemma List_past_end `{RangeOrder} t offset limit r :
  (Z.of_nat (List.length (List' t 0 0 r).1) <= offset)%Z -> List' t offset limit r = List' t 0 limit r.
Proof. unfold List'. simpl. intros Ho. rewrite (proj2 (Z.ltb_ge _ _) Ho). by rewrite andb_false_r. Qed.
