(* ===== verification/RulepackSvc.v ===== *)
(** * RulepackSvc: the rule pack service

    src/internal/application/services/rulepacks.go, written against the
    repository interface [RulepackRepo].  The state of the service is the
    repository, the rule updates handed to the publisher and the events handed
    to the audit log, if there is one; errors of the publisher and of the audit log are ignored by the code, and
    metrics are left out.  [ctx_cancelled] is the error of a context that is
    cancelled during the canary delay. *)

From Stdlib Require Import Ascii String.
From S2P Require Import Prelude GoString Unicode Rules Merge Verifiers Complexity Aho Literals Engine Compile Scanner Load Loader Validate Repos.

(** [crypto/sha256] with [encoding/hex]. *)
Class Digest := { sha256_hex : string -> string }.

Record RuleUpdate := {
  ru_TenantID : string;
  ru_TargetScope : string;
  ru_RulepackID : string;
  ru_Version : Z;
  ru_ContentSHA256 : string;
}.

Inductive svc_error :=
  | CtxError (e : string)
  | RepoError (e : repo_error)
  | ListError (e : repo_error)
  | NameExists (name : string).

Section Service.
Context `{RepoI : RulepackRepo, Digest, Platform}.

Record RulepackService := {
  svc_repo : repo;
  svc_pub : bool;
  svc_published : list RuleUpdate;
  svc_audit : list (string * uuid);
}.

Definition with_repo (r : repo) (s : RulepackService) : RulepackService :=
  {| svc_repo := r; svc_pub := svc_pub s; svc_published := svc_published s; svc_audit := svc_audit s |}.

Definition emitAudit (event : string) (packID : uuid) (s : RulepackService) : RulepackService :=
  {| svc_repo := svc_repo s; svc_pub := svc_pub s; svc_published := svc_published s;
     svc_audit := svc_audit s ++ [(event, packID)] |}.

(** [if s.pub != nil { _ = s.pub.PublishRuleUpdate(ctx, u) }]. *)
Definition publish (u : RuleUpdate) (s : RulepackService) : RulepackService :=
  if svc_pub s
  then {| svc_repo := svc_repo s; svc_pub := svc_pub s; svc_published := svc_published s ++ [u];
          svc_audit := svc_audit s |}
  else s.

Definition checksumJSON (raw : string) : string := sha256_hex raw.

Definition rule_update (tenantID packID : uuid) (version : Z) (dsl : string) : RuleUpdate :=
  {| ru_TenantID := tenantID; ru_TargetScope := "global"; ru_RulepackID := packID; ru_Version := version;
     ru_ContentSHA256 := checksumJSON dsl |}.

Definition canaryDelay (ctx_cancelled : option string) : option string :=
  let dVal := getenv "PS_RULEPACK_CANARY_DELAY_SECONDS" in
  if bool_decide (dVal = "") then None
  else match Atoi dVal with
       | Some secs => if (secs <=? 0)%Z then None else ctx_cancelled
       | None => None
       end.

(** A positive integer of the environment, or the default. *)
Definition env_limit (name : string) (default : Z) : Z :=
  let v := getenv name in
  if bool_decide (v = "") then default
  else match Atoi v with
       | Some n => if (0 <? n)%Z then n else default
       | None => default
       end.

Definition CreateVersionActivate (ctx_cancelled : option string) (id : uuid) (now : Z) (tenantID packID : uuid)
    (version : Z) (dsl : string) (s : RulepackService) : option svc_error * RulepackService :=
  match canaryDelay ctx_cancelled with
  | Some e => (Some (CtxError e), s)
  | None =>
    match repo_CreateVersionActivateTx id packID version dsl uuid_Nil now (svc_repo s) with
    | (Err e, r) => (Some (RepoError e), with_repo r s)
    | (Ok _, r) =>
      let s := publish (rule_update tenantID packID version dsl) (with_repo r s) in
      (None, with_repo (repo_PurgeOldVersions packID (env_limit "PS_RULEPACK_RETENTION" 10) (svc_repo s)) s)
    end
  end.

Definition Create (id : uuid) (now : Z) (tenantID : uuid) (name description : string) (s : RulepackService) :
    result svc_error uuid * RulepackService :=
  match repo_ListByTenant tenantID (svc_repo s) with
  | Err e => (Err (ListError e), s)
  | Ok existing =>
    if existsb (fun p => bool_decide (info_Name p = name)) existing then (Err (NameExists name), s)
    else match repo_Create id tenantID name description now (svc_repo s) with
         | (Err ErrRulepackNameExists, r) => (Err (NameExists name), with_repo r s)
         | (Err e, r) => (Err (RepoError e), with_repo r s)
         | (Ok id, r) => (Ok id, emitAudit "rulepack.create" id (with_repo r s))
         end
  end.

Definition Upload (ctx_cancelled : option string) (id : uuid) (now : Z) (tenantID packID : uuid) (version : Z)
    (dsl : string) (activate : bool) (s : RulepackService) : uuid * option svc_error * RulepackService :=
  match repo_CreateVersion id packID version dsl "approved" uuid_Nil now (svc_repo s) with
  | (Err e, r) => (uuid_Nil, Some (RepoError e), with_repo r s)
  | (Ok verID, r) =>
    let s := with_repo r s in
    let done s := (verID, None, emitAudit "rulepack.upload" packID s) in
    if activate then
      match canaryDelay ctx_cancelled with
      | Some e => (verID, Some (CtxError e), s)
      | None =>
        match repo_Activate packID verID (svc_repo s) with
        | (Err e, r) => (verID, Some (RepoError e), with_repo r s)
        | (Ok _, r) => done (publish (rule_update tenantID packID version dsl) (with_repo r s))
        end
      end
    else done s
  end.

(** The update announces what [GetActive] returns, if anything. *)
Definition publish_active (tenantID packID : uuid) (s : RulepackService) : RulepackService :=
  match repo_GetActive packID (svc_repo s) with
  | Ok (dsl, version) => publish (rule_update tenantID packID version dsl) s
  | Err _ => s
  end.

Definition SetActive (ctx_cancelled : option string) (tenantID packID versionID : uuid) (s : RulepackService) :
    option svc_error * RulepackService :=
  match canaryDelay ctx_cancelled with
  | Some e => (Some (CtxError e), s)
  | None =>
    match repo_Activate packID versionID (svc_repo s) with
    | (Err e, r) => (Some (RepoError e), with_repo r s)
    | (Ok _, r) => (None, publish_active tenantID packID (with_repo r s))
    end
  end.

Definition ActivateLatest (ctx_cancelled : option string) (tenantID packID : uuid) (s : RulepackService) :
    option svc_error * RulepackService :=
  match canaryDelay ctx_cancelled with
  | Some e => (Some (CtxError e), s)
  | None =>
    match repo_ActivateLatest packID (svc_repo s) with
    | (Err e, r) => (Some (RepoError e), with_repo r s)
    | (Ok _, r) => (None, publish_active tenantID packID (emitAudit "rulepack.activate" packID (with_repo r s)))
    end
  end.

Definition Delete (tenantID packID : uuid) (s : RulepackService) : option svc_error * RulepackService :=
  match repo_Delete packID (svc_repo s) with
  | (Err e, r) => (Some (RepoError e), with_repo r s)
  | (Ok _, r) =>
    let u := {| ru_TenantID := tenantID; ru_TargetScope := "global"; ru_RulepackID := packID;
                ru_Version := -1; ru_ContentSHA256 := "" |} in
    (None, emitAudit "rulepack.delete" packID (publish u (with_repo r s)))
  end.
End Service.

(** ** Validation *)

Inductive dsl_error :=
  | TooLarge (maxKB : Z)
  | InvalidFormat (e : string)
  | PackError (e : pack_error)
  | TooManyRules (n max : Z).

Section DSL.
Context `{RegexpSyntax, RegexpEngine, LruLib, Platform, SchemaLib, Sources}.

Definition maxKB : Z := env_limit "PS_MAX_RULEPACK_KB" 1024.
Definition maxRules : Z := env_limit "PS_MAX_RULES" 1000.

(** [errs]: the validation errors and the rule count. *)
Definition dsl_errors (pack : RulePack) : list dsl_error :=
  map PackError (ValidatePack pack) ++
  (let n := Z.of_nat (List.length (rp_Rules pack)) in
   if (maxRules <? n)%Z then [TooManyRules n maxRules] else []).

(** [ValidateDSL]: whether the text is valid, and the errors. *)
Definition ValidateDSL (data : string) : bool * list dsl_error :=
  if (wrap64 (maxKB * 1024) <? Z.of_nat (String.length data))%Z then (false, [TooLarge maxKB])
  else match Unmarshal data with
       | Err e => (false, [InvalidFormat e])
       | Ok pack =>
         match dsl_errors pack with
         | [] => (true, [])
         | errs => (false, errs)
         end
       end.

(** [ParseDSL] returns the first error. *)
Definition ParseDSL (data : string) : result dsl_error RulePack :=
  if (wrap64 (maxKB * 1024) <? Z.of_nat (String.length data))%Z then Err (TooLarge maxKB)
  else match Unmarshal data with
       | Err e => Err (InvalidFormat e)
       | Ok pack =>
         match dsl_errors pack with
         | [] => Ok pack
         | e :: _ => Err e
         end
       end.

Lemma env_limit_pos name default : (0 < default)%Z -> (0 < env_limit name default < 2 ^ 63)%Z \/ env_limit name default = default.
Proof.
  intros Hd. unfold env_limit. case_bool_decide; [by right|]. destruct (Atoi (getenv name)) as [n|] eqn:E; [|by right].
  apply ParseInt_range in E. unfold int64_range in E. case_if; [left; lia|by right].
Qed.

(** The two validators of the service agree, and what they accept is within
    the limits: [ValidateDSL] accepts a text exactly when [ParseDSL] returns a
    pack, which then is the decoded text, passes [ValidatePack] and has no more
    rules than allowed; otherwise the error of [ParseDSL] is the first one
    [ValidateDSL] lists.  Unless the configured size overflows, an accepted
    text is at most that many kilobytes long. *)
Theorem ValidateDSL_ParseDSL data :
  (ValidateDSL data = (true, []) <-> exists pack, ParseDSL data = Ok pack) /\
  (forall pack, ParseDSL data = Ok pack ->
     Unmarshal data = Ok pack /\ ValidatePack pack = [] /\
     (Z.of_nat (List.length (rp_Rules pack)) <= maxRules)%Z /\
     ((maxKB < 2 ^ 53)%Z -> (Z.of_nat (String.length data) <= maxKB * 1024)%Z)) /\
  (forall e, ParseDSL data = Err e -> (ValidateDSL data).1 = false /\ head (ValidateDSL data).2 = Some e).
Proof.
  assert (HKB : (maxKB < 2 ^ 53)%Z -> wrap64 (maxKB * 1024) = (maxKB * 1024)%Z).
  { intros Hlt. apply wrap64_id. unfold int64_range.
    destruct (env_limit_pos "PS_MAX_RULEPACK_KB" 1024) as [?|?]; [lia|unfold maxKB in *; lia|unfold maxKB in *; lia]. }
  assert (Hrej : forall e errs,
    ((false, e :: errs) = (true, []) <-> exists pack, Err e = @Ok dsl_error RulePack pack) /\
    (forall pack, Err e = Ok pack ->
       Unmarshal data = Ok pack /\ ValidatePack pack = [] /\
       (Z.of_nat (List.length (rp_Rules pack)) <= maxRules)%Z /\
       ((maxKB < 2 ^ 53)%Z -> (Z.of_nat (String.length data) <= maxKB * 1024)%Z)) /\
    (forall e', @Err dsl_error RulePack e = Err e' -> false = false /\ Some e = Some e')).
  { intros e errs. split_and!; [|done|by intros e' [= <-]]. split; [done|by intros [? ?]]. }
  unfold ValidateDSL, ParseDSL. case_if; [apply (Hrej (TooLarge maxKB) [])|].
  destruct (Unmarshal data) as [pack|e] eqn:Eu; [|apply (Hrej (InvalidFormat e) [])].
  destruct (dsl_errors pack) as [|e errs] eqn:Ee; [|apply (Hrej e errs)].
  split_and!; [split; [by exists pack|done]| |done]. intros ? [= <-]. unfold dsl_errors in Ee.
  apply app_eq_nil in Ee as [Ep%map_eq_nil Er]. split_and!; [done|done| |].
  - destruct (maxRules <? _)%Z eqn:E'; [done|lia].
  - intros Hlt. rewrite HKB in E by done. lia.
Qed.
End DSL.

(** ** What is announced is active *)

Section Facts.
Context `{RepoI : RulepackRepo, Digest, Platform}.

(** [s'] differs from [s] by the announcement [u], if there is a publisher. *)
Definition announces (u : RuleUpdate) (s s' : RulepackService) : Prop :=
  svc_published s' = if svc_pub s then svc_published s ++ [u] else svc_published s.

Lemma publish_announces u s : announces u s (publish u s) /\ svc_repo (publish u s) = svc_repo s.
Proof. unfold announces, publish. by destruct (svc_pub s). Qed.

Lemma publish_active_announces t p s dsl v :
  repo_GetActive p (svc_repo s) = Ok (dsl, v) ->
  announces (rule_update t p v dsl) s (publish_active t p s) /\ svc_repo (publish_active t p s) = svc_repo s.
Proof. intros Hg. unfold publish_active. rewrite Hg. apply publish_announces. Qed.

(** The announced version and checksum are those of the active version. *)
Definition announced_active (t p : uuid) (s s' : RulepackService) : Prop :=
  (exists dsl v, repo_GetActive p (svc_repo s') = Ok (dsl, v) /\ announces (rule_update t p v dsl) s s') \/
  (is_ok (repo_GetActive p (svc_repo s')) = false /\ svc_published s' = svc_published s).

Lemma publish_active_ok t p s : announced_active t p s (publish_active t p s).
Proof.
  destruct (repo_GetActive p (svc_repo s)) as [[dsl v]|e] eqn:E.
  - left. exists dsl, v. destruct (publish_active_announces t p s dsl v E) as [? ->]. done.
  - right. unfold publish_active. rewrite E. split; [by rewrite E|done].
Qed.

Lemma with_repo_id (s : RulepackService) : with_repo (svc_repo s) s = s.
Proof. by destruct s. Qed.

(** Creating a version with activation: it was stored, is active and
    announced, or nothing changed. *)
Lemma CreateVersionActivate_effect (cancelled : option string) (id : uuid) (now : Z) (t p : uuid) (version : Z) (dsl : string)
    (s : RulepackService) :
  match CreateVersionActivate cancelled id now t p version dsl s with
  | (None, s') =>
      (exists id' r, repo_CreateVersionActivateTx id p version dsl uuid_Nil now (svc_repo s) = (Ok id', r)) /\
      repo_GetActive p (svc_repo s') = Ok (repo_dsl dsl, version) /\ announces (rule_update t p version dsl) s s'
  | (Some _, s') => s' = s
  end.
Proof.
  unfold CreateVersionActivate. destruct (canaryDelay cancelled); [done|].
  destruct (repo_CreateVersionActivateTx id p version dsl uuid_Nil now (svc_repo s)) as [[id'|e] r] eqn:E.
  - simpl. destruct (publish_announces (rule_update t p version dsl) (with_repo r s)) as [Ha Hr].
    split; [by eexists _, _|]. split; [|exact Ha]. rewrite Hr, repo_Purge_active. by eapply repo_CreateVersionActivateTx_active.
  - rewrite (repo_CreateVersionActivateTx_fails _ _ _ _ _ _ _ _ _ E). apply with_repo_id.
Qed.

(** An activation that succeeds announces the version that is now active:
    the rule update carries the number of what [GetActive] returns afterwards,
    although old versions are purged in between.  Creating a version with
    activation installs the given text, in the form in which the store keeps
    it, and announces its checksum; activating a stored version announces the
    checksum of exactly what [GetActive] returns.  An activation that fails
    announces nothing, and when the activation itself was not reached nothing
    changed in the repository. *)
Theorem activation_announced (cancelled : option string) (id : uuid) (now : Z) (t p v : uuid) (version : Z)
    (dsl : string) (s : RulepackService) :
  (match CreateVersionActivate cancelled id now t p version dsl s with
   | (None, s') => repo_GetActive p (svc_repo s') = Ok (repo_dsl dsl, version) /\ announces (rule_update t p version dsl) s s'
   | (Some _, s') => s' = s
   end) /\
  (match Upload cancelled id now t p version dsl true s with
   | (_, None, s') => repo_GetActive p (svc_repo s') = Ok (repo_dsl dsl, version) /\ announces (rule_update t p version dsl) s s'
   | (_, Some _, s') => svc_published s' = svc_published s
   end) /\
  (match SetActive cancelled t p v s with
   | (None, s') => announced_active t p s s'
   | (Some _, s') => s' = s
   end) /\
  (match ActivateLatest cancelled t p s with
   | (None, s') => announced_active t p s s'
   | (Some _, s') => svc_published s' = svc_published s
   end).
Proof.
  assert (Hsame : forall r, r = svc_repo s -> with_repo r s = s) by (intros r ->; by destruct s).
  split_and!.
  - pose proof (CreateVersionActivate_effect cancelled id now t p version dsl s) as H1.
    destruct (CreateVersionActivate _ _ _ _ _ _ _ _) as [[e|] s']; [done|]. by destruct H1 as (_ & ? & ?).
  - unfold Upload. destruct (repo_CreateVersion id p version dsl "approved" uuid_Nil now (svc_repo s)) as [[id'|e] r] eqn:E;
      [|done].
    destruct (canaryDelay cancelled); [done|].
    change (svc_repo (with_repo r s)) with r. destruct (repo_Activate p id' r) as [[[]|e] r'] eqn:Ea; [|done].
    change (with_repo r' (with_repo r s)) with (with_repo r' s).
    destruct (publish_announces (rule_update t p version dsl) (with_repo r' s)) as [Ha Hr]. simpl. split; [|exact Ha].
    rewrite Hr. by eapply repo_Activate_active.
  - unfold SetActive. destruct (canaryDelay cancelled); [done|].
    destruct (repo_Activate p v (svc_repo s)) as [[[]|e] r] eqn:E; [apply (publish_active_ok t p (with_repo r s))|].
    apply Hsame. by eapply repo_Activate_fails.
  - unfold ActivateLatest. destruct (canaryDelay cancelled); [done|].
    destruct (repo_ActivateLatest p (svc_repo s)) as [[[]|e] r] eqn:E; [|done].
    apply (publish_active_ok t p (emitAudit _ p (with_repo r s))).
Qed.
End Facts.

Module SvcWitnesses.
Import RepoWitnesses.
Definition plain_digest : Digest := {| sha256_hex s := s |}.
Definition svc : @RulepackService (memory_repo some_order) :=
  {| svc_repo := r3 : @repo (memory_repo some_order); svc_pub := true; svc_published := []; svc_audit := [] |}.

(** Creating version 4 on the repository of the example announces it, and it
    stays active through the purge. *)
Definition created : option svc_error * @RulepackService (memory_repo some_order) :=
  @CreateVersionActivate (memory_repo some_order) plain_digest bare_platform None "v9" 7 "t" "p" 4 "four" svc.

Lemma activation_announced_witness :
  created.1 = None /\
  match created with
  | (None, s') => @repo_GetActive (memory_repo some_order) "p" (svc_repo s') = Ok ("four"%string, 4%Z) /\
                  announces (@rule_update plain_digest "t" "p" 4 "four") svc s'
  | (Some _, s') => s' = svc
  end.
Proof.
  split; [vm_compute; reflexivity|].
  exact (proj1 (@activation_announced (memory_repo some_order) plain_digest bare_platform None "v9" 7 "t" "p" "v2" 4 "four" svc)).
Defined.
End SvcWitnesses.
