(* ===== verification/EventBus.v ===== *)
(** * EventBus: publishing to in-process handlers

    src/internal/shared/events/bus.go.  A handler is a function of the event
    and of the state [S] that the handlers share.  [Publish] starts every
    handler as a goroutine and returns: what it leaves behind is the list of
    the calls that are still to run, in no particular order.  [PublishSync]
    runs the handlers in the order of their subscription. *)

From Stdlib Require Import Ascii String.
From S2P Require Import Prelude GoString.

Section Bus.
Context {Ev S : Type} (EventType : Ev -> string).

Definition Handler : Type := Ev -> S -> option string * S.

Record EventBus := { handlers : gmap string (list Handler) }.

Definition NewEventBus : EventBus := {| handlers := ∅ |}.

(** [bus.handlers[eventType]]: a missing key is a nil slice. *)
Definition subscribed (eventType : string) (bus : EventBus) : list Handler := default [] (handlers bus !! eventType).

Definition Subscribe (eventType : string) (h : Handler) (bus : EventBus) : EventBus :=
  {| handlers := <[eventType := subscribed eventType bus ++ [h]]> (handlers bus) |}.

Definition UnsubscribeAll (eventType : string) (bus : EventBus) : EventBus :=
  {| handlers := delete eventType (handlers bus) |}.

Definition GetSubscriberCount (eventType : string) (bus : EventBus) : Z :=
  Z.of_nat (List.length (subscribed eventType bus)).

(** The calls [Publish] starts. *)
Definition Publish (bus : EventBus) (event : Ev) : list (S -> option string * S) :=
  map (fun h => h event) (subscribed (EventType event) bus).

(** The loop of [PublishSync]: it returns the first error. *)
Fixpoint run_handlers (hs : list Handler) (event : Ev) (s : S) : option string * S :=
  match hs with
  | [] => (None, s)
  | h :: hs =>
    match h event s with
    | (Some e, s) => (Some e, s)
    | (None, s) => run_handlers hs event s
    end
  end.

Definition PublishSync (bus : EventBus) (event : Ev) (s : S) : option string * S :=
  run_handlers (subscribed (EventType event) bus) event s.

(** ** Facts *)

Lemma subscribed_Subscribe t t' h bus :
  subscribed t (Subscribe t' h bus) = if bool_decide (t = t') then subscribed t bus ++ [h] else subscribed t bus.
Proof.
  unfold Subscribe, subscribed at 1. simpl. case_bool_decide as Ht; [subst; by rewrite lookup_insert_eq|].
  by rewrite lookup_insert_ne by done.
Qed.

Lemma subscribed_UnsubscribeAll t t' bus :
  subscribed t (UnsubscribeAll t' bus) = if bool_decide (t = t') then [] else subscribed t bus.
Proof.
  unfold UnsubscribeAll, subscribed. simpl. case_bool_decide as Ht; [subst; by rewrite lookup_delete_eq|].
  by rewrite lookup_delete_ne by done.
Qed.

(** The state after the handlers of a prefix all succeeded. *)
Fixpoint all_succeed (hs : list Handler) (event : Ev) (s : S) : option S :=
  match hs with
  | [] => Some s
  | h :: hs => match h event s with (None, s) => all_succeed hs event s | (Some _, _) => None end
  end.

Lemma run_handlers_spec hs event s e s' :
  run_handlers hs event s = (e, s') <->
  match e with
  | None => all_succeed hs event s = Some s'
  | Some msg => exists hs1 h hs2 s1, hs = hs1 ++ h :: hs2 /\ all_succeed hs1 event s = Some s1 /\ h event s1 = (Some msg, s')
  end.
Proof.
  revert s. induction hs as [|h hs IH]; intros s; simpl.
  - destruct e; [|split; congruence]. split; [done|]. by intros ([] & ? & ? & ? & ? & _).
  - destruct (h event s) as [[m|] s1] eqn:Eh.
    + destruct e as [msg|].
      * split.
        -- intros [= -> ->]. by exists [], h, hs, s.
        -- intros (hs1 & h' & hs2 & s2 & Hs & Ha & He). destruct hs1 as [|h1 hs1]; simplify_eq/=.
           ++ by rewrite Eh in He.
           ++ by rewrite Eh in Ha.
      * split; congruence.
    + rewrite IH. destruct e as [msg|]; [|done]. split.
      * intros (hs1 & h' & hs2 & s2 & -> & Ha & He). exists (h :: hs1), h', hs2, s2. simpl. by rewrite Eh.
      * intros (hs1 & h' & hs2 & s2 & Hs & Ha & He). destruct hs1 as [|h1 hs1]; simplify_eq/=; [congruence|].
        rewrite Eh in Ha. by exists hs1, h', hs2, s2.
Qed.
End Bus.
Arguments EventBus : clear implicits.
