(* ===== verification/Policies.v ===== *)
(** * Policies: from policies to the scanners that enforce them

    src/internal/application/services (policy_service.go,
    policy_scanner_service.go) and src/internal/interfaces/http/enforcer
    (scanner_manager.go, policy_sync.go).  The policy service keeps a scanner of
    its own for the active policies and publishes an event for every
    activation; the scanner manager of the enforcement endpoints receives the
    events on the event bus, whose goroutines run in any order, and keeps the
    scanner that requests are checked with.  The packages share the package
    variables and the expression cache of the scanner package.  Auditing,
    which does not change the outcome, is the list of the logged actions. *)

From Stdlib Require Import Ascii String.
From S2P Require Import Prelude GoString Unicode Rules Merge Verifiers Complexity Aho Literals Engine Compile Scanner Load ScanIO Setters Loader Repos PolicyRepo EventBus.

(** [yaml.Unmarshal] into a struct that has only [Rules]. *)
Class YamlRules := { Unmarshal_rules : string -> result string (list Rule) }.

(** ** From a policy to a rule pack *)

Section Convert.
Context `{Sources, YamlRules}.

Definition set_names (p : RulePack) (name apiVersion kind : string) : RulePack :=
  {| rp_APIVersion := apiVersion; rp_Kind := kind;
     rp_Metadata := {| md_Name := name; md_Version := md_Version (rp_Metadata p);
                       md_Description := md_Description (rp_Metadata p); md_Author := md_Author (rp_Metadata p);
                       md_License := md_License (rp_Metadata p); md_Homepage := md_Homepage (rp_Metadata p);
                       md_Repository := md_Repository (rp_Metadata p); md_Tags := md_Tags (rp_Metadata p) |};
     rp_Rules := rp_Rules p; rp_Extends := rp_Extends p; rp_Imports := rp_Imports p;
     rp_Composition := rp_Composition p; rp_Performance := rp_Performance p; rp_Overrides := rp_Overrides p;
     rp_Context := rp_Context p; rp_SourcePath := rp_SourcePath p |}.

(** A pack of the given rules, named after the policy. *)
Definition simple_pack (policy : Policy) (rs : list Rule) : RulePack :=
  {| rp_APIVersion := "promptshield.io/v1"; rp_Kind := "RulePack";
     rp_Metadata := {| md_Name := po_Name policy; md_Version := "v" +:+ Itoa (po_Version policy);
                       md_Description := "Policy " +:+ po_Name policy; md_Author := ""; md_License := "";
                       md_Homepage := ""; md_Repository := ""; md_Tags := [] |};
     rp_Rules := rs; rp_Extends := []; rp_Imports := []; rp_Composition := None; rp_Performance := None;
     rp_Overrides := []; rp_Context := ∅; rp_SourcePath := "" |}.

Definition keyword_rule (policy : Policy) : Rule :=
  {| r_ID := "policy-" +:+ stake 8 (po_ID policy); r_Name := po_Name policy; r_Level := 1; r_Severity := "MEDIUM";
     r_Category := ""; r_Enabled := None; r_Verifier := ""; r_Keywords := ["inject"; "ignore"; "override"];
     r_Patterns := []; r_Semantic := None; r_Fallback := None; r_Logic := "";
     r_Options := {| opt_CaseSensitive := false; opt_WholeWord := false |};
     r_Response := Some {| resp_Action := "warn"; resp_Message := "Policy violation detected"; resp_Replacement := "" |};
     r_Cache := None; r_When := None; r_Unless := None; r_Timeout := "" |}.

Definition or_default (s d : string) : string := if bool_decide (s = "") then d else s.

(** [convertPolicyToRulePack] of the scanner service; it never fails. *)
Definition convertPolicyToRulePack (policy : Policy) : RulePack :=
  match Unmarshal (po_Content policy) with
  | Ok rulepack =>
    set_names rulepack (or_default (rp_Name rulepack) (po_Name policy))
      (or_default (rp_APIVersion rulepack) "promptshield.io/v1") (or_default (rp_Kind rulepack) "RulePack")
  | Err _ =>
    match Unmarshal_rules (po_Content policy) with
    | Ok ((_ :: _) as rs) => simple_pack policy rs
    | _ => simple_pack policy [keyword_rule policy]
    end
  end.

(** The scanner manager has a copy of it, line for line. *)
Definition manager_convertPolicyToRulePack : Policy -> RulePack := convertPolicyToRulePack.
End Convert.

Section Policies.
Context `{RegexpSyntax, RegexpEngine, LruLib, AhoLib, Platform, Sources, YamlRules}.

(** ** A scanner and the policies loaded into it *)

(** [PolicyScannerService] and [ScannerManager]: the same state. *)
Record scanner_box := {
  scanner : Scanner;
  activePolicies : gmap uuid Policy;
}.

(** [NewPolicyScannerService] and [NewScannerManager]. *)
Definition new_box : scanner_box :=
  {| scanner := SetMaxStreamBytes (10 * 1024 * 1024) (SetQuarantineOnError true
                  (SetQuarantineOnTimeout true (ScanEngineCstor 0)));
     activePolicies := ∅ |}.

(** What the scanner package shares: its variables and its cache. *)
Record shared := { sh_globals : Globals; sh_cache : regex_cache }.

(** [s.scanner.LoadRulePacks(rulePacks)]. *)
Definition load_box (packs : list RulePack) (b : scanner_box) (sh : shared) : scanner_box * shared :=
  let '(sc, _, g, c) := LoadRulePacks packs (sh_globals sh) (sh_cache sh) (scanner b) in
  ({| scanner := sc; activePolicies := activePolicies b |}, {| sh_globals := g; sh_cache := c |}).

Definition with_policies (ps : gmap uuid Policy) (b : scanner_box) : scanner_box :=
  {| scanner := scanner b; activePolicies := ps |}.

Definition HasActivePolicies (b : scanner_box) : bool := 0 <? size (activePolicies b).

Section Ordered.
Context `{RangeOrder}.

Definition reloadScannerLocked (b : scanner_box) (sh : shared) : scanner_box * shared :=
  load_box (map convertPolicyToRulePack (range (activePolicies b)).*2) b sh.

(** [ReloadActivePolicies]. *)
Definition ReloadActivePolicies (r : PolicyRepositoryImpl) (b : scanner_box) (sh : shared) : scanner_box * shared :=
  let policies := PolicyRepo.GetActive r in
  let '(b, sh) := load_box (map convertPolicyToRulePack policies) b sh in
  (with_policies (foldl (fun m p => <[po_ID p := p]> m) ∅ policies) b, sh).

(** [ActivatePolicy] of the scanner service. *)
Definition scanner_ActivatePolicy (r : PolicyRepositoryImpl) (id : uuid) (b : scanner_box) (sh : shared) :
    option policy_error * scanner_box * shared :=
  match PolicyRepo.Get id r with
  | Err e => (Some e, b, sh)
  | Ok policy =>
    let '(b, sh) := reloadScannerLocked (with_policies (<[id := policy]> (activePolicies b)) b) sh in (None, b, sh)
  end.

Definition scanner_DeactivatePolicy (id : uuid) (b : scanner_box) (sh : shared) : scanner_box * shared :=
  reloadScannerLocked (with_policies (delete id (activePolicies b)) b) sh.

(** ** The scanner manager *)

(** [reloadScannerLocked] of the manager. *)
Definition manager_reloadScannerLocked (b : scanner_box) (sh : shared) : scanner_box * shared :=
  load_box (map manager_convertPolicyToRulePack (range (activePolicies b)).*2) b sh.

Definition GetActivePolicyCount (b : scanner_box) : Z := Z.of_nat (size (activePolicies b)).

(** [events.PolicyActivated] and [events.PolicyDeactivated]. *)
Inductive policy_event :=
  | PolicyActivated (id : uuid) (data : Policy)
  | PolicyDeactivated (id : uuid) (data : Policy).

Definition EventType (e : policy_event) : string :=
  match e with PolicyActivated _ _ => "policy.activated" | PolicyDeactivated _ _ => "policy.deactivated" end.

Definition handlePolicyActivated (e : policy_event) (s : scanner_box * shared) :
    option string * (scanner_box * shared) :=
  match e with
  | PolicyActivated id data =>
    (None, manager_reloadScannerLocked (with_policies (<[id := data]> (activePolicies s.1)) s.1) s.2)
  | _ => (Some "invalid event type for policy activation", s)
  end.

Definition handlePolicyDeactivated (e : policy_event) (s : scanner_box * shared) :
    option string * (scanner_box * shared) :=
  match e with
  | PolicyDeactivated id _ =>
    (None, manager_reloadScannerLocked (with_policies (delete id (activePolicies s.1)) s.1) s.2)
  | _ => (Some "invalid event type for policy deactivation", s)
  end.

(** The bus after [NewScannerManager] has subscribed. *)
Definition manager_bus : EventBus policy_event (scanner_box * shared) :=
  Subscribe "policy.deactivated" handlePolicyDeactivated
    (Subscribe "policy.activated" handlePolicyActivated NewEventBus).

(** What the handlers of an event, each run once, do. *)
Definition deliver (e : policy_event) (s : scanner_box * shared) : scanner_box * shared :=
  (PublishSync EventType manager_bus e s).2.
End Ordered.

(** ** The policy service *)

(** [touched] is a ghost: the policies activated or deactivated so far. *)
Record system := {
  repository : PolicyRepositoryImpl;
  service : scanner_box;
  manager : scanner_box;
  lib : shared;
  pending : list policy_event;
  audit : list (string * uuid);
  touched : gset uuid;
}.

Inductive policy_svc_error :=
  | NameRequired
  | ContentRequired
  | RuleValidation (e : string)
  | CreateFailed (e : policy_error)
  | NotFound (e : policy_error)
  | UpdateFailed (e : policy_error)
  | DeleteFailed (e : policy_error)
  | ActivateFailed (e : policy_error).

Definition with_repository (r : PolicyRepositoryImpl) (y : system) : system :=
  {| repository := r; service := service y; manager := manager y; lib := lib y; pending := pending y;
     audit := audit y; touched := touched y |}.
Definition with_service (b : scanner_box) (sh : shared) (y : system) : system :=
  {| repository := repository y; service := b; manager := manager y; lib := sh; pending := pending y;
     audit := audit y; touched := touched y |}.
Definition with_manager (b : scanner_box) (sh : shared) (es : list policy_event) (y : system) : system :=
  {| repository := repository y; service := service y; manager := b; lib := sh; pending := es;
     audit := audit y; touched := touched y |}.

(** [s.auditLogger.LogWithContext]. *)
Definition log (action : string) (id : uuid) (y : system) : system :=
  {| repository := repository y; service := service y; manager := manager y; lib := lib y; pending := pending y;
     audit := audit y ++ [(action, id)]; touched := touched y |}.

(** [events.GlobalEventBus().Publish(ctx, event)]: the handler is started. *)
Definition publish (id : uuid) (e : policy_event) (y : system) : system :=
  {| repository := repository y; service := service y; manager := manager y; lib := lib y;
     pending := pending y ++ [e]; audit := audit y; touched := {[id]} ∪ touched y |}.

(** The rule compiler given to the service, if any. *)
Definition ValidatePolicy (validator : option (Policy -> option string)) (p : Policy) : option policy_svc_error :=
  if bool_decide (po_Name p = "") then Some NameRequired
  else if bool_decide (po_Content p = "") then Some ContentRequired
  else match validator with
       | None => None
       | Some v => RuleValidation <$> v p
       end.

(** The metadata of a new policy. *)
Definition created (id : uuid) (now : Z) (p : Policy) : Policy :=
  {| po_ID := id; po_Name := po_Name p; po_Version := 1; po_Content := po_Content p; po_Type := po_Type p;
     po_CreatedBy := po_CreatedBy p; po_CreatedAt := now; po_UpdatedAt := now |}.

Definition CreatePolicy (validator : option (Policy -> option string)) (id : uuid) (now : Z) (p : Policy)
    (y : system) : result policy_svc_error Policy * system :=
  let p := created id now p in
  match ValidatePolicy validator p with
  | Some e => (Err e, y)
  | None =>
    match PolicyRepo.Create p (repository y) with
    | (Some e, r) => (Err (CreateFailed e), with_repository r y)
    | (None, r) => (Ok p, log "policy.create" (po_ID p) (with_repository r y))
    end
  end.

(** The metadata of an updated policy. *)
Definition updated (existing : Policy) (now : Z) (p : Policy) : Policy :=
  {| po_ID := po_ID p; po_Name := po_Name p; po_Version := wrap64 (po_Version existing + 1);
     po_Content := po_Content p; po_Type := po_Type p; po_CreatedBy := po_CreatedBy existing;
     po_CreatedAt := po_CreatedAt existing; po_UpdatedAt := now |}.

Definition UpdatePolicy (validator : option (Policy -> option string)) (now : Z) (p : Policy) (y : system) :
    result policy_svc_error Policy * system :=
  match PolicyRepo.Get (po_ID p) (repository y) with
  | Err e => (Err (NotFound e), y)
  | Ok existing =>
    let p := updated existing now p in
    match ValidatePolicy validator p with
    | Some e => (Err e, y)
    | None =>
      match PolicyRepo.Update p (repository y) with
      | (Some e, r) => (Err (UpdateFailed e), with_repository r y)
      | (None, r) => (Ok p, log "policy.update" (po_ID p) (with_repository r y))
      end
    end
  end.

Definition DeletePolicy (id : uuid) (y : system) : option policy_svc_error * system :=
  match PolicyRepo.Get id (repository y) with
  | Err e => (Some (NotFound e), y)
  | Ok p =>
    match PolicyRepo.Delete id (repository y) with
    | (Some e, r) => (Some (DeleteFailed e), with_repository r y)
    | (None, r) => (None, log "policy.delete" (po_ID p) (with_repository r y))
    end
  end.

Definition touch (now : Z) (p : Policy) : Policy :=
  {| po_ID := po_ID p; po_Name := po_Name p; po_Version := po_Version p; po_Content := po_Content p;
     po_Type := po_Type p; po_CreatedBy := po_CreatedBy p; po_CreatedAt := po_CreatedAt p; po_UpdatedAt := now |}.

Definition ActivatePolicy `{RangeOrder} (id : uuid) (now : Z) (y : system) : option policy_svc_error * system :=
  match PolicyRepo.Get id (repository y) with
  | Err e => (Some (NotFound e), y)
  | Ok policy =>
    let policy := touch now policy in
    match PolicyRepo.Update policy (repository y) with
    | (Some e, r) => (Some (UpdateFailed e), with_repository r y)
    | (None, r) =>
      let y := with_repository r y in
      match scanner_ActivatePolicy r id (service y) (lib y) with
      | (Some e, b, sh) => (Some (ActivateFailed e), with_service b sh y)
      | (None, b, sh) =>
        (None, log "policy.activate" (po_ID policy)
                 (publish id (PolicyActivated (po_ID policy) policy) (with_service b sh y)))
      end
    end
  end.

Definition DeactivatePolicy `{RangeOrder} (id : uuid) (now : Z) (y : system) : option policy_svc_error * system :=
  match PolicyRepo.Get id (repository y) with
  | Err e => (Some (NotFound e), y)
  | Ok policy =>
    let policy := touch now policy in
    match PolicyRepo.Update policy (repository y) with
    | (Some e, r) => (Some (UpdateFailed e), with_repository r y)
    | (None, r) =>
      let y := with_repository r y in
      let '(b, sh) := scanner_DeactivatePolicy id (service y) (lib y) in
      (None, log "policy.deactivate" (po_ID policy)
               (publish id (PolicyDeactivated (po_ID policy) policy) (with_service b sh y)))
    end
  end.

(** The goroutine of the [k]-th event that was published and not handled. *)
Definition handle `{RangeOrder} (k : nat) (y : system) : option system :=
  e ← pending y !! k;
  let '(b, sh) := deliver e (manager y, lib y) in
  Some (with_manager b sh (delete k (pending y)) y).

(** The service when its start-up reload has run, and a new manager. *)
Definition start `{RangeOrder} (content : string) (now : Z) (sh : shared) : system :=
  let r := NewPolicyRepository content now in
  let '(b, sh) := ReloadActivePolicies r new_box sh in
  {| repository := r; service := b; manager := new_box; lib := sh; pending := []; audit := []; touched := ∅ |}.

(** What can happen; [fifo] makes the goroutines run in the order of the
    events. *)
Inductive policy_step (fifo : bool) : system -> system -> Prop :=
  | step_create v id now p y : repository y !! id = None -> policy_step fifo y (CreatePolicy v id now p y).2
  | step_update v now p y : policy_step fifo y (UpdatePolicy v now p y).2
  | step_delete id y : policy_step fifo y (DeletePolicy id y).2
  | step_activate (R : RangeOrder) id now y : policy_step fifo y (ActivatePolicy id now y).2
  | step_deactivate (R : RangeOrder) id now y : policy_step fifo y (DeactivatePolicy id now y).2
  | step_handle (R : RangeOrder) k y y' :
      (fifo = true -> k = 0) -> handle k y = Some y' -> policy_step fifo y y'.
End Policies.

(** ** Testing a policy *)

Record PolicyViolation := {
  pv_RuleID : string;
  pv_Severity : string;
  pv_Message : string;
  pv_Action : string;
  pv_Confidence : float64;
  pv_Line : Z;
  pv_Column : Z;
  pv_Category : string;
  pv_ResponseAction : string;
  pv_ResponseMessage : string;
  pv_ResponseReplacement : string;
  pv_RuleTimeoutMs : Z;
}.

(** The bits of 1.0. *)
Definition one_bits : float64 := 4607182418800017408%Z.

Definition convertViolation (v : Violation) : PolicyViolation :=
  {| pv_RuleID := v_RuleID v; pv_Severity := or_default (ToLower (v_Severity v)) "medium";
     pv_Message := v_Message v; pv_Action := "deny"; pv_Confidence := one_bits; pv_Line := v_Line v;
     pv_Column := v_Column v; pv_Category := v_Category v; pv_ResponseAction := v_ResponseAction v;
     pv_ResponseMessage := v_ResponseMessage v; pv_ResponseReplacement := v_ResponseReplacement v;
     pv_RuleTimeoutMs := v_RuleTimeoutMs v |}.

Definition convertViolations (vs : list Violation) : list PolicyViolation := map convertViolation vs.

Inductive test_error :=
  | TestNotFound (e : policy_error)
  | TestActivate (e : policy_error)
  | TestScan (e : scan_error).

Section Testing.
Context `{RegexpSyntax, RegexpEngine, LruLib, AhoLib, Platform, Sources, YamlRules, World, ScanEnv, RangeOrder}.

(** [ScanText]: the converted violations and the metrics. *)
Definition ScanText (b : scanner_box) (content : string) (st : eval_state) :
    result scan_error (list PolicyViolation * Metrics) * eval_state :=
  match ScanReader (scanner b) {| content := content; read_err := None |} "policy-test" st with
  | (Ok res, st) => (Ok (convertViolations (sr_Violations res), sr_Metrics res), st)
  | (Err e, st) => (Err e, st)
  end.

(** [TestPolicy], which always has a scanner service: a scanner of its own. *)
Definition TestPolicy (id : uuid) (text : string) (y : system) (st : eval_state) :
    result test_error (list PolicyViolation * Metrics) * system * eval_state :=
  match PolicyRepo.Get id (repository y) with
  | Err e => (Err (TestNotFound e), y, st)
  | Ok _ =>
    match scanner_ActivatePolicy (repository y) id new_box (lib y) with
    | (Some e, _, sh) => (Err (TestActivate e), with_service (service y) sh y, st)
    | (None, b, sh) =>
      let y := with_service (service y) sh y in
      match ScanText b text st with
      | (Ok res, st) => (Ok res, y, st)
      | (Err e, st) => (Err (TestScan e), y, st)
      end
    end
  end.
End Testing.

(** ** Policy sync *)

Record PolicyResponse := {
  pr_ID : string;
  pr_Name : string;
  pr_Type : PolicyType;
  pr_Content : string;
  pr_Version : Z;
  pr_IsActive : bool;
  pr_CreatedAt : Z;
  pr_UpdatedAt : Z;
}.

Section Sync.
Context `{RegexpSyntax, RegexpEngine, LruLib, AhoLib, Platform, Sources, YamlRules, RangeOrder}.
(** [uuid.Parse]. *)
Context (uuid_Parse : string -> option uuid).

Definition policy_of (id : uuid) (p : PolicyResponse) : Policy :=
  {| po_ID := id; po_Name := pr_Name p; po_Version := pr_Version p; po_Content := pr_Content p;
     po_Type := pr_Type p; po_CreatedBy := None; po_CreatedAt := pr_CreatedAt p; po_UpdatedAt := pr_UpdatedAt p |}.

(** [fetchActivePolicies], given what the request returned. *)
Definition fetchActivePolicies (response : result string (list PolicyResponse)) :
    result string (list PolicyResponse) :=
  match response with
  | Err e => Err e
  | Ok ps => Ok (filter (fun p => pr_IsActive p = true) ps)
  end.

(** One policy of the loop of [SyncActivePolicies]. *)
Definition sync_policy (s : scanner_box * shared) (p : PolicyResponse) : scanner_box * shared :=
  match uuid_Parse (pr_ID p) with
  | None => s
  | Some id => deliver (PolicyActivated id (policy_of id p)) s
  end.

Definition SyncActivePolicies (frontendURL : string) (response : result string (list PolicyResponse))
    (s : scanner_box * shared) : option string * (scanner_box * shared) :=
  if bool_decide (frontendURL = "") then (None, s)
  else match fetchActivePolicies response with
       | Err _ => (None, s)
       | Ok policies => (None, foldl sync_policy s policies)
       end.

(** The retry loop of [StartPolicySync]: the number of attempts made and the
    state; [responses i] is what the [i]-th request returns. *)
Fixpoint sync_attempts (fuel i : nat) (frontendURL : string) (responses : nat -> result string (list PolicyResponse))
    (s : scanner_box * shared) : nat * (scanner_box * shared) :=
  match fuel with
  | O => (i, s)
  | S fuel =>
    match SyncActivePolicies frontendURL (responses i) s with
    | (None, s) => (S i, s)
    | (Some _, s) => sync_attempts fuel (S i) frontendURL responses s
    end
  end.

Definition StartPolicySync (frontendURL : string) (responses : nat -> result string (list PolicyResponse))
    (s : scanner_box * shared) : option (nat * (scanner_box * shared)) :=
  if bool_decide (getenv "PS_DISABLE_POLICY_SYNC" = "1") then None
  else if bool_decide (frontendURL = "") then None
  else Some (sync_attempts 3 0 frontendURL responses s).
End Sync.

(** ** Facts *)

Section Facts.
Context `{RegexpSyntax, RegexpEngine, LruLib, AhoLib, Platform, Sources, YamlRules}.

(** The scanner of [b] was loaded with the packs of exactly its policies. *)
Definition loaded_with_policies (b : scanner_box) : Prop :=
  exists l sh s0, l ≡ₚ (map_to_list (activePolicies b)).*2 /\
    scanner b = scanner (load_box (map convertPolicyToRulePack l) s0 sh).1.

Lemma load_box_policies packs b sh : activePolicies (load_box packs b sh).1 = activePolicies b.
Proof. unfold load_box. by destruct (LoadRulePacks _ _ _ _) as [[[sc e] g] c]. Qed.

Lemma reload_loaded (R : RangeOrder) b sh :
  loaded_with_policies (reloadScannerLocked b sh).1 /\
  activePolicies (reloadScannerLocked b sh).1 = activePolicies b.
Proof.
  unfold reloadScannerLocked, loaded_with_policies. rewrite load_box_policies. split; [|done].
  exists (range (activePolicies b)).*2, sh, b. split; [by rewrite range_perm|done].
Qed.

(** What an event does to the active policies. *)
Definition effect (m : gmap uuid Policy) (e : policy_event) : gmap uuid Policy :=
  match e with PolicyActivated id d => <[id := d]> m | PolicyDeactivated id _ => delete id m end.

Lemma deliver_effect (R : RangeOrder) e s :
  loaded_with_policies (deliver e s).1 /\ activePolicies (deliver e s).1 = effect (activePolicies s.1) e.
Proof.
  assert (Hd : deliver e s = reloadScannerLocked (with_policies (effect (activePolicies s.1) e) s.1) s.2).
  { unfold deliver, PublishSync, manager_bus. rewrite !subscribed_Subscribe. by destruct e. }
  rewrite Hd. apply reload_loaded.
Qed.

(** The repository stores every policy under its id. *)
Definition keys_ok (r : PolicyRepositoryImpl) : Prop := forall id p, r !! id = Some p -> po_ID p = id.

Lemma keys_insert r p : keys_ok r -> keys_ok (<[po_ID p := p]> r).
Proof. intros Hr id q [[<- <-]|[_ Hq]]%lookup_insert_Some; [done|by apply Hr]. Qed.

Record policies_ok (y : system) : Prop := {
  pk_keys : keys_ok (repository y);
  pk_service : loaded_with_policies (service y);
  pk_manager : manager y = new_box \/ loaded_with_policies (manager y);
}.

(** With the events handled in order, the manager is behind by the pending
    ones. *)
Definition follows (y : system) : Prop :=
  forall id, foldl effect (activePolicies (manager y)) (pending y) !! id =
             if bool_decide (id ∈ touched y) then activePolicies (service y) !! id else None.

Lemma foldl_insert_lookup l (m : gmap uuid Policy) id p :
  NoDup (map po_ID l) ->
  foldl (fun m p => <[po_ID p := p]> m) m l !! id = Some p <->
  (p ∈ l /\ po_ID p = id) \/ (m !! id = Some p /\ id ∉ map po_ID l).
Proof.
  revert m. induction l as [|q l IH]; intros m Hnd; simpl; [set_solver|].
  apply NoDup_cons in Hnd as [Hq Hnd]. rewrite IH by done. rewrite lookup_insert_Some, !elem_of_cons. split.
  - intros [[? ?]|[[[<- <-]|[? ?]] ?]]; [tauto|left; split; [by left|done]|right; split; [done|set_solver]].
  - intros [[[->|?] <-]|[? Hn]]; [right; split; [by left|done]|by left|right; split; [right; split; [|done]|]; tauto || naive_solver].
Qed.

Lemma policy_ids r : keys_ok r -> map po_ID (map_to_list r).*2 = (map_to_list r).*1.
Proof.
  intros Hr. rewrite map_map. apply map_ext_in. intros [k p] Hin. apply Hr.
  by apply elem_of_map_to_list, list_elem_of_In.
Qed.

(** The start-up reload makes every stored policy active. *)
Lemma reload_all (R : RangeOrder) r sh :
  keys_ok r -> activePolicies (ReloadActivePolicies r new_box sh).1 = r /\
  loaded_with_policies (ReloadActivePolicies r new_box sh).1.
Proof.
  intros Hr. unfold ReloadActivePolicies.
  destruct (load_box (map convertPolicyToRulePack (GetActive r)) new_box sh) as [b sh'] eqn:E. simpl.
  assert (Hnd : NoDup (map po_ID (GetActive r)))
    by (rewrite (GetActive_all r), policy_ids by done; apply NoDup_fst_map_to_list).
  assert (Hm : foldl (fun m p => <[po_ID p := p]> m) ∅ (GetActive r) = r).
  { apply map_eq. intros id. apply option_eq. intros p. rewrite foldl_insert_lookup by done.
    rewrite (GetActive_all r), list_elem_of_fmap, lookup_empty. split.
    - intros [[([k q] & -> & Hin) <-]|[? _]]; [|done]. apply elem_of_map_to_list in Hin. simpl.
      by rewrite (Hr _ _ Hin).
    - intros Hp. left. split; [|by apply Hr]. exists (id, p). split; [done|]. by apply elem_of_map_to_list. }
  rewrite Hm. split; [done|]. exists (GetActive r), sh, new_box. simpl. split; [apply GetActive_all|].
  by rewrite E.
Qed.

Lemma start_ok (R : RangeOrder) content now sh : policies_ok (start content now sh) /\ follows (start content now sh).
Proof.
  assert (Hr : keys_ok (NewPolicyRepository content now)) by (unfold NewPolicyRepository; by intros id p [<- <-]%lookup_singleton_Some).
  unfold start. destruct (reload_all R _ sh Hr) as [Ha Hl].
  destruct (ReloadActivePolicies _ new_box sh) as [b sh']. simpl in *.
  split; [by split; [| |left]|]. intros id. simpl. by rewrite lookup_empty, bool_decide_false by set_solver.
Qed.

(** Storing policies and logging keep both scanners and the events. *)
Lemma same_ok y y' :
  keys_ok (repository y') -> service y' = service y -> manager y' = manager y -> policies_ok y -> policies_ok y'.
Proof. intros Hk Hs Hm [? ? ?]. by split; rewrite ?Hs, ?Hm. Qed.

Lemma same_follows y y' :
  service y' = service y -> manager y' = manager y -> pending y' = pending y -> touched y' = touched y ->
  follows y -> follows y'.
Proof. unfold follows. intros -> -> -> -> Hf. done. Qed.

(** An operation that only writes the repository. *)
Definition writes_repository (y y' : system) : Prop :=
  keys_ok (repository y') /\ service y' = service y /\ manager y' = manager y /\ pending y' = pending y /\
  touched y' = touched y.

Lemma Create_writes v id now p y : keys_ok (repository y) -> writes_repository y (CreatePolicy v id now p y).2.
Proof.
  intros Hk. unfold CreatePolicy, PolicyRepo.Create, writes_repository. repeat case_match; simplify_eq/=;
    split_and!; try done. by apply (keys_insert _ (created id now p)).
Qed.

Lemma Update_writes v now p y : keys_ok (repository y) -> writes_repository y (UpdatePolicy v now p y).2.
Proof.
  intros Hk. unfold UpdatePolicy, PolicyRepo.Update, PolicyRepo.Get, writes_repository. repeat case_match; simplify_eq/=;
    split_and!; try done. by apply (keys_insert _ (updated _ now p)).
Qed.

Lemma Delete_writes id y : keys_ok (repository y) -> writes_repository y (DeletePolicy id y).2.
Proof.
  intros Hk. unfold DeletePolicy, PolicyRepo.Delete, PolicyRepo.Get, writes_repository. repeat case_match; simplify_eq/=;
    split_and!; try done. intros k q [_ Hq]%lookup_delete_Some. by apply Hk.
Qed.

(** Activating a stored policy: what the operation does. *)
Lemma ActivatePolicy_cases (R : RangeOrder) id now y :
  keys_ok (repository y) ->
  match repository y !! id with
  | None => (ActivatePolicy id now y).2 = y
  | Some p =>
    let y' := (ActivatePolicy id now y).2 in
    (ActivatePolicy id now y).1 = None /\
    repository y' = <[id := touch now p]> (repository y) /\ manager y' = manager y /\
    activePolicies (service y') = <[id := touch now p]> (activePolicies (service y)) /\
    loaded_with_policies (service y') /\ pending y' = pending y ++ [PolicyActivated id (touch now p)] /\
    touched y' = {[id]} ∪ touched y
  end.
Proof.
  intros Hk. unfold ActivatePolicy, PolicyRepo.Get, PolicyRepo.Update, scanner_ActivatePolicy.
  destruct (repository y !! id) as [p|] eqn:Ep; [|done]. pose proof (Hk _ _ Ep) as Hid.
  cbn [po_ID touch]. rewrite Hid, Ep. unfold PolicyRepo.Get. rewrite lookup_insert_eq. simpl.
  set (b := with_policies _ _).
  destruct (reload_loaded R b (lib y)) as [Hl Ha]. destruct (reloadScannerLocked b (lib y)) as [b' sh]. simpl in *.
  by split_and!.
Qed.

Lemma DeactivatePolicy_cases (R : RangeOrder) id now y :
  keys_ok (repository y) ->
  match repository y !! id with
  | None => (DeactivatePolicy id now y).2 = y
  | Some p =>
    let y' := (DeactivatePolicy id now y).2 in
    (DeactivatePolicy id now y).1 = None /\
    repository y' = <[id := touch now p]> (repository y) /\ manager y' = manager y /\
    activePolicies (service y') = delete id (activePolicies (service y)) /\
    loaded_with_policies (service y') /\ pending y' = pending y ++ [PolicyDeactivated id (touch now p)] /\
    touched y' = {[id]} ∪ touched y
  end.
Proof.
  intros Hk. unfold DeactivatePolicy, PolicyRepo.Get, PolicyRepo.Update, scanner_DeactivatePolicy.
  destruct (repository y !! id) as [p|] eqn:Ep; [|done]. pose proof (Hk _ _ Ep) as Hid.
  cbn [po_ID touch]. rewrite Hid, Ep. cbn [service lib with_repository].
  set (b := with_policies _ _).
  destruct (reload_loaded R b (lib y)) as [Hl Ha]. destruct (reloadScannerLocked b (lib y)) as [b' sh]. simpl in *.
  by split_and!.
Qed.

Lemma touch_keys r id now p : keys_ok r -> r !! id = Some p -> keys_ok (<[id := touch now p]> r).
Proof. intros Hk Hp. rewrite <-(Hk _ _ Hp). by apply (keys_insert r (touch now p)). Qed.

Lemma handle_cases (R : RangeOrder) k y y' :
  handle k y = Some y' ->
  exists e, pending y !! k = Some e /\ pending y' = delete k (pending y) /\ repository y' = repository y /\
    service y' = service y /\ touched y' = touched y /\ loaded_with_policies (manager y') /\
    activePolicies (manager y') = effect (activePolicies (manager y)) e.
Proof.
  unfold handle. destruct (pending y !! k) as [e|] eqn:Ek; [|done]. simpl.
  destruct (deliver_effect R e (manager y, lib y)) as [Hl Ha]. destruct (deliver e _) as [b sh].
  intros [= <-]. exists e. by split_and!.
Qed.

Lemma policy_step_ok fifo y y' : policy_step fifo y y' -> policies_ok y -> policies_ok y'.
Proof.
  intros Hs Hok. pose proof (pk_keys _ Hok) as Hk. destruct Hs as [v id now p y Hid|v now p y|id y|R id now y|R id now y|R k y y' Hf Hh].
  - destruct (Create_writes v id now p y Hk) as (? & ? & ? & _). by eapply same_ok.
  - destruct (Update_writes v now p y Hk) as (? & ? & ? & _). by eapply same_ok.
  - destruct (Delete_writes id y Hk) as (? & ? & ? & _). by eapply same_ok.
  - pose proof (ActivatePolicy_cases R id now y Hk) as Hc. destruct (repository y !! id) as [p|] eqn:Ep; [|by rewrite Hc].
    destruct Hc as (_ & Hr & Hm & _ & Hl & _). destruct Hok as [_ _ Hman].
    split; [rewrite Hr; by apply touch_keys|done|by rewrite Hm].
  - pose proof (DeactivatePolicy_cases R id now y Hk) as Hc. destruct (repository y !! id) as [p|] eqn:Ep; [|by rewrite Hc].
    destruct Hc as (_ & Hr & Hm & _ & Hl & _). destruct Hok as [_ _ Hman].
    split; [rewrite Hr; by apply touch_keys|done|by rewrite Hm].
  - apply (handle_cases R) in Hh as (e & _ & _ & Hr & Hs & _ & Hl & _). destruct Hok as [_ Hsv _].
    split; [by rewrite Hr|by rewrite Hs|by right].
Qed.

(** A new event with its effect on the service keeps the relation. *)
Lemma follows_publish y y' id e :
  follows y -> manager y' = manager y -> pending y' = pending y ++ [e] -> touched y' = {[id]} ∪ touched y ->
  activePolicies (service y') = effect (activePolicies (service y)) e ->
  (forall m i, i <> id -> effect m e !! i = m !! i) -> (forall m m', effect m e !! id = effect m' e !! id) ->
  follows y'.
Proof.
  intros Hf Hm Hp Ht Hs Ho Hi i. rewrite Hm, Hp, Ht, Hs, foldl_snoc. destruct (decide (i = id)) as [->|Hne].
  - rewrite bool_decide_true by set_solver. apply Hi.
  - rewrite !Ho by done. rewrite Hf. by rewrite (bool_decide_ext (i ∈ touched y) (i ∈ {[id]} ∪ touched y)) by set_solver.
Qed.

Lemma policy_step_follows y y' : policy_step true y y' -> policies_ok y -> follows y -> follows y'.
Proof.
  intros Hs Hok Hfo. pose proof (pk_keys _ Hok) as Hk. destruct Hs as [v id now p y Hid|v now p y|id y|R id now y|R id now y|R k y y' Hf Hh].
  - destruct (Create_writes v id now p y Hk) as (_ & ? & ? & ? & ?). by eapply same_follows.
  - destruct (Update_writes v now p y Hk) as (_ & ? & ? & ? & ?). by eapply same_follows.
  - destruct (Delete_writes id y Hk) as (_ & ? & ? & ? & ?). by eapply same_follows.
  - pose proof (ActivatePolicy_cases R id now y Hk) as Hc. destruct (repository y !! id) as [p|] eqn:Ep; [|by rewrite Hc].
    destruct Hc as (_ & _ & Hm & Ha & _ & Hp & Ht). eapply follows_publish; [done|done|done|done|done| |]; simpl.
    + intros m i Hi. by rewrite lookup_insert_ne.
    + intros m m'. by rewrite !lookup_insert_eq.
  - pose proof (DeactivatePolicy_cases R id now y Hk) as Hc. destruct (repository y !! id) as [p|] eqn:Ep; [|by rewrite Hc].
    destruct Hc as (_ & _ & Hm & Ha & _ & Hp & Ht). eapply follows_publish; [done|done|done|done|done| |]; simpl.
    + intros m i Hi. by rewrite lookup_delete_ne.
    + intros m m'. by rewrite !lookup_delete_eq.
  - apply (handle_cases R) in Hh as (e & Hk0 & Hp & _ & Hs & Ht & _ & Ha). rewrite (Hf eq_refl) in *. intros id.
    rewrite Hp, Hs, Ht, Ha. specialize (Hfo id). destruct (pending y) as [|e' es]; [done|]. simpl in *. by simplify_eq.
Qed.

Lemma policy_steps_ok fifo y y' : rtc (policy_step fifo) y y' -> policies_ok y -> policies_ok y'.
Proof. induction 1; eauto using policy_step_ok. Qed.

Lemma policy_steps_follow y y' : rtc (policy_step true) y y' -> policies_ok y -> follows y -> follows y'.
Proof. induction 1; eauto using policy_step_ok, policy_step_follows. Qed.

(** C7. The scanners enforce the active policies.  Whatever policies are
    created, updated, deleted, activated and deactivated, and in whatever order
    the event handlers run, the scanners of the policy service and of the
    scanner manager are always loaded with the packs of exactly the policies
    each holds active.  When the handlers run in the order of the events and
    none is outstanding, the manager enforces exactly the policies that were
    activated last, with the content they had then: a policy that was activated
    or deactivated since the start has the same state as in the service, and
    no other policy is enforced. *)
Theorem manager_follows_service (R : RangeOrder) (fifo : bool) (content : string) (now : Z) (sh : shared) (y : system) :
  rtc (policy_step fifo) (start content now sh) y ->
  loaded_with_policies (service y) /\ (manager y = new_box \/ loaded_with_policies (manager y)) /\
  (fifo = true -> pending y = [] -> forall id,
     activePolicies (manager y) !! id =
     if bool_decide (id ∈ touched y) then activePolicies (service y) !! id else None).
Proof.
  intros Hs. destruct (start_ok R content now sh) as [Hok0 Hf0].
  destruct (policy_steps_ok _ _ _ Hs Hok0) as [_ Hsv Hm]. split_and!; [done|done|].
  intros -> Hp id. pose proof (policy_steps_follow _ _ Hs Hok0 Hf0 id) as Hid. by rewrite Hp in Hid.
Qed.

(** ** Errors and versions *)

Lemma with_repository_same y : with_repository (repository y) y = y.
Proof. by destruct y. Qed.

(** An operation of the policy service that fails changes nothing.  A policy
    that is created or updated is valid (it has a name and a content, and the
    rule compiler accepts it), reading it returns exactly what the operation
    returned, and updates keep its creation and increase its version by one. *)
Theorem policy_operations (v : option (Policy -> option string)) (id : uuid) (now : Z) (p : Policy) (y : system) :
  (match CreatePolicy v id now p y with
   | (Err _, y') => y' = y
   | (Ok q, y') => po_ID q = id /\ po_Version q = 1%Z /\ ValidatePolicy v q = None /\
                   PolicyRepo.Get id (repository y') = Ok q
   end) /\
  (match UpdatePolicy v now p y with
   | (Err _, y') => y' = y
   | (Ok q, y') => ValidatePolicy v q = None /\ PolicyRepo.Get (po_ID p) (repository y') = Ok q /\
       exists old, PolicyRepo.Get (po_ID p) (repository y) = Ok old /\
         po_Version q = wrap64 (po_Version old + 1) /\ po_CreatedAt q = po_CreatedAt old /\
         po_CreatedBy q = po_CreatedBy old /\ po_UpdatedAt q = now
   end) /\
  (match DeletePolicy id y with
   | (Some _, y') => y' = y
   | (None, y') => is_ok (PolicyRepo.Get id (repository y')) = false
   end) /\
  (forall R : RangeOrder, keys_ok (repository y) ->
   match ActivatePolicy id now y with
   | (Some _, y') => y' = y
   | (None, y') => exists q, PolicyRepo.Get id (repository y') = Ok q /\ po_UpdatedAt q = now /\
                             activePolicies (service y') !! id = Some q
   end).
Proof.
  split_and!.
  - unfold CreatePolicy. destruct (ValidatePolicy v (created id now p)) eqn:Ev; [done|].
    unfold PolicyRepo.Create. simpl. destruct (repository y !! id) eqn:E; [apply with_repository_same|].
    unfold PolicyRepo.Get. simpl. by rewrite lookup_insert_eq.
  - unfold UpdatePolicy. destruct (PolicyRepo.Get (po_ID p) (repository y)) as [old|e] eqn:Eg; [|done].
    destruct (ValidatePolicy v (updated old now p)) eqn:Ev; [done|]. unfold PolicyRepo.Update. simpl.
    unfold PolicyRepo.Get in Eg. destruct (repository y !! po_ID p) eqn:E; [|done]. simpl.
    unfold PolicyRepo.Get. simpl. rewrite lookup_insert_eq. split_and!; [done|done|]. by exists old.
  - unfold DeletePolicy, PolicyRepo.Get, PolicyRepo.Delete. destruct (repository y !! id) eqn:E; [|done].
    simpl. by rewrite lookup_delete_eq.
  - intros R Hk. pose proof (ActivatePolicy_cases R id now y Hk) as Hc.
    destruct (repository y !! id) as [q|] eqn:E.
    + destruct (ActivatePolicy id now y) as [[e|] y'] eqn:Ea; simpl in Hc; [by destruct Hc|].
      destruct Hc as (_ & Hr & _ & Ha & _). exists (touch now q). unfold PolicyRepo.Get.
      by rewrite Hr, Ha, !lookup_insert_eq.
    + destruct (ActivatePolicy id now y) as [[e|] y'] eqn:Ea; simpl in Hc; [done|].
      unfold ActivatePolicy, PolicyRepo.Get in Ea. by rewrite E in Ea.
Qed.

(** Deleting a policy does not touch the scanners: what was active stays
    enforced. *)
Lemma deleted_policy_still_enforced id y :
  service (DeletePolicy id y).2 = service y /\ manager (DeletePolicy id y).2 = manager y /\
  pending (DeletePolicy id y).2 = pending y.
Proof. unfold DeletePolicy, PolicyRepo.Delete, PolicyRepo.Get. repeat case_match; simplify_eq/=; done. Qed.

(** ** Sync *)

(** Policy sync only ever adds: a policy the manager enforces is enforced
    after any sync, also when the policy API no longer lists it as active; the
    policies of the response that are active and have a valid id are enforced
    with the content of the response; and sync reports success even when the
    policies could not be fetched, so the start-up loop makes one attempt and
    never retries. *)
Theorem sync_only_adds (R : RangeOrder) (parse : string -> option uuid) (url : string)
    (responses : nat -> result string (list PolicyResponse)) (s : scanner_box * shared) :
  (forall id, is_Some (activePolicies s.1 !! id) ->
     is_Some (activePolicies (SyncActivePolicies parse url (responses 0) s).2.1 !! id)) /\
  (forall ps p id, url <> "" -> responses 0 = Ok ps -> p ∈ ps -> pr_IsActive p = true -> parse (pr_ID p) = Some id ->
     (forall q, q ∈ ps -> parse (pr_ID q) = Some id -> q = p) ->
     activePolicies (SyncActivePolicies parse url (responses 0) s).2.1 !! id = Some (policy_of id p)) /\
  (SyncActivePolicies parse url (responses 0) s).1 = None /\
  (sync_attempts parse 3 0 url responses s).1 = 1.
Proof.
  assert (Hone : forall s p, activePolicies (sync_policy parse s p).1 =
    match parse (pr_ID p) with Some id => <[id := policy_of id p]> (activePolicies s.1) | None => activePolicies s.1 end).
  { intros s' p. unfold sync_policy. destruct (parse (pr_ID p)); [|done]. apply (deliver_effect R). }
  assert (Hgrow : forall l s id, is_Some (activePolicies s.1 !! id) ->
    is_Some (activePolicies (foldl (sync_policy parse) s l).1 !! id)).
  { induction l as [|p l IH]; intros s' id Hs; [done|]. simpl. apply IH. rewrite Hone.
    destruct (parse (pr_ID p)) as [i|]; [|done]. destruct (decide (i = id)) as [->|]; [by rewrite lookup_insert_eq|].
    by rewrite lookup_insert_ne. }
  assert (Herr : forall r s, (SyncActivePolicies parse url r s).1 = None)
    by (intros r s'; unfold SyncActivePolicies; case_bool_decide; [done|]; by destruct (fetchActivePolicies r)).
  split_and!; [| |apply Herr|].
  - intros id Hs. unfold SyncActivePolicies. case_bool_decide; [done|].
    destruct (fetchActivePolicies (responses 0)); [by apply Hgrow|done].
  - intros ps p id Hu Hr Hp Ha Hid Huniq. unfold SyncActivePolicies. rewrite bool_decide_false by done. rewrite Hr. simpl.
    assert (Hin : p ∈ filter (fun p => pr_IsActive p = true) ps) by (by apply list_elem_of_filter).
    assert (Hu' : forall q, q ∈ filter (fun p => pr_IsActive p = true) ps -> parse (pr_ID q) = Some id -> q = p)
      by (intros q [_ Hq]%list_elem_of_filter; by apply Huniq).
    revert s Hin Hu'. induction (filter _ ps) as [|q l IH] using rev_ind; intros s' Hin Hu'; [by apply not_elem_of_nil in Hin|].
    rewrite foldl_snoc, Hone. destruct (parse (pr_ID q)) as [i|] eqn:Eq.
    + destruct (decide (i = id)) as [->|Hne].
      * rewrite lookup_insert_eq. assert (q = p) as -> by (apply Hu'; [set_solver|done]). done.
      * rewrite lookup_insert_ne by done. apply IH; [|set_solver].
        apply elem_of_app in Hin as [?| ->%list_elem_of_singleton]; [done|congruence].
    + apply IH; [|set_solver]. apply elem_of_app in Hin as [?| ->%list_elem_of_singleton]; [done|congruence].
  - simpl. destruct (SyncActivePolicies parse url (responses 0) s) as [e s'] eqn:E.
    pose proof (Herr (responses 0) s) as He. rewrite E in He. simpl in He. by subst.
Qed.
End Facts.

(** Testing a policy changes neither the stored policies nor the scanners in
    use: the scan runs on a scanner of its own, loaded with that policy only. *)
Lemma TestPolicy_isolated `{RegexpSyntax, RegexpEngine, LruLib, AhoLib, Platform, Sources, YamlRules, World, ScanEnv}
    (R : RangeOrder) id text y st :
  let y' := (TestPolicy id text y st).1.2 in
  repository y' = repository y /\ service y' = service y /\ manager y' = manager y /\ pending y' = pending y /\
  match repository y !! id with
  | None => (TestPolicy id text y st).1.1 = Err (TestNotFound (PolicyNotFound id))
  | Some p =>
    exists b, loaded_with_policies b /\ activePolicies b = {[id := p]} /\
      (TestPolicy id text y st).1.1 = match (ScanText b text st).1 with Ok r => Ok r | Err e => Err (TestScan e) end
  end.
Proof.
  simpl. unfold TestPolicy, scanner_ActivatePolicy, PolicyRepo.Get. destruct (repository y !! id) as [p|] eqn:E; [|done].
  set (b0 := with_policies (<[id := p]> (activePolicies new_box)) new_box).
  destruct (reload_loaded R b0 (lib y)) as [Hl Ha].
  destruct (reloadScannerLocked b0 (lib y)) as [b sh]. simpl in *.
  destruct (ScanText b text st) as [[r|e] st'] eqn:Es; simpl; (split_and!; try done); exists b; rewrite Es; done.
Qed.

Module PolicyWitnesses.
#[local] Existing Instance literal_syntax.
#[local] Existing Instance literal_engine.
#[local] Existing Instance list_lru.
#[local] Existing Instance naive_lib.
#[local] Existing Instance bare_platform.
#[local] Existing Instance LoaderWitnesses.demo_sources.
#[local] Existing Instance some_order.
#[local] Instance no_rules : YamlRules := {| Unmarshal_rules _ := Err "yaml" |}.

Definition sh0 : shared := {| sh_globals := globals0; sh_cache := None |}.
Definition y0 : system := start "just text" 0 sh0.
Definition y1 : system := (ActivatePolicy builtin_id 1 y0).2.
Definition y2 : system := (DeactivatePolicy builtin_id 2 y1).2.
Definition after (k : nat) (y : system) : system := default y (handle k y).

Lemma y0_handled : rtc (policy_step true) y0 (after 0 y1).
Proof.
  eapply rtc_l; [apply (step_activate true some_order builtin_id 1)|].
  apply rtc_once, (step_handle true some_order 0); [done|]. vm_compute. reflexivity.
Qed.

(** After an activation and its event the manager enforces the policy. *)
Lemma manager_follows_service_witness :
  pending (after 0 y1) = [] /\
  option_map po_Name (activePolicies (manager (after 0 y1)) !! builtin_id) = Some "Prompt Injection Detection"%string /\
  loaded_with_policies (service (after 0 y1)) /\
  (manager (after 0 y1) = new_box \/ loaded_with_policies (manager (after 0 y1))) /\
  (true = true -> pending (after 0 y1) = [] -> forall id,
     activePolicies (manager (after 0 y1)) !! id =
     if bool_decide (id ∈ touched (after 0 y1)) then activePolicies (service (after 0 y1)) !! id else None).
Proof.
  split; [vm_compute; reflexivity|]. split; [vm_compute; reflexivity|].
  exact (manager_follows_service some_order true "just text" 0 sh0 (after 0 y1) y0_handled).
Defined.

(** The goroutines of the bus are not ordered: when the deactivation is handled
    before the activation, the manager goes on enforcing a policy the service
    has deactivated. *)
Lemma events_out_of_order :
  let y := after 0 (after 1 y2) in
  rtc (policy_step false) y0 y /\ pending y = [] /\
  activePolicies (service y) !! builtin_id = None /\ is_Some (activePolicies (manager y) !! builtin_id).
Proof.
  split; [|split; [vm_compute; reflexivity|split; [vm_compute; reflexivity|vm_compute; by eexists]]].
  eapply rtc_l; [apply (step_activate false some_order builtin_id 1)|].
  eapply rtc_l; [apply (step_deactivate false some_order builtin_id 2)|].
  eapply rtc_l; [apply (step_handle false some_order 1); [done|vm_compute; reflexivity]|].
  apply rtc_once, (step_handle false some_order 0); [done|vm_compute; reflexivity].
Qed.

Definition response : PolicyResponse :=
  {| pr_ID := "x"; pr_Name := "n"; pr_Type := Custom; pr_Content := "text"; pr_Version := 1; pr_IsActive := true;
     pr_CreatedAt := 0; pr_UpdatedAt := 0 |}.

Lemma policy_operations_witness :
  match CreatePolicy None "id" 5 (policy_of "ignored" response) y0 with
  | (Ok q, y') => po_Version q = 1%Z /\ PolicyRepo.Get "id" (repository y') = Ok q
  | (Err _, _) => False
  end.
Proof.
  destruct (policy_operations None "id" 5 (policy_of "ignored" response) y0) as [Hc _].
  assert (Hok : is_ok (CreatePolicy None "id" 5 (policy_of "ignored" response) y0).1 = true) by (vm_compute; reflexivity).
  revert Hc Hok. generalize (CreatePolicy None "id" 5 (policy_of "ignored" response) y0). intros [[q|e] y'] Hc Hok.
  - destruct Hc as (_ & Hv & _ & Hg). exact (conj Hv Hg).
  - discriminate Hok.
Defined.

Lemma sync_only_adds_witness :
  activePolicies (SyncActivePolicies Some "http://p" (Ok [response]) (manager y0, sh0)).2.1 !! "x"
    = Some (policy_of "x" response).
Proof.
  destruct (sync_only_adds some_order Some "http://p" (fun _ => Ok [response]) (manager y0, sh0)) as (_ & Ha & _).
  apply (Ha [response] response "x"); [done|reflexivity|left|reflexivity|reflexivity|].
  intros q Hq%list_elem_of_singleton _. exact Hq.
Defined.
End PolicyWitnesses.
