(* ===== verification/ExtProc.v ===== *)
(** * ExtProc: the external processor

    src/internal/interfaces/grpc/enforcer (server.go, ctor.go, options.go,
    process_stream.go): Envoy sends the headers, body chunks and trailers of a
    request and of its response on a stream, and the server answers every
    message with a continuation, a mutation or an immediate response that ends
    the exchange.  A message is handled by a function of the server, of the
    state of its stream and of the state of the scan; the server with its
    concurrent streams, which share the account of bytes in flight, is a step
    relation.  Tracing, metrics, telemetry and the rate limiter, which only
    delays, are left out. *)

From Stdlib Require Import Ascii String.
From S2P Require Import Prelude GoString Unicode Rules Merge Verifiers Complexity Aho Literals Engine Compile Scanner Load ScanIO Setters Loader Decisions Check Repos Redact.

(** ** Messages *)

Record HeaderValue := {
  hv_Key : string;
  hv_Value : string;
  hv_RawValue : string;
}.

(** Messages without headers or a body carry an empty list or text; an entry of
    the headers may be a nil pointer. *)
Inductive ProcessingRequest :=
  | RequestHeaders
  | ResponseHeaders (headers : list (option HeaderValue))
  | RequestBody (body : string)
  | ResponseBody (body : string)
  | RequestTrailers
  | ResponseTrailers
  | UnknownMessage.

(** The body of a blocked response: a fixed JSON text, or the marshalled
    details of the scan. *)
Inductive blocked_body :=
  | SimpleBody (text : string)
  | DetailedBody (decision reason : string) (violations : list Violation) (durationMs : Z).

Inductive ProcessingResponse :=
  | ContinueRequestHeaders
  | ContinueResponseHeaders (setHeaders : list (string * string))
  | ContinueRequestBody
  | ContinueResponseBody (mutation : option string)
  | ContinueRequestTrailers
  | ContinueResponseTrailers
  | ImmediateForbidden (setHeaders : list (string * string)) (body : blocked_body)
  | ImmediateReplacement (setHeaders : list (string * string)) (body : string).

(** ** The server *)

Record ServerOptions := {
  so_Timeout : Z;
  so_MaxStreamBytes : Z;
  so_FailOn : string;
  so_RulepackPath : string;
  so_EnforcementMode : string;
  so_TenantID : uuid;
}.

Section Server.
Context `{RegexpSyntax, RegexpEngine, LruLib, AhoLib, Platform, Sources}.

Record Server := {
  srv_timeout : Z;
  srv_maxStreamBytes : Z;
  srv_failOn : string;
  srv_rulepackPath : string;
  srv_scReq : Scanner;
  srv_scResp : Scanner;
  srv_enforcementMode : string;
  srv_ready : bool;
  srv_windowLimit : Z;
  srv_overlap : Z;
  srv_streamSlots : option Z;
  srv_inflightLimit : Z;
  srv_inflightBackoff : Z;
  srv_tenantID : uuid;
}.

(** A trimmed variable that is an integer with property [ok]. *)
Definition env_int (name : string) (ok : Z -> bool) : option Z :=
  let v := TrimSpace (getenv name) in
  if bool_decide (v = "") then None
  else match Atoi v with Some n => if ok n then Some n else None | None => None end.

Definition lower_env (name : string) : string := ToLower (TrimSpace (getenv name)).

(** [LoadRulesFromDatabase]: packs that are inactive, cannot be read or cannot
    be decoded are skipped. *)
Definition database_pack `{RulepackRepo} (r : repo) (info : RulepackInfo) : option RulePack :=
  if negb (info_Active info) then None
  else match repo_GetActive (info_ID info) r with
       | Err _ => None
       | Ok (dsl, _) => match Unmarshal dsl with Ok pack => Some pack | Err _ => None end
       end.

Definition LoadRulesFromDatabase `{RulepackRepo} (r : option repo) (tenantID : uuid) :
    result repo_error (list RulePack) :=
  match r with
  | None => Ok []
  | Some r =>
    match repo_ListByTenant tenantID r with
    | Err e => Err e
    | Ok infos => Ok (omap (database_pack r) infos)
    end
  end.

(** Both scanners load the packs, one after the other. *)
Definition load_both (packs : list RulePack) (req resp : Scanner) (g : Globals) (c : regex_cache) :
    Scanner * Scanner * Globals * regex_cache :=
  let '(req, _, g, c) := LoadRulePacks packs g c req in
  let '(resp, _, g, c) := LoadRulePacks packs g c resp in
  (req, resp, g, c).

(** The scanners of a new server, before any rules are loaded. *)
Definition new_scanner (maxStreamBytes : Z) : Scanner :=
  SetQuarantineOnError true (SetQuarantineOnTimeout true (SetMaxStreamBytes maxStreamBytes (ScanEngineCstor 0))).

(** The packs of the constructor: from the database when there are any, else
    from the file. *)
Definition initial_packs `{RulepackRepo} (fuel : nat) (r : option repo) (tenantID : uuid) (path : string) :
    option (list RulePack) :=
  let db := if bool_decide (is_Some r) && negb (bool_decide (tenantID = uuid_Nil))
            then match LoadRulesFromDatabase r tenantID with
                 | Ok ((_ :: _) as packs) => Some packs
                 | _ => None
                 end
            else None in
  match db with
  | Some packs => Some packs
  | None => if bool_decide (path = "") then None
            else match LoadPacks fuel path with Ok packs => Some packs | Err _ => None end
  end.

(** [NewWithOptions], with the package variables and the cache it uses. *)
Definition NewWithOptions `{RulepackRepo} (fuel : nat) (opt : ServerOptions) (r : option repo) (g : Globals)
    (c : regex_cache) : Server * Globals * regex_cache :=
  let timeout := if (so_Timeout opt <=? 0)%Z then 300000000%Z else so_Timeout opt in
  let maxStreamBytes := if (so_MaxStreamBytes opt <=? 0)%Z then 5000000%Z else so_MaxStreamBytes opt in
  let failOn := if bool_decide (so_FailOn opt = "") then "HIGH" else so_FailOn opt in
  let path := if bool_decide (TrimSpace (so_RulepackPath opt) = "") then getenv "PS_ENFORCER_RULEPACK"
              else so_RulepackPath opt in
  let mode := ToLower (TrimSpace (so_EnforcementMode opt)) in
  let mode := if bool_decide (mode = "") then lower_env "PS_ENFORCER_ENFORCEMENT_MODE" else mode in
  let mode := if bool_decide (mode = "") then "observe" else mode in
  let packs := initial_packs fuel r (so_TenantID opt) path in
  let '(req, resp, g, c) := match packs with
                            | Some ps => load_both ps (new_scanner maxStreamBytes) (new_scanner maxStreamBytes) g c
                            | None => (new_scanner maxStreamBytes, new_scanner maxStreamBytes, g, c)
                            end in
  let failClosed := bool_decide (lower_env "PS_ENFORCER_FAIL_CLOSED" = "true") in
  let windowLimit := default (64 * 1024)%Z (env_int "PS_ENFORCER_STREAM_WINDOW" (fun n => (8192 <? n)%Z)) in
  let overlap := default 4096%Z
                   (env_int "PS_ENFORCER_STREAM_OVERLAP" (fun n => ((0 <=? n) && (n <? windowLimit))%Z)) in
  ({| srv_timeout := timeout; srv_maxStreamBytes := maxStreamBytes; srv_failOn := failOn;
      srv_rulepackPath := path;
      srv_scReq := SetRuntimeContext {["direction" := "request"]} req;
      srv_scResp := SetRuntimeContext {["direction" := "response"]} resp;
      srv_enforcementMode := mode;
      srv_ready := bool_decide (is_Some packs) || negb failClosed;
      srv_windowLimit := windowLimit; srv_overlap := overlap;
      srv_streamSlots := env_int "PS_ENFORCER_MAX_STREAMS" (fun n => (0 <? n)%Z);
      srv_inflightLimit := default 0%Z (env_int "PS_ENFORCER_INFLIGHT_LIMIT_BYTES" (fun n => (0 <? n)%Z));
      srv_inflightBackoff := default 0%Z ((fun n => wrap64 (n * 1000000)) <$>
                               env_int "PS_ENFORCER_INFLIGHT_BACKOFF_MS" (fun n => (0 <=? n)%Z));
      srv_tenantID := so_TenantID opt |}, g, c).

Definition with_scanners (req resp : Scanner) (s : Server) : Server :=
  {| srv_timeout := srv_timeout s; srv_maxStreamBytes := srv_maxStreamBytes s; srv_failOn := srv_failOn s;
     srv_rulepackPath := srv_rulepackPath s; srv_scReq := req; srv_scResp := resp;
     srv_enforcementMode := srv_enforcementMode s; srv_ready := srv_ready s;
     srv_windowLimit := srv_windowLimit s; srv_overlap := srv_overlap s; srv_streamSlots := srv_streamSlots s;
     srv_inflightLimit := srv_inflightLimit s; srv_inflightBackoff := srv_inflightBackoff s;
     srv_tenantID := srv_tenantID s |}.

(** [ReloadRules]. *)
Definition ReloadRules `{RulepackRepo} (fuel : nat) (r : option repo) (s : Server) (g : Globals) (c : regex_cache) :
    option repo_error * Server * Globals * regex_cache :=
  match r with
  | None => (None, s, g, c)
  | Some _ =>
    if bool_decide (srv_tenantID s = uuid_Nil) then (None, s, g, c)
    else
      match LoadRulesFromDatabase r (srv_tenantID s) with
      | Err e => (Some e, s, g, c)
      | Ok packs =>
        let packs := match packs with
                     | [] => if bool_decide (srv_rulepackPath s = "") then []
                             else match LoadPacks fuel (srv_rulepackPath s) with Ok ps => ps | Err _ => [] end
                     | _ => packs
                     end in
        let '(req, resp, g, c) := load_both packs (srv_scReq s) (srv_scResp s) g c in
        (None, with_scanners req resp s, g, c)
      end
  end.
End Server.

(** ** One message *)

(** The variables of [processStream], and the responses sent so far. *)
Record stream := {
  total : Z;
  totalResp : Z;
  decision : string;
  reason : string;
  tailReq : string;
  tailResp : string;
  sent : list ProcessingResponse;
}.

Definition stream0 : stream :=
  {| total := 0; totalResp := 0; decision := "allow"; reason := "no_signals"; tailReq := ""; tailResp := "";
     sent := [] |}.

Definition with_decision (d r : string) (st : stream) : stream :=
  {| total := total st; totalResp := totalResp st; decision := d; reason := r; tailReq := tailReq st;
     tailResp := tailResp st; sent := sent st |}.
Definition with_request (n : Z) (tail : string) (st : stream) : stream :=
  {| total := n; totalResp := totalResp st; decision := decision st; reason := reason st; tailReq := tail;
     tailResp := tailResp st; sent := sent st |}.
Definition with_response (n : Z) (tail : string) (st : stream) : stream :=
  {| total := total st; totalResp := n; decision := decision st; reason := reason st; tailReq := tailReq st;
     tailResp := tail; sent := sent st |}.
Definition push (r : ProcessingResponse) (st : stream) : stream :=
  {| total := total st; totalResp := totalResp st; decision := decision st; reason := reason st;
     tailReq := tailReq st; tailResp := tailResp st; sent := sent st ++ [r] |}.

(** The loop goes on, or [processStream] returns. *)
Inductive outcome :=
  | Continue (st : stream)
  | Return (err : option string) (st : stream).

(** [if err := stream.Send(r); err != nil { return err }]; [send_err] is what
    [Send] returns. *)
Definition send_or_return (send_err : option string) (r : ProcessingResponse) (st : stream) : outcome :=
  match send_err with None => Continue (push r st) | Some e => Return (Some e) st end.

(** [return stream.Send(r)]. *)
Definition return_send (send_err : option string) (r : ProcessingResponse) (st : stream) : outcome :=
  match send_err with None => Return None (push r st) | Some e => Return (Some e) st end.

(** [header]. *)
Definition header (k v : string) : string * string := (k, v).

Definition simple_text (decision reason : string) : string :=
  "{" +:+ q +:+ "blocked" +:+ q +:+ ":true," +:+ q +:+ "decision" +:+ q +:+ ":" +:+ q +:+ decision +:+ q +:+ ","
  +:+ q +:+ "reason" +:+ q +:+ ":" +:+ q +:+ reason +:+ q +:+ "," +:+ q +:+ "message" +:+ q +:+ ":" +:+ q
  +:+ "Request blocked by PromptShield" +:+ q +:+ "}".

(** [sendImmediateResponseWithDetails]: the response it sends. *)
Definition blocked (decision reason : string) (res : option ScanResult) : ProcessingResponse :=
  ImmediateForbidden
    [header "x-ps-decision" decision; header "x-ps-reason" reason; header "content-type" "application/json"]
    (match res with
     | Some r => if bool_decide (sr_Violations r = []) then SimpleBody (simple_text decision reason)
                 else DetailedBody decision reason (sr_Violations r) (sr_DurationMs r)
     | None => SimpleBody (simple_text decision reason)
     end).

(** [sendImmediateReplacementResponse]. *)
Definition replacement (body reason : string) : ProcessingResponse :=
  ImmediateReplacement [header "x-ps-decision" "replace"; header "x-ps-reason" reason]
    (if bool_decide (body = "") then "[CONTENT_REPLACED]" else body).

Definition hasThresholdHit (vs : list Violation) (threshold : string) : bool :=
  if bool_decide (threshold = "") then false
  else existsb (fun v => MeetsThreshold (v_Severity v) threshold) vs.

Definition firstReason (vs : list Violation) : string :=
  match vs with [] => "signals_detected" | v :: _ => v_RuleID v end.

(** The window of a chunk after [tail], and the tail for the next one. *)
Definition window_of (windowLimit : Z) (tail b : string) : string :=
  let w := tail +:+ b in
  if (windowLimit <? Z.of_nat (String.length w))%Z
  then sdrop (Z.to_nat (Z.of_nat (String.length w) - windowLimit)) w else w.

Definition tail_of (overlap : Z) (window : string) : string :=
  if (overlap <? Z.of_nat (String.length window))%Z
  then sdrop (Z.to_nat (Z.of_nat (String.length window) - overlap)) window else window.

Definition leaks (val : string) : bool := Contains val "api_key=" || Contains val "password".

Definition header_val (hv : HeaderValue) : string :=
  if bool_decide (hv_RawValue hv = "") then hv_Value hv else hv_RawValue hv.

(** Whether a non-nil header has the key [k], in any case. *)
Definition seen_header (k : string) (hs : list (option HeaderValue)) : bool :=
  existsb (fun o => match o with Some hv => bool_decide (ToLower (hv_Key hv) = k) | None => false end) hs.

Definition blocking (mode : string) : bool := bool_decide (mode = "enforce") || bool_decide (mode = "quarantine").

(** The variables of the loop over the violations of a response. *)
Record response_verdict := {
  rv_deny : bool;
  rv_redact : bool;
  rv_replace : bool;
  rv_body : string;
  rv_reason : string;
}.

Definition verdict_of (reason : string) : response_verdict :=
  {| rv_deny := false; rv_redact := false; rv_replace := false; rv_body := ""; rv_reason := reason |}.

(** [if reason == "no_signals" && v.RuleID != "" { reason = v.RuleID }]. *)
Definition first_signal (reason id : string) : string :=
  if bool_decide (reason = "no_signals") && negb (bool_decide (id = "")) then id else reason.

Fixpoint response_loop (vs : list Violation) (d : response_verdict) : response_verdict :=
  match vs with
  | [] => d
  | v :: vs =>
    let a := v_ResponseAction v in
    if EqualFold a "deny" || EqualFold a "block"
    then {| rv_deny := true; rv_redact := rv_redact d; rv_replace := rv_replace d; rv_body := rv_body d;
            rv_reason := v_RuleID v |}
    else
      let redacts := EqualFold a "redact" || EqualFold a "mask" || EqualFold a "quarantine" in
      let replaces := EqualFold a "replace" in
      response_loop vs
        {| rv_deny := false; rv_redact := rv_redact d || redacts; rv_replace := rv_replace d || replaces;
           rv_body := if replaces && negb (bool_decide (v_ResponseReplacement v = ""))
                      then v_ResponseReplacement v else rv_body d;
           rv_reason := first_signal (rv_reason d) (v_RuleID v) |}
  end.

Section Stream.
Context `{RegexpSyntax, RegexpEngine, LruLib, AhoLib, Platform, World}.

(** The semantic caches of the two scanners, and how far the analyzer and the
    clock have been consulted. *)
Record scan_state := {
  ss_req : gmap string (lru semanticCacheEntry);
  ss_resp : gmap string (lru semanticCacheEntry);
  ss_calls : nat;
  ss_ticks : nat;
}.

Definition scan_with (cs : gmap string (lru semanticCacheEntry)) (ss : scan_state) : eval_state :=
  {| violations := []; metrics := metrics0; seen := ∅; caches := cs; calls := ss_calls ss; ticks := ss_ticks ss |}.

Definition text_reader (s : string) : Reader := {| content := s; read_err := None |}.

(** The scan of a window: the result, or [None] when the code answers
    without one; after a deadline the result is empty. *)
Definition usable (r : result scan_error ScanResult) : option ScanResult :=
  match r with
  | Ok res => Some res
  | Err (CtxErr e) => if bool_decide (e = "context deadline exceeded") then Some result0 else None
  | Err _ => None
  end.

Definition scan_request (E : ScanEnv) (s : Server) (w : string) (ss : scan_state) : option ScanResult * scan_state :=
  let '(r, st) := ScanReader (srv_scReq s) (text_reader w) "extproc:request-window" (scan_with (ss_req ss) ss) in
  (usable r, {| ss_req := caches st; ss_resp := ss_resp ss; ss_calls := calls st; ss_ticks := ticks st |}).

Definition scan_response (E : ScanEnv) (s : Server) (w : string) (ss : scan_state) : option ScanResult * scan_state :=
  let '(r, st) := ScanReader (srv_scResp s) (text_reader w) "extproc:response-window" (scan_with (ss_resp ss) ss) in
  (usable r, {| ss_req := ss_req ss; ss_resp := caches st; ss_calls := calls st; ss_ticks := ticks st |}).

(** [_ = stream.Send(r); continue]. *)
Definition send_and_continue (send_err : option string) (r : ProcessingResponse) (st : stream) : outcome :=
  match send_err with None => Continue (push r st) | Some _ => Continue st end.

Definition over_limit (s : Server) (n : Z) : bool := ((0 <? srv_maxStreamBytes s) && (srv_maxStreamBytes s <? n))%Z.

(** [case *extproc.ProcessingRequest_RequestBody], after the accounting. *)
Definition handle_request_body (E : ScanEnv) (s : Server) (send_err : option string) (b : string) (st : stream)
    (ss : scan_state) : outcome * scan_state :=
  if bool_decide (b = "") then (send_or_return send_err ContinueRequestBody st, ss)
  else
    let n := wrap64 (total st + Z.of_nat (String.length b)) in
    if over_limit s n then
      let st := with_decision "quarantine" "body_limit" (with_request n (tailReq st) st) in
      (return_send send_err (blocked "quarantine" "body_limit" None) st, ss)
    else
      let w := window_of (srv_windowLimit s) (tailReq st) b in
      let st := with_request n (tail_of (srv_overlap s) w) st in
      let '(r, ss) := scan_request E s w ss in
      match r with
      | None => (send_and_continue send_err ContinueRequestBody st, ss)
      | Some res =>
        if hasThresholdHit (sr_Violations res) (srv_failOn s) then
          let why := firstReason (sr_Violations res) in
          let st := with_decision "quarantine" why st in
          if blocking (srv_enforcementMode s)
          then (return_send send_err (blocked "quarantine" why (Some res)) st, ss)
          else (send_or_return send_err ContinueRequestBody st, ss)
        else (send_or_return send_err ContinueRequestBody st, ss)
      end.

(** [os.Getenv(name) != "0" && strings.ToLower(os.Getenv(name)) != "false"]. *)
Definition mutation_on (name : string) : bool :=
  negb (bool_decide (getenv name = "0")) && negb (bool_decide (ToLower (getenv name) = "false")).

(** [case *extproc.ProcessingRequest_ResponseBody], after the accounting;
    [redacting] is the global toggle of the redaction package. *)
Definition handle_response_body (E : ScanEnv) (redacting : bool) (s : Server) (send_err : option string) (b : string)
    (st : stream) (ss : scan_state) : outcome * scan_state :=
  if bool_decide (b = "") then (send_or_return send_err (ContinueResponseBody None) st, ss)
  else
    let n := wrap64 (totalResp st + Z.of_nat (String.length b)) in
    if over_limit s n then
      let st := with_decision "quarantine" "body_limit" (with_response n (tailResp st) st) in
      (return_send send_err (blocked "quarantine" "body_limit" None) st, ss)
    else
      let w := window_of (srv_windowLimit s) (tailResp st) b in
      let st := with_response n (tail_of (srv_overlap s) w) st in
      if leaks b || Contains b (q +:+ "prompt" +:+ q +:+ ":" +:+ q +:+ "api_key=") then
        let st := with_decision "quarantine" "response-leak" st in
        (return_send send_err (blocked "quarantine" "response-leak" None) st, ss)
      else
        let '(r, ss) := scan_response E s w ss in
        match r with
        | None => (send_and_continue send_err (ContinueResponseBody None) st, ss)
        | Some res =>
          let d := response_loop (sr_Violations res) (verdict_of (reason st)) in
          let hit := rv_deny d || hasThresholdHit (sr_Violations res) (srv_failOn s) in
          let st := with_decision (if hit then "quarantine" else decision st) (rv_reason d) st in
          if hit && blocking (srv_enforcementMode s)
          then (return_send send_err (blocked "quarantine" (rv_reason d) (Some res)) st, ss)
          else
            let redacts := rv_redact d || (hit && bool_decide (srv_enforcementMode s = "redact")) in
            if rv_replace d && negb (bool_decide (srv_enforcementMode s = "observe"))
               && mutation_on "PS_ENFORCER_REPLACEMENT_MUTATION"
            then (return_send send_err (replacement (rv_body d) (rv_reason d)) st, ss)
            else if redacts && mutation_on "PS_ENFORCER_REDACTION_MUTATION"
            then (send_or_return send_err (ContinueResponseBody (Some (Redact redacting b))) st, ss)
            else (send_or_return send_err (ContinueResponseBody None) st, ss)
        end.

(** [case *extproc.ProcessingRequest_ResponseHeaders]. *)
Definition handle_response_headers (send_err : option string) (hs : list (option HeaderValue)) (st : stream) : outcome :=
  if existsb (fun o => match o with Some hv => leaks (header_val hv) | None => false end) hs then
    return_send send_err (blocked "quarantine" "response-header-leak" None)
      (with_decision "quarantine" "response-header-leak" st)
  else
    send_or_return send_err
      (ContinueResponseHeaders
         ((if seen_header "x-ps-decision" hs then [] else [header "x-ps-decision" (decision st)]) ++
          (if seen_header "x-ps-reason" hs then [] else [header "x-ps-reason" (reason st)]) ++
          [header "x-ps-extproc" "resp"])) st.

(** One turn of the loop, after the accounting. *)
Definition process_message (E : ScanEnv) (redacting : bool) (s : Server) (send_err : option string)
    (m : ProcessingRequest) (st : stream) (ss : scan_state) : outcome * scan_state :=
  match m with
  | RequestHeaders => (send_or_return send_err ContinueRequestHeaders st, ss)
  | ResponseHeaders hs => (handle_response_headers send_err hs st, ss)
  | RequestBody b => handle_request_body E s send_err b st ss
  | ResponseBody b => handle_response_body E redacting s send_err b st ss
  | RequestTrailers => (return_send send_err ContinueRequestTrailers st, ss)
  | ResponseTrailers => (return_send send_err ContinueResponseTrailers st, ss)
  | UnknownMessage => (Continue st, ss)
  end.
End Stream.

(** ** The sliding window *)

(** The last [n] bytes. *)
Definition suffix (n : nat) (s : string) : string := sdrop (String.length s - n) s.

Lemma length_suffix n s : String.length (suffix n s) = n `min` String.length s.
Proof. unfold suffix. rewrite length_sdrop. lia. Qed.

Lemma suffix_app n s t : suffix n (suffix n s +:+ t) = suffix n (s +:+ t).
Proof.
  unfold suffix. rewrite !length_sapp, length_sdrop.
  assert (Hs : s +:+ t = stake (String.length s - n) s +:+ (sdrop (String.length s - n) s +:+ t))
    by (by rewrite <-sapp_assoc, stake_sdrop).
  rewrite Hs. replace (String.length s + String.length t - n)
    with (String.length (stake (String.length s - n) s) + (String.length s - (String.length s - n) + String.length t - n))
    by (rewrite length_stake; lia).
  by rewrite sdrop_app_length.
Qed.

Lemma tail_of_suffix overlap w : (0 <= overlap)%Z -> tail_of overlap w = suffix (Z.to_nat overlap) w.
Proof.
  intros Ho. unfold tail_of, suffix. case_if; [f_equal; lia|].
  replace (String.length w - Z.to_nat overlap) with 0 by lia. by destruct w.
Qed.

Lemma window_of_all limit tail b :
  (Z.of_nat (String.length tail + String.length b) <= limit)%Z -> window_of limit tail b = tail +:+ b.
Proof. intros Hl. unfold window_of. rewrite length_sapp. case_if; [lia|done]. Qed.

(** The windows scanned for a sequence of chunks. *)
Fixpoint windows_of (limit overlap : Z) (tail : string) (chunks : list string) : list string :=
  match chunks with
  | [] => []
  | b :: chunks => let w := window_of limit tail b in w :: windows_of limit overlap (tail_of overlap w) chunks
  end.

Fixpoint concat_str (l : list string) : string :=
  match l with [] => "" | s :: l => s +:+ concat_str l end.

(** An occurrence that ends in the second part and starts in its last [n]
    bytes of the first. *)
Lemma occurs_at_suffix p s t i n :
  occurs_at p (s +:+ t) i -> String.length s - n <= i -> exists j, occurs_at p (suffix n s +:+ t) j.
Proof.
  intros [Hi Ho] Hn. rewrite length_sapp in Hi. exists (i - (String.length s - n)). unfold suffix. split.
  - rewrite length_sapp, length_sdrop. lia.
  - destruct (decide (i <= String.length s)).
    + rewrite sdrop_app_le in Ho by done.
      rewrite sdrop_app_le by (rewrite length_sdrop; lia). rewrite sdrop_sdrop.
      by replace (String.length s - n + (i - (String.length s - n))) with i by lia.
    + replace i with (String.length s + (i - String.length s)) in Ho by lia. rewrite sdrop_app_length in Ho.
      replace (i - (String.length s - n)) with (String.length (sdrop (String.length s - n) s) + (i - String.length s))
        by (rewrite length_sdrop; lia).
      by rewrite sdrop_app_length.
Qed.

Lemma windows_cover limit overlap p prefix chunks i :
  (0 <= overlap)%Z -> (Z.of_nat (String.length p) <= overlap + 1)%Z ->
  Forall (fun b => (Z.of_nat (String.length b) <= limit - overlap)%Z) chunks ->
  occurs_at p (prefix +:+ concat_str chunks) i -> String.length prefix < i + String.length p ->
  exists w, w ∈ windows_of limit overlap (suffix (Z.to_nat overlap) prefix) chunks /\ Contains w p = true.
Proof.
  intros Ho Hp Hc. revert prefix. induction Hc as [|b chunks Hb _ IH]; intros prefix Hocc Hend.
  { simpl in Hocc. rewrite sapp_nil_r in Hocc. apply occurs_at_bound in Hocc. lia. }
  cbn [windows_of concat_str] in *. set (tail := suffix (Z.to_nat overlap) prefix).
  assert (Hw : window_of limit tail b = tail +:+ b)
    by (apply window_of_all; subst tail; rewrite length_suffix; lia).
  assert (Ht : suffix (Z.to_nat overlap) (tail +:+ b) = suffix (Z.to_nat overlap) (prefix +:+ b)) by apply suffix_app.
  rewrite Hw, tail_of_suffix, Ht by done.
  destruct (decide (i + String.length p <= String.length (prefix +:+ b))) as [Hin|Hout].
  - exists (tail +:+ b). split; [left|]. apply Contains_spec.
    rewrite <-sapp_assoc in Hocc. apply (occurs_at_suffix p prefix b i); [|lia].
    destruct Hocc as [Hi Hocc]. split; [lia|]. rewrite sdrop_app_le in Hocc by lia.
    apply HasPrefix_spec in Hocc as [u Hu]. apply HasPrefix_spec.
    pose proof (f_equal (stake (String.length (sdrop i (prefix +:+ b)))) Hu) as Hs.
    rewrite stake_app_length in Hs. rewrite Hs. exists (stake (String.length (sdrop i (prefix +:+ b)) - String.length p) u).
    rewrite length_sdrop. clear Hs Hu.
    assert (Hst : forall a c n, String.length a <= n -> stake n (a +:+ c) = a +:+ stake (n - String.length a) c).
    { induction a as [|x a IHa]; intros c n Hn; simpl in *; [by rewrite Nat.sub_0_r|].
      destruct n; simpl; [lia|]. f_equal. apply IHa. lia. }
    apply Hst. lia.
  - destruct (IH (prefix +:+ b)) as (w & Hin & Hc); [by rewrite sapp_assoc|lia|].
    exists w. split; [by right|done].
Qed.

(** Nothing is missed between chunks: when no chunk is longer than the
    window less the overlap, every text of at most [overlap + 1] bytes that
    occurs in the body, wherever the chunks were cut, occurs in one of the
    windows that are scanned. *)
Theorem sliding_window_covers (limit overlap : Z) (chunks : list string) (p : string) :
  (0 <= overlap)%Z -> (Z.of_nat (String.length p) <= overlap + 1)%Z -> p <> "" ->
  Forall (fun b => (Z.of_nat (String.length b) <= limit - overlap)%Z) chunks ->
  Contains (concat_str chunks) p = true ->
  exists w, w ∈ windows_of limit overlap "" chunks /\ Contains w p = true.
Proof.
  intros Ho Hp Hne Hc [i Hi]%Contains_spec. change "" with (suffix (Z.to_nat overlap) "").
  apply (windows_cover limit overlap p "" chunks i); [done..|]. destruct p; [done|simpl; lia].
Qed.

(** A chunk longer than the window is only scanned at its end. *)
Lemma oversized_chunk_head_unscanned limit overlap b :
  (0 <= limit < Z.of_nat (String.length b))%Z ->
  windows_of limit overlap "" [b] = [suffix (Z.to_nat limit) b].
Proof.
  intros Hl. cbn [windows_of]. unfold window_of, suffix. simpl. case_if; [|lia]. do 2 f_equal. lia.
Qed.

(** ** A stream *)

Section Serve.
Context `{RegexpSyntax, RegexpEngine, LruLib, AhoLib, Platform, World}.

(** The messages of a stream, one after the other, until [processStream]
    returns; the [k]-th message is scanned in [envs k], and its response is
    sent with the result [send k]. *)
Fixpoint serve (envs : nat -> ScanEnv) (send : nat -> option string) (redacting : bool) (s : Server) (k : nat)
    (ms : list ProcessingRequest) (st : stream) (ss : scan_state) : outcome * scan_state :=
  match ms with
  | [] => (Continue st, ss)
  | m :: ms =>
    match process_message (envs k) redacting s (send k) m st ss with
    | (Continue st, ss) => serve envs send redacting s (S k) ms st ss
    | (Return e st, ss) => (Return e st, ss)
    end
  end.

(** *** Every message is answered *)

(** The responses Envoy accepts for a message. *)
Definition answers (m : ProcessingRequest) (r : ProcessingResponse) : bool :=
  match m, r with
  | RequestHeaders, ContinueRequestHeaders => true
  | ResponseHeaders _, (ContinueResponseHeaders _ | ImmediateForbidden _ _) => true
  | RequestBody _, (ContinueRequestBody | ImmediateForbidden _ _) => true
  | ResponseBody _, (ContinueResponseBody _ | ImmediateForbidden _ _ | ImmediateReplacement _ _) => true
  | RequestTrailers, ContinueRequestTrailers => true
  | ResponseTrailers, ContinueResponseTrailers => true
  | _, _ => false
  end.

(** The responses after which the exchange is over. *)
Definition final (r : ProcessingResponse) : bool :=
  match r with
  | ImmediateForbidden _ _ | ImmediateReplacement _ _ | ContinueRequestTrailers | ContinueResponseTrailers => true
  | _ => false
  end.

Definition known (m : ProcessingRequest) : bool := match m with UnknownMessage => false | _ => true end.

(** One message, when [Send] works. *)
Definition answered (m : ProcessingRequest) (st : stream) (o : outcome) : Prop :=
  match o with
  | Continue st' => if known m then exists r, sent st' = sent st ++ [r] /\ answers m r = true /\ final r = false
                    else sent st' = sent st
  | Return e st' => e = None /\ known m = true /\
                    exists r, sent st' = sent st ++ [r] /\ answers m r = true /\ final r = true
  end.

Lemma process_answered E redacting s m st ss :
  answered m st (process_message E redacting s None m st ss).1.
Proof.
  assert (Hc : forall r st', known m = true -> sent st' = sent st -> answers m r = true -> final r = false ->
    answered m st (Continue (push r st'))) by (intros r st' Hk Hs Ha Hf; simpl; rewrite Hk, Hs; by exists r).
  assert (Hr : forall r st', known m = true -> sent st' = sent st -> answers m r = true -> final r = true ->
    answered m st (Return None (push r st')))
    by (intros r st' Hk Hs Ha Hf; simpl; rewrite Hs; split_and!; [done..|]; by exists r).
  destruct m as [|hs|b|b| | |]; simpl; [by apply Hc| | | |by apply Hr|by apply Hr|done].
  - unfold handle_response_headers. case_if; [by apply Hr|by apply Hc].
  - unfold handle_request_body. case_bool_decide; [by apply Hc|]. case_if; [by apply Hr|].
    destruct (scan_request _ _ _ _) as [[res|] ss'] eqn:Esc; [|by apply Hc].
    case_if; [case_if; [by apply Hr|by apply Hc]|by apply Hc].
  - unfold handle_response_body. case_bool_decide; [by apply Hc|]. case_if; [by apply Hr|].
    case_if; [by apply Hr|]. destruct (scan_response _ _ _ _) as [[res|] ss'] eqn:Esc; [|by apply Hc].
    case_if; [by apply Hr|]. case_if; [by apply Hr|]. case_if; by apply Hc.
Qed.

(** C17. The protocol is kept.  While responses can be sent, every message gets
    exactly one response of its own kind, in order, and messages of unknown
    kinds none; a response that ends the exchange (an immediate response, or
    the one to trailers) is the last thing sent, and the stream ends without
    error exactly then: the messages not handled are those after it. *)
Theorem stream_protocol (envs : nat -> ScanEnv) (redacting : bool) (s : Server) (ms : list ProcessingRequest)
    (ss : scan_state) :
  let o := (serve envs (fun _ => None) redacting s 0 ms stream0 ss).1 in
  exists handled rest rs,
    ms = handled ++ rest /\
    Forall2 (fun m r => answers m r = true) (filter (fun m => known m = true) handled) rs /\
    match o with
    | Continue st => sent st = rs /\ rest = [] /\ Forall (fun r => final r = false) rs
    | Return e st => sent st = rs /\ e = None /\
        exists rs0 r, rs = rs0 ++ [r] /\ final r = true /\ Forall (fun r => final r = false) rs0
    end.
Proof.
  assert (Hgen : forall ms k st ss, Forall (fun r => final r = false) (sent st) ->
    exists handled rest rs, ms = handled ++ rest /\
      Forall2 (fun m r => answers m r = true) (filter (fun m => known m = true) handled) rs /\
      match (serve envs (fun _ => None) redacting s k ms st ss).1 with
      | Continue st' => sent st' = sent st ++ rs /\ rest = [] /\ Forall (fun r => final r = false) (sent st')
      | Return e st' => sent st' = sent st ++ rs /\ e = None /\
          exists rs0 r, sent st' = rs0 ++ [r] /\ final r = true /\ Forall (fun r => final r = false) rs0
      end).
  { clear ms ss. induction ms as [|m ms IH]; intros k st ss Hst.
    { exists [], [], []. rewrite filter_nil. simpl. rewrite app_nil_r. split_and!; [done|apply Forall2_nil_2|done..]. }
    simpl. pose proof (process_answered (envs k) redacting s m st ss) as Ha.
    destruct (process_message (envs k) redacting s None m st ss) as [[st'|e st'] ss'] eqn:Em; simpl in Ha.
    - destruct (known m) eqn:Hk.
      + destruct Ha as (r & Hs & Har & Hf).
        destruct (IH (S k) st' ss') as (h & rest & rs & -> & Hf2 & Ho); [rewrite Hs; apply Forall_app; auto|].
        exists (m :: h), rest, (r :: rs). rewrite filter_cons, decide_True by done. split_and!; [done|by constructor|].
        rewrite Hs in Ho. rewrite <-app_assoc in Ho. exact Ho.
      + destruct (IH (S k) st' ss') as (h & rest & rs & -> & Hf2 & Ho); [by rewrite Ha|].
        exists (m :: h), rest, rs. rewrite filter_cons, decide_False by (by rewrite Hk). rewrite Ha in Ho. done.
    - destruct Ha as (-> & Hk & r & Hs & Har & Hf). exists [m], ms, [r].
      rewrite filter_cons, decide_True, filter_nil by done.
      split; [done|]. split; [apply Forall2_cons; split; [done|apply Forall2_nil_2]|]. split; [done|]. split; [done|]. by exists (sent st), r. }
  destruct (Hgen ms 0 stream0 ss) as (h & rest & rs & Hms & Hf2 & Ho); [constructor|].
  exists h, rest, rs. split_and!; [done|done|]. simpl in Ho.
  destruct (serve envs (fun _ => None) redacting s 0 ms stream0 ss).1 as [st'|e st']; destruct Ho as (Hs & Ho); rewrite Hs in *; auto.
Qed.
End Serve.
