(* ===== verification/Streams.v ===== *)
(** * Streams: what the external processor lets through

    Theorems about the server of ExtProc: the invariant of its construction
    and of [ReloadRules], what a request body that was forwarded cannot
    contain, and the account of bytes in flight that concurrent streams share
    (the loop of [processStream] in process_stream.go as a step relation). *)

From Stdlib Require Import Ascii String.
From S2P Require Import Prelude GoString Unicode Rules Merge Verifiers Complexity Aho Literals Engine Compile Scanner Load ScanIO Setters Loader Decisions Check Repos Redact ExtProc.

(** ** Scans that were not aborted *)

Section Complete.
Context `{RegexpSyntax, RegexpEngine, LruLib, AhoLib, Platform, World, ScanEnv}.

(** A scanner that reports every rule of its own: without the keyword
    automaton and with rule ids that can be told apart. *)
Record exact_scanner (s : Scanner) : Prop := {
  ex_wf : scanner_wf s;
  ex_aho : aho s = None;
  ex_all : firstMatch s = false;
  ex_plain : Forall plain_id (compiled s);
  ex_ids : NoDup (map cr_id (compiled s));
}.

(** A rule the deterministic levels decide. *)
Definition deterministic (s : Scanner) (cr : compiledRule) : Prop := cr ∈ compiled s /\ cr_level cr <> 3%Z.

Lemma evaluateLine_new s line n st cr :
  exact_scanner s -> deterministic s cr ->
  exists new, violations (evaluateLine s line n (clear_seen st)).2 = violations st ++ new /\
    (fires s line cr -> Exists (fun v => v_RuleID v = cr_id cr) new).
Proof.
  intros [] [Hin Hl]. unfold evaluateLine. fold (hits_of s (ToLower line)).
  destruct (eval_rules_rule s line n (compiled s) cr false (clear_seen st)) as (new & E & Hn);
    [done..|by intros suffix; apply not_elem_of_empty|]. exists new. split; [exact E|apply Hn].
Qed.

Lemma scan_loop_rule s k lines st st' cr :
  exact_scanner s -> deterministic s cr -> scan_loop s k lines st = (Finished, st') ->
  exists new, violations st' = violations st ++ new /\
    Forall (fun line => fires s line cr -> Exists (fun v => v_RuleID v = cr_id cr) new) lines.
Proof.
  intros Hex Hd. revert k st. induction lines as [|line lines IH]; intros k st; cbn [scan_loop].
  { intros [= <-]. exists []. rewrite app_nil_r. by split. }
  case_if; [by case_if|]. case_if; [by case_if|]. case_if; [by case_if|].
  set (st1 := set_metrics _ st).
  destruct (evaluateLine_new s line (Z.of_nat (S k)) st1 cr Hex Hd) as (n1 & Hv1 & Hf1).
  destruct (evaluateLine s line _ (clear_seen st1)) as [b st2]. simpl in Hv1.
  intros Hl. destruct (IH _ _ Hl) as (n2 & Hv2 & Hf2). exists (n1 ++ n2). rewrite Hv2, Hv1, app_assoc. split; [done|].
  constructor; [intros Hf; apply Exists_app; left; by apply Hf1|].
  eapply Forall_impl; [exact Hf2|]. intros l Hl' Hf. apply Exists_app. right. by apply Hl'.
Qed.

(** Without one of the violations that stand for an aborted scan, all of the
    input was read, and a rule that fires on a line is among the violations. *)
Lemma ScanReader_complete s r name st res st' cr :
  exact_scanner s -> deterministic s cr -> ScanReader s r name st = (Ok res, st') ->
  Forall (fun v => ~ of_abort r v) (sr_Violations res) ->
  (scan_lines (bufferSizeBytes s) r).2 = false /\
  Forall (fun line => fires s line cr -> Exists (fun v => v_RuleID v = cr_id cr) (sr_Violations res))
    (scan_lines (bufferSizeBytes s) r).1.
Proof.
  intros Hex Hd. unfold ScanReader. destruct (scan_lines _ r) as [lines long]. simpl.
  set (st0 := Build_eval_state _ _ _ _ _ _).
  destruct (scan_loop s 0 lines st0) as [e st1] eqn:E.
  pose proof (scan_loop_sources s 0 lines st0 e st1 (ex_wf _ Hex) E) as [_ Hq].
  destruct e as [|v|e].
  - destruct (scan_loop_rule s 0 lines st0 st1 cr Hex Hd E) as (new & Hv & Hf). simpl in Hv.
    destruct (if long then _ else _) as [msg|] eqn:Em.
    + destruct (quarantineOnError s); [|done]. intros [= <- _] Ha. simpl in Ha.
      rewrite Forall_app, Forall_singleton in Ha. destruct Ha as [_ Ha]. destruct Ha. eexists _, _.
      split; [done|]. unfold aborts. destruct long; [injection Em as <-; set_solver|]. rewrite Em. set_solver.
    + intros [= <- _] _. simpl. rewrite Hv. split; [by destruct long|done].
  - intros [= <- _] Ha. simpl in Ha. rewrite Forall_app, Forall_singleton in Ha.
    destruct Ha as [_ []]. destruct (Hq v eq_refl) as (id & msg & -> & ?). exists id, msg.
    split; [done|]. unfold aborts. apply elem_of_app. by left.
  - done.
Qed.
End Complete.

(** ** Text in lines *)

Lemma dropCR_cases s : dropCR s = s \/ s = dropCR s +:+ String "013" "".
Proof.
  assert (Hd : forall c s, dropCR (String c s) = String c (dropCR s) \/ c = "013"%char /\ s = "").
  { intros c [|d t]; [|left; destruct c as [[] [] [] [] [] [] [] []]; reflexivity].
    destruct c as [[] [] [] [] [] [] [] []]; first [by left|by right]. }
  induction s as [|c s IH]; [by left|]. destruct (Hd c s) as [->|[-> ->]]; [|by right].
  destruct IH as [->| IH]; [by left|right]. simpl. by rewrite <-IH.
Qed.

Lemma Contains_dropCR s p :
  CountByte "013" p = 0 -> p <> "" -> Contains s p = true -> Contains (dropCR s) p = true.
Proof.
  intros Hc Hp Hs. destruct (dropCR_cases s) as [->|E]; [done|]. rewrite E in Hs.
  apply Contains_sep in Hs as [?|Hs]; [done| |done|done]. by destruct p.
Qed.

Lemma scan_pieces_cons limit p ps :
  ps <> [] ->
  scan_pieces limit (p :: ps) =
    if (Z.of_nat (String.length p) <? limit)%Z
    then (dropCR p :: (scan_pieces limit ps).1, (scan_pieces limit ps).2) else ([], true).
Proof.
  destruct ps as [|q ps]; [done|]. intros _. set (qs := q :: ps). change (scan_pieces limit (p :: qs)) with
    (if (Z.of_nat (String.length p) <? limit)%Z
     then let '(ls, long) := scan_pieces limit qs in (dropCR p :: ls, long) else ([], true)).
  case_if; [|done]. by destruct (scan_pieces limit qs).
Qed.

(** A text that fits in a line is found in one of the lines, when none was too
    long. *)
Lemma Contains_line max r p :
  CountByte newline p = 0 -> CountByte "013" p = 0 -> p <> "" ->
  (scan_lines max r).2 = false -> Contains (content r) p = true ->
  exists line, line ∈ (scan_lines max r).1 /\ Contains line p = true.
Proof.
  intros Hn Hr Hp. unfold scan_lines. intros Hlong (x & Hx & Hc)%(Contains_pieces newline); [|done..].
  revert Hlong. induction (SplitByte newline (content r)) as [|y ys IH]; [by apply elem_of_nil in Hx|].
  apply elem_of_cons in Hx as [<-|Hx].
  - assert (Hne : x <> "") by (intros ->; by destruct p). clear IH.
    intros Hlong. exists (dropCR x). split; [|by apply Contains_dropCR].
    destruct ys as [|z ys].
    + simpl in *. rewrite bool_decide_eq_false_2 in * by done. case_if; [left|done].
    + rewrite scan_pieces_cons in * by done. case_if; [left|done].
  - destruct ys as [|z ys]; [by apply elem_of_nil in Hx|]. rewrite scan_pieces_cons by done.
    case_if; [|done]. intros Hlong. destruct (IH Hx Hlong) as (l & Hl & ?). exists l. split; [by right|done].
Qed.

(** ** What is forwarded *)

Section Forward.
Context `{RegexpSyntax, RegexpEngine, LruLib, AhoLib, Platform, World}.

(** A server that blocks: it enforces, an aborted scan counts as a hit, and
    its request scanner turns every failure into a violation. *)
Record blocks (s : Server) : Prop := {
  bl_mode : blocking (srv_enforcementMode s) = true;
  bl_high : MeetsThreshold "HIGH" (srv_failOn s) = true;
  bl_timeout : quarantineOnTimeout (srv_scReq s) = true;
  bl_error : quarantineOnError (srv_scReq s) = true;
  bl_exact : exact_scanner (srv_scReq s);
}.

(** A rule that is severe enough for the server. *)
Definition severe (s : Server) (cr : compiledRule) : Prop :=
  deterministic (srv_scReq s) cr /\ MeetsThreshold (cr_severity cr) (srv_failOn s) = true.

(** The rule fires on no line of the window, and every line was read. *)
Definition clean_window (s : Server) (cr : compiledRule) (w : string) : Prop :=
  let '(lines, long) := scan_lines (bufferSizeBytes (srv_scReq s)) (text_reader w) in
  long = false /\ Forall (fun line => ~ fires (srv_scReq s) line cr) lines.

Lemma no_hit_below vs t :
  MeetsThreshold "HIGH" t = true -> hasThresholdHit vs t = false ->
  Forall (fun v => MeetsThreshold (v_Severity v) t = false) vs.
Proof.
  intros Ht. unfold hasThresholdHit. case_bool_decide; [by subst|].
  induction vs as [|v vs IH]; [constructor|]. simpl. rewrite orb_false_iff. intros [? ?]. constructor; auto.
Qed.

Lemma of_rule_severity s v cr :
  NoDup (map cr_id (compiled s)) -> cr ∈ compiled s -> of_rule s v -> v_RuleID v = cr_id cr -> v_Severity v = cr_severity cr.
Proof.
  intros Hnd Hin (cr' & n & col & Hin' & Hv) Hid.
  assert (v_Severity v = cr_severity cr' /\ v_RuleID v = cr_id cr') as [-> E] by (by destruct Hv as [->| ->]).
  f_equal. apply list_elem_of_lookup in Hin as [i Hi], Hin' as [j Hj].
  assert (i = j) as ->; [|congruence].
  apply (NoDup_lookup _ _ _ (cr_id cr) Hnd); rewrite list_lookup_fmap; [by rewrite Hi|rewrite Hj; simpl; congruence].
Qed.

Lemma scan_request_clean E s cr w ss :
  blocks s -> severe s cr -> exists res ss', scan_request E s w ss = (Some res, ss') /\
    (hasThresholdHit (sr_Violations res) (srv_failOn s) = false -> clean_window s cr w).
Proof.
  intros [_ Hh Ht He Hex] [Hd Hsev]. unfold scan_request.
  destruct (ScanReader_clean (srv_scReq s) (text_reader w) "extproc:request-window" (scan_with (ss_req ss) ss)
    (ex_wf _ Hex) Ht He) as (res & st & Escan & _).
  rewrite Escan. eexists res, _. split; [done|]. intros Hhit%no_hit_below; [|done].
  pose proof (ScanReader_sources _ _ _ _ _ _ (ex_wf _ Hex) Escan) as Hsrc.
  rewrite Forall_forall in Hhit, Hsrc.
  destruct (ScanReader_complete _ _ _ _ _ _ cr Hex Hd Escan) as [Hl Hf].
  { apply Forall_forall. intros v Hv (id & msg & -> & _). apply Hhit in Hv. simpl in Hv. congruence. }
  unfold clean_window. destruct (scan_lines _ _) as [lines long]. split; [done|].
  eapply Forall_impl; [exact Hf|]. intros line Hline Hfire.
  apply Hline, Exists_exists in Hfire as (v & Hv & Hid). specialize (Hhit v Hv).
  destruct (Hsrc v Hv) as [Ho|(id & msg & -> & _)]; [|simpl in Hhit; congruence].
  rewrite (of_rule_severity _ _ cr (ex_ids _ Hex) (proj1 Hd) Ho Hid) in Hhit. congruence.
Qed.

(** The chunks of the request among the messages. *)
Definition request_chunk (m : ProcessingRequest) : option string :=
  match m with RequestBody b => if bool_decide (b = "") then None else Some b | _ => None end.
Definition request_chunks (ms : list ProcessingRequest) : list string := omap request_chunk ms.

(** A message that does not end the stream: the window of its chunk is clean
    and the tail moves on. *)
Lemma process_clean E redacting s send m cr st ss st' ss' :
  blocks s -> severe s cr -> process_message E redacting s send m st ss = (Continue st', ss') ->
  match request_chunk m with
  | Some b => let w := window_of (srv_windowLimit s) (tailReq st) b in
              clean_window s cr w /\ tailReq st' = tail_of (srv_overlap s) w
  | None => tailReq st' = tailReq st
  end.
Proof.
  intros Hb Hsev.
  assert (Hsend : forall r st1, send_or_return send r st1 = Continue st' -> tailReq st' = tailReq st1)
    by (unfold send_or_return; intros r st1; destruct send; [done|]; by intros [= <-]).
  assert (Hcont : forall r st1, send_and_continue send r st1 = Continue st' -> tailReq st' = tailReq st1)
    by (unfold send_and_continue; intros r st1; destruct send; by intros [= <-]).
  assert (Hret : forall r st1, return_send send r st1 <> Continue st')
    by (unfold return_send; intros r st1; by destruct send).
  destruct m as [|hs|b|b| | |]; cbn [process_message request_chunk].
  - by intros [= ?%Hsend _].
  - unfold handle_response_headers. case_if; intros [= Ho _]; [by apply Hret in Ho|by apply Hsend in Ho].
  - unfold handle_request_body. case_bool_decide; [by intros [= ?%Hsend _]|].
    case_if; [by intros [= ?%Hret _]|]. cbv zeta. set (w := window_of _ _ b).
    destruct (scan_request_clean E s cr w ss Hb Hsev) as (res & ss1 & -> & Hc).
    rewrite (bl_mode s Hb). destruct (hasThresholdHit _ _); [by intros [= ?%Hret _]|].
    intros [= ->%Hsend _]. split; [by apply Hc|done].
  - unfold handle_response_body. case_bool_decide; [by intros [= ?%Hsend _]|].
    case_if; [by intros [= ?%Hret _]|]. case_if; [by intros [= ?%Hret _]|].
    destruct (scan_response _ _ _ _) as [[res|] ss1]; [|by intros [= ?%Hcont _]].
    case_if; [by intros [= ?%Hret _]|]. case_if; [by intros [= ?%Hret _]|].
    case_if; by intros [= ?%Hsend _].
  - by intros [= ?%Hret _].
  - by intros [= ?%Hret _].
  - by intros [= -> _].
Qed.

Lemma serve_clean envs send redacting s cr k ms st ss st' ss' :
  blocks s -> severe s cr -> serve envs send redacting s k ms st ss = (Continue st', ss') ->
  Forall (clean_window s cr) (windows_of (srv_windowLimit s) (srv_overlap s) (tailReq st) (request_chunks ms)).
Proof.
  intros Hb Hsev. revert k st ss. induction ms as [|m ms IH]; intros k st ss; simpl; [constructor|].
  destruct (process_message _ _ _ _ _ _ _) as [[st1|e st1] ss1] eqn:Em; [|done].
  pose proof (process_clean _ _ _ _ _ cr _ _ _ _ Hb Hsev Em) as Hp. intros Hs%IH.
  destruct (request_chunk m) as [b|]; simpl; [|by rewrite <-Hp].
  destruct Hp as [Hc Ht]. constructor; [done|]. by rewrite <-Ht.
Qed.

(** What is forwarded was screened.  On a server that blocks, as long as
    the stream goes on, whatever messages were exchanged and whatever the
    results of [Send]: every window of the request body was read to its end
    and no rule at or above the threshold fires on any of its lines. *)
Theorem forwarded_windows_clean envs send redacting s ms ss st' ss' cr :
  blocks s -> severe s cr -> serve envs send redacting s 0 ms stream0 ss = (Continue st', ss') ->
  Forall (clean_window s cr) (windows_of (srv_windowLimit s) (srv_overlap s) "" (request_chunks ms)).
Proof. intros Hb Hs. apply (serve_clean envs send redacting s cr 0 ms stream0 ss st' ss' Hb Hs). Qed.

(** A spelling of one of the keywords of a rule that applies to requests and
    looks for any of them: the keyword as written when the rule is sensitive
    to case, and any upper and lower casing of an ASCII keyword when it is
    not, as by default. *)
Definition spelled_keyword (s : Server) (cr : compiledRule) (p : string) : Prop :=
  contextMatches (cr_when cr) (cr_unless cr) (runtimeContext (srv_scReq s)) = true /\
  cr_requireAll cr = false /\ cr_wholeWord cr = false /\
  if cr_caseSensitive cr then p ∈ cr_keywords cr else is_ascii_str p = true /\ ToLower p ∈ cr_keywords cr.

Lemma spelled_keyword_fires s cr p line :
  spelled_keyword s cr p -> p <> "" -> Contains line p = true -> fires (srv_scReq s) line cr.
Proof.
  intros (Hc & Hr & Hw & Hin) Hne Hp. split; [done|]. left. unfold fires_keywords. rewrite Hr, Hw.
  assert (Hit : forall hay q, q ∈ cr_keywords cr -> Contains hay q = true -> Exists (keyword_hit hay false) (cr_keywords cr)).
  { intros hay q Hq Hh. apply Exists_exists. exists q. split; [done|]. unfold Contains in Hh.
    destruct (Index hay q) as [i|] eqn:Ei; [|done]. by exists i. }
  destruct (cr_caseSensitive cr); [by apply (Hit line p)|]. destruct Hin as [Ha Hin].
  by apply (Hit (ToLower line) (ToLower p)), Contains_ToLower.
Qed.

Lemma clean_window_keyword s cr w p :
  spelled_keyword s cr p -> CountByte newline p = 0 -> CountByte "013" p = 0 -> p <> "" ->
  clean_window s cr w -> Contains w p = false.
Proof.
  intros Hk Hn Hr Hp Hc. apply not_true_iff_false. intros Hw. unfold clean_window in Hc.
  pose proof (Contains_line (bufferSizeBytes (srv_scReq s)) (text_reader w) p Hn Hr Hp) as Hl.
  destruct (scan_lines _ _) as [lines long]. destruct Hc as [-> Hf].
  destruct (Hl eq_refl Hw) as (line & Hin & Hcl). rewrite Forall_forall in Hf.
  by apply (Hf line Hin), (spelled_keyword_fires s cr p).
Qed.

(** C2. A forbidden keyword does not get through, however the body is cut.
    On a server that blocks (it enforces, an aborted scan is at or above its
    threshold, its request scanner turns every failure into a violation, runs
    without the keyword automaton and without first_match, and its rules have
    distinct ids without a bar), take a rule of a level other than 3 whose severity is
    at or above the threshold, whose when and unless let it apply to requests,
    and that looks for any of its keywords, not for all and not for whole
    words.  As long as the stream goes on, the request body sent so far does
    not contain a keyword of it that has one line of at most [overlap + 1]
    bytes, when no chunk is longer than the window less the overlap: as
    written for a rule sensitive to case, in any casing of an ASCII keyword
    for one that is not, which is the default. *)
Theorem forwarded_body_has_no_keyword envs send redacting s ms ss st' ss' cr p :
  blocks s -> severe s cr -> spelled_keyword s cr p ->
  CountByte newline p = 0 -> CountByte "013" p = 0 -> p <> "" ->
  (0 <= srv_overlap s)%Z -> (Z.of_nat (String.length p) <= srv_overlap s + 1)%Z ->
  Forall (fun b => (Z.of_nat (String.length b) <= srv_windowLimit s - srv_overlap s)%Z) (request_chunks ms) ->
  serve envs send redacting s 0 ms stream0 ss = (Continue st', ss') ->
  Contains (concat_str (request_chunks ms)) p = false.
Proof.
  intros Hb Hs Hk Hn Hr Hp Ho Hlen Hsz Hserve%(serve_clean _ _ _ _ cr); [|done..].
  apply not_true_iff_false. intros [i Hi]%Contains_spec.
  destruct (windows_cover (srv_windowLimit s) (srv_overlap s) p "" (request_chunks ms) i) as (w & Hw & Hc);
    [done..|by destruct p; [|simpl; lia]|].
  rewrite Forall_forall in Hserve. specialize (Hserve w Hw).
  by rewrite (clean_window_keyword s cr w p) in Hc.
Qed.
End Forward.

(** ** Construction and reloads *)

Section Built.
Context `{RegexpSyntax, RegexpEngine, LruLib, AhoLib, Platform, Sources}.

(** What every scanner of a server keeps: it is well formed, fails closed, and
    has the settings of the constructor. *)
Record enforcing_scanner (direction : string) (maxBytes : Z) (s : Scanner) : Prop := {
  en_wf : scanner_wf s;
  en_timeout : quarantineOnTimeout s = true;
  en_error : quarantineOnError s = true;
  en_bytes : maxStreamBytes s = maxBytes;
  en_context : runtimeContext s = {["direction" := direction]};
}.

(** The invariant of a server. *)
Record server_ok (s : Server) : Prop := {
  ok_timeout : (0 < srv_timeout s)%Z;
  ok_bytes : (0 < srv_maxStreamBytes s)%Z;
  ok_failOn : srv_failOn s <> "";
  ok_mode : srv_enforcementMode s <> "";
  ok_window : (8192 < srv_windowLimit s)%Z;
  ok_overlap : (0 <= srv_overlap s < srv_windowLimit s)%Z;
  ok_slots : forall n, srv_streamSlots s = Some n -> (0 < n)%Z;
  ok_limit : (0 <= srv_inflightLimit s)%Z;
  ok_req : enforcing_scanner "request" (srv_maxStreamBytes s) (srv_scReq s);
  ok_resp : enforcing_scanner "response" (srv_maxStreamBytes s) (srv_scResp s);
}.

Lemma env_int_spec name ok n : env_int name ok = Some n -> ok n = true.
Proof. unfold env_int. case_bool_decide; [done|]. destruct (Atoi _); [|done]. case_if; [|done]. by intros [= <-]. Qed.

(** Loading keeps what is not a rule or an automaton. *)
Lemma LoadRulePacks_settings packs g c s :
  let s' := (LoadRulePacks packs g c s).1.1.1 in
  quarantineOnTimeout s' = quarantineOnTimeout s /\ quarantineOnError s' = quarantineOnError s /\
  maxStreamBytes s' = maxStreamBytes s /\ runtimeContext s' = runtimeContext s.
Proof. unfold LoadRulePacks. destruct (compileRules _ _ _ _ _ _) as [[crs errs] c']. cbn. done. Qed.

Lemma load_both_wf packs req resp g c :
  let o := load_both packs req resp g c in
  let keeps s s' := (scanner_wf s -> scanner_wf s') /\ quarantineOnTimeout s' = quarantineOnTimeout s /\
    quarantineOnError s' = quarantineOnError s /\ maxStreamBytes s' = maxStreamBytes s /\
    runtimeContext s' = runtimeContext s in
  keeps req o.1.1.1 /\ keeps resp o.1.1.2.
Proof.
  cbv zeta. unfold load_both.
  pose proof (LoadRulePacks_settings packs g c req) as H1'. pose proof (LoadRulePacks_wf packs g c req) as H2'.
  destruct (LoadRulePacks packs g c req) as [[[req' errs] g'] c']. simpl in *.
  pose proof (LoadRulePacks_settings packs g' c' resp) as H3'. pose proof (LoadRulePacks_wf packs g' c' resp) as H4'.
  destruct (LoadRulePacks packs g' c' resp) as [[[resp' errs'] g''] c'']. simpl in *. done.
Qed.

Lemma enforcing_kept direction n s s' :
  enforcing_scanner direction n s ->
  (scanner_wf s -> scanner_wf s') /\ quarantineOnTimeout s' = quarantineOnTimeout s /\
    quarantineOnError s' = quarantineOnError s /\ maxStreamBytes s' = maxStreamBytes s /\
    runtimeContext s' = runtimeContext s ->
  enforcing_scanner direction n s'.
Proof. intros [] (? & ? & ? & ? & ?). constructor; [auto|congruence..]. Qed.

Lemma direction_set direction n s :
  scanner_wf s -> quarantineOnTimeout s = true -> quarantineOnError s = true -> maxStreamBytes s = n ->
  enforcing_scanner direction n (SetRuntimeContext {["direction" := direction]} s).
Proof. by constructor. Qed.

Context `{RulepackRepo}.

Lemma NewWithOptions_ok fuel opt r g c : server_ok (NewWithOptions fuel opt r g c).1.1.
Proof.
  unfold NewWithOptions.
  set (bytes := if (so_MaxStreamBytes opt <=? 0)%Z then _ else _).
  set (mode := if bool_decide (_ = "") then "observe" else _).
  assert (Hnew : forall d, enforcing_scanner d bytes (SetRuntimeContext {["direction" := d]} (new_scanner bytes)))
    by (intros d; constructor; by simpl).
  set (sc := match initial_packs _ _ _ _ with Some ps => _ | None => _ end).
  assert (Hsc : enforcing_scanner "request" bytes (SetRuntimeContext {["direction" := "request"]} sc.1.1.1) /\
                enforcing_scanner "response" bytes (SetRuntimeContext {["direction" := "response"]} sc.1.1.2)).
  { unfold sc. destruct (initial_packs _ _ _ _) as [ps|]; [|by split].
    destruct (load_both_wf ps (new_scanner bytes) (new_scanner bytes) g c) as [(Hw1 & Ht1 & He1 & Hb1 & _) (Hw2 & Ht2 & He2 & Hb2 & _)].
    destruct (load_both _ _ _ _ _) as [[[req resp] g'] c']. simpl in *.
    split; apply direction_set; [by apply Hw1|by rewrite Ht1|by rewrite He1|by rewrite Hb1|
                                 by apply Hw2|by rewrite Ht2|by rewrite He2|by rewrite Hb2]. }
  destruct sc as [[[req resp] g'] c']. destruct Hsc as [Hreq Hresp]. simpl in Hreq, Hresp.
  constructor; simpl; try done.
  - destruct (so_Timeout opt <=? 0)%Z eqn:?; lia.
  - unfold bytes. destruct (so_MaxStreamBytes opt <=? 0)%Z eqn:?; lia.
  - by case_bool_decide.
  - unfold mode. by case_bool_decide.
  - destruct (env_int _ _) as [n|] eqn:En; simpl; [|lia]. apply env_int_spec in En. lia.
  - destruct (env_int "PS_ENFORCER_STREAM_OVERLAP" _) as [n|] eqn:En; simpl; [apply env_int_spec, andb_true_iff in En as [??]; lia|].
    split; [lia|]. destruct (env_int "PS_ENFORCER_STREAM_WINDOW" _) as [m|] eqn:Em; simpl; [|lia].
    apply env_int_spec in Em. lia.
  - intros n En%env_int_spec. lia.
  - destruct (env_int _ _) as [n|] eqn:En; simpl; [|lia]. apply env_int_spec in En. lia.
Qed.

(** A call of [ReloadRules] on the server, with whatever the repository, the
    package variables and the cache are by then. *)
Definition reload_step (s s' : Server) : Prop :=
  exists fuel r g c, (ReloadRules fuel r s g c).1.1.2 = s'.

(** The settings that are not rules. *)
Definition settings_of (s : Server) :=
  (srv_timeout s, srv_maxStreamBytes s, srv_failOn s, srv_enforcementMode s, srv_windowLimit s, srv_overlap s,
   srv_streamSlots s, srv_inflightLimit s, srv_tenantID s).

Lemma ReloadRules_keeps fuel r s g c :
  let o := ReloadRules fuel r s g c in
  (o.1.1.1 <> None -> o.1.1.2 = s /\ o.1.2 = g /\ o.2 = c) /\
  settings_of o.1.1.2 = settings_of s /\ (server_ok s -> server_ok o.1.1.2).
Proof.
  cbv zeta. unfold ReloadRules. destruct r as [r|]; [|done]. case_bool_decide; [done|].
  destruct (LoadRulesFromDatabase _ _) as [packs|e]; simpl; [|by split_and!].
  match goal with |- context [load_both ?x _ _ _ _] => set (ps := x) end.
  pose proof (load_both_wf ps (srv_scReq s) (srv_scResp s) g c) as [Hreq Hresp].
  destruct (load_both _ _ _ _ _) as [[[req resp] g'] c']. simpl in *. split_and!; [done|done|].
  intros []. constructor; simpl; try done; [by apply (enforcing_kept _ _ (srv_scReq s))|by apply (enforcing_kept _ _ (srv_scResp s))].
Qed.

(** C21. The limits hold for as long as the server runs.  Whatever the options
    and the environment, the constructor gives positive limits, a window of
    more than 8192 bytes and an overlap smaller than it, a threshold and a
    mode; both scanners are well formed, know their direction and turn
    timeouts and errors into violations; and no reload of the rules, whatever
    is then in the repository, changes any of that. *)
Theorem server_invariant fuel opt r g c s :
  let s0 := (NewWithOptions fuel opt r g c).1.1 in
  rtc reload_step s0 s -> server_ok s /\ settings_of s = settings_of s0.
Proof.
  cbv zeta. intros Hs. pose proof (NewWithOptions_ok fuel opt r g c) as Hok. revert Hok.
  induction Hs as [s|s s1 s2 (fuel' & r' & g' & c' & <-) _ IH]; [done|]. intros Hok.
  destruct (ReloadRules_keeps fuel' r' s g' c') as (_ & Hset & Hk).
  destruct (IH (Hk Hok)) as [? E]. split; [done|]. by rewrite E.
Qed.

(** A reload that cannot list the packs reports it and keeps the old rules. *)
Lemma ReloadRules_error fuel r s g c e :
  srv_tenantID s <> uuid_Nil -> LoadRulesFromDatabase (Some r) (srv_tenantID s) = Err e ->
  ReloadRules fuel (Some r) s g c = (Some e, s, g, c).
Proof. intros Ht El. unfold ReloadRules. rewrite bool_decide_eq_false_2 by done. by rewrite El. Qed.
End Built.

(** ** Bytes in flight *)

(** Where a stream is in [processStream]: waiting for a slot, between two
    messages, waiting in the loop for the account to go down, handling a
    message for which [n] bytes are accounted ([lastReqAdded] or
    [lastRespAdded]), or gone. *)
Inductive phase :=
  | Queued
  | Reading
  | Waiting (n : Z)
  | Handling (n : Z)
  | Closed.

(** The account shared by the streams. *)
Record traffic := {
  inflightBytes : Z;
  streams : list phase;
}.

Definition accounted (p : phase) : Z := match p with Waiting n | Handling n => n | _ => 0 end.
Definition holds_slot (p : phase) : Z := match p with Queued | Closed => 0 | _ => 1 end.
Definition sum_of (f : phase -> Z) (l : list phase) : Z := foldr (fun p n => f p + n)%Z 0%Z l.

Section InFlight.
(** [inflightLimit], [streamSlots] and the largest message of the transport. *)
Context (limit : Z) (slots : option Z) (maxChunk : Z).

(** Stream [i] goes from [p] to [q], adding [d] to the account
    ([atomic.AddInt64]). *)
Definition move (i : nat) (d : Z) (q : phase) (t : traffic) : traffic :=
  {| inflightBytes := wrap64 (inflightBytes t + d); streams := <[i := q]> (streams t) |}.

Inductive traffic_step : traffic -> traffic -> Prop :=
  | step_slot t i :
      streams t !! i = Some Queued ->
      match slots with Some n => (sum_of holds_slot (streams t) < n)%Z | None => True end ->
      traffic_step t (move i 0 Reading t)
  | step_chunk t i n :
      streams t !! i = Some Reading -> (0 < limit)%Z -> (0 < n <= maxChunk)%Z ->
      traffic_step t (move i n (if (n <? limit)%Z then Waiting n else Handling n) t)
  | step_pass t i n :
      streams t !! i = Some (Waiting n) -> (inflightBytes t <= limit)%Z -> traffic_step t (move i 0 (Handling n) t)
  | step_cancelled t i n :
      streams t !! i = Some (Waiting n) -> traffic_step t (move i (- n) Closed t)
  | step_handled t i n (ends : bool) :
      streams t !! i = Some (Handling n) -> traffic_step t (move i (- n) (if ends then Closed else Reading) t)
  | step_other t i (ends : bool) :
      streams t !! i = Some Reading -> traffic_step t (move i 0 (if ends then Closed else Reading) t).

(** A server with [k] streams to come. *)
Definition idle (k : nat) : traffic := {| inflightBytes := 0; streams := replicate k Queued |}.

(** The bytes of the chunks below the limit that are being handled. *)
Definition small_handled (p : phase) : Z :=
  match p with Handling n => if (n <? limit)%Z then n else 0 | _ => 0 end.

Lemma sum_of_insert f i p q l :
  l !! i = Some p -> sum_of f (<[i := q]> l) = (sum_of f l - f p + f q)%Z.
Proof.
  revert i. induction l as [|x l IH]; intros [|i]; simpl; [done..|intros [= ->]; lia|]. intros Hi. rewrite IH by done. lia.
Qed.

Lemma sum_of_le f g l : Forall (fun p => (f p <= g p)%Z) l -> (sum_of f l <= sum_of g l)%Z.
Proof. induction 1; simpl; lia. Qed.

Lemma sum_of_bound f l m : Forall (fun p => (f p <= m)%Z) l -> (sum_of f l <= Z.of_nat (List.length l) * m)%Z.
Proof. induction 1; simpl length; simpl; lia. Qed.

Lemma sum_of_zero f l : Forall (fun p => f p = 0%Z) l -> sum_of f l = 0%Z.
Proof. induction 1; simpl; lia. Qed.

(** The invariant. *)
Record traffic_ok (k : nat) (t : traffic) : Prop := {
  tr_count : List.length (streams t) = k;
  tr_sum : inflightBytes t = sum_of accounted (streams t);
  tr_chunks : Forall (fun p => (0 <= accounted p <= maxChunk)%Z) (streams t);
  tr_small : (sum_of small_handled (streams t) <= Z.max 0 limit)%Z;
  tr_slots : forall n, slots = Some n -> (sum_of holds_slot (streams t) <= Z.max 0 n)%Z;
}.

Lemma idle_ok k : (0 <= maxChunk)%Z -> traffic_ok k (idle k).
Proof.
  intros Hm. unfold idle. assert (Hz : forall f, f Queued = 0%Z -> sum_of f (replicate k Queued) = 0%Z)
    by (intros f Hf; apply sum_of_zero; by apply Forall_replicate).
  constructor; simpl; [by rewrite length_replicate|by rewrite Hz|by apply Forall_replicate|rewrite Hz; [lia|done]|].
  intros n _. rewrite Hz; [lia|done].
Qed.

Lemma move_ok k t i p q d :
  (Z.of_nat k * maxChunk < 2^63)%Z -> traffic_ok k t -> streams t !! i = Some p ->
  d = (accounted q - accounted p)%Z -> (0 <= accounted q <= maxChunk)%Z ->
  (small_handled q <= small_handled p)%Z \/ (sum_of accounted (streams t) <= limit)%Z /\ accounted q = accounted p ->
  (forall n, slots = Some n -> holds_slot q <= holds_slot p \/ sum_of holds_slot (streams t) < n)%Z ->
  traffic_ok k (move i d q t).
Proof.
  intros Hk [Hc Hs Hch Hsm Hsl] Hi Hd Hq Hsmall Hslot.
  assert (Hch' : Forall (fun p => (0 <= accounted p <= maxChunk)%Z) (<[i := q]> (streams t))) by (by apply Forall_insert).
  assert (Hsum : (inflightBytes t + d)%Z = sum_of accounted (<[i := q]> (streams t)))
    by (rewrite (sum_of_insert _ _ p) by done; lia).
  assert (Hpos : forall l, Forall (fun p => (0 <= accounted p <= maxChunk)%Z) l -> (0 <= sum_of accounted l)%Z)
    by (induction 1; simpl; lia).
  assert (Hb : (sum_of accounted (<[i := q]> (streams t)) <= Z.of_nat k * maxChunk)%Z).
  { rewrite <-Hc, <-(length_insert _ i q). apply sum_of_bound. eapply Forall_impl; [exact Hch'|]. simpl. lia. }
  constructor; simpl; [by rewrite length_insert| |done| |].
  - rewrite wrap64_id; [done|]. specialize (Hpos _ Hch'). unfold int64_range. lia.
  - destruct Hsmall as [Hle|[Hle Heq]]; [rewrite (sum_of_insert _ _ p) by done; lia|].
    transitivity (sum_of accounted (<[i := q]> (streams t))); [|rewrite (sum_of_insert _ _ p) by done; lia].
    apply sum_of_le. eapply Forall_impl; [exact Hch'|]. intros [| |n|n|]; simpl; try lia. case_if; lia.
  - intros n Hn. rewrite (sum_of_insert _ _ p) by done. specialize (Hsl n Hn). specialize (Hslot n Hn).
    assert (0 <= holds_slot p <= 1 /\ 0 <= holds_slot q <= 1)%Z by (by destruct p, q). lia.
Qed.

Lemma traffic_step_ok k t t' :
  (Z.of_nat k * maxChunk < 2^63)%Z -> traffic_ok k t -> traffic_step t t' -> traffic_ok k t'.
Proof.
  intros Hk Hok Hstep. pose proof (tr_chunks _ _ Hok) as Hch. rewrite Forall_lookup in Hch.
  destruct Hstep as [t i Hi Hs|t i n Hi Hl Hn|t i n Hi Hle|t i n Hi|t i n e Hi|t i e Hi];
    pose proof (Hch i _ Hi) as Hp; simpl in Hp.
  - apply (move_ok k t i Queued); try done; simpl; [lia..|by left|]. intros m Hm. right. by rewrite Hm in Hs.
  - apply (move_ok k t i Reading); try done; destruct (n <? limit)%Z eqn:El; simpl; try lia;
      left; by rewrite ?El.
  - apply (move_ok k t i (Waiting n)); try done; simpl; [lia| |by left].
    right. split; [|done]. by rewrite <-(tr_sum _ _ Hok).
  - apply (move_ok k t i (Waiting n)); try done; simpl; [lia|by left|by left].
  - apply (move_ok k t i (Handling n)); try done; destruct e; simpl; try lia; by (left; destruct (n <? limit)%Z; lia).
  - apply (move_ok k t i Reading); try done; destruct e; simpl; try lia; by left.
Qed.

(** C20. The account of bytes in flight is exact and is given back.  In every
    state that streams with messages of at most [maxChunk] bytes reach, in any
    interleaving: the account is the sum of what the streams hold, so it is
    zero when all have left; the chunks below the limit that are being handled
    never exceed the limit together; and no more streams are served than there
    are slots. *)
Theorem inflight_accounting (k : nat) (t : traffic) :
  (0 <= maxChunk)%Z -> (Z.of_nat k * maxChunk < 2^63)%Z -> rtc traffic_step (idle k) t ->
  inflightBytes t = sum_of accounted (streams t) /\
  (Forall (fun p => p = Closed) (streams t) -> inflightBytes t = 0%Z) /\
  (sum_of small_handled (streams t) <= Z.max 0 limit)%Z /\
  (forall n, slots = Some n -> (sum_of holds_slot (streams t) <= Z.max 0 n)%Z).
Proof.
  intros Hm Hk Hr. assert (Hok : traffic_ok k t).
  { pose proof (idle_ok k Hm) as Hok. revert Hok. induction Hr as [|t1 t2 t3 Hs _ IH]; [done|]. intros Hok.
    by apply IH, (traffic_step_ok k t1). }
  destruct Hok as [Hc Hs Hch Hsm Hsl]. split_and!; try done. intros Hcl. rewrite Hs. apply sum_of_zero.
  eapply Forall_impl; [exact Hcl|]. by intros p ->.
Qed.
End InFlight.

(** Chunks are accounted before they wait: two chunks that fit one by one but
    not together wait for each other, and only cancelling a stream ends it. *)
Lemma inflight_deadlock :
  exists t, rtc (traffic_step 10 None 100) (idle 2) t /\ streams t = [Waiting 6; Waiting 6] /\
    forall t', traffic_step 10 None 100 t t' -> exists i, t' = move i (-6) Closed t.
Proof.
  exists {| inflightBytes := 12; streams := [Waiting 6; Waiting 6]%list |}. split_and!; [|done|].
  - eapply rtc_l; [by apply (step_slot _ _ _ _ 0)|]. eapply rtc_l; [by apply (step_slot _ _ _ _ 1)|].
    eapply rtc_l; [by apply (step_chunk _ _ _ _ 0 6)|]. 
    apply rtc_once. by refine (step_chunk 10 None 100 (move 0 6 (Waiting 6) (move 1 0 Reading (move 0 0 Reading (idle 2)))) 1 6 _ _ _).
  - intros t' Ht. inversion Ht as [t i Hi|t i n Hi|t i n Hi Hle|t i n Hi|t i n e Hi|t i e Hi]; subst; simpl in *;
      destruct i as [|[|i]]; simpl in *; simplify_eq; try lia; by eexists.
Qed.

(** ** Concrete inputs *)

Module StreamWitnesses.
Import Load.Demo.
#[local] Existing Instance literal_syntax.
#[local] Existing Instance literal_engine.
#[local] Existing Instance list_lru.
#[local] Existing Instance naive_lib.
#[local] Existing Instance bare_platform.
#[local] Existing Instance quiet_world.
#[local] Existing Instance LoaderWitnesses.demo_sources.
#[local] Instance repo_in_memory : RulepackRepo := memory_repo some_order.

Definition opt : ServerOptions :=
  {| so_Timeout := 0; so_MaxStreamBytes := 0; so_FailOn := ""; so_RulepackPath := "";
     so_EnforcementMode := " Enforce"; so_TenantID := uuid_Nil |}.
Definition srv0 : Server :=
  (NewWithOptions 10 opt None globals0 None).1.1.

(** A rule that looks for a word as it is written. *)
Definition secret_rule : Rule :=
  {| r_ID := "s"; r_Name := ""; r_Level := 1; r_Severity := "HIGH"; r_Category := ""; r_Enabled := None;
     r_Verifier := ""; r_Keywords := ["secret"]; r_Patterns := []; r_Semantic := None; r_Fallback := None;
     r_Logic := ""; r_Options := {| opt_CaseSensitive := false; opt_WholeWord := false |};
     r_Response := None; r_Cache := None; r_When := None; r_Unless := None; r_Timeout := "" |}.
Definition srv : Server :=
  with_scanners (Load.Demo.load [pack "p" None "" [secret_rule]] (srv_scReq srv0)) (srv_scResp srv0) srv0.

Definition ss0 : scan_state := {| ss_req := ∅; ss_resp := ∅; ss_calls := 0; ss_ticks := 0 |}.
Definition run (ms : list ProcessingRequest) : outcome * scan_state :=
  serve (fun _ => calm_env) (fun _ => None) false srv 0 ms stream0 ss0.

(** A word cut in two is found in the window of the second chunk. *)
Lemma cut_word_blocked :
  match (run [RequestHeaders; RequestBody "my SEC"; RequestBody "ret"; RequestTrailers]).1 with
  | Return None st => map final (sent st) = [false; false; true] /\ reason st = "s"
  | _ => False
  end.
Proof. vm_compute. done. Qed.

Lemma only_one {A} (f : compiledRule -> A) cr x :
  compiled (srv_scReq srv) = [cr] -> map f (compiled (srv_scReq srv)) = [x] -> f cr = x.
Proof. intros -> Hf. by injection Hf. Qed.

Lemma secret_compiled : exists cr, compiled (srv_scReq srv) = [cr] /\ plain_id cr /\ severe srv cr /\
  spelled_keyword srv cr "SECRET".
Proof.
  assert (Hlen : map cr_id (compiled (srv_scReq srv)) = ["s"]) by (vm_compute; reflexivity).
  destruct (compiled (srv_scReq srv)) as [|cr [|cr' crs]] eqn:Hc; [done| |done]. exists cr. split; [done|].
  split; [|split; [split; [split|]|split_and!]].
  - unfold plain_id. by rewrite (only_one cr_id cr "s").
  - rewrite Hc. apply list_elem_of_singleton. done.
  - rewrite (only_one cr_level cr 1%Z); [done|done|vm_compute; reflexivity].
  - rewrite (only_one cr_severity cr "HIGH"); [vm_compute; reflexivity|done|vm_compute; reflexivity].
  - apply (only_one (fun cr => contextMatches (cr_when cr) (cr_unless cr) (runtimeContext (srv_scReq srv))) cr true Hc).
    vm_compute. reflexivity.
  - apply (only_one cr_requireAll cr false Hc). vm_compute. reflexivity.
  - apply (only_one cr_wholeWord cr false Hc). vm_compute. reflexivity.
  - rewrite (only_one cr_caseSensitive cr false Hc) by (vm_compute; reflexivity). split; [done|].
    rewrite (only_one cr_keywords cr ["secret"] Hc); [left|]. vm_compute. reflexivity.
Qed.

Lemma srv_blocks : blocks srv.
Proof.
  constructor; [vm_compute; reflexivity..|]. destruct secret_compiled as (cr & Hc & Hid & _).
  constructor; [split; vm_compute; done|vm_compute; reflexivity..|rewrite Hc; by repeat constructor|rewrite Hc; apply NoDup_singleton].
Qed.

Definition fine : list ProcessingRequest := [RequestHeaders; RequestBody "a fine "; RequestBody ""; RequestBody "day"].

Lemma fine_served : exists st ss,
  serve (fun _ => calm_env) (fun _ => None) false srv 0 fine stream0 ss0 = (Continue st, ss).
Proof. vm_compute. eexists _, _. reflexivity. Qed.

Lemma forwarded_windows_clean_witness :
  Exists (fun cr => Forall (clean_window srv cr)
    (windows_of (srv_windowLimit srv) (srv_overlap srv) "" (request_chunks fine))) (compiled (srv_scReq srv)).
Proof.
  destruct secret_compiled as (cr & -> & _ & Hs & _), fine_served as (st & ss & Hrun). apply Exists_cons_hd.
  exact (forwarded_windows_clean (fun _ => calm_env) (fun _ => None) false srv fine ss0 st ss cr srv_blocks Hs Hrun).
Defined.

Lemma forwarded_body_has_no_keyword_witness : Contains (concat_str (request_chunks fine)) "SECRET" = false.
Proof.
  destruct secret_compiled as (cr & _ & _ & Hs & Hk), fine_served as (st & ss & Hrun).
  refine (forwarded_body_has_no_keyword (fun _ => calm_env) (fun _ => None) false srv fine ss0 st ss cr "SECRET" srv_blocks
    Hs Hk eq_refl eq_refl _ _ _ _ Hrun).
  - done.
  - vm_compute. discriminate.
  - vm_compute. discriminate.
  - apply Forall_cons. split; [vm_compute; discriminate|]. apply Forall_singleton. vm_compute. discriminate.
Defined.

Lemma sliding_window_covers_witness :
  exists w, w ∈ windows_of 16 5 "" ["my sec"; "ret"] /\ Contains w "secret" = true.
Proof.
  apply (sliding_window_covers 16 5 ["my sec"; "ret"] "secret"); [done|done|done|repeat constructor; done|].
  vm_compute. reflexivity.
Defined.

(** A word at the start of a chunk that is longer than the window is missed. *)
Lemma long_chunk_missed :
  windows_of 10 4 "" ["secret, and more of it"] = ["more of it"] /\ Contains "secret, and more of it" "secret" = true.
Proof. split; reflexivity. Qed.

Lemma server_invariant_witness : server_ok srv0 /\ srv_overlap srv0 = 4096%Z.
Proof.
  split; [|vm_compute; reflexivity].
  apply (server_invariant 10 opt None globals0 None srv0), rtc_refl.
Defined.

Lemma inflight_accounting_witness :
  inflightBytes (move 0 (-6) Closed (move 0 0 (Handling 6) (move 0 6 (Waiting 6) (move 0 0 Reading (idle 1))))) = 0%Z.
Proof.
  refine (proj1 (proj2 (inflight_accounting 10 None 100 1 _ _ _ _)) _); [done|done| |by constructor].
  eapply rtc_l; [by refine (step_slot 10 None 100 (idle 1) 0 _ _)|].
  eapply rtc_l; [by refine (step_chunk 10 None 100 _ 0 6 _ _ _)|].
  eapply rtc_l; [by refine (step_pass 10 None 100 _ 0 6 _ _)|].
  apply rtc_once. by refine (step_handled 10 None 100 _ 0 6 true _).
Defined.
End StreamWitnesses.
