(* ===== verification/Backoff.v ===== *)
(** * Backoff: delays between attempts

    src/internal/backoff/backoff.go.  Durations are 64-bit integers of
    nanoseconds; [math/rand]'s [Int63n] is a function of the next number of
    the random source, and panics (no result) when its argument is not
    positive. *)

From S2P Require Import Prelude.

Definition Millisecond : Z := 1000000.
Definition Second : Z := 1000 * Millisecond.

(** [rand.Int63n(n)]. *)
Definition Int63n (source n : Z) : option Z := if (n <=? 0)%Z then None else Some (source mod n)%Z.

(** [base << attempt] on 64-bit integers. *)
Definition shl64 (base attempt : Z) : Z := wrap64 (Z.shiftl base attempt).

Definition FullJitter (source base cap attempt : Z) : option Z :=
  let base := if (base <=? 0)%Z then (50 * Millisecond)%Z else base in
  let cap := if (cap <=? 0)%Z then (30 * Second)%Z else cap in
  let max := shl64 base attempt in
  let max := if (cap <? max)%Z then cap else max in
  let max := if (max <=? 0)%Z then cap else max in
  Int63n source max.

Definition EqualJitter (source base cap attempt : Z) : option Z :=
  let max := shl64 base attempt in
  let max := if (cap <? max)%Z then cap else max in
  let half := Z.quot max 2 in
  match Int63n source half with
  | None => None
  | Some r => Some (wrap64 (half + r))
  end.

Lemma Int63n_range source n r : Int63n source n = Some r -> (0 <= r < n)%Z.
Proof. unfold Int63n. destruct (n <=? 0)%Z eqn:E; [done|]. intros [= <-]. apply Z.mod_pos_bound. lia. Qed.

(** The delay exists and lies below the cap, whatever the attempt: the shift
    may overflow, but what is then not positive is replaced by the cap. *)
Lemma FullJitter_bounds source base cap attempt :
  let limit := if (cap <=? 0)%Z then (30 * Second)%Z else cap in
  exists d, FullJitter source base cap attempt = Some d /\ (0 <= d < limit)%Z.
Proof.
  cbv zeta. unfold FullJitter. cbv zeta.
  set (limit := if (cap <=? 0)%Z then _ else _).
  assert (Hl : (0 < limit)%Z) by (subst limit; unfold Second, Millisecond; destruct (cap <=? 0)%Z eqn:?; lia).
  set (m := shl64 _ attempt). clearbody limit m.
  set (m1 := if (limit <? m)%Z then limit else m).
  assert (H1 : (m1 <= limit)%Z) by (subst m1; destruct (limit <? m)%Z eqn:?; lia). clearbody m1.
  set (m2 := if (m1 <=? 0)%Z then limit else m1).
  assert (H2 : (0 < m2 <= limit)%Z) by (subst m2; destruct (m1 <=? 0)%Z eqn:?; lia). clearbody m2.
  destruct (Int63n source m2) as [d|] eqn:Ed.
  - exists d. split; [done|]. apply Int63n_range in Ed. lia.
  - unfold Int63n in Ed. destruct (m2 <=? 0)%Z eqn:?; [lia|done].
Qed.

(** Without overflow the delay is at least half of the exponential one, and
    below it. *)
Lemma EqualJitter_bounds source base cap attempt :
  (0 <= attempt)%Z -> (2 <= base)%Z -> (2 <= cap)%Z -> (base * 2 ^ attempt < 2 ^ 63)%Z -> (cap < 2 ^ 63)%Z ->
  let max := Z.min cap (base * 2 ^ attempt) in
  exists d, EqualJitter source base cap attempt = Some d /\ (max / 2 <= d < max)%Z.
Proof.
  intros Ha Hb Hc Ho Hcap. cbv zeta.
  assert (Hpow : (1 <= 2 ^ attempt)%Z) by (pose proof (Z.pow_pos_nonneg 2 attempt); lia).
  assert (Hs : shl64 base attempt = (base * 2 ^ attempt)%Z).
  { unfold shl64. rewrite Z.shiftl_mul_pow2 by done. apply wrap64_id. unfold int64_range. nia. }
  unfold EqualJitter. rewrite Hs.
  assert (Hm : (if (cap <? base * 2 ^ attempt)%Z then cap else (base * 2 ^ attempt)%Z) = Z.min cap (base * 2 ^ attempt))
    by (destruct (cap <? base * 2 ^ attempt)%Z eqn:?; lia).
  rewrite Hm. set (m := Z.min cap (base * 2 ^ attempt)) in *.
  assert (Hm2 : (2 <= m < 2 ^ 63)%Z) by (subst m; nia). clearbody m.
  rewrite Z.quot_div_nonneg by lia.
  assert (Hh : (1 <= m / 2)%Z) by (apply Z.div_le_lower_bound; lia).
  destruct (Int63n source (m / 2)) as [r|] eqn:Er.
  - apply Int63n_range in Er. pose proof (Z.div_mod m 2). pose proof (Z.mod_pos_bound m 2).
    assert (E : wrap64 (m / 2 + r) = (m / 2 + r)%Z) by (apply wrap64_id; unfold int64_range; lia).
    eexists. split; [reflexivity|]. rewrite E. lia.
  - unfold Int63n in Er. destruct (m / 2 <=? 0)%Z eqn:?; [lia|done].
Qed.

(** [EqualJitter] has no guard: an attempt that shifts everything out makes
    [Int63n] panic. *)
Lemma EqualJitter_panics source : EqualJitter source Second (30 * Second) 64 = None.
Proof. reflexivity. Qed.
