(* ===== verification/Updates.v ===== *)
(** * Updates: rule updates over Redis streams

    src/internal/infrastructure/messaging/nats (publisher.go, subscriber.go).
    The control plane adds a [RuleUpdate] to the stream of a tenant; an
    enforcer reads the stream as a consumer of a group, drops updates that are
    old or repeated, calls its handler and acknowledges.  Redis is seen through
    the commands the code sends: a message that was read, the acknowledgements
    and the dead letters.  JSON is the class [JsonUpdates]; the random numbers
    of the delays, the answers of Redis and the results of the handler are
    arguments. *)

From Stdlib Require Import Ascii String.
From S2P Require Import Prelude GoString Compile Repos RulepackSvc Backoff.

Class JsonUpdates := {
  Marshal_update : RuleUpdate -> string;
  Unmarshal_update : string -> result string RuleUpdate;
}.

(** ** Publishing *)

Record XAddArgs := {
  xa_Stream : string;
  xa_Values : gmap string string;
  xa_MaxLen : Z;
}.

(** [PublishRuleUpdate]: the command that is sent, if Redis is configured. *)
Definition PublishRuleUpdate `{JsonUpdates} (configured : bool) (upd : RuleUpdate) : option XAddArgs :=
  if configured
  then Some {| xa_Stream := "rulepacks.updates:" +:+ ru_TenantID upd;
               xa_Values := {["json" := Marshal_update upd]}; xa_MaxLen := 10000 |}
  else None.

(** ** The state of a tenant *)

Record recentMsg := {
  rm_id : string;
  rm_version : Z;
  rm_sha256 : string;
  rm_receivedAt : Z;
}.

Record tenantState := {
  lastAppliedVersion : Z;
  recentMessages : list (option recentMsg);
  bufferCapacity : nat;
  bufferIdx : nat;
  evictionDuration : Z;
}.

Definition newTenantState (cap : nat) (eviction : Z) : tenantState :=
  {| lastAppliedVersion := 0; recentMessages := replicate cap None; bufferCapacity := cap; bufferIdx := 0;
     evictionDuration := eviction |}.

Definition with_recent (l : list (option recentMsg)) (ts : tenantState) : tenantState :=
  {| lastAppliedVersion := lastAppliedVersion ts; recentMessages := l; bufferCapacity := bufferCapacity ts;
     bufferIdx := bufferIdx ts; evictionDuration := evictionDuration ts |}.

(** An entry that is older than the eviction time is removed. *)
Definition evict (eviction now : Z) (m : option recentMsg) : option recentMsg :=
  match m with
  | Some m => if (eviction <? now - rm_receivedAt m)%Z then None else Some m
  | None => None
  end.

(** [isDuplicate]: it evicts first. *)
Definition isDuplicate (sha256 : string) (now : Z) (ts : tenantState) : bool * tenantState :=
  let ts := with_recent (map (evict (evictionDuration ts) now) (recentMessages ts)) ts in
  (existsb (fun m => match m with Some m => bool_decide (rm_sha256 m = sha256) | None => false end)
     (recentMessages ts), ts).

(** [addRecent]; an index out of range panics. *)
Definition addRecent (id : string) (version : Z) (sha256 : string) (now : Z) (ts : tenantState) : option tenantState :=
  if bufferIdx ts <? List.length (recentMessages ts) then
    Some {| lastAppliedVersion := lastAppliedVersion ts;
            recentMessages := <[bufferIdx ts := Some {| rm_id := id; rm_version := version; rm_sha256 := sha256;
                                                        rm_receivedAt := now |}]> (recentMessages ts);
            bufferCapacity := bufferCapacity ts;
            bufferIdx := (bufferIdx ts + 1) mod bufferCapacity ts;
            evictionDuration := evictionDuration ts |}
  else None.

Definition with_version (v : Z) (ts : tenantState) : tenantState :=
  {| lastAppliedVersion := v; recentMessages := recentMessages ts; bufferCapacity := bufferCapacity ts;
     bufferIdx := bufferIdx ts; evictionDuration := evictionDuration ts |}.

(** ** Messages *)

Record XMessage := {
  xm_ID : string;
  xm_Values : gmap string string;
}.

(** The subscriber: the states of the tenants, and what it has sent to Redis
    and applied so far. *)
Record Subscriber := {
  tenants : gmap string tenantState;
  acked : list string;
  dlq : list (string * string);
  applied : list (string * RuleUpdate);
}.

Definition NewSubscriber : Subscriber := {| tenants := ∅; acked := []; dlq := []; applied := [] |}.

Definition XAck (id : string) (s : Subscriber) : Subscriber :=
  {| tenants := tenants s; acked := acked s ++ [id]; dlq := dlq s; applied := applied s |}.
Definition set_tenant (t : string) (ts : tenantState) (s : Subscriber) : Subscriber :=
  {| tenants := <[t := ts]> (tenants s); acked := acked s; dlq := dlq s; applied := applied s |}.
Definition routeToDLQ (msg : XMessage) (why : string) (s : Subscriber) : Subscriber :=
  XAck (xm_ID msg) {| tenants := tenants s; acked := acked s; dlq := dlq s ++ [(xm_ID msg, why)]; applied := applied s |}.
Definition note_applied (t : string) (u : RuleUpdate) (s : Subscriber) : Subscriber :=
  {| tenants := tenants s; acked := acked s; dlq := dlq s; applied := applied s ++ [(t, u)] |}.

(** What became of a message. *)
Inductive fate :=
  | DeadLettered
  | Stale
  | Duplicate
  | Failed
  | Applied.

Section Consume.
Context `{JsonUpdates}.

(** [s.tenantState[msg.Values["tenant_id"].(string)]]: the state of the tenant
    named in the message, a new one if there is none. *)
Definition state_of (t : string) (s : Subscriber) : tenantState * Subscriber :=
  match tenants s !! t with
  | Some ts => (ts, s)
  | None => let ts := newTenantState 10 (30 * Second) in (ts, set_tenant t ts s)
  end.

(** The body of the loop over the messages; [handler] says whether the handler
    succeeds.  [None] is a panic: the type assertion on a value that is
    missing. *)
Definition process_message (handler : RuleUpdate -> bool) (now : Z) (msg : XMessage) (s : Subscriber) :
    option (fate * Subscriber) :=
  match xm_Values msg !! "json" with
  | None => Some (DeadLettered, routeToDLQ msg "malformed_json" s)
  | Some jsonData =>
    t ← xm_Values msg !! "tenant_id";
    let '(ts, s) := state_of t s in
    match Unmarshal_update jsonData with
    | Err _ => Some (DeadLettered, routeToDLQ msg "parse_error" s)
    | Ok update =>
      if (ru_Version update <=? lastAppliedVersion ts)%Z then Some (Stale, XAck (xm_ID msg) s)
      else
        let '(dup, ts) := isDuplicate (ru_ContentSHA256 update) now ts in
        if dup then Some (Duplicate, XAck (xm_ID msg) (set_tenant t ts s))
        else if negb (handler update) then Some (Failed, set_tenant t ts s)
        else
          ts ← addRecent (xm_ID msg) (ru_Version update) (ru_ContentSHA256 update) now
                 (with_version (ru_Version update) ts);
          Some (Applied, XAck (xm_ID msg) (note_applied t update (set_tenant t ts s)))
    end
  end.

(** Messages one after the other, each with the time it is handled and the
    result of the handler. *)
Fixpoint consume (ms : list (Z * (RuleUpdate -> bool) * XMessage)) (s : Subscriber) : option (list fate * Subscriber) :=
  match ms with
  | [] => Some ([], s)
  | (now, handler, msg) :: ms =>
    '(f, s) ← process_message handler now msg s;
    '(fs, s) ← consume ms s;
    Some (f :: fs, s)
  end.
End Consume.

(** ** The loop of [Start] *)

(** What Redis answers to a poll. *)
Inductive read_result :=
  | NoMessages
  | ReadFailed
  | Messages (pending : option Z).

Definition maxFailures : Z := 5.
Definition baseBackoff : Z := Second.
Definition maxBackoff : Z := 30 * Second.

(** One turn of the loop: the new number of consecutive failures, the times it
    slept, and whether messages were read; [None] is a panic of the random
    source. *)
Definition poll (source : Z) (ping_ok : bool) (read : read_result) (failures : Z) : option (Z * list Z * bool) :=
  backoffDur ← (if (0 <? failures)%Z then EqualJitter source baseBackoff maxBackoff failures else Some 0%Z);
  let opened := (maxFailures <=? failures)%Z in
  let sleeps := if opened then [backoffDur] else [] in
  if opened && negb ping_ok then Some (maxFailures, sleeps, false)
  else
    let failures := if opened then (maxFailures - 1)%Z else failures in
    let sleeps := sleeps ++ (if (0 <? backoffDur)%Z then [backoffDur] else []) in
    match read with
    | NoMessages => Some (0%Z, sleeps, false)
    | ReadFailed => Some ((failures + 1)%Z, sleeps, false)
    | Messages pending =>
      let backoffDur := match pending with
                        | Some count =>
                          if (1000 <? count)%Z
                          then let d := wrap64 (backoffDur + wrap64 (Z.quot count 100 * Millisecond)) in
                               if (10 * Second <? d)%Z then (10 * Second)%Z else d
                          else backoffDur
                        | None => backoffDur
                        end in
      Some (0%Z, sleeps ++ (if (0 <? backoffDur)%Z then [backoffDur] else []), true)
    end.

(** Polls one after the other. *)
Fixpoint polls (ps : list (Z * bool * read_result)) (failures : Z) : option (Z * list Z) :=
  match ps with
  | [] => Some (failures, [])
  | (source, ping_ok, read) :: ps =>
    '(failures, sleeps, _) ← poll source ping_ok read failures;
    '(failures, more) ← polls ps failures;
    Some (failures, sleeps ++ more)
  end.

(** ** Facts *)

(** Tenant states: the ring has its capacity and the next position is in it. *)
Record tenant_ok (ts : tenantState) : Prop := {
  ts_len : List.length (recentMessages ts) = bufferCapacity ts;
  ts_idx : bufferIdx ts < bufferCapacity ts;
  ts_last : (0 <= lastAppliedVersion ts)%Z;
}.

(** The versions applied for a tenant, in order, and the last of them. *)
Definition versions_for (t : string) (s : Subscriber) : list Z :=
  map (fun tu => ru_Version tu.2) (filter (fun tu => tu.1 = t) (applied s)).
Definition last_for (t : string) (s : Subscriber) : Z :=
  default 0%Z (lastAppliedVersion <$> tenants s !! t).

Record subscriber_ok (s : Subscriber) : Prop := {
  so_tenants : map_Forall (fun _ ts => tenant_ok ts) (tenants s);
  so_sorted : forall t, StronglySorted Z.lt (versions_for t s);
  so_last : forall t, Forall (fun v => (0 < v <= last_for t s)%Z) (versions_for t s);
}.

Lemma new_tenant_ok : tenant_ok (newTenantState 10 (30 * Second)).
Proof. constructor; simpl; lia. Qed.

Lemma isDuplicate_ok sha now ts :
  tenant_ok ts -> tenant_ok (isDuplicate sha now ts).2 /\
  lastAppliedVersion (isDuplicate sha now ts).2 = lastAppliedVersion ts.
Proof. intros []. split; [|done]. constructor; simpl; [by rewrite length_map|done|done]. Qed.

Lemma addRecent_ok id v sha now ts :
  tenant_ok ts -> exists ts', addRecent id v sha now ts = Some ts' /\ tenant_ok ts' /\
    lastAppliedVersion ts' = lastAppliedVersion ts.
Proof.
  intros [Hl Hi H0]. unfold addRecent. destruct (bufferIdx ts <? _) eqn:E; [|apply Nat.ltb_ge in E; lia].
  eexists. split; [reflexivity|]. split; [|done]. constructor; simpl; [by rewrite length_insert| |done].
  apply Nat.mod_upper_bound. lia.
Qed.

(** The invariant only depends on the states and the applied updates. *)
Lemma subscriber_ok_ext s s' :
  tenants s' = tenants s -> applied s' = applied s -> subscriber_ok s -> subscriber_ok s'.
Proof.
  intros Ht Ha [H1 H2 H3]. constructor; [by rewrite Ht|..]; intros t; unfold versions_for, last_for; rewrite ?Ht, Ha; [apply H2|apply H3].
Qed.

(** Replacing the state of a tenant by one with the same version. *)
Lemma set_tenant_ok t ts s :
  subscriber_ok s -> tenant_ok ts -> lastAppliedVersion ts = last_for t s -> subscriber_ok (set_tenant t ts s).
Proof.
  intros [Ht Hs Hl] Hok Hv. constructor; simpl; [by apply map_Forall_insert_2|done|].
  intros t'. specialize (Hl t'). eapply Forall_impl; [exact Hl|]. intros v Hle. unfold last_for in *. simpl.
  destruct (decide (t = t')) as [<-|Hne]; [rewrite lookup_insert_eq; simpl; lia|by rewrite lookup_insert_ne].
Qed.

(** An update that is newer than the last one is applied. *)
Lemma note_applied_ok t u ts s :
  subscriber_ok s -> tenant_ok ts -> lastAppliedVersion ts = ru_Version u -> (last_for t s < ru_Version u)%Z ->
  subscriber_ok (note_applied t u (set_tenant t ts s)).
Proof.
  intros [Ht Hs Hl] Hok Hv Hlt.
  assert (H0 : (0 <= last_for t s)%Z).
  { unfold last_for. destruct (tenants s !! t) as [ts0|] eqn:E; simpl; [|lia]. by apply Ht in E as []. }
  assert (Hvs : forall t', versions_for t' (note_applied t u (set_tenant t ts s)) =
    versions_for t' s ++ (if decide (t = t') then [ru_Version u] else [])).
  { intros t'. unfold versions_for. simpl. rewrite filter_app, map_app, filter_cons, filter_nil. simpl. by case_decide. }
  assert (Hlast : forall t', last_for t' (note_applied t u (set_tenant t ts s)) =
    if decide (t = t') then ru_Version u else last_for t' s).
  { intros t'. unfold last_for. simpl. case_decide; [subst; by rewrite lookup_insert_eq|by rewrite lookup_insert_ne]. }
  constructor; [by apply map_Forall_insert_2|..]; intros t'; rewrite Hvs, ?Hlast; case_decide as E; rewrite ?app_nil_r; auto.
  - subst. apply StronglySorted_snoc; [done|]. eapply Forall_impl; [apply Hl|]. simpl. lia.
  - subst. apply Forall_app. split; [|constructor; [lia|constructor]].
    eapply Forall_impl; [apply Hl|]. simpl. lia.
Qed.

Section ConsumeFacts.
Context `{JsonUpdates}.

(** A message with an update names its tenant. *)
Definition addressed (msg : XMessage) : Prop :=
  is_Some (xm_Values msg !! "json") -> is_Some (xm_Values msg !! "tenant_id").

Definition settled (f : fate) : bool := match f with Failed => false | _ => true end.
Definition dead (f : fate) : bool := match f with DeadLettered => true | _ => false end.
Definition was_applied (f : fate) : bool := match f with Applied => true | _ => false end.

(** What handling a message leaves behind. *)
Definition recorded (msg : XMessage) (f : fate) (s s' : Subscriber) : Prop :=
  acked s' = acked s ++ (if settled f then [xm_ID msg] else []) /\
  map fst (dlq s') = map fst (dlq s) ++ (if dead f then [xm_ID msg] else []) /\
  List.length (applied s') = List.length (applied s) + (if was_applied f then 1 else 0).

Lemma state_of_ok t s :
  subscriber_ok s ->
  subscriber_ok (state_of t s).2 /\ tenant_ok (state_of t s).1 /\ lastAppliedVersion (state_of t s).1 = last_for t (state_of t s).2 /\
  acked (state_of t s).2 = acked s /\ dlq (state_of t s).2 = dlq s /\ applied (state_of t s).2 = applied s.
Proof.
  intros Hok. unfold state_of. destruct (tenants s !! t) as [ts|] eqn:E; simpl.
  - split_and!; [done|by apply (so_tenants s Hok) in E| |done..]. unfold last_for. by rewrite E.
  - split_and!; [|apply new_tenant_ok| |done..]; [|unfold last_for; simpl; by rewrite lookup_insert_eq].
    apply set_tenant_ok; [done|apply new_tenant_ok|]. unfold last_for. by rewrite E.
Qed.

Lemma process_message_ok handler now msg s :
  subscriber_ok s -> addressed msg ->
  exists f s', process_message handler now msg s = Some (f, s') /\ subscriber_ok s' /\ recorded msg f s s'.
Proof.
  intros Hok Haddr. unfold process_message. destruct (xm_Values msg !! "json") as [data|] eqn:Ej.
  2:{ eexists _, _. split; [reflexivity|]. split; [by apply (subscriber_ok_ext s)|].
      split_and!; simpl; [done|by rewrite map_app|lia]. }
  destruct Haddr as [t ->]; [by rewrite Ej|]. cbn [mbind option_bind].
  destruct (state_of_ok t s Hok) as (Hok1 & Hts & Hlast & Hack & Hdlq & Happ).
  destruct (state_of t s) as [ts s1]. cbn [fst snd] in *. unfold recorded. rewrite <-Hack, <-Hdlq, <-Happ. clear Hack Hdlq Happ.
  destruct (Unmarshal_update data) as [u|e].
  2:{ eexists _, _. split; [reflexivity|]. split; [by apply (subscriber_ok_ext s1)|].
      split_and!; simpl; [done|by rewrite map_app|lia]. }
  destruct (ru_Version u <=? lastAppliedVersion ts)%Z eqn:Ev.
  { eexists _, _. split; [reflexivity|]. split; [by apply (subscriber_ok_ext s1)|].
    split_and!; simpl; [done|by rewrite app_nil_r|lia]. }
  destruct (isDuplicate_ok (ru_ContentSHA256 u) now ts Hts) as [Hts2 Hlast2].
  destruct (isDuplicate _ _ ts) as [dup ts2]. simpl in Hts2, Hlast2. rewrite Hlast in Hlast2.
  pose proof (set_tenant_ok t ts2 s1 Hok1 Hts2 Hlast2) as Hok2. destruct dup.
  { eexists _, _. split; [reflexivity|]. split; [by apply (subscriber_ok_ext (set_tenant t ts2 s1))|].
    split_and!; simpl; [done|by rewrite app_nil_r|lia]. }
  destruct (handler u); cbn [negb].
  2:{ eexists _, _. split; [reflexivity|]. split; [done|]. split_and!; simpl; rewrite ?app_nil_r; [done|done|lia]. }
  destruct (addRecent_ok (xm_ID msg) (ru_Version u) (ru_ContentSHA256 u) now (with_version (ru_Version u) ts2))
    as (ts3 & -> & Hts3 & Hlast3); [destruct Hts2; constructor; simpl; [done|done|lia]|]. simpl in *.
  eexists _, _. split; [reflexivity|]. split.
  - apply (subscriber_ok_ext (note_applied t u (set_tenant t ts3 s1))); [done|done|]. apply note_applied_ok; [done..|lia].
  - split_and!; simpl; [done|by rewrite app_nil_r|rewrite length_app; simpl; lia].
Qed.

Lemma new_subscriber_ok : subscriber_ok NewSubscriber.
Proof. constructor; [apply map_Forall_empty|intros t; constructor|intros t; constructor]. Qed.

(** The identifiers of the messages with a given kind of fate. *)
Fixpoint picked (p : fate -> bool) (ms : list (Z * (RuleUpdate -> bool) * XMessage)) (fs : list fate) : list string :=
  match ms, fs with
  | (_, _, msg) :: ms, f :: fs => (if p f then [xm_ID msg] else []) ++ picked p ms fs
  | _, _ => []
  end.

Lemma consume_ok ms s :
  subscriber_ok s -> Forall (fun m => addressed m.2) ms ->
  exists fs s', consume ms s = Some (fs, s') /\ subscriber_ok s' /\ List.length fs = List.length ms /\
    acked s' = acked s ++ picked settled ms fs /\
    map fst (dlq s') = map fst (dlq s) ++ picked dead ms fs /\
    List.length (applied s') = List.length (applied s) + List.length (picked was_applied ms fs).
Proof.
  intros Hok Hms. revert s Hok. induction Hms as [|[[now handler] msg] ms Ha _ IH]; intros s Hok; simpl.
  { exists [], s. rewrite !app_nil_r. split_and!; [done..|lia]. }
  destruct (process_message_ok handler now msg s Hok Ha) as (f & s1 & -> & Hok1 & Hk & Hd & Hp). simpl.
  destruct (IH s1 Hok1) as (fs & s2 & -> & Hok2 & Hlen & Hk2 & Hd2 & Hp2). simpl.
  exists (f :: fs), s2. split_and!; [done|done|simpl; lia|by rewrite Hk2, Hk, app_assoc|by rewrite Hd2, Hd, app_assoc|].
  rewrite Hp2, Hp, length_app. destruct (was_applied f); simpl; lia.
Qed.

(** Updates are applied in order and every message is accounted for.  On
    messages that name their tenant, which those of the publisher do not (see
    below), the loop never panics; each message is
    acknowledged exactly once, in order, unless its handler failed; exactly
    the unreadable ones are dead letters; and for every tenant the versions
    that were applied are positive and strictly increasing. *)
Theorem updates_applied_in_order (ms : list (Z * (RuleUpdate -> bool) * XMessage)) :
  Forall (fun m => addressed m.2) ms ->
  exists fs s, consume ms NewSubscriber = Some (fs, s) /\ List.length fs = List.length ms /\
    acked s = picked settled ms fs /\ map fst (dlq s) = picked dead ms fs /\
    List.length (applied s) = List.length (picked was_applied ms fs) /\
    forall t, StronglySorted Z.lt (versions_for t s) /\ Forall (fun v => (0 < v)%Z) (versions_for t s).
Proof.
  intros Hms. destruct (consume_ok ms NewSubscriber new_subscriber_ok Hms) as (fs & s & E & Hok & Hl & Hk & Hd & Hp).
  exists fs, s. split_and!; [done..|]. intros t. split; [apply (so_sorted s Hok)|].
  eapply Forall_impl; [apply (so_last s Hok)|]. simpl. lia.
Qed.

(** The publisher does not name the tenant in the message, only inside the
    JSON: every update it publishes makes the subscriber panic. *)
Lemma published_update_panics handler now id u args s :
  PublishRuleUpdate true u = Some args ->
  process_message handler now {| xm_ID := id; xm_Values := xa_Values args |} s = None.
Proof. intros [= <-]. unfold process_message. simpl. by rewrite lookup_singleton_eq. Qed.

(** Deleting a pack is announced with version -1, which no subscriber applies. *)
Lemma deletion_never_applied handler now msg t data u s f s' :
  subscriber_ok s -> xm_Values msg !! "json" = Some data -> xm_Values msg !! "tenant_id" = Some t ->
  Unmarshal_update data = Ok u -> ru_Version u = (-1)%Z ->
  process_message handler now msg s = Some (f, s') -> f = Stale.
Proof.
  intros Hok Hj Ht Hu Hv. unfold process_message. rewrite Hj, Ht. simpl.
  destruct (state_of_ok t s Hok) as (_ & [_ _ H0] & _). destruct (state_of t s) as [ts s1]. simpl in *. rewrite Hu, Hv.
  replace (-1 <=? lastAppliedVersion ts)%Z with true by lia. by intros [= <- _].
Qed.

(** Versions are compared per tenant and not per pack: once a version of one
    pack is applied, no update of another pack with a smaller or equal version
    is. *)
Lemma other_pack_is_stale handler now msg t data u ts s :
  tenants s !! t = Some ts -> xm_Values msg !! "json" = Some data -> xm_Values msg !! "tenant_id" = Some t ->
  Unmarshal_update data = Ok u -> (ru_Version u <= lastAppliedVersion ts)%Z ->
  process_message handler now msg s = Some (Stale, XAck (xm_ID msg) s).
Proof.
  intros Hts Hj Ht Hu Hv. unfold process_message, state_of. rewrite Hj, Ht. simpl. rewrite Hts, Hu.
  by replace (ru_Version u <=? lastAppliedVersion ts)%Z with true by lia.
Qed.
End ConsumeFacts.

(** ** The circuit breaker *)

Lemma backoff_bounds source failures :
  (1 <= failures <= maxFailures)%Z ->
  exists d, EqualJitter source baseBackoff maxBackoff failures = Some d /\ (Second <= d < maxBackoff)%Z.
Proof.
  unfold maxFailures, baseBackoff, maxBackoff. intros Hf.
  assert (Hp : (2 <= 2 ^ failures <= 32)%Z).
  { split; [apply (Z.pow_le_mono_r 2 1); lia|apply (Z.pow_le_mono_r 2 failures 5); lia]. }
  destruct (EqualJitter_bounds source Second (30 * Second) failures) as (d & E & Hd);
    [lia|unfold Second, Millisecond; lia|unfold Second, Millisecond; lia|unfold Second, Millisecond; lia|unfold Second, Millisecond; lia|].
  exists d. split; [exact E|]. revert Hd. set (m := Z.min _ _).
  assert (Hm : (2 * Second <= m <= 30 * Second)%Z) by (subst m; unfold Second, Millisecond; lia). clearbody m.
  intros Hd. assert (Second <= m / 2)%Z by (apply Z.div_le_lower_bound; lia). lia.
Qed.

Lemma poll_ok source ping_ok read failures :
  (0 <= failures <= maxFailures)%Z ->
  exists failures' sleeps got, poll source ping_ok read failures = Some (failures', sleeps, got) /\
    (0 <= failures' <= maxFailures)%Z /\ Forall (fun d => (0 < d < maxBackoff)%Z) sleeps.
Proof.
  intros Hf. unfold poll.
  assert (Hd : exists d, (if (0 <? failures)%Z then EqualJitter source baseBackoff maxBackoff failures else Some 0%Z) = Some d /\
    (0 <= d < maxBackoff)%Z /\ ((0 < failures)%Z -> (0 < d)%Z)).
  { destruct (0 <? failures)%Z eqn:E.
    - destruct (backoff_bounds source failures) as (d & -> & Hd); [lia|]. exists d. split; [done|].
      unfold Second, Millisecond in Hd. lia.
    - exists 0%Z. unfold maxBackoff, Second, Millisecond. split; [done|]. lia. }
  destruct Hd as (d & -> & Hd & Hpos). cbn [mbind option_bind].
  set (opened := (maxFailures <=? failures)%Z). set (first := if opened then [d] else []).
  assert (H1 : Forall (fun d => (0 < d < maxBackoff)%Z) first).
  { subst first opened. destruct (maxFailures <=? failures)%Z eqn:E; constructor; [|constructor].
    unfold maxFailures in *. lia. }
  assert (Hmay : forall x, (x < maxBackoff)%Z -> Forall (fun d => (0 < d < maxBackoff)%Z) (if (0 <? x)%Z then [x] else [])).
  { intros x Hx. destruct (0 <? x)%Z eqn:E; constructor; [lia|constructor]. }
  destruct (opened && negb ping_ok).
  { eexists _, _, _. split; [reflexivity|]. split; [unfold maxFailures; lia|done]. }
  assert (H2 : (0 <= (if opened then maxFailures - 1 else failures) < maxFailures)%Z)
    by (subst opened; unfold maxFailures in *; destruct (5 <=? failures)%Z eqn:?; lia).
  destruct read as [| |pending]; (eexists _, _, _; split; [reflexivity|]); (split; [unfold maxFailures in *; lia|]);
    rewrite ?Forall_app; split_and!; try done; try (apply Hmay; lia).
  apply Hmay. destruct pending as [count|]; [|lia]. destruct (1000 <? count)%Z; [|lia].
  destruct (10 * Second <? _)%Z eqn:E; unfold maxBackoff, Second, Millisecond in *; lia.
Qed.

(** C40. The circuit breaker is bounded.  Whatever Redis answers and whatever
    the random source gives, the loop never panics in its delays, the count of
    consecutive failures stays within [0, 5], and every sleep is positive and
    shorter than thirty seconds. *)
Theorem breaker_bounds (ps : list (Z * bool * read_result)) :
  exists failures sleeps, polls ps 0 = Some (failures, sleeps) /\
    (0 <= failures <= maxFailures)%Z /\ Forall (fun d => (0 < d < maxBackoff)%Z) sleeps.
Proof.
  assert (Hgen : forall f, (0 <= f <= maxFailures)%Z -> exists failures sleeps, polls ps f = Some (failures, sleeps) /\
    (0 <= failures <= maxFailures)%Z /\ Forall (fun d => (0 < d < maxBackoff)%Z) sleeps).
  { induction ps as [|[[source ping_ok] read] ps IH]; intros f Hf; cbn [polls]; [by exists f, []|].
    destruct (poll_ok source ping_ok read f Hf) as (f1 & sl & got & -> & Hf1 & Hsl). cbn [mbind option_bind].
    destruct (IH f1 Hf1) as (f2 & more & -> & Hf2 & Hm). cbn [mbind option_bind].
    exists f2, (sl ++ more). split; [done|]. split; [done|]. by apply Forall_app. }
  apply Hgen. unfold maxFailures. lia.
Qed.

(** ** Concrete inputs *)

Module UpdateWitnesses.
(** A codec for the example: the text is the name of an update. *)
Definition update (pack : string) (version : Z) (sha : string) : RuleUpdate :=
  {| ru_TenantID := "t"; ru_TargetScope := "global"; ru_RulepackID := pack; ru_Version := version; ru_ContentSHA256 := sha |}.
#[local] Instance codec : JsonUpdates :=
  {| Marshal_update u := ru_RulepackID u;
     Unmarshal_update s := if bool_decide (s = "a1") then Ok (update "a" 1 "x")
                           else if bool_decide (s = "a2") then Ok (update "a" 2 "y")
                           else if bool_decide (s = "b1") then Ok (update "b" 1 "z")
                           else Err "json" |}.
Definition message (id text : string) : XMessage :=
  {| xm_ID := id; xm_Values := {["json" := text; "tenant_id" := "t"]} |}.
Definition yes (_ : RuleUpdate) : bool := true.
Definition no (_ : RuleUpdate) : bool := false.

(** The second pack's first version is dropped once version 2 of the first is
    applied. *)
Lemma second_pack_dropped :
  (consume [(1, yes, message "1" "a1"); (2, no, message "2" "a2"); (3, yes, message "3" "a2"); (4, yes, message "4" "b1");
            (5, yes, message "5" "?")]%Z NewSubscriber) ≫= (fun r => Some (r.1, acked r.2)) =
  Some ([Applied; Failed; Applied; Stale; DeadLettered], ["1"; "3"; "4"; "5"]).
Proof. vm_compute. reflexivity. Qed.

Lemma updates_applied_in_order_witness :
  let ms := [(1, yes, message "1" "a1"); (2, yes, message "2" "a2")]%Z in
  exists fs s, consume ms NewSubscriber = Some (fs, s) /\ length fs = 2 /\ acked s = picked settled ms fs.
Proof.
  cbv zeta. destruct (updates_applied_in_order [(1, yes, message "1" "a1"); (2, yes, message "2" "a2")]%Z)
    as (fs & s & E & Hl & Ha & _).
  - repeat constructor; intros _; vm_compute; by eexists.
  - exists fs, s. split; [exact E|]. split; [exact Hl|exact Ha].
Defined.
End UpdateWitnesses.
