(* ===== verification/AuditTrail.v ===== *)
(** * AuditTrail: the audit trail

    src/internal/audit: logger.go (redaction, canonical form, hash chain),
    rotating.go, kafka.go, postgres.go and factory.go.  SHA-256 is the class
    [Digest]; [encoding/json] is written out for the values the code gives it.
    What a logger writes is a list of events; the errors of the encoder, the
    broker and the database are arguments.  The values of an event are those
    that [encoding/json] can write. *)

From Stdlib Require Import Ascii String.
From S2P Require Import Prelude GoString Unicode Verifiers Engine Compile Loader Repos Redact RulepackSvc.

(** ** Values *)

(** A value of an event.  A map is given by its entries in the order in which
    Go ranges over it; [AOther] is any other value, by its JSON text. *)
Inductive any :=
  | AString (s : string)
  | AStrings (l : list string)
  | ASlice (l : list any)
  | AMap (kvs : list (string * any))
  | AOther (text : string).

(** The data of an event: nil, or a map. *)
Record Event := {
  ev_Timestamp : Z;
  ev_Type : string;
  ev_Data : option (list (string * any));
  ev_Hash : string;
  ev_PrevHash : string;
}.

(** ** JSON *)

Inductive json :=
  | JText (text : string)
  | JString (s : string)
  | JArray (l : list json)
  | JObject (fields : list (string * json)).

Definition hex_digit (n : Z) : ascii := of_byte (if (n <? 10)%Z then 48 + n else 87 + n)%Z.

(** How [encoding/json] writes a rune given with its bytes; a byte that is no
    rune is written as the replacement character. *)
Definition quote_rune (rb : Z * list Z) : string :=
  let '(r, bs) := rb in
  let u4 (n : Z) : string :=
    "\u" +:+ String (hex_digit (n / 4096 mod 16)) (String (hex_digit (n / 256 mod 16))
      (String (hex_digit (n / 16 mod 16)) (String (hex_digit (n mod 16)) ""))) in
  if (r =? 34)%Z then "\" +:+ q
  else if (r =? 92)%Z then "\\"
  else if (r =? 8)%Z then "\b"
  else if (r =? 12)%Z then "\f"
  else if (r =? 10)%Z then "\n"
  else if (r =? 13)%Z then "\r"
  else if (r =? 9)%Z then "\t"
  else if ((r <? 32) || (r =? 60) || (r =? 62) || (r =? 38))%Z then u4 r
  else if ((r =? RuneError) && (Z.of_nat (List.length bs) =? 1))%Z then "\ufffd"
  else if ((r =? 8232) || (r =? 8233))%Z then u4 r
  else of_bytes bs.

Fixpoint concat_text (l : list string) : string := match l with [] => "" | s :: l => s +:+ concat_text l end.

Definition quote_json (s : string) : string :=
  q +:+ concat_text (map quote_rune (rune_chunks (bytes s))) +:+ q.

(** [json.Marshal]. *)
Fixpoint Marshal (j : json) : string :=
  match j with
  | JText t => t
  | JString s => quote_json s
  | JArray l => "[" +:+ Join "," (map Marshal l) +:+ "]"
  | JObject fs => "{" +:+ Join "," (map (fun '(k, v) => quote_json k +:+ ":" +:+ Marshal v) fs) +:+ "}"
  end.

(** ** Redaction *)

Section Sanitize.
Context `{RegexpEngine} (redacting : bool).

Fixpoint sanitizeValue (v : any) : any :=
  match v with
  | AString s => AString (Redact redacting s)
  | AMap kvs => AMap (map (fun '(k, x) => (k, sanitizeValue x)) kvs)
  | ASlice l => ASlice (map sanitizeValue l)
  | AStrings l => AStrings (map (Redact redacting) l)
  | AOther t => AOther t
  end.

Definition SanitizeMap (m : list (string * any)) : list (string * any) := map (fun '(k, x) => (k, sanitizeValue x)) m.
End Sanitize.

(** ** The hash of an event *)

(** The entry of a map in canonical form. *)
Definition canonKV (k : string) (v : json) : json := JObject [("k", JString k); ("v", v)].

(** The entries in the order of their keys. *)
Definition canon_entries (kvs : list (string * json)) : list json :=
  let m : gmap string json := list_to_map kvs in
  omap (fun k => canonKV k <$> m !! k) (sort_strings (map fst kvs)).

Fixpoint canonicalize (v : any) : json :=
  match v with
  | AMap kvs => JArray (canon_entries (map (fun '(k, x) => (k, canonicalize x)) kvs))
  | ASlice l => JArray (map canonicalize l)
  | AString s => JString s
  | AStrings l => JArray (map JString l)
  | AOther t => JText t
  end.

(** The payload; nil data is canonicalized as an empty map. *)
Definition canonEvent (e : Event) : json :=
  JObject [("t", JText (Itoa (ev_Timestamp e))); ("y", JString (ev_Type e));
           ("d", canonicalize (AMap (default [] (ev_Data e)))); ("p", JString (ev_PrevHash e))].

Section Log.
Context `{RegexpEngine, Digest} (redacting : bool).

Definition hashEvent (e : Event) : string := sha256_hex (Marshal (canonEvent e)).

(** Sanitized, stamped and hashed, as the loggers do before they write. *)
Definition stamp (now : Z) (prev : string) (e : Event) : Event :=
  let e := {| ev_Timestamp := now; ev_Type := ev_Type e; ev_Data := SanitizeMap redacting <$> ev_Data e;
              ev_Hash := ev_Hash e; ev_PrevHash := prev |} in
  {| ev_Timestamp := now; ev_Type := ev_Type e; ev_Data := ev_Data e; ev_Hash := hashEvent e; ev_PrevHash := prev |}.

(** ** The file logger *)

Record FileLogger := {
  prevSum : string;
  written : list Event;
}.

Definition NewFileLogger : FileLogger := {| prevSum := ""; written := [] |}.

Definition Log (now : Z) (enc_err : option string) (e : Event) (l : FileLogger) : option string * FileLogger :=
  let e := stamp now (prevSum l) e in
  match enc_err with
  | Some err => (Some err, l)
  | None => (None, {| prevSum := ev_Hash e; written := written l ++ [e] |})
  end.

(** [RotatingFileLogger.Log]: the data is sanitized twice. *)
Definition rotating_Log (now : Z) (enc_err : option string) (e : Event) (l : FileLogger) : option string * FileLogger :=
  Log now enc_err {| ev_Timestamp := ev_Timestamp e; ev_Type := ev_Type e; ev_Data := SanitizeMap redacting <$> ev_Data e;
                     ev_Hash := ev_Hash e; ev_PrevHash := ev_PrevHash e |} l.

(** ** Kafka and Postgres *)

(** What is published: the event and its headers. *)
Definition kafka_headers (e : Event) (timestamp : string) : gmap string string :=
  let h : gmap string string := {["event_type" := ev_Type e; "event_hash" := ev_Hash e; "timestamp" := timestamp]} in
  match ev_Data e ≫= (fun m => (list_to_map m : gmap string any) !! "tenant_id") with
  | Some (AString tid) => if bool_decide (tid = "") then h else <["tenant_id" := tid]> h
  | _ => h
  end.

Inductive kafka_outcome :=
  | Published (e : Event) (headers : gmap string string)
  | PublishFailed (err : string)
  | NilMapPanic (e : Event).

(** [KafkaLogger.Log]; [publish] is the error of the producer or the
    identifier of the message, [timestamp] the formatted time.  The previous
    hash is the caller's.  Writing the identifier into nil data panics. *)
Definition kafka_Log (now : Z) (timestamp : string) (publish : result string string) (e : Event) : kafka_outcome :=
  let e := stamp now (ev_PrevHash e) e in
  match publish with
  | Err err => PublishFailed err
  | Ok id =>
    if bool_decide (id = "") then Published e (kafka_headers e timestamp)
    else match ev_Data e with
         | None => NilMapPanic e
         | Some _ => Published e (kafka_headers e timestamp)
         end
  end.

(** The headers of a message of a batch: those of a single one but the time. *)
Definition batch_headers (e : Event) : gmap string string := delete "timestamp" (kafka_headers e "").

(** The messages of [KafkaLogger.LogBatch], each event with the time at which
    it is stamped: the identifier, which is the hash, the event and its
    headers. *)
Definition batch_messages (es : list (Z * Event)) : list (string * Event * gmap string string) :=
  map (fun '(now, e) => let e := stamp now (ev_PrevHash e) e in (ev_Hash e, e, batch_headers e)) es.

(** [KafkaLogger.LogBatch]; [publish] is the error of the producer for the
    whole batch.  The errors of single messages are only printed, and nothing
    is sent for an empty batch. *)
Definition kafka_LogBatch (publish : list (string * Event * gmap string string) -> option string) (es : list (Z * Event)) :
    option string * list (string * Event * gmap string string) :=
  match batch_messages es with
  | [] => (None, [])
  | ms => match publish ms with
          | Some err => (Some ("failed to publish audit batch to Kafka: " +:+ err), [])
          | None => (None, ms)
          end
  end.

(** [PostgresLogger.Log]: the row that is inserted. *)
Definition postgres_Log (now : Z) (exec_err : option string) (e : Event) (table : list Event) : option string * list Event :=
  match exec_err with
  | Some err => (Some err, table)
  | None => (None, table ++ [stamp now (ev_PrevHash e) e])
  end.

(** ** The choice of a logger *)

Inductive sink :=
  | NoSink
  | FileSink (path : string)
  | KafkaSink (brokers : list string) (topic : string)
  | PostgresSink (dsn table : string) (autoMigrate : bool).

(** [NewLoggerFromEnv], up to opening what was chosen. *)
Definition NewLoggerFromEnv `{Platform} : result string sink :=
  let env name := TrimSpace (getenv name) in
  let s := ToLower (env "PS_AUDIT_SINK") in
  let path := env "PS_AUDIT_FILE" in
  if bool_decide (s = "") || bool_decide (s = "none") then
    Ok (if bool_decide (path = "") then NoSink else FileSink path)
  else if bool_decide (s = "file") then
    (if bool_decide (path = "") then Err "PS_AUDIT_FILE must be set for file sink" else Ok (FileSink path))
  else if bool_decide (s = "kafka") then
    (if bool_decide (env "PS_AUDIT_KAFKA_BROKERS" = "") || bool_decide (env "PS_AUDIT_KAFKA_TOPIC" = "")
     then Err "PS_AUDIT_KAFKA_BROKERS and PS_AUDIT_KAFKA_TOPIC are required for kafka sink"
     else Ok (KafkaSink (SplitByte "," (env "PS_AUDIT_KAFKA_BROKERS")) (env "PS_AUDIT_KAFKA_TOPIC")))
  else if bool_decide (s = "postgres") then
    (if bool_decide (env "PS_AUDIT_PG_DSN" = "") then Err "PS_AUDIT_PG_DSN must be set for postgres sink"
     else
       let table := env "PS_AUDIT_PG_TABLE" in
       let auto := ToLower (env "PS_AUDIT_PG_AUTO_MIGRATE") in
       Ok (PostgresSink (env "PS_AUDIT_PG_DSN") (if bool_decide (table = "") then "audit_events" else table)
             (bool_decide (auto ∈ [""; "1"; "true"; "yes"]))))
  else Err ("unknown PS_AUDIT_SINK: " +:+ s).
End Log.

(** ** The canonical form does not depend on the order of maps *)

(** Induction on values, through slices and maps. *)
Lemma any_induction (P : any -> Prop) :
  (forall s, P (AString s)) -> (forall l, P (AStrings l)) -> (forall t, P (AOther t)) ->
  (forall l, Forall P l -> P (ASlice l)) -> (forall kvs, Forall (fun kv => P kv.2) kvs -> P (AMap kvs)) ->
  forall v, P v.
Proof.
  intros Hs Hss Ho Hl Hm. fix IH 1. intros [s|l|l|kvs|t]; [apply Hs|apply Hss| | |apply Ho].
  - apply Hl. induction l as [|v l IHl]; constructor; [apply IH|exact IHl].
  - apply Hm. induction kvs as [|[k v] kvs IHl]; constructor; [apply IH|exact IHl].
Qed.

(** The same value up to the order in which its maps are ranged over. *)
Inductive reordered : any -> any -> Prop :=
  | reordered_refl v : reordered v v
  | reordered_slice l1 l2 : Forall2 reordered l1 l2 -> reordered (ASlice l1) (ASlice l2)
  | reordered_map kvs1 kvs2 kvs3 :
      NoDup (map fst kvs1) -> Forall2 (fun a b => a.1 = b.1 /\ reordered a.2 b.2) kvs1 kvs2 -> kvs2 ≡ₚ kvs3 ->
      reordered (AMap kvs1) (AMap kvs3).

Lemma canon_entries_perm kvs1 kvs2 :
  NoDup (map fst kvs1) -> kvs1 ≡ₚ kvs2 -> canon_entries kvs1 = canon_entries kvs2.
Proof.
  intros Hnd Hp. unfold canon_entries. rewrite (sort_strings_proper (map fst kvs1) (map fst kvs2)) by (by rewrite Hp).
  assert (Hm : list_to_map kvs1 = list_to_map kvs2 :> gmap string json); [|by rewrite Hm].
  apply list_to_map_proper; done.
Qed.

Lemma canonicalize_reordered v1 v2 : reordered v1 v2 -> canonicalize v1 = canonicalize v2.
Proof.
  revert v2. induction v1 as [s|l|t|l IH|kvs IH] using any_induction; intros v2 Hr; inversion Hr; subst; try done.
  - simpl. f_equal. clear Hr. match goal with Hf : Forall2 _ _ _ |- _ => revert IH; induction Hf as [|x y l1 l2 Hxy _ IHf] end; intros IH; [done|].
    apply Forall_cons in IH as [Hx IH]. simpl. f_equal; [by apply Hx|by apply IHf].
  - match goal with Hnd : NoDup _, Hf : Forall2 _ _ ?k2, Hp : ?k2 ≡ₚ _ |- _ =>
      rename Hnd into Hdup, Hf into Hall, Hp into Hperm; rename k2 into kvs2 end. simpl. f_equal.
    set (f := fun '(k, x) => (k, canonicalize x)).
    assert (Hmap : map f kvs = map f kvs2).
    { clear Hr Hperm Hdup. induction Hall as [|[k1 x1] [k2 x2] l1 l2 [Hk Hx] _ IHf]; [done|].
      apply Forall_cons in IH as [Hx1 IH]. simpl in *. rewrite Hk, (Hx1 x2 Hx). f_equal. by apply IHf. }
    rewrite Hmap. apply canon_entries_perm; [|by apply Permutation_map].
    assert (Hfst : map fst (map f kvs2) = map fst kvs); [|by rewrite Hfst].
    rewrite <-Hmap, map_map. apply map_ext. by intros [k x].
Qed.

(** The hash of an event is well defined: it does not depend on the order in
    which Go ranges over the maps of its data, at any depth. *)
Theorem hash_order_independent `{Digest} (e1 e2 : Event) (kvs1 kvs2 : list (string * any)) :
  ev_Timestamp e1 = ev_Timestamp e2 -> ev_Type e1 = ev_Type e2 -> ev_PrevHash e1 = ev_PrevHash e2 ->
  ev_Data e1 = Some kvs1 -> ev_Data e2 = Some kvs2 -> reordered (AMap kvs1) (AMap kvs2) ->
  hashEvent e1 = hashEvent e2.
Proof.
  intros Ht Hy Hp Hd1 Hd2 Hr. unfold hashEvent, canonEvent. rewrite Ht, Hy, Hp, Hd1, Hd2.
  change (default [] (Some kvs1)) with kvs1. change (default [] (Some kvs2)) with kvs2.
  by rewrite (canonicalize_reordered _ _ Hr).
Qed.

(** ** The text of a payload *)

Definition is_hex (c : ascii) : bool := is_digit_byte c || ((97 <=? byte_of c) && (byte_of c <=? 102))%Z.

Lemma quote_hex_char c : is_hex c = true -> (byte_of c <=? 127)%Z = true /\ quote_rune (byte_of c, [byte_of c]) = String c "".
Proof. destruct c as [[] [] [] [] [] [] [] []]; first [discriminate|by intros _; vm_compute]. Qed.

(** Hexadecimal digits are written as they are. *)
Lemma quote_json_hex s : forallb_str is_hex s = true -> quote_json s = q +:+ s +:+ q.
Proof.
  intros Hs. unfold quote_json. f_equal. f_equal. induction s as [|c s IH]; [done|]. cbn [forallb_str] in Hs.
  apply andb_true_iff in Hs as [Hc Hs]. destruct (quote_hex_char c Hc) as [Ha Hq].
  cbn [bytes rune_chunks]. rewrite Ha. cbn [map concat_text]. rewrite Hq. simpl. by rewrite IH.
Qed.

Lemma payload_shape e :
  forallb_str is_hex (ev_PrevHash e) = true ->
  exists a, Marshal (canonEvent e) = a +:+ (q +:+ ev_PrevHash e +:+ q +:+ "}").
Proof.
  intros Hx. unfold canonEvent. cbn [Marshal map]. rewrite (quote_json_hex _ Hx).
  set (d := Marshal (canonicalize _)). set (y := quote_json (ev_Type e)). set (t := Itoa _).
  rewrite !Join_cons by done. cbn [Join]. eexists. rewrite <-!sapp_assoc. do 4 f_equal.
Qed.

Lemma forallb_str_sdrop f n s : forallb_str f s = true -> forallb_str f (sdrop n s) = true.
Proof.
  revert s. induction n as [|n IH]; intros [|c s]; simpl; [done..|]. intros [_ ?]%andb_true_iff. by apply IH.
Qed.

(** A quote is not the last digit of a digest. *)
Lemma quote_not_digest a1 a2 p :
  String.length p = 64 -> forallb_str is_hex p = true ->
  a1 +:+ (q +:+ "" +:+ q +:+ "}") <> a2 +:+ (q +:+ p +:+ q +:+ "}").
Proof.
  intros Hl Hx E. pose proof (forallb_str_sdrop is_hex 63 p Hx) as Hlast.
  assert (Hs : p = stake 63 p +:+ sdrop 63 p) by (by rewrite stake_sdrop). rewrite Hs in E.
  assert (E2 : a1 +:+ (q +:+ (q +:+ "}")) = (a2 +:+ q +:+ stake 63 p) +:+ (sdrop 63 p +:+ (q +:+ "}")))
    by (rewrite !sapp_assoc in *; exact E).
  apply same_ends in E2; [|rewrite !length_sapp, length_sdrop, Hl; done].
  apply same_starts in E2 as [E2 _]; [|rewrite length_sdrop, Hl; done]. rewrite <-E2 in Hlast. discriminate Hlast.
Qed.

(** *** Reading a payload back *)

Definition hex_value (c : ascii) : Z := if is_digit_byte c then (byte_of c - 48)%Z else (byte_of c - 87)%Z.

(** The first byte of the body of a JSON string and the text after it; the
    last byte stands for what is not ASCII. *)
Definition unquote_byte (s : string) : option (ascii * string) :=
  match s with
  | String "\" (String "u" (String "0" (String "0" (String h (String l s))))) => Some (of_byte (16 * hex_value h + hex_value l), s)
  | String "\" (String "u" s) => Some (of_byte 255, s)
  | String "\" (String "b" s) => Some (of_byte 8, s)
  | String "\" (String "f" s) => Some (of_byte 12, s)
  | String "\" (String "n" s) => Some (of_byte 10, s)
  | String "\" (String "r" s) => Some (of_byte 13, s)
  | String "\" (String "t" s) => Some (of_byte 9, s)
  | String "\" (String c s) => Some (c, s)
  | String c s => Some (c, s)
  | EmptyString => None
  end.

Lemma unquote_ascii c x :
  (byte_of c <=? 127)%Z = true ->
  unquote_byte (quote_rune (byte_of c, [byte_of c]) +:+ x) = Some (c, x) /\
  forall y, quote_rune (byte_of c, [byte_of c]) +:+ x <> q +:+ y.
Proof. destruct c as [[] [] [] [] [] [] [] []]; first [discriminate|by intros _; vm_compute]. Qed.

Lemma unquote_raw c s : (127 < byte_of c)%Z -> unquote_byte (String c s) = Some (c, s) /\ forall y, String c s <> q +:+ y.
Proof. destruct c as [[] [] [] [] [] [] [] []]; first [by intros Hc; vm_compute in Hc|by intros _; vm_compute]. Qed.

Lemma unquote_high r b0 bs x :
  (127 < b0 < 256)%Z -> (127 < r)%Z ->
  (exists d y, unquote_byte (quote_rune (r, b0 :: bs) +:+ x) = Some (d, y) /\ (127 < byte_of d)%Z) /\
  forall y, quote_rune (r, b0 :: bs) +:+ x <> q +:+ y.
Proof.
  intros Hb Hr. unfold quote_rune.
  destruct (r =? 8232)%Z eqn:E1; [apply Z.eqb_eq in E1 as ->; split; [by eexists _, _|by vm_compute]|].
  destruct (r =? 8233)%Z eqn:E2; [apply Z.eqb_eq in E2 as ->; split; [by eexists _, _|by vm_compute]|].
  repeat match goal with |- context [(r =? ?n)%Z] => first [constr_eq n RuneError; fail 1|rewrite (proj2 (Z.eqb_neq r n)) by lia] end.
  rewrite (proj2 (Z.ltb_ge r 32)) by lia. cbn [orb].
  case_match; [split; [by eexists _, _|by vm_compute]|]. cbn [of_bytes String.append].
  destruct (unquote_raw (of_byte b0) (of_bytes bs +:+ x)) as [Hu Hq]; [rewrite byte_of_byte; lia|].
  split; [|exact Hq]. eexists _, _. split; [exact Hu|]. rewrite byte_of_byte; lia.
Qed.

(** A JSON string of ASCII is told from what follows, and from any other. *)
Lemma quote_cut a b x y :
  is_ascii_str a = true -> quote_json a +:+ x = quote_json b +:+ y -> a = b /\ x = y.
Proof.
  unfold quote_json. rewrite !sapp_assoc. intros Ha E%sapp_inv_head. revert b E.
  assert (Hb : forall b, b <> "" -> (forall y', concat_text (map quote_rune (rune_chunks (bytes b))) +:+ (q +:+ y) <> q +:+ y') /\
    exists d y', unquote_byte (concat_text (map quote_rune (rune_chunks (bytes b))) +:+ (q +:+ y)) = Some (d, y') /\
      ((byte_of d <= 127)%Z -> exists b', b = String d b' /\ y' = concat_text (map quote_rune (rune_chunks (bytes b'))) +:+ (q +:+ y))).
  { intros [|c b] Hne; [done|]. cbn [bytes]. destruct (byte_of c <=? 127)%Z eqn:Ec.
    - cbn [rune_chunks]. rewrite Ec. cbn [map concat_text]. rewrite sapp_assoc.
      destruct (unquote_ascii c (concat_text (map quote_rune (rune_chunks (bytes b))) +:+ (q +:+ y)) Ec) as [Hu Hq].
      split; [exact Hq|]. eexists _, _. split; [exact Hu|]. intros _. by exists b.
    - pose proof (byte_of_range c). apply Z.leb_gt in Ec.
      destruct (rune_chunks_high (byte_of c) (bytes b) Ec) as (r & bs & rest & -> & Hr). cbn [map concat_text]. rewrite sapp_assoc.
      destruct (unquote_high r (byte_of c) bs (concat_text (map quote_rune rest) +:+ (q +:+ y))) as [(d & y' & Hu & Hd) Hq]; [lia|done|].
      split; [exact Hq|]. exists d, y'. split; [exact Hu|]. lia. }
  induction a as [|c a IH]; intros b E.
  - destruct b as [|d b]; [by injection E as ->|]. destruct (Hb (String d b)) as [Hq _]; [done|]. symmetry in E. by destruct (Hq x).
  - unfold is_ascii_str, MaxASCII in Ha. cbn [forallb_str] in Ha. apply andb_true_iff in Ha as [Hc Ha].
    cbn [bytes rune_chunks] in E. rewrite Hc in E. cbn [map concat_text] in E. rewrite sapp_assoc in E.
    destruct (unquote_ascii c (concat_text (map quote_rune (rune_chunks (bytes a))) +:+ (q +:+ x)) Hc) as [Hu Hq].
    destruct b as [|d b]; [by apply Hq in E|]. destruct (Hb (String d b)) as [_ (d' & y' & Hd & Hb')]; [done|].
    rewrite <-E, Hu in Hd. injection Hd as <- <-. destruct Hb' as (b' & [= -> ->] & E'); [lia|].
    destruct (IH Ha b' E') as [-> ->]. done.
Qed.

(** The payload as it is written. *)
Lemma payload_text e :
  Marshal (canonEvent e) =
  ("{" +:+ quote_json "t" +:+ ":") +:+ (Itoa (ev_Timestamp e) +:+ ("," +:+ ((quote_json "y" +:+ ":") +:+
    (quote_json (ev_Type e) +:+ (("," +:+ quote_json "d" +:+ ":") +:+
      (Marshal (canonicalize (AMap (default [] (ev_Data e)))) +:+
        (("," +:+ quote_json "p" +:+ ":") +:+ (quote_json (ev_PrevHash e) +:+ "}")))))))).
Proof. unfold canonEvent. cbn [Marshal map]. rewrite !Join_cons by done. cbn [Join]. by rewrite !sapp_assoc. Qed.

(** Payloads with the same predecessor are the same in every part. *)
Lemma payload_parts e1 e2 :
  is_ascii_str (ev_Type e2) = true -> ev_PrevHash e1 = ev_PrevHash e2 -> Marshal (canonEvent e1) = Marshal (canonEvent e2) ->
  ev_Timestamp e1 = ev_Timestamp e2 /\ ev_Type e1 = ev_Type e2 /\
  Marshal (canonicalize (AMap (default [] (ev_Data e1)))) = Marshal (canonicalize (AMap (default [] (ev_Data e2)))).
Proof.
  intros Hasc Hp. rewrite !payload_text, Hp. intros E. apply sapp_inv_head in E.
  apply cut_at in E as [Ht E]; [|by apply Itoa_no..]. apply sapp_inv_head in E. symmetry in E.
  apply quote_cut in E as [Hy E]; [|done]. symmetry in E. apply sapp_inv_head in E.
  split_and!; [by apply (inj Itoa)|done|].
  apply same_starts in E as [E _]; [done|]. apply (f_equal String.length) in E. rewrite !length_sapp in E. lia.
Qed.

(** ** The chain *)

Section Chain.
Context `{RegexpEngine, Digest} (redacting : bool).

(** A list of events is chained from a previous hash. *)
Fixpoint chained (prev : string) (es : list Event) : Prop :=
  match es with
  | [] => True
  | e :: es => ev_PrevHash e = prev /\ ev_Hash e = hashEvent e /\ chained (ev_Hash e) es
  end.

Fixpoint last_hash (prev : string) (es : list Event) : string :=
  match es with [] => prev | e :: es => last_hash (ev_Hash e) es end.

Lemma chained_app prev es e :
  chained prev es -> ev_PrevHash e = last_hash prev es -> ev_Hash e = hashEvent e -> chained prev (es ++ [e]).
Proof. revert prev. induction es as [|x es IH]; intros prev; simpl; [done|]. intros (? & ? & ?) ? ?. auto. Qed.

Lemma last_hash_app prev es e : last_hash prev (es ++ [e]) = ev_Hash e.
Proof. revert prev. induction es; simpl; auto. Qed.

(** Calls of [Log], each with the time and the encoder's error. *)
Definition log_all (cs : list (Z * option string * Event)) (l : FileLogger) : FileLogger :=
  foldl (fun l '(now, err, e) => (Log redacting now err e l).2) l cs.

Lemma log_all_chained cs l :
  chained "" (written l) -> prevSum l = last_hash "" (written l) ->
  chained "" (written (log_all cs l)) /\ prevSum (log_all cs l) = last_hash "" (written (log_all cs l)).
Proof.
  revert l. induction cs as [|[[now err] e] cs IH]; intros l Hc Hp; simpl; [done|]. apply IH.
  - unfold Log. destruct err; simpl; [done|]. by apply chained_app.
  - unfold Log. destruct err; simpl; [done|]. by rewrite last_hash_app.
Qed.

(** Two events with the same payload and hash. *)
Definition same_payload (e1 e2 : Event) : Prop :=
  Marshal (canonEvent e1) = Marshal (canonEvent e2) /\ ev_Hash e1 = ev_Hash e2 /\ ev_PrevHash e1 = ev_PrevHash e2.

(** The same time, type, canonical data, predecessor and hash. *)
Record same_event (e1 e2 : Event) : Prop := {
  se_time : ev_Timestamp e1 = ev_Timestamp e2;
  se_type : ev_Type e1 = ev_Type e2;
  se_data : Marshal (canonicalize (AMap (default [] (ev_Data e1)))) = Marshal (canonicalize (AMap (default [] (ev_Data e2))));
  se_prev : ev_PrevHash e1 = ev_PrevHash e2;
  se_hash : ev_Hash e1 = ev_Hash e2;
}.

(** SHA-256 has no collision between the payloads of two trails. *)
Definition collision_free (es1 es2 : list Event) : Prop :=
  forall e1 e2, e1 ∈ es1 -> e2 ∈ es2 -> hashEvent e1 = hashEvent e2 ->
    Marshal (canonEvent e1) = Marshal (canonEvent e2).

(** Its digest is written as 64 hexadecimal digits. *)
Hypothesis digest_hex : forall s, String.length (sha256_hex s) = 64 /\ forallb_str is_hex (sha256_hex s) = true.

(** The previous hash of an event in a chain. *)
Definition previous (p : string) : Prop := p = "" \/ exists s, p = sha256_hex s.

Lemma last_hash_previous prev es : previous prev -> chained prev es -> previous (last_hash prev es).
Proof.
  revert prev. induction es as [|e es IH]; intros prev Hp; simpl; [done|]. intros (_ & He & Hc). apply IH; [|done].
  right. by eexists.
Qed.

Lemma digest_nonempty s : sha256_hex s <> "".
Proof. intros E. destruct (digest_hex s) as [Hl _]. by rewrite E in Hl. Qed.

(** Two texts that end in the same number of bytes. *)
Lemma same_payload_prev e1 e2 :
  previous (ev_PrevHash e1) -> previous (ev_PrevHash e2) ->
  Marshal (canonEvent e1) = Marshal (canonEvent e2) -> ev_PrevHash e1 = ev_PrevHash e2.
Proof.
  intros Hp1 Hp2 E.
  assert (Hhex : forall p, previous p -> forallb_str is_hex p = true)
    by (intros p [->|[s ->]]; [done|apply digest_hex]).
  destruct (payload_shape e1) as [a1 E1]; [by apply Hhex|]. destruct (payload_shape e2) as [a2 E2]; [by apply Hhex|].
  rewrite E1, E2 in E. clear E1 E2. revert Hp1 Hp2 E. generalize (ev_PrevHash e1) (ev_PrevHash e2). intros p1 p2.
  intros [->|[s1 ->]] [->|[s2 ->]] E; [done| | |].
  - destruct (digest_hex s2) as [Hl Hx]. by destruct (quote_not_digest _ _ _ Hl Hx E).
  - destruct (digest_hex s1) as [Hl Hx]. symmetry in E. by destruct (quote_not_digest _ _ _ Hl Hx E).
  - destruct (digest_hex s1) as [Hl1 _], (digest_hex s2) as [Hl2 _].
    apply same_ends in E; [|rewrite !length_sapp; simpl; lia].
    apply (same_starts q q) in E as [_ E]; [|done]. by apply same_starts in E as [E _]; [|lia].
Qed.

Lemma chained_snoc_inv prev es e :
  chained prev (es ++ [e]) -> chained prev es /\ ev_PrevHash e = last_hash prev es /\ ev_Hash e = hashEvent e.
Proof.
  revert prev. induction es as [|x es IH]; intros prev; simpl; [naive_solver|].
  intros (? & ? & (? & ? & ?)%IH). done.
Qed.

Lemma chains_agree es1 es2 :
  collision_free es1 es2 -> chained "" es1 -> chained "" es2 -> last_hash "" es1 = last_hash "" es2 -> Forall2 same_payload es1 es2.
Proof.
  revert es2. induction es1 as [|e1 es1 IH] using rev_ind; intros es2 Hcf; destruct es2 as [|e2 es2 _] using rev_ind.
  - constructor.
  - intros _ (_ & _ & He)%chained_snoc_inv. rewrite last_hash_app. simpl. rewrite He. intros E. symmetry in E.
    by apply digest_nonempty in E.
  - intros (_ & _ & He)%chained_snoc_inv _. rewrite last_hash_app. simpl. rewrite He. by intros E%digest_nonempty.
  - intros (Hc1 & Hp1 & He1)%chained_snoc_inv (Hc2 & Hp2 & He2)%chained_snoc_inv. rewrite !last_hash_app. intros E.
    assert (Hm : Marshal (canonEvent e1) = Marshal (canonEvent e2))
      by (apply Hcf; [set_solver|set_solver|congruence]).
    assert (Hprev : ev_PrevHash e1 = ev_PrevHash e2).
    { apply same_payload_prev; [rewrite Hp1|rewrite Hp2|done]; (apply last_hash_previous; [by left|done]). }
    apply Forall2_app; [|constructor; [by split_and!; [| |]|constructor]].
    apply IH; [intros x1 x2 Hx1 Hx2; apply Hcf; set_solver|done|done|congruence].
Qed.

Lemma log_all_types cs l :
  Forall (fun e => is_ascii_str (ev_Type e) = true) (written l) -> Forall (fun c => is_ascii_str (ev_Type c.2) = true) cs ->
  Forall (fun e => is_ascii_str (ev_Type e) = true) (written (log_all cs l)).
Proof.
  intros Hl Hcs. revert l Hl. induction Hcs as [|[[now err] e] cs He _ IH]; intros l Hl; simpl; [done|].
  apply IH. unfold Log. destruct err; simpl; [done|]. apply Forall_app. split; [done|by repeat constructor].
Qed.

(** C25. The audit trail is tamper-evident.  Whatever calls of [Log] were made
    and whichever of them failed to write, the events written form a chain whose
    last hash the logger keeps; and, unless two payloads collide under SHA-256,
    any chain of events that ends in that hash has as many events and, event by
    event, the same time, the same type, the same canonical text of its data,
    the same previous hash and the same hash: nothing was inserted, removed or
    changed.  The types that were logged are ASCII, as all types of the program
    are. *)
Theorem audit_tamper_evident (cs : list (Z * option string * Event)) (es : list Event) :
  Forall (fun c => is_ascii_str (ev_Type c.2) = true) cs ->
  let l := log_all cs NewFileLogger in
  chained "" (written l) /\ prevSum l = last_hash "" (written l) /\
  (collision_free es (written l) -> chained "" es -> last_hash "" es = prevSum l ->
   Forall2 same_event es (written l)).
Proof.
  intros Hcs. cbv zeta. destruct (log_all_chained cs NewFileLogger) as [Hc Hp]; [done|done|]. split_and!; [done|done|].
  intros Hcf He El. assert (Hsame : Forall2 same_payload es (written (log_all cs NewFileLogger)))
    by (apply chains_agree; [done|done|done|congruence]).
  pose proof (log_all_types cs NewFileLogger (Forall_nil_2 _) Hcs) as Hty. clear -Hsame Hty.
  induction Hsame as [|e1 e2 l1 l2 (Hm & Hh & Hpv) _ IH]; [constructor|]. apply Forall_cons in Hty as [Ht Hty].
  constructor; [|by apply IH]. destruct (payload_parts e1 e2 Ht Hpv Hm) as (? & ? & ?). by split.
Qed.
End Chain.

(** ** Where the trail is weaker than it looks *)

(** An empty map and an empty slice have the same canonical form: one can be
    written for the other without changing any hash. *)
Lemma empty_map_and_slice_collide `{Digest} now ty k prev h :
  hashEvent {| ev_Timestamp := now; ev_Type := ty; ev_Data := Some [(k, AMap [])]; ev_Hash := h; ev_PrevHash := prev |} =
  hashEvent {| ev_Timestamp := now; ev_Type := ty; ev_Data := Some [(k, ASlice [])]; ev_Hash := h; ev_PrevHash := prev |}.
Proof. reflexivity. Qed.

Section Sinks.
Context `{RegexpEngine, Digest} (redacting : bool).

(** The loggers for Kafka and Postgres keep the caller's previous hash, which
    is empty everywhere in the program: their events are not chained, and
    leaving one out cannot be noticed. *)
Lemma kafka_not_chained now ts id e e' h :
  kafka_Log redacting now ts (Ok id) e = Published e' h -> ev_PrevHash e' = ev_PrevHash e.
Proof. unfold kafka_Log. case_bool_decide; [by intros [= <- _]|]. destruct (ev_Data _); [by intros [= <- _]|done]. Qed.

Lemma postgres_not_chained now1 now2 e1 e2 :
  ev_PrevHash e1 = "" -> ev_PrevHash e2 = "" ->
  map ev_PrevHash (postgres_Log redacting now2 None e2 (postgres_Log redacting now1 None e1 []).2).2 = [""; ""].
Proof. intros H1 H2. simpl. by rewrite H1, H2. Qed.

(** A batch carries every event once, in order, each with its own hash. *)
Lemma kafka_LogBatch_all publish es ms :
  kafka_LogBatch redacting publish es = (None, ms) ->
  map (fun m => m.1.1) ms = map (fun '(now, e) => hashEvent (stamp redacting now (ev_PrevHash e) e)) es.
Proof.
  unfold kafka_LogBatch. assert (Hb : map (fun m => m.1.1) (batch_messages redacting es) =
    map (fun '(now, e) => hashEvent (stamp redacting now (ev_PrevHash e) e)) es)
    by (unfold batch_messages; rewrite map_map; apply map_ext; by intros [now e]).
  destruct (batch_messages redacting es) as [|m0 ms0]; [by intros [= <-]|].
  destruct (publish _); [done|by intros [= <-]].
Qed.

(** An event without data panics after it was published: the identifier of the
    message is written into a nil map. *)
Lemma kafka_nil_data_panics now ts id e :
  id <> "" -> ev_Data e = None -> exists e', kafka_Log redacting now ts (Ok id) e = NilMapPanic e'.
Proof. intros Hid Hd. unfold kafka_Log. rewrite bool_decide_eq_false_2 by done. simpl. rewrite Hd. simpl. by eexists. Qed.
End Sinks.

(** ** Concrete inputs *)

Module AuditWitnesses.
#[local] Existing Instance literal_engine.

(** A digest for the example: the length of the text, in hexadecimal digits. *)
Fixpoint pad (n : nat) (s : string) : string := match n with 0 => s | S n => String "0" (pad n s) end.
#[local] Instance length_digest : Digest :=
  {| sha256_hex s := pad 63 (String (hex_digit (Z.of_nat (String.length s) mod 16)) "") |}.

Lemma length_digest_hex s : String.length (sha256_hex s) = 64 /\ forallb_str is_hex (sha256_hex s) = true.
Proof.
  assert (Hm : (0 <= Z.of_nat (String.length s) mod 16 < 16)%Z) by (apply Z.mod_pos_bound; lia).
  cbn [sha256_hex length_digest]. set (n := (Z.of_nat (String.length s) mod 16)%Z) in *. clearbody n. split; [reflexivity|].
  assert (Hn : n ∈ seqZ 0 16) by (apply elem_of_seqZ; lia). vm_compute in Hn.
  repeat (apply elem_of_cons in Hn as [->|Hn]; [reflexivity|]). by apply elem_of_nil in Hn.
Qed.

Definition event (ty : string) (d : list (string * any)) : Event :=
  {| ev_Timestamp := 0; ev_Type := ty; ev_Data := Some d; ev_Hash := ""; ev_PrevHash := "" |}.
Definition calls : list (Z * option string * Event) :=
  [(1, None, event "a" [("x", AString "v")]); (2, Some "disk full", event "lost" []); (3, None, event "bcd" [])]%Z.
Definition log : FileLogger := log_all false calls NewFileLogger.

Lemma log_collision_free : collision_free (written log) (written log).
Proof.
  assert (Hl : map (fun e => String.length (Marshal (canonEvent e))) (written log) = [46; 95]) by (vm_compute; reflexivity).
  destruct (written log) as [|a [|b [|]]]; try discriminate Hl.
  assert (Ha : String.length (Marshal (canonEvent a)) = 46) by exact (f_equal (hd 0) Hl).
  assert (Hb : String.length (Marshal (canonEvent b)) = 95) by exact (f_equal (fun l => hd 0 (tl l)) Hl).
  intros e1 e2 H1 H2 E. cbn [hashEvent sha256_hex length_digest] in E. unfold hashEvent in E. cbn [sha256_hex length_digest] in E.
  apply elem_of_cons in H1 as [->|H1%list_elem_of_singleton]; apply elem_of_cons in H2 as [->|H2%list_elem_of_singleton];
    subst; try reflexivity; rewrite Ha, Hb in E; discriminate E.
Qed.

Lemma hash_order_independent_witness :
  hashEvent (event "a" [("x", AString "1"); ("y", AMap [("k", AString "2"); ("l", AOther "3")])]) =
  hashEvent (event "a" [("y", AMap [("l", AOther "3"); ("k", AString "2")]); ("x", AString "1")]).
Proof.
  eapply hash_order_independent; [reflexivity..|].
  apply (reordered_map _ [("x", AString "1"); ("y", AMap [("l", AOther "3"); ("k", AString "2")])]).
  - apply NoDup_cons. split; [by intros ?%list_elem_of_singleton|apply NoDup_singleton].
  - constructor; [split; [reflexivity|constructor]|]. constructor; [|constructor]. split; [reflexivity|].
    apply (reordered_map _ [("k", AString "2"); ("l", AOther "3")]).
    + apply NoDup_cons. split; [by intros ?%list_elem_of_singleton|apply NoDup_singleton].
    + constructor; [split; [reflexivity|constructor]|]. constructor; [split; [reflexivity|constructor]|constructor].
    + apply Permutation_swap.
  - apply Permutation_swap.
Defined.

Lemma audit_tamper_evident_witness :
  map ev_Type (written log) = ["a"; "bcd"] /\ Forall2 same_event (written log) (written log).
Proof.
  split; [vm_compute; reflexivity|].
  destruct (audit_tamper_evident false length_digest_hex calls (written log)) as (Hc & Hp & Ht); [by repeat constructor|].
  apply Ht; [|exact Hc|symmetry; exact Hp].
  exact log_collision_free.
Defined.
End AuditWitnesses.
