(* ===== verification/Config.v ===== *)
(** * Config: runtime configuration and file paths

    src/internal/interfaces/http/api/config.go with the parsers of helpers.go,
    and src/internal/security/paths/validation.go on a Unix system.  A
    [float64] is its 64 bits; [strconv.ParseFloat] is an argument. *)

From Stdlib Require Import Ascii String.
From S2P Require Import Prelude GoString Unicode Rules Compile Loader.

(** ** The configuration *)

Record RuntimeConfig := {
  EnforcementMode : string;
  FailOn : string;
  RedactionEnabled : bool;
  MaxStreamBytes : Z;
  StreamWindow : Z;
  StreamOverlap : Z;
  RPS : float64;
  RPSBurst : Z;
  InflightLimitBytes : Z;
  InflightBackoffMs : Z;
  PerRuleTimeoutMs : Z;
  RequestTimeoutMs : Z;
  ResponseTimeoutMs : Z;
}.

#[export] Instance RuntimeConfig_eq_dec : EqDecision RuntimeConfig.
Proof. unfold EqDecision, Decision, float64. decide equality; solve_decision. Defined.

(** [RuntimeConfig{}]. *)
Definition config0 : RuntimeConfig :=
  {| EnforcementMode := ""; FailOn := ""; RedactionEnabled := false; MaxStreamBytes := 0; StreamWindow := 0;
     StreamOverlap := 0; RPS := 0%Z; RPSBurst := 0; InflightLimitBytes := 0; InflightBackoffMs := 0;
     PerRuleTimeoutMs := 0; RequestTimeoutMs := 0; ResponseTimeoutMs := 0 |}.

(** [parseIntDefault] and [parseInt64Default]. *)
Definition parseIntDefault (s : string) (def : Z) : Z :=
  if bool_decide (s = "") then def else default def (Atoi s).

(** The two zeros of a [float64]. *)
Definition float_zero (f : float64) : bool := (f =? 0)%Z || (f =? 2 ^ 63)%Z.

Section Config.
Context `{Platform} (ParseFloat : string -> option float64).

Definition parseFloatDefault (s : string) (def : float64) : float64 :=
  if bool_decide (s = "") then def else default def (ParseFloat s).

Definition NewRuntimeConfigStoreFromEnv : RuntimeConfig :=
  let mode := ToLower (TrimSpace (getenv "PS_ENFORCER_MODE")) in
  let failOn := ToUpper (TrimSpace (getenv "PS_ENFORCER_FAIL_ON")) in
  let redaction := ToLower (TrimSpace (getenv "PS_ENFORCER_REDACTION_MUTATION")) in
  {| EnforcementMode := if bool_decide (mode = "") then "observe" else mode;
     FailOn := if bool_decide (failOn = "") then "HIGH" else failOn;
     RedactionEnabled := negb (bool_decide (redaction = "0") || bool_decide (redaction = "false"));
     MaxStreamBytes := parseIntDefault (getenv "PS_ENFORCER_MAX_STREAM_BYTES") 5000000;
     StreamWindow := parseIntDefault (getenv "PS_ENFORCER_STREAM_WINDOW") (64 * 1024);
     StreamOverlap := parseIntDefault (getenv "PS_ENFORCER_STREAM_OVERLAP") 4096;
     RPS := parseFloatDefault (getenv "PS_ENFORCER_RPS") 0%Z;
     RPSBurst := parseIntDefault (getenv "PS_ENFORCER_RPS_BURST") 1;
     InflightLimitBytes := parseIntDefault (getenv "PS_ENFORCER_INFLIGHT_LIMIT_BYTES") 0;
     InflightBackoffMs := parseIntDefault (getenv "PS_ENFORCER_INFLIGHT_BACKOFF_MS") 0;
     PerRuleTimeoutMs := 0; RequestTimeoutMs := 300; ResponseTimeoutMs := 300 |}.

Definition new_text (p c : string) : string := if bool_decide (p = "") then c else p.
Definition new_int (p c : Z) : Z := if (p =? 0)%Z then c else p.

(** [p == RuntimeConfig{}] of Go: the two float zeros are equal. *)
Definition is_empty (p : RuntimeConfig) : bool :=
  bool_decide (EnforcementMode p = "") && bool_decide (FailOn p = "") && negb (RedactionEnabled p)
  && (MaxStreamBytes p =? 0)%Z && (StreamWindow p =? 0)%Z && (StreamOverlap p =? 0)%Z && float_zero (RPS p)
  && (RPSBurst p =? 0)%Z && (InflightLimitBytes p =? 0)%Z && (InflightBackoffMs p =? 0)%Z
  && (PerRuleTimeoutMs p =? 0)%Z && (RequestTimeoutMs p =? 0)%Z && (ResponseTimeoutMs p =? 0)%Z.

(** [Update], on the configuration of the store. *)
Definition Update (p c : RuntimeConfig) : RuntimeConfig :=
  {| EnforcementMode := new_text (EnforcementMode p) (EnforcementMode c);
     FailOn := new_text (FailOn p) (FailOn c);
     RedactionEnabled := RedactionEnabled p || (negb (RedactionEnabled p) && RedactionEnabled c && negb (is_empty p));
     MaxStreamBytes := new_int (MaxStreamBytes p) (MaxStreamBytes c);
     StreamWindow := new_int (StreamWindow p) (StreamWindow c);
     StreamOverlap := new_int (StreamOverlap p) (StreamOverlap c);
     RPS := if float_zero (RPS p) then RPS c else RPS p;
     RPSBurst := new_int (RPSBurst p) (RPSBurst c);
     InflightLimitBytes := new_int (InflightLimitBytes p) (InflightLimitBytes c);
     InflightBackoffMs := new_int (InflightBackoffMs p) (InflightBackoffMs c);
     PerRuleTimeoutMs := new_int (PerRuleTimeoutMs p) (PerRuleTimeoutMs c);
     RequestTimeoutMs := new_int (RequestTimeoutMs p) (RequestTimeoutMs c);
     ResponseTimeoutMs := new_int (ResponseTimeoutMs p) (ResponseTimeoutMs c) |}.

Definition Reset (_ : RuntimeConfig) : RuntimeConfig := NewRuntimeConfigStoreFromEnv.

(** The routes that change the configuration; [decode] is what the request
    holds after [json.Decoder.Decode], whose error is ignored. *)
Definition put_config (decode : string -> RuntimeConfig) (body : string) (c : RuntimeConfig) : RuntimeConfig :=
  Update (decode body) c.
Definition post_reset (c : RuntimeConfig) : RuntimeConfig := Reset c.

(** A body that decodes to nothing switches redaction off. *)
Lemma undecodable_body_disables_redaction decode body c :
  decode body = config0 -> RedactionEnabled (put_config decode body c) = false.
Proof. intros Hd. unfold put_config. rewrite Hd. simpl. by rewrite andb_false_r. Qed.

(** An update that says something cannot switch redaction off; the empty one,
    which should change nothing, does. *)
Lemma redaction_switch p c :
  RedactionEnabled c = true -> RedactionEnabled (Update p c) = negb (is_empty p).
Proof.
  intros Hc. simpl. rewrite Hc. destruct (RedactionEnabled p) eqn:Hp; simpl; [|done].
  unfold is_empty. rewrite Hp. simpl. rewrite ?andb_false_r. by rewrite ?andb_false_l.
Qed.

(** Updating twice with the same request is updating once. *)
Lemma Update_idempotent p c : is_empty p = false -> Update p (Update p c) = Update p c.
Proof.
  intros He. assert (Ht : forall a b, new_text a (new_text a b) = new_text a b)
    by (intros a b; unfold new_text; by case_bool_decide).
  assert (Hi : forall a b, new_int a (new_int a b) = new_int a b) by (intros a b; unfold new_int; by destruct (a =? 0)%Z).
  unfold Update. cbn [EnforcementMode FailOn RedactionEnabled MaxStreamBytes StreamWindow StreamOverlap RPS RPSBurst
    InflightLimitBytes InflightBackoffMs PerRuleTimeoutMs RequestTimeoutMs ResponseTimeoutMs].
  rewrite He, !Ht, !Hi. f_equal; [|by destruct (float_zero (RPS p))].
  by destruct (RedactionEnabled p), (RedactionEnabled c).
Qed.
End Config.

(** ** Paths *)

Inductive path_error :=
  | PathEmpty
  | PathTooLong
  | PathTraversal
  | PathExtension (ext : string)
  | PathNotAbsolute.

Definition ca_extensions : list string := [".pem"; ".crt"; ".cert"; ".ca-bundle"; ".cer"].
Definition config_extensions : list string := [".yaml"; ".yml"; ".json"; ".toml"].

Definition ValidateCAFilePath (path : string) : option path_error :=
  if bool_decide (path = "") then Some PathEmpty
  else if 4096 <? String.length path then Some PathTooLong
  else if Contains path ".." then Some PathTraversal
  else
    let cleanPath := Clean path in
    let ext := ToLower (Ext cleanPath) in
    if negb (bool_decide (ext ∈ ca_extensions)) then Some (PathExtension ext)
    else if negb (IsAbs cleanPath) then Some PathNotAbsolute
    else None.

Definition ValidateConfigFilePath (path : string) : option path_error :=
  if bool_decide (path = "") then Some PathEmpty
  else if 4096 <? String.length path then Some PathTooLong
  else if Contains path ".." then Some PathTraversal
  else
    let ext := ToLower (Ext (Clean path)) in
    if negb (bool_decide (ext ∈ config_extensions)) then Some (PathExtension ext) else None.

Lemma clean_step_subset rooted stack e P :
  Forall P stack -> P e -> Forall P (clean_step rooted stack e).
Proof.
  intros Hs He. unfold clean_step. case_if; [done|]. case_if; [|by constructor].
  destruct stack as [|top rest]; [case_if; [constructor|by repeat constructor]|].
  case_if; [by constructor|]. by apply Forall_cons in Hs as [_ ?].
Qed.

(** The elements of a cleaned path are elements of the path. *)
Lemma clean_elements rooted es stack P :
  Forall P stack -> Forall P es -> Forall P (foldl (clean_step rooted) stack es).
Proof. intros Hs He. revert stack Hs. induction He; intros stack Hs; simpl; [done|]. by apply IHHe, clean_step_subset. Qed.

Lemma Contains_Join c p l :
  CountByte c p = 0 -> p <> "" -> Forall (fun x => Contains x p = false) l -> Contains (Join (String c "") l) p = false.
Proof.
  intros Hc Hp Hl. induction Hl as [|x l Hx Hl IH]; [by destruct p|]. destruct l as [|y l]; [done|].
  rewrite Join_cons by done. apply not_true_iff_false. intros Ht.
  apply (Contains_sep c x) in Ht as [Ht|Ht]; [congruence|congruence|done|done].
Qed.

Lemma Contains_SplitByte c s p x : x ∈ SplitByte c s -> Contains s p = false -> Contains x p = false.
Proof.
  rewrite <-(Join_SplitByte c s) at 2. induction (SplitByte c s) as [|y ys IH]; [by intros ?%elem_of_nil|].
  intros Hx Hn. apply not_true_iff_false. intros Ht. destruct ys as [|z ys].
  - apply list_elem_of_singleton in Hx as ->. simpl in Hn. congruence.
  - rewrite Join_cons in Hn by done. apply elem_of_cons in Hx as [->|Hx].
    + rewrite Contains_app_l in Hn; [done|exact Ht].
    + apply not_true_iff_false in Hn. apply Hn. do 2 apply Contains_app_r. apply not_false_iff_true. intros Hf.
      rewrite IH in Ht; [done|done|done].
Qed.

(** Cleaning cannot bring a traversal back. *)
Lemma Clean_no_traversal path : Contains path ".." = false -> Contains (Clean path) ".." = false.
Proof.
  intros Hp. unfold Clean.
  assert (Hb : Contains (Join "/" (rev (foldl (clean_step (IsAbs path)) [] (SplitByte "/" path)))) ".." = false).
  { apply (Contains_Join "/"); [done|done|]. apply Forall_rev, clean_elements; [constructor|].
    apply Forall_forall. intros x Hx. by apply (Contains_SplitByte "/" path). }
  case_if; [|case_if; [done|exact Hb]]. apply not_true_iff_false. intros Ht.
  apply (Contains_sep "/" "") in Ht as [Ht|Ht]; [done|congruence|done|done].
Qed.

(** Cleaning a relative path gives a relative path. *)
Lemma Clean_relative path : IsAbs path = false -> IsAbs (Clean path) = false.
Proof.
  intros Hp. unfold Clean. rewrite Hp.
  set (named := fun x => x <> "" /\ CountByte "/" x = 0).
  assert (Hs : forall es stack, Forall named stack -> Forall (fun x => CountByte "/" x = 0) es ->
    Forall named (foldl (clean_step false) stack es)).
  { intros es stack Hst He. revert stack Hst. induction He as [|e es Hc _ IH]; intros stack Hst; simpl; [done|]. apply IH.
    unfold clean_step. destruct (bool_decide (e = "") || _) eqn:E1; [done|].
    assert (named e) by (split; [intros ->; discriminate E1|done]).
    case_if; [|by constructor]. destruct stack as [|top rest]; [by apply Forall_singleton|].
    case_if; [by constructor|]. by apply Forall_cons in Hst as [_ ?]. }
  specialize (Hs (SplitByte "/" path) [] (Forall_nil_2 _) (SplitByte_no_sep "/" path)). apply Forall_rev in Hs.
  destruct (rev _) as [|x l]; [done|]. apply Forall_cons in Hs as [[Hx Hc] _].
  destruct x as [|c x]; [done|]. simpl in Hc.
  assert (Hne : c <> "/"%char) by (intros ->; by rewrite bool_decide_eq_true_2 in Hc).
  assert (Hj : exists t, Join "/" (String c x :: l) = String c t) by (destruct l; [by exists x|eexists; by rewrite Join_cons]).
  destruct Hj as [t ->]. rewrite (bool_decide_eq_false_2 (String c t = "")) by done. unfold IsAbs. cbn [HasPrefix].
  by rewrite bool_decide_eq_false_2 by congruence.
Qed.

(** A path that is accepted is safe to open.  An accepted CA file path is
    not empty, has at most 4096 bytes, is absolute, and once cleaned has no
    parent reference anywhere and one of the five extensions in any case; an
    accepted configuration path likewise has no parent reference and one of
    the four extensions. *)
Theorem accepted_paths_safe (path : string) :
  (ValidateCAFilePath path = None ->
     path <> "" /\ String.length path <= 4096 /\ HasPrefix "/" path = true /\
     Contains (Clean path) ".." = false /\ ToLower (Ext (Clean path)) ∈ ca_extensions) /\
  (ValidateConfigFilePath path = None ->
     path <> "" /\ String.length path <= 4096 /\
     Contains (Clean path) ".." = false /\ ToLower (Ext (Clean path)) ∈ config_extensions).
Proof.
  unfold ValidateCAFilePath, ValidateConfigFilePath. split.
  - case_bool_decide as Hne; [done|]. destruct (4096 <? String.length path) eqn:Hlen; [done|].
    destruct (Contains path "..") eqn:Ht; [done|]. case_bool_decide as He; [|done].
    destruct (IsAbs (Clean path)) eqn:Ha; [|done]. intros _. apply Nat.ltb_ge in Hlen.
    split_and!; [done|done| |by apply Clean_no_traversal|done].
    destruct (IsAbs path) eqn:Hp; [exact Hp|]. by rewrite (Clean_relative path Hp) in Ha.
  - case_bool_decide as Hne; [done|]. destruct (4096 <? String.length path) eqn:Hlen; [done|].
    destruct (Contains path "..") eqn:Ht; [done|]. case_bool_decide as He; [|done]. intros _. apply Nat.ltb_ge in Hlen.
    split_and!; [done|done|by apply Clean_no_traversal|done].
Qed.

Module ConfigWitnesses.
Lemma accepted_paths_safe_witness :
  map ValidateCAFilePath ["/etc/ssl//Ca.PEM"; "ca.pem"; "/a/../b.pem"; "/a.txt"] =
    [None; Some PathNotAbsolute; Some PathTraversal; Some (PathExtension ".txt")] /\
  Contains (Clean "/etc/ssl//Ca.PEM") ".." = false.
Proof.
  split; [vm_compute; reflexivity|].
  apply (proj1 (accepted_paths_safe "/etc/ssl//Ca.PEM")). vm_compute. reflexivity.
Defined.

(** The request body [{}] switches redaction off. *)
Lemma empty_update_disables_redaction c : RedactionEnabled (Update config0 c) = false.
Proof. simpl. by rewrite andb_false_r. Qed.
End ConfigWitnesses.
