(* ===== verification/Http.v ===== *)
(** * Http: requests, answers and the guards in front of the handlers

    src/internal/interfaces/http/api: auth.go, middleware.go, request_timeout.go,
    quota_store.go and usage_helpers.go.  A request is what the handlers read of it; an answer is its
    status with a value or an error code (the texts of messages, headers of
    correlation and the JSON encoding are left out).  The rate limiter of
    golang.org/x/time/rate is the class [Limiter]. *)

From Stdlib Require Import Ascii String.
From S2P Require Import Prelude GoString Unicode Verifiers Complexity Aho Literals Engine Compile Scanner Load ScanIO Rulesets Decisions Check.

(** ** Requests and answers *)

Record HttpRequest := {
  Method : string;
  Path : string;
  Headers : string -> string;
  Query : string -> string;
  URLParam : string -> string;
  RawBody : string;
  (** [ParseMultipartForm], and the content of the form field [file]. *)
  FormFile : result string (option string);
}.

(** The value of a field, the empty text if there is none. *)
Fixpoint field (fs : list (string * string)) (name : string) : string :=
  match fs with [] => "" | (k, v) :: fs => if bool_decide (k = name) then v else field fs name end.

(** A request given by its fields. *)
Definition request (method path : string) (headers query params : list (string * string)) (body : string) : HttpRequest :=
  {| Method := method; Path := path; Headers := field headers; Query := field query; URLParam := field params;
     RawBody := body; FormFile := Err "no form" |}.

Inductive Reply (A : Type) :=
  | Answer (status : Z) (body : A)
  | Failure (status : Z) (code : string).
Arguments Answer {A} status body.
Arguments Failure {A} status code.

Definition StatusOf {A} (r : Reply A) : Z := match r with Answer s _ | Failure s _ => s end.
Definition succeeded {A} (r : Reply A) : bool := match r with Answer _ _ => true | Failure _ _ => false end.

(** ** Authentication *)

Record Options := {
  AdminToken : string;
  AllowInsecureAdmin : bool;
}.

(** The token [adminAuth] compares. *)
Definition admin_token (r : HttpRequest) : string :=
  let tok := Headers r "Authorization" in
  let tok := if HasPrefix "bearer " (ToLower tok) then sdrop 7 tok else tok in
  if bool_decide (tok = "") then Headers r "X-PS-Admin-Token" else tok.

Definition adminAuth {A S} (opt : Options) (r : HttpRequest) (next : S -> Reply A * S) (s : S) : Reply A * S :=
  if bool_decide (AdminToken opt = "") then
    if AllowInsecureAdmin opt then next s else (Failure 401 "UNAUTHORIZED", s)
  else if bool_decide (admin_token r = AdminToken opt) then next s
  else (Failure 401 "UNAUTHORIZED", s).

(** A decision endpoint, as [userAuth] recognises it. *)
Definition decision_path (p : string) : bool :=
  bool_decide (p = "/check") || bool_decide (p = "/scan") || HasPrefix "/v1/check" p || HasPrefix "/v1/scan" p.

(** [httpAuthOK] of helpers.go, on the headers. *)
Definition httpAuthOK (r : HttpRequest) (want : string) : bool :=
  HttpAuthOK {| Header := Headers r; URL_Path := Path r; Body := {| content := RawBody r; read_err := None |};
                ctx_ReqID := ""; new_uuid := "" |} want.

Definition userAuth `{Platform} {A S} (r : HttpRequest) (next : S -> Reply A * S) (s : S) : Reply A * S :=
  if negb (decision_path (Path r)) then next s
  else
    let reqToken := getenv "PS_ENFORCER_AUTH_TOKEN" in
    if negb (bool_decide (reqToken = "")) && negb (httpAuthOK r reqToken) then (Failure 401 "UNAUTHORIZED", s)
    else next s.

(** ** The event stream is not bounded in time *)

Definition IsEventStream (r : HttpRequest) : bool :=
  bool_decide (Method r = "GET") && (bool_decide (Path r = "/events") || bool_decide (Path r = "/v1/events")).

(** The time a request may take. *)
Definition RequestTimeout (d : Z) (r : HttpRequest) : option Z := if IsEventStream r then None else Some d.

(** ** Quotas *)

(** A limiter: [AllowN] answers and changes its state. *)
Class Limiter := {
  Limit : Type;
  Inf : Limit;
  positive : Limit -> bool;
  limiter : Type;
  NewLimiter : Limit -> Z -> limiter;
  limiter_AllowN : Z -> Z -> limiter -> bool * limiter;
  limiter_Limit : limiter -> Limit;
  limiter_Burst : limiter -> Z;
}.

(** [Allow] is [AllowN(time.Now(), 1)]. *)
Definition limiter_Allow `{Limiter} (now : Z) (l : limiter) : bool * limiter := limiter_AllowN now 1 l.

Section Quota.
Context `{Limiter}.

(** [InMemoryQuotaStore]. *)
Definition QuotaStore : Type := gmap string limiter.

Definition quota_Allow (now : Z) (tenantID : string) (s : QuotaStore) : bool * QuotaStore :=
  match s !! tenantID with
  | None => (true, s)
  | Some l => let '(ok, l) := limiter_Allow now l in (ok, <[tenantID := l]> s)
  end.

Definition quota_Set (tenantID : string) (limit : Limit) (burst : Z) (s : QuotaStore) : QuotaStore :=
  <[tenantID := NewLimiter limit burst]> s.

(** The zero values are returned when there is no limiter. *)
Definition quota_Get (tenantID : string) (s : QuotaStore) : option (Limit * Z) :=
  (fun l => (limiter_Limit l, limiter_Burst l)) <$> s !! tenantID.

Definition quota_Delete (tenantID : string) (s : QuotaStore) : QuotaStore := delete tenantID s.

(** [CheckQuota] and [SetTenantQuota], when a store is configured. *)
Definition CheckQuota (now : Z) (tenantID : string) (s : option QuotaStore) : bool * option QuotaStore :=
  match s with
  | None => (true, None)
  | Some s => let '(ok, s) := quota_Allow now tenantID s in (ok, Some s)
  end.

Definition SetTenantQuota (tenantID : string) (requestsPerMinute : Limit) (burst : Z) (s : option QuotaStore) : option QuotaStore :=
  quota_Set tenantID requestsPerMinute burst <$> s.

(** [tenantQuota], with the tenant of the request. *)
Definition tenantQuota {A S} (now : Z) (tenant : string) (next : S -> Reply A * S) (q : option QuotaStore) (s : S) :
    Reply A * option QuotaStore * S :=
  match q with
  | None => let '(a, s) := next s in (a, None, s)
  | Some q =>
    let tenant := if bool_decide (tenant = "") then "_default" else tenant in
    let '(ok, q) := quota_Allow now tenant q in
    if ok then let '(a, s) := next s in (a, Some q, s) else (Failure 429 "RESOURCE_EXHAUSTED", Some q, s)
  end.
End Quota.

(** ** What the guards guarantee *)

(** A request passes [adminAuth] exactly when a token is configured and it
    carries that token, or none is configured and insecure access is allowed. *)
Definition admin_ok (opt : Options) (r : HttpRequest) : Prop :=
  if bool_decide (AdminToken opt = "") then AllowInsecureAdmin opt = true else admin_token r = AdminToken opt.

Lemma adminAuth_passes {A S} opt r (next : S -> Reply A * S) s :
  (admin_ok opt r /\ adminAuth opt r next s = next s) \/
  (~ admin_ok opt r /\ adminAuth opt r next s = (Failure 401 "UNAUTHORIZED", s)).
Proof.
  unfold admin_ok, adminAuth. case_bool_decide.
  - destruct (AllowInsecureAdmin opt); [by left|right; by split].
  - case_bool_decide; [by left|by right].
Qed.

Lemma Map_ascii_cons f c s :
  (byte_of c <=? 127)%Z = true -> Map f (String c s) = of_bytes (encode_rune (f (byte_of c)) ++ flat_map (fun r => encode_rune (f r)) (runes s)).
Proof. intros Hc. unfold Map, runes. cbn [bytes rune_chunks]. rewrite Hc. reflexivity. Qed.

Lemma Bearer_prefix t : HasPrefix "bearer " (ToLower ("Bearer " +:+ t)) = true.
Proof.
  unfold ToLower. destruct (is_ascii_str _); [reflexivity|]. cbn [String.append].
  rewrite Map_ascii_cons by reflexivity. unfold runes. cbn [bytes rune_chunks].
  repeat match goal with |- context [(byte_of ?c <=? 127)%Z] => change (byte_of c <=? 127)%Z with true; cbn iota end.
  reflexivity.
Qed.

(** Who knows the token gets in, with either header. *)
Lemma admin_token_accepted opt r :
  AdminToken opt <> "" ->
  Headers r "Authorization" = "Bearer " +:+ AdminToken opt \/
  (Headers r "Authorization" = "" /\ Headers r "X-PS-Admin-Token" = AdminToken opt) ->
  admin_ok opt r.
Proof.
  intros Hne Hr. unfold admin_ok. rewrite bool_decide_eq_false_2 by done. unfold admin_token.
  destruct Hr as [->|[-> ->]]; [|by rewrite bool_decide_eq_true_2].
  rewrite Bearer_prefix. change (sdrop 7 ("Bearer " +:+ AdminToken opt)) with (AdminToken opt).
  by rewrite bool_decide_eq_false_2.
Qed.
