(* ===== verification/PolicyApi.v ===== *)
(** * PolicyApi: the policy endpoints

    src/internal/interfaces/http/api/policy_handlers.go and policy_dtos.go over
    the policy service of [Policies].  Every route is guarded by [adminAuth].
    The JSON decoders and the parser of identifiers are arguments; chi never
    matches an empty path segment, so the checks for one are kept as they are
    written. *)

From Stdlib Require Import Ascii String.
From S2P Require Import Prelude GoString Unicode Rules Merge Verifiers Complexity Aho Literals Engine Compile Scanner Load ScanIO Setters Loader Repos PolicyRepo EventBus Policies Http.

Record PolicyCreateRequest := { pc_Name : string; pc_Content : string; pc_Type : string }.
Record PolicyUpdateRequest := { pu_Name : string; pu_Content : string }.
Record PolicyTestRequest := { pt_Content : string }.
Record PolicyValidateRequest := { pw_Name : string; pw_Content : string; pw_Type : string }.

(** The fields of [PolicyResponse] that [convertPolicyToResponse] fills. *)
Record PolicyView := {
  vw_ID : string;
  vw_Name : string;
  vw_Version : Z;
  vw_Type : PolicyType;
  vw_CreatedAt : Z;
  vw_UpdatedAt : Z;
}.

(** [types.PolicyType(s)]. *)
Definition policy_type (s : string) : PolicyType :=
  if bool_decide (s = "builtin") then Builtin
  else if bool_decide (s = "custom") then Custom
  else if bool_decide (s = "managed") then Managed
  else OtherType s.

Definition convertPolicyToResponse (p : Policy) : PolicyView :=
  {| vw_ID := po_ID p; vw_Name := po_Name p; vw_Version := po_Version p; vw_Type := po_Type p;
     vw_CreatedAt := po_CreatedAt p; vw_UpdatedAt := po_UpdatedAt p |}.
Definition convertPoliciesToResponse (ps : list Policy) : list PolicyView := map convertPolicyToResponse ps.

(** A policy with the zero values of Go elsewhere. *)
Definition bare_policy (id : uuid) (name content : string) (t : PolicyType) : Policy :=
  {| po_ID := id; po_Name := name; po_Version := 0; po_Content := content; po_Type := t; po_CreatedBy := None;
     po_CreatedAt := 0; po_UpdatedAt := 0 |}.

Definition convertRequestToPolicy (req : PolicyCreateRequest) : Policy :=
  bare_policy uuid_Nil (pc_Name req) (pc_Content req) (policy_type (pc_Type req)).
Definition convertUpdateRequestToPolicy (id : uuid) (req : PolicyUpdateRequest) : Policy :=
  bare_policy id (pu_Name req) (pu_Content req) (OtherType "").
Definition convertValidateRequestToPolicy (req : PolicyValidateRequest) : Policy :=
  bare_policy uuid_Nil (pw_Name req) (pw_Content req) (policy_type (pw_Type req)).

(** [parseListFilter]. *)
Definition limit_filter (limitStr : string) : option filter_value :=
  if bool_decide (limitStr = "") then None
  else match Atoi limitStr with
       | Some limit => if ((0 <? limit) && (limit <=? 1000))%Z then Some (FInt limit) else Some (FInt 50)
       | None => Some (FInt 50)
       end.
Definition parseListFilter (r : HttpRequest) : gmap string filter_value :=
  let add k v f := match v with Some v => <[k := v]> f | None => f end in
  let f := add "limit"%string (limit_filter (Query r "limit")) ∅ in
  let t := Query r "type" in
  let f := add "type"%string (if bool_decide (t = "") then None else Some (FType (policy_type t))) f in
  let n := Query r "name" in
  add "name"%string (if bool_decide (n = "") then None else Some (FString n)) f.

Section Handlers.
Context `{RS : RegexpSyntax, RE : RegexpEngine, LL : LruLib, AL : AhoLib, PF : Platform, SO : Sources, YR : YamlRules, RO : RangeOrder}.
(** [uuid.Parse], the rule compiler of the service and the decoders of bodies. *)
Context (uuid_Parse : string -> option uuid) (validator : option (Policy -> option string)).
Context (decode_create : string -> result string PolicyCreateRequest) (decode_update : string -> result string PolicyUpdateRequest).

(** The policies of the answer, their number and the total. *)
Definition ListPolicies (r : HttpRequest) (y : system) : Reply (list PolicyView * Z * Z) :=
  let '(ps, total) := ListWithFilter (parseListFilter r) (repository y) in
  Answer 200 (convertPoliciesToResponse ps, Z.of_nat (List.length ps), total).

Definition api_CreatePolicy (id : uuid) (now : Z) (r : HttpRequest) (y : system) : Reply PolicyView * system :=
  match decode_create (RawBody r) with
  | Err _ => (Failure 400 "INVALID_REQUEST", y)
  | Ok req =>
    match CreatePolicy validator id now (convertRequestToPolicy req) y with
    | (Err _, y) => (Failure 400 "CREATE_FAILED", y)
    | (Ok p, y) => (Answer 201 (convertPolicyToResponse p), y)
    end
  end.

(** The identifier in the path; both errors are answered INVALID_ARGUMENT. *)
Definition path_id (r : HttpRequest) : option uuid :=
  if bool_decide (URLParam r "id" = "") then None else uuid_Parse (URLParam r "id").

Definition api_GetPolicy (r : HttpRequest) (y : system) : Reply PolicyView :=
  match path_id r with
  | None => Failure 400 "INVALID_ARGUMENT"
  | Some id =>
    match PolicyRepo.Get id (repository y) with
    | Err _ => Failure 404 "POLICY_NOT_FOUND"
    | Ok p => Answer 200 (convertPolicyToResponse p)
    end
  end.

Definition api_UpdatePolicy (now : Z) (r : HttpRequest) (y : system) : Reply PolicyView * system :=
  match path_id r with
  | None => (Failure 400 "INVALID_ARGUMENT", y)
  | Some id =>
    match decode_update (RawBody r) with
    | Err _ => (Failure 400 "INVALID_REQUEST", y)
    | Ok req =>
      match UpdatePolicy validator now (convertUpdateRequestToPolicy id req) y with
      | (Err _, y) => (Failure 400 "UPDATE_FAILED", y)
      | (Ok p, y) => (Answer 200 (convertPolicyToResponse p), y)
      end
    end
  end.

(** The routes that act on a policy, with the action, the status and code of
    its failure, and the status text of the answer. *)
Definition act_on (action : uuid -> system -> option policy_svc_error * system) (status : Z) (code done_ : string)
    (r : HttpRequest) (y : system) : Reply (uuid * string) * system :=
  match path_id r with
  | None => (Failure 400 "INVALID_ARGUMENT", y)
  | Some id =>
    match action id y with
    | (Some _, y) => (Failure status code, y)
    | (None, y) => (Answer 200 (id, done_), y)
    end
  end.

Definition api_DeletePolicy : HttpRequest -> system -> Reply (uuid * string) * system :=
  act_on DeletePolicy 404 "DELETE_FAILED" "deleted".
Definition api_ActivatePolicy (now : Z) : HttpRequest -> system -> Reply (uuid * string) * system :=
  act_on (fun id => ActivatePolicy id now) 500 "ACTIVATION_FAILED" "activated".
Definition api_DeactivatePolicy (now : Z) : HttpRequest -> system -> Reply (uuid * string) * system :=
  act_on (fun id => DeactivatePolicy id now) 500 "DEACTIVATION_FAILED" "deactivated".

(** ** What the endpoints do *)

(** A request for the policy [id]. *)
Definition names (r : HttpRequest) (id : uuid) : Prop := path_id r = Some id.

Lemma view_stored r id p y : names r id -> PolicyRepo.Get id (repository y) = Ok p -> api_GetPolicy r y = Answer 200 (convertPolicyToResponse p).
Proof. unfold names, api_GetPolicy. by intros -> ->. Qed.

(** What a request created is what is read afterwards. *)
Lemma api_created_found id now r r' y st v y1 :
  api_CreatePolicy id now r y = (Answer st v, y1) -> names r' id -> api_GetPolicy r' y1 = Answer 200 v.
Proof.
  unfold api_CreatePolicy. destruct (decode_create _) as [req|e]; [|done]. unfold CreatePolicy.
  destruct (ValidatePolicy _ _); [done|]. unfold PolicyRepo.Create. simpl.
  destruct (repository y !! id); [done|]. intros [= <- <- <-] Hn. apply (view_stored r' id); [done|].
  unfold PolicyRepo.Get. simpl. by rewrite lookup_insert_eq.
Qed.

Lemma limit_filter_range l n : limit_filter l = Some (FInt n) -> (0 < n <= 1000)%Z.
Proof. unfold limit_filter. repeat case_match; intros; simplify_eq; lia. Qed.

Lemma list_bounded r y vs c total :
  ListPolicies r y = Answer 200 (vs, c, total) ->
  total = Z.of_nat (size (repository y)) /\ c = Z.of_nat (List.length vs) /\
  (forall n, limit_filter (Query r "limit") = Some (FInt n) -> (c <= n)%Z).
Proof.
  unfold ListPolicies, ListWithFilter.
  assert (Hl : parseListFilter r !! "limit" = limit_filter (Query r "limit")).
  { unfold parseListFilter. repeat case_match; rewrite ?lookup_insert_ne by done; by rewrite ?lookup_insert_eq, ?lookup_empty. }
  rewrite Hl. intros [= <- <- <-]. split_and!; [done|unfold convertPoliciesToResponse; by rewrite length_map|]. intros n Hn. rewrite Hn.
  apply limit_filter_range in Hn. destruct (_ && _) eqn:Eb; [rewrite length_take; lia|].
  apply andb_false_iff in Eb. lia.
Qed.

(** The requests behind [adminAuth], and the goroutines of the event bus, which
    run in any order. *)
Inductive api_step (opt : Options) : system -> system -> Prop :=
  | as_create id now r y :
      repository y !! id = None -> api_step opt y (adminAuth opt r (api_CreatePolicy id now r) y).2
  | as_update now r y : api_step opt y (adminAuth opt r (api_UpdatePolicy now r) y).2
  | as_delete r y : api_step opt y (adminAuth opt r (api_DeletePolicy r) y).2
  | as_activate now r y : api_step opt y (adminAuth opt r (api_ActivatePolicy now r) y).2
  | as_deactivate now r y : api_step opt y (adminAuth opt r (api_DeactivatePolicy now r) y).2
  | as_handle k y y' : handle k y = Some y' -> api_step opt y y'.

Lemma act_on_cases action status code d r y :
  (act_on action status code d r y).2 = y \/ exists id, path_id r = Some id /\ (act_on action status code d r y).2 = (action id y).2.
Proof.
  unfold act_on. destruct (path_id r) as [id|]; [right|by left]. exists id. split; [done|].
  by destruct (action id y) as [[e|] y'].
Qed.

Lemma api_step_policy opt y y' : api_step opt y y' -> y' = y \/ policy_step false y y'.
Proof.
  intros Hs. destruct Hs as [id now r y Hid|now r y|r y|now r y|now r y|k y y' Hh].
  - destruct (adminAuth_passes opt r (api_CreatePolicy id now r) y) as [[_ ->]|[_ ->]]; [|by left].
    unfold api_CreatePolicy. destruct (decode_create _) as [req|]; [right|by left].
    pose proof (step_create false validator id now (convertRequestToPolicy req) y Hid) as Hst.
    destruct (CreatePolicy _ _ _ _ y) as [[p|e] y']; exact Hst.
  - destruct (adminAuth_passes opt r (api_UpdatePolicy now r) y) as [[_ ->]|[_ ->]]; [|by left].
    unfold api_UpdatePolicy. destruct (path_id r) as [id|]; [|by left]. destruct (decode_update _) as [req|]; [right|by left].
    pose proof (step_update false validator now (convertUpdateRequestToPolicy id req) y) as Hst.
    destruct (UpdatePolicy _ _ _ y) as [[p|e] y']; exact Hst.
  - destruct (adminAuth_passes opt r (api_DeletePolicy r) y) as [[_ ->]|[_ ->]]; [|by left].
    unfold api_DeletePolicy. destruct (act_on_cases DeletePolicy 404 "DELETE_FAILED" "deleted" r y) as [->|(id & _ & ->)];
      [by left|right; apply step_delete].
  - destruct (adminAuth_passes opt r (api_ActivatePolicy now r) y) as [[_ ->]|[_ ->]]; [|by left].
    unfold api_ActivatePolicy. destruct (act_on_cases (fun id => ActivatePolicy id now) 500 "ACTIVATION_FAILED" "activated" r y)
      as [->|(id & _ & ->)]; [by left|right; by apply step_activate].
  - destruct (adminAuth_passes opt r (api_DeactivatePolicy now r) y) as [[_ ->]|[_ ->]]; [|by left].
    unfold api_DeactivatePolicy. destruct (act_on_cases (fun id => DeactivatePolicy id now) 500 "DEACTIVATION_FAILED" "deactivated" r y)
      as [->|(id & _ & ->)]; [by left|right; by apply step_deactivate].
  - right. by apply (step_handle false _ k).
Qed.

Lemma api_steps_policy opt y y' : rtc (api_step opt) y y' -> rtc (policy_step false) y y'.
Proof.
  induction 1 as [|y y1 y' H1 _ IH]; [done|]. apply api_step_policy in H1 as [->|H1]; [done|by econstructor].
Qed.

(** *** What is enforced *)

(** The policy an event is about. *)
Definition about (e : policy_event) : uuid := match e with PolicyActivated id _ | PolicyDeactivated id _ => id end.
(** The outstanding events about a policy. *)
Definition events_about (id : uuid) (y : system) : list policy_event := filter (fun e => about e = id) (pending y).

(** Requests that announce nothing about the policy, and handlers. *)
Definition quiet_step (opt : Options) (id : uuid) (y y' : system) : Prop :=
  api_step opt y y' /\ List.length (events_about id y') <= List.length (events_about id y).

Lemma effect_other id e m : about e <> id -> effect m e !! id = m !! id.
Proof. destruct e; simpl; intros ?; [by rewrite lookup_insert_ne|by rewrite lookup_delete_ne]. Qed.

Lemma effect_same id e m m' : about e = id -> effect m e !! id = effect m' e !! id.
Proof. destruct e; simpl; intros ->; [by rewrite !lookup_insert_eq|by rewrite !lookup_delete_eq]. Qed.

(** A request leaves the manager alone and announces at most; a handler
    applies one event. *)
Lemma policy_step_manager y y' :
  policy_step false y y' -> policies_ok y ->
  (manager y' = manager y /\ pending y `prefix_of` pending y') \/
  exists l1 e l2, pending y = l1 ++ e :: l2 /\ pending y' = l1 ++ l2 /\ loaded_with_policies (manager y') /\
    activePolicies (manager y') = effect (activePolicies (manager y)) e.
Proof.
  intros Hs Hok. pose proof (pk_keys _ Hok) as Hk. destruct Hs as [v id now p y Hid|v now p y|id y|R id now y|R id now y|R k y y' Hf Hh].
  - destruct (Create_writes v id now p y Hk) as (_ & ? & -> & -> & ?). by left.
  - destruct (Update_writes v now p y Hk) as (_ & ? & -> & -> & ?). by left.
  - destruct (Delete_writes id y Hk) as (_ & ? & -> & -> & ?). by left.
  - left. pose proof (ActivatePolicy_cases R id now y Hk) as Hc. destruct (repository y !! id) as [p|] eqn:Ep; [|by rewrite Hc].
    destruct Hc as (_ & _ & -> & _ & _ & -> & _). split; [done|by apply prefix_app_r].
  - left. pose proof (DeactivatePolicy_cases R id now y Hk) as Hc. destruct (repository y !! id) as [p|] eqn:Ep; [|by rewrite Hc].
    destruct Hc as (_ & _ & -> & _ & _ & -> & _). split; [done|by apply prefix_app_r].
  - right. apply (handle_cases R) in Hh as (e & Hke & Hp & _ & _ & _ & Hl & Ha).
    exists (take k (pending y)), e, (drop (S k) (pending y)). split_and!; [by rewrite take_drop_middle| |done|done].
    by rewrite Hp, delete_take_drop.
Qed.

(** The last event about the policy is outstanding, or the manager has taken
    it over. *)
Definition enforced (id : uuid) (v : option Policy) (y : system) : Prop :=
  (exists e, events_about id y = [e] /\ forall m, effect m e !! id = v) \/
  (events_about id y = [] /\ loaded_with_policies (manager y) /\ activePolicies (manager y) !! id = v).

Lemma quiet_step_enforced opt id v y y' :
  quiet_step opt id y y' -> policies_ok y -> enforced id v y -> enforced id v y'.
Proof.
  intros [[->|Hs]%api_step_policy Hq] Hok He; [done|].
  destruct (policy_step_manager y y' Hs Hok) as [[Hm [es Hp]]|(l1 & e & l2 & Hp & Hp' & Hl & Ha)].
  - assert (Ee : events_about id y' = events_about id y).
    { unfold events_about in *. rewrite Hp, filter_app in *. rewrite length_app in Hq.
      destruct (filter _ es) as [|? ?]; [by rewrite app_nil_r|simpl in Hq; lia]. }
    unfold enforced. by rewrite Ee, Hm.
  - unfold enforced, events_about in *. rewrite Hp in He. rewrite Hp', filter_app. rewrite filter_app, filter_cons in He.
    destruct (decide (about e = id)) as [Hab|Hab].
    + destruct He as [(e0 & He & Hv)|[He _]]; [|by apply app_eq_nil in He as [_ ?]].
      apply app_eq_unit in He as [[-> [= <- ->]]|[_ ?]]; [|done]. right. split_and!; [done|done|]. by rewrite Ha.
    + destruct He as [?|(Hn & _ & Hv)]; [by left|right]. split_and!; [done|done|]. by rewrite Ha, effect_other.
Qed.

Lemma quiet_steps_enforced opt id v y y' :
  rtc (quiet_step opt id) y y' -> policies_ok y -> enforced id v y -> enforced id v y'.
Proof.
  induction 1 as [|y y1 y' Hq _ IH]; intros Hok He; [done|]. apply IH; [|by eapply quiet_step_enforced].
  destruct Hq as [[->|Hs]%api_step_policy _]; [done|by eapply policy_step_ok].
Qed.

(** The goroutines of all outstanding events have run. *)
Fixpoint settle (n : nat) (y : system) : system :=
  match n with 0 => y | S n => settle n (default y (handle 0 y)) end.
Definition settled (y : system) : system := settle (List.length (pending y)) y.

Lemma settle_steps opt id n y :
  List.length (pending y) = n -> rtc (quiet_step opt id) y (settle n y) /\ pending (settle n y) = [].
Proof.
  revert y. induction n as [|n IH]; intros y Hn; simpl; [by apply nil_length_inv in Hn|].
  assert (Hh : exists y1, handle 0 y = Some y1).
  { unfold handle. destruct (pending y) as [|e es]; [done|]. simpl. destruct (deliver _ _). eauto. }
  destruct Hh as [y1 Hh]. rewrite Hh. simpl. pose proof Hh as (e & Hp & Hp1 & _)%handle_cases.
  assert (Hlen : List.length (pending y1) = n) by (rewrite Hp1; destruct (pending y); simpl in *; [done|lia]).
  destruct (IH y1 Hlen) as [Hst Hpe]. split; [|done]. econstructor; [|exact Hst]. split; [by apply (as_handle opt 0)|].
  unfold events_about. rewrite Hp1. destruct (pending y) as [|e' es]; [done|]. simpl. rewrite filter_cons.
  case_decide; simpl; lia.
Qed.

(** A request that was announced, and of whose policy no other event was
    outstanding: the manager takes over what the service holds. *)
Lemma announced_settles opt y y1 e id v :
  policies_ok y1 -> events_about id y = [] -> pending y1 = pending y ++ [e] -> about e = id -> (forall m, effect m e !! id = v) ->
  (rtc (quiet_step opt id) y1 (settled y1) /\ pending (settled y1) = []) /\
  forall y2, rtc (quiet_step opt id) y1 y2 -> pending y2 = [] ->
    loaded_with_policies (manager y2) /\ activePolicies (manager y2) !! id = v.
Proof.
  intros Hok Hn Hp Hab Hv. split; [by apply settle_steps|]. intros y2 Hq Hp2.
  assert (He : enforced id v y1).
  { left. exists e. split; [|done]. unfold events_about in *. rewrite Hp, filter_app, Hn, filter_cons. by rewrite decide_True. }
  destruct (quiet_steps_enforced _ _ _ _ _ Hq Hok He) as [(e' & He' & _)|(_ & ? & ?)]; [|done].
  unfold events_about in He'. by rewrite Hp2 in He'.
Qed.

(** The answer of an action behind the guard. *)
Lemma guarded_action {opt r y} action status code d x y1 :
  adminAuth opt r (act_on action status code d r) y = (x, y1) ->
  match x with
  | Answer _ (id, _) => admin_ok opt r /\ names r id /\ action id y = (None, y1)
  | Failure _ _ => y1 = y \/ exists id e, action id y = (Some e, y1)
  end.
Proof.
  destruct (adminAuth_passes opt r (act_on action status code d r) y) as [[Ha ->]|[_ ->]]; [|intros [= <- <-]; by left].
  unfold act_on, names. destruct (path_id r) as [i|]; [|intros [= <- <-]; by left].
  destruct (action i y) as [[e|] y2] eqn:Ea; intros [= <- <-]; [right; eauto|done].
Qed.

(** What the two operations of the service do, by their answer. *)
Lemma activated y id now e y1 :
  keys_ok (repository y) -> ActivatePolicy id now y = (e, y1) ->
  match e with
  | Some _ => y1 = y
  | None => policy_step false y y1 /\ exists p, pending y1 = pending y ++ [PolicyActivated id p] /\
            repository y1 !! id = Some p /\ activePolicies (service y1) !! id = Some p
  end.
Proof.
  intros Hk Ha. pose proof (ActivatePolicy_cases RO id now y Hk) as Hc. pose proof (step_activate false RO id now y) as Hst.
  rewrite Ha in Hc, Hst. destruct (repository y !! id) as [p|] eqn:Ep.
  - destruct Hc as (He & Hr & _ & Hsv & _ & Hp & Ht). simpl in *. subst e. split; [done|].
    exists (touch now p). by rewrite Hr, Hsv, !lookup_insert_eq.
  - unfold ActivatePolicy, PolicyRepo.Get in Ha. rewrite Ep in Ha. by injection Ha as <- <-.
Qed.

Lemma deactivated y id now e y1 :
  keys_ok (repository y) -> DeactivatePolicy id now y = (e, y1) ->
  match e with
  | Some _ => y1 = y
  | None => policy_step false y y1 /\ exists p, pending y1 = pending y ++ [PolicyDeactivated id p] /\
            repository y1 !! id = Some p /\ activePolicies (service y1) !! id = None
  end.
Proof.
  intros Hk Ha. pose proof (DeactivatePolicy_cases RO id now y Hk) as Hc. pose proof (step_deactivate false RO id now y) as Hst.
  rewrite Ha in Hc, Hst. destruct (repository y !! id) as [p|] eqn:Ep.
  - destruct Hc as (He & Hr & _ & Hsv & _ & Hp & Ht). simpl in *. subst e. split; [done|].
    exists (touch now p). by rewrite Hr, Hsv, lookup_insert_eq, lookup_delete_eq.
  - unfold DeactivatePolicy, PolicyRepo.Get in Ha. rewrite Ep in Ha. by injection Ha as <- <-.
Qed.

(** C15. Activation requests reach the gateway, in whatever order the
    goroutines of the event bus run.  After any history of policy requests and
    handlers, a request to activate or deactivate a policy that is answered
    with success passed the administrator's guard (it carries the configured
    token, or no token is configured and insecure access is allowed) and names
    a stored policy, which the service then holds active as it is stored, or
    no longer holds active.  If no event about that policy was outstanding when
    the request was made and no further request activates or deactivates it,
    then whatever else happens, as soon as no event is outstanding the scanner
    manager of the enforcement endpoints is loaded with the packs of its active
    policies, among them the activated one as the request stored it, or no
    longer the deactivated one; and the handlers that are outstanding can get
    it there.  A request that is refused, whatever the reason, changes
    nothing. *)
Theorem policy_requests_enforced opt content now0 sh y now r x y1 :
  rtc (api_step opt) (start content now0 sh) y ->
  let reaches id v := events_about id y = [] ->
    (rtc (quiet_step opt id) y1 (settled y1) /\ pending (settled y1) = []) /\
    forall y2, rtc (quiet_step opt id) y1 y2 -> pending y2 = [] ->
      loaded_with_policies (manager y2) /\ activePolicies (manager y2) !! id = v in
  (adminAuth opt r (api_ActivatePolicy now r) y = (x, y1) ->
   match x with
   | Answer _ (id, _) =>
     admin_ok opt r /\ names r id /\ exists p, PolicyRepo.Get id (repository y1) = Ok p /\
       activePolicies (service y1) !! id = Some p /\ reaches id (Some p)
   | Failure _ _ => y1 = y
   end) /\
  (adminAuth opt r (api_DeactivatePolicy now r) y = (x, y1) ->
   match x with
   | Answer _ (id, _) =>
     admin_ok opt r /\ names r id /\ is_ok (PolicyRepo.Get id (repository y1)) = true /\
       activePolicies (service y1) !! id = None /\ reaches id None
   | Failure _ _ => y1 = y
   end).
Proof.
  intros Hs reaches. destruct (start_ok RO content now0 sh) as [Hok0 _].
  pose proof (policy_steps_ok _ _ _ (api_steps_policy _ _ _ Hs) Hok0) as Hok. pose proof (pk_keys _ Hok) as Hk.
  split; intros Hreq%guarded_action; destruct x as [st [id t]|st c].
  - destruct Hreq as (Ha & Hn & Hact). destruct (activated _ _ _ _ _ Hk Hact) as (Hst & p & Hp & Hr & Hsv).
    split_and!; [done|done|]. exists p. unfold PolicyRepo.Get. rewrite Hr. split_and!; [done|done|].
    intros He. apply (announced_settles opt y y1 (PolicyActivated id p)); try done; [by eapply policy_step_ok|].
    intros m. apply lookup_insert_eq.
  - destruct Hreq as [->|(id & e & Hact)]; [done|]. exact (activated _ _ _ _ _ Hk Hact).
  - destruct Hreq as (Ha & Hn & Hact). destruct (deactivated _ _ _ _ _ Hk Hact) as (Hst & p & Hp & Hr & Hsv).
    unfold PolicyRepo.Get. rewrite Hr. split_and!; try done.
    intros He. apply (announced_settles opt y y1 (PolicyDeactivated id p)); try done; [by eapply policy_step_ok|].
    intros m. apply lookup_delete_eq.
  - destruct Hreq as [->|(id & e & Hact)]; [done|]. exact (deactivated _ _ _ _ _ Hk Hact).
Qed.
End Handlers.

(** ** Testing and validating *)

Section Testing.
Context `{RS : RegexpSyntax, RE : RegexpEngine, LL : LruLib, AL : AhoLib, PF : Platform, SO : Sources, YR : YamlRules, WW : World,
  SE : ScanEnv, RO : RangeOrder}.
Context (uuid_Parse : string -> option uuid) (validator : option (Policy -> option string)).
Context (decode_test : string -> result string PolicyTestRequest) (decode_validate : string -> result string PolicyValidateRequest).

Definition api_TestPolicy (r : HttpRequest) (ys : system * eval_state) :
    Reply (list PolicyViolation * Metrics) * (system * eval_state) :=
  match path_id uuid_Parse r with
  | None => (Failure 400 "INVALID_ARGUMENT", ys)
  | Some id =>
    match decode_test (RawBody r) with
    | Err _ => (Failure 400 "INVALID_REQUEST", ys)
    | Ok req =>
      match TestPolicy id (pt_Content req) ys.1 ys.2 with
      | (Err _, y, st) => (Failure 500 "TEST_FAILED", (y, st))
      | (Ok res, y, st) => (Answer 200 res, (y, st))
      end
    end
  end.

(** Whether the policy is valid, with the error. *)
Definition api_ValidatePolicy (r : HttpRequest) : Reply (bool * list policy_svc_error) :=
  match decode_validate (RawBody r) with
  | Err _ => Failure 400 "INVALID_REQUEST"
  | Ok req =>
    match ValidatePolicy validator (convertValidateRequestToPolicy req) with
    | Some e => Answer 200 (false, [e])
    | None => Answer 200 (true, [])
    end
  end.
End Testing.

Module PolicyApiWitnesses.
Import PolicyWitnesses.
#[local] Existing Instance literal_syntax.
#[local] Existing Instance literal_engine.
#[local] Existing Instance list_lru.
#[local] Existing Instance naive_lib.
#[local] Existing Instance bare_platform.
#[local] Existing Instance LoaderWitnesses.demo_sources.
#[local] Existing Instance some_order.
#[local] Existing Instance no_rules.

Definition opt : Options := {| AdminToken := "secret"; AllowInsecureAdmin := false |}.
Definition on_policy (query : list (string * string)) (id : string) : HttpRequest :=
  request "POST" "" [("X-PS-Admin-Token", "secret")] query [("id", id)] "body".
Definition activation : HttpRequest := on_policy [] builtin_id.

Lemma policy_requests_enforced_witness :
  let '(x, y1) := adminAuth opt activation (api_ActivatePolicy Some 5 activation) y0 in
  x = Answer 200 (builtin_id, "activated"%string) /\
  exists p, PolicyRepo.Get builtin_id (repository y1) = Ok p /\ activePolicies (manager (settled y1)) !! builtin_id = Some p.
Proof.
  assert (Hx : (adminAuth opt activation (api_ActivatePolicy Some 5 activation) y0).1 = Answer 200 (builtin_id, "activated"%string))
    by (vm_compute; reflexivity).
  destruct (adminAuth opt activation (api_ActivatePolicy Some 5 activation) y0) as [x y1] eqn:E. simpl in Hx.
  split; [exact Hx|].
  destruct (policy_requests_enforced Some None (fun _ => Err "") (fun _ => Err "") opt "just text" 0 sh0
    y0 5 activation x y1) as [Ha _];
    [apply rtc_refl|].
  specialize (Ha E). rewrite Hx in Ha. destruct Ha as (_ & _ & p & Hp & _ & Hr).
  destruct (Hr eq_refl) as [[Hsettles Hnone] Hall]. exists p. split; [exact Hp|]. exact (proj2 (Hall _ Hsettles Hnone)).
Defined.

(** An update carries no type: the type of the policy is lost. *)
Lemma update_drops_type :
  let update r := Ok {| pu_Name := "renamed"; pu_Content := "text" |} in
  (match api_GetPolicy Some activation y0 with Answer _ v => Some (vw_Type v) | _ => None end,
   match (api_UpdatePolicy Some None update 5 activation y0).1 with Answer _ v => Some (vw_Type v) | _ => None end)
  = (Some Builtin, Some (OtherType "")).
Proof. vm_compute. reflexivity. Qed.

(** The total counts the policies that do not match, too. *)
Lemma total_ignores_filter : ListPolicies (on_policy [("type", "managed")] "") y0 = Answer 200 ([], 0%Z, 1%Z).
Proof. vm_compute. reflexivity. Qed.

(** The constraints of the request types are not checked. *)
Lemma unknown_type_accepted :
  let create r := Ok {| pc_Name := "n"; pc_Content := "text"; pc_Type := "nonsense" |} in
  StatusOf (api_CreatePolicy None create "id" 5 activation y0).1 = 201%Z.
Proof. vm_compute. reflexivity. Qed.
End PolicyApiWitnesses.
