(* ===== verification/Hub.v ===== *)
(** * Hub: the event hub and the event stream

    src/internal/interfaces/http/api/events.go and event_stream.go.  A channel
    is its buffer and whether it is closed; sending to a closed channel and
    closing a channel twice panic.  [Publish] holds the read lock of the hub
    while it offers the event to one subscriber after the other, so several
    publications can be in progress, and subscriptions only change in between.
    Beside what the code keeps, the state remembers what was published, what a
    channel delivered and what it dropped. *)

From Stdlib Require Import Ascii String.
From S2P Require Import Prelude GoString Unicode Http.

(** [Data] is any JSON value; a zero time is [None]. *)
Record Event (D : Type) := { ev_Type : string; ev_Data : D; ev_Time : option Z }.
Arguments ev_Type {D} _.
Arguments ev_Data {D} _.
Arguments ev_Time {D} _.

Section Hub.
Context {D : Type}.

(** Events are numbered in the order in which they are published. *)
Record channel := {
  ch_buf : list (nat * Event D);
  ch_closed : bool;
  ch_got : list (nat * Event D);
  ch_dropped : list nat;
  ch_birth : nat;
}.

Record EventHub := {
  chans : gmap nat channel;
  subscribers : gset nat;
  sending : list (nat * Event D * gset nat);
  published : list (Event D);
}.

Definition NewEventHub : EventHub := {| chans := ∅; subscribers := ∅; sending := []; published := [] |}.

Definition with_chans (m : gmap nat channel) (h : EventHub) : EventHub :=
  {| chans := m; subscribers := subscribers h; sending := sending h; published := published h |}.
Definition with_sending (l : list (nat * Event D * gset nat)) (h : EventHub) : EventHub :=
  {| chans := chans h; subscribers := subscribers h; sending := l; published := published h |}.

Definition capacity : nat := 16.

Definition Subscribe (c : nat) (h : EventHub) : EventHub :=
  {| chans := <[c := {| ch_buf := []; ch_closed := false; ch_got := []; ch_dropped := []; ch_birth := length (published h) |}]>
                (chans h);
     subscribers := {[ c ]} ∪ subscribers h; sending := sending h; published := published h |}.

(** [close(ch)]; [None] is a panic. *)
Definition close (ch : channel) : option channel :=
  if ch_closed ch then None
  else Some {| ch_buf := ch_buf ch; ch_closed := true; ch_got := ch_got ch; ch_dropped := ch_dropped ch;
               ch_birth := ch_birth ch |}.

Definition Unsubscribe (c : nat) (h : EventHub) : option EventHub :=
  if bool_decide (c ∈ subscribers h)
  then ch ← chans h !! c; ch' ← close ch;
       Some {| chans := <[c := ch']> (chans h); subscribers := subscribers h ∖ {[ c ]}; sending := sending h;
               published := published h |}
  else Some h.

(** [select { case ch <- &e: default: }]. *)
Definition offer (n : nat) (e : Event D) (ch : channel) : option channel :=
  if ch_closed ch then None
  else if length (ch_buf ch) <? capacity
  then Some {| ch_buf := ch_buf ch ++ [(n, e)]; ch_closed := false; ch_got := ch_got ch; ch_dropped := ch_dropped ch;
               ch_birth := ch_birth ch |}
  else Some {| ch_buf := ch_buf ch; ch_closed := false; ch_got := ch_got ch; ch_dropped := ch_dropped ch ++ [n];
               ch_birth := ch_birth ch |}.

(** [Publish] takes the lock, and offers the event to one of the subscribers
    that are left. *)
Definition Publish (e : Event D) (h : EventHub) : EventHub :=
  {| chans := chans h; subscribers := subscribers h;
     sending := sending h ++ [(length (published h), e, subscribers h)]; published := published h ++ [e] |}.

Definition publish_one (n : nat) (e : Event D) (c : nat) (h : EventHub) : option EventHub :=
  ch ← chans h !! c; ch' ← offer n e ch; Some (with_chans (<[c := ch']> (chans h)) h).

(** A receive: [Some None] is what a closed channel yields, [None] blocks. *)
Definition receive (ch : channel) : option (option (nat * Event D) * channel) :=
  match ch_buf ch with
  | x :: rest => Some (Some x, {| ch_buf := rest; ch_closed := ch_closed ch; ch_got := ch_got ch ++ [x];
                                  ch_dropped := ch_dropped ch; ch_birth := ch_birth ch |})
  | [] => if ch_closed ch then Some (None, ch) else None
  end.

(** [serial]: a publication starts only when the previous one is over. *)
Inductive hub_step (serial : bool) (h : EventHub) : option EventHub -> Prop :=
  | hub_subscribe c : sending h = [] -> chans h !! c = None -> hub_step serial h (Some (Subscribe c h))
  | hub_unsubscribe c : sending h = [] -> hub_step serial h (Unsubscribe c h)
  | hub_publish e : (serial = true -> sending h = []) -> hub_step serial h (Some (Publish e h))
  | hub_send l1 n e todo l2 c :
      sending h = l1 ++ (n, e, todo) :: l2 -> c ∈ todo ->
      hub_step serial h (publish_one n e c (with_sending (l1 ++ (n, e, todo ∖ {[ c ]}) :: l2) h))
  | hub_done l1 n e l2 :
      sending h = l1 ++ (n, e, ∅) :: l2 -> hub_step serial h (Some (with_sending (l1 ++ l2) h))
  | hub_receive c ch x ch' :
      chans h !! c = Some ch -> receive ch = Some (x, ch') -> hub_step serial h (Some (with_chans (<[c := ch']> (chans h)) h)).

Inductive hub_run (serial : bool) : EventHub -> Prop :=
  | hub_start : hub_run serial NewEventHub
  | hub_next h h' : hub_run serial h -> hub_step serial h (Some h') -> hub_run serial h'.

(** ** The invariant *)

Definition delivered (ch : channel) : list (nat * Event D) := ch_got ch ++ ch_buf ch.
Definition accounted (ch : channel) : list nat := map fst (delivered ch) ++ ch_dropped ch.

(** A publication that still has to reach the channel. *)
Definition awaits (h : EventHub) (c n : nat) : Prop := exists e todo, (n, e, todo) ∈ sending h /\ c ∈ todo.

Record channel_ok (h : EventHub) (c : nat) (ch : channel) : Prop := {
  co_capacity : length (ch_buf ch) <= capacity;
  co_events : forall n e, (n, e) ∈ delivered ch -> published h !! n = Some e;
  co_once : NoDup (accounted ch);
  co_range : forall n, n ∈ accounted ch -> ch_birth ch <= n < length (published h) /\ ~ awaits h c n;
}.

Record hub_ok (h : EventHub) : Prop := {
  ho_channels : forall c ch, chans h !! c = Some ch -> channel_ok h c ch;
  ho_open : forall c, c ∈ subscribers h -> exists ch, chans h !! c = Some ch /\ ch_closed ch = false;
  ho_sending : forall n e todo, (n, e, todo) ∈ sending h -> todo ⊆ subscribers h /\ published h !! n = Some e;
  ho_distinct : NoDup (map (fun x => x.1.1) (sending h));
  ho_complete : forall c ch n, c ∈ subscribers h -> chans h !! c = Some ch ->
    ch_birth ch <= n < length (published h) -> n ∈ accounted ch \/ awaits h c n;
  ho_old : forall c ch, chans h !! c = Some ch -> ch_birth ch <= length (published h);
  ho_birth : forall c ch n, chans h !! c = Some ch -> awaits h c n -> ch_birth ch <= n;
}.

(** The channels see the rest of the hub through the publications. *)
Lemma channel_ok_frame h h' c ch :
  channel_ok h c ch -> published h' = published h -> (forall n, awaits h' c n -> awaits h c n) -> channel_ok h' c ch.
Proof.
  intros [H1 H2 H3 H4] Hp Ha. split; [done|by rewrite Hp|done|]. intros n Hn. rewrite Hp. destruct (H4 n Hn). naive_solver.
Qed.

Lemma sending_range h n e todo : hub_ok h -> (n, e, todo) ∈ sending h -> n < length (published h).
Proof. intros Hh Hin. destruct (ho_sending h Hh n e todo Hin) as [_ Hp]. by apply lookup_lt_Some in Hp. Qed.

Lemma new_hub_ok : hub_ok NewEventHub.
Proof. split; simpl; [| | |constructor|..]; intros *; try rewrite lookup_empty; set_solver. Qed.

Lemma subscribe_ok c h : sending h = [] -> chans h !! c = None -> hub_ok h -> hub_ok (Subscribe c h).
Proof.
  intros Hs Hc Hh. assert (Hno : forall d n, ~ awaits (Subscribe c h) d n).
  { intros d n (e & todo & Hin & _). simpl in Hin. rewrite Hs in Hin. set_solver. }
  split; simpl.
  - intros d ch [[<- <-]|[_ Hd]]%lookup_insert_Some.
    + split; simpl; [lia|set_solver|constructor|set_solver].
    + eapply channel_ok_frame; [by apply ho_channels|done|]. naive_solver.
  - intros d [Hd|Hd]%elem_of_union.
    + apply elem_of_singleton in Hd as ->. rewrite lookup_insert_eq. eauto.
    + destruct (ho_open h Hh d Hd) as (ch & Hch & ?). exists ch. rewrite lookup_insert_ne; [done|congruence].
  - intros n e todo Hin. rewrite Hs in Hin. set_solver.
  - rewrite Hs. constructor.
  - intros d ch n Hd [[<- <-]|[Hne Hch]]%lookup_insert_Some Hn; simpl in *; [lia|].
    destruct (ho_complete h Hh d ch n ltac:(set_solver) Hch Hn) as [?|(e & todo & Hin & _)]; [by left|].
    rewrite Hs in Hin. set_solver.
  - intros d ch [[<- <-]|[_ Hd]]%lookup_insert_Some; [done|by apply (ho_old h Hh d)].
  - intros d ch n _ []%Hno.
Qed.

Lemma unsubscribe_ok c h : sending h = [] -> hub_ok h -> exists h', Unsubscribe c h = Some h' /\ hub_ok h'.
Proof.
  intros Hs Hh. unfold Unsubscribe. case_bool_decide as Hc; [|by exists h].
  destruct (ho_open h Hh c Hc) as (ch & Hch & Hopen). rewrite Hch. simpl. unfold close. rewrite Hopen. simpl.
  eexists. split; [done|]. set (h' := Build_EventHub _ _ _ _).
  assert (Hno : forall d n, ~ awaits h' d n).
  { intros d n (e & todo & Hin & _). simpl in Hin. rewrite Hs in Hin. set_solver. }
  split; simpl.
  - intros d ch' [[<- <-]|[_ Hd]]%lookup_insert_Some.
    + destruct (ho_channels h Hh c ch Hch) as [H1 H2 H3 H4]. split; [done..|]. intros n Hn. destruct (H4 n Hn). split; [done|].
      apply Hno.
    + eapply channel_ok_frame; [by apply ho_channels|done|]. naive_solver.
  - intros d [Hd Hne]%elem_of_difference. destruct (ho_open h Hh d Hd) as (ch' & Hch' & ?). exists ch'.
    rewrite lookup_insert_ne; [done|set_solver].
  - intros n e todo Hin. rewrite Hs in Hin. set_solver.
  - rewrite Hs. constructor.
  - intros d ch' n [Hd Hne]%elem_of_difference Hd' Hn. rewrite lookup_insert_ne in Hd' by set_solver.
    destruct (ho_complete h Hh d ch' n Hd Hd' Hn) as [?|(e & todo & Hin & _)]; [by left|]. rewrite Hs in Hin. set_solver.
  - intros d ch' [[<- <-]|[_ Hd]]%lookup_insert_Some; [apply (ho_old h Hh c ch Hch)|by apply (ho_old h Hh d)].
  - intros d ch' n _ []%Hno.
Qed.

Lemma publish_ok e h : hub_ok h -> hub_ok (Publish e h).
Proof.
  intros Hh. assert (Ha : forall c n, awaits (Publish e h) c n -> awaits h c n \/ (n = length (published h) /\ c ∈ subscribers h)).
  { intros c n (e' & todo & Hin & Hc). simpl in Hin. apply elem_of_app in Hin as [Hin|[= -> -> ->]%list_elem_of_singleton].
    - left. by exists e', todo.
    - by right. }
  split; simpl.
  - intros c ch Hch. destruct (ho_channels h Hh c ch Hch) as [H1 H2 H3 H4]. split; [done| |done|].
    + intros n e' Hin. apply lookup_app_l_Some. auto.
    + intros n Hn. destruct (H4 n Hn) as [? Hna]. simpl. rewrite length_app. simpl. split; [lia|].
      intros [?|[-> _]]%Ha; [done|lia].
  - apply (ho_open h Hh).
  - intros n e' todo [Hin|[= -> -> ->]%list_elem_of_singleton]%elem_of_app.
    + destruct (ho_sending h Hh n e' todo Hin). split; [done|]. by apply lookup_app_l_Some.
    + split; [done|]. by apply list_lookup_middle.
  - rewrite map_app. simpl. apply NoDup_app. split_and!; [apply (ho_distinct h Hh)| |apply NoDup_singleton].
    intros n Hn Hl. apply list_elem_of_singleton in Hl as ->. apply list_elem_of_fmap in Hn as ([[n e'] todo] & Heq & Hin).
    simpl in Heq. subst n. pose proof (sending_range h _ _ _ Hh Hin). lia.
  - intros c ch n Hc Hch. rewrite length_app. simpl. intros Hn. destruct (decide (n = length (published h))) as [->|].
    + right. exists e, (subscribers h). simpl. split; [set_solver|done].
    + destruct (ho_complete h Hh c ch n Hc Hch ltac:(lia)) as [?|(e' & todo & Hin & ?)]; [by left|].
      right. exists e', todo. simpl. split; [set_solver|done].
  - intros c ch Hch. rewrite length_app. pose proof (ho_old h Hh c ch Hch). simpl. lia.
  - intros c ch n Hch [Hn|[-> Hc]]%Ha; [by eapply ho_birth|]. apply (ho_old h Hh c ch Hch).
Qed.

(** An open channel takes an event into account once. *)
Lemma offer_ok n e ch :
  ch_closed ch = false -> length (ch_buf ch) <= capacity ->
  exists ch', offer n e ch = Some ch' /\ ch_closed ch' = false /\ ch_birth ch' = ch_birth ch /\ length (ch_buf ch') <= capacity /\
    accounted ch' ≡ₚ n :: accounted ch /\ (delivered ch' = delivered ch \/ delivered ch' = delivered ch ++ [(n, e)]).
Proof.
  intros Hopen Hcap. unfold offer. rewrite Hopen. destruct (length (ch_buf ch) <? capacity) eqn:E.
  - eexists. split; [done|]. simpl. split_and!; [done..| | |right; unfold delivered; simpl; by rewrite (assoc_L (++))].
    + rewrite length_app. simpl. apply Nat.ltb_lt in E. lia.
    + unfold accounted, delivered. simpl. rewrite !map_app, <-!(assoc_L (++)). simpl.
      by rewrite !(assoc_L (++) (map fst (ch_got ch))), Permutation_middle.
  - eexists. split; [done|]. simpl. split_and!; [done..| |by left].
    unfold accounted. simpl. rewrite (assoc_L (++)). symmetry. apply Permutation_cons_append.
Qed.

Lemma sending_unique h l1 n e todo l2 e' todo' :
  hub_ok h -> sending h = l1 ++ (n, e, todo) :: l2 -> (n, e', todo') ∈ l1 ++ l2 -> False.
Proof.
  intros Hh Hs Hin. pose proof (ho_distinct h Hh) as Hnd. rewrite Hs, map_app, map_cons in Hnd.
  rewrite <-Permutation_middle in Hnd. apply NoDup_cons in Hnd as [Hn _]. apply Hn. rewrite <-map_app.
  apply list_elem_of_fmap. by exists (n, e', todo').
Qed.

Lemma send_ok h l1 n e todo l2 c :
  sending h = l1 ++ (n, e, todo) :: l2 -> c ∈ todo -> hub_ok h ->
  exists h', publish_one n e c (with_sending (l1 ++ (n, e, todo ∖ {[ c ]}) :: l2) h) = Some h' /\ hub_ok h'.
Proof.
  intros Hs Hc Hh. assert (Hin : (n, e, todo) ∈ sending h) by (rewrite Hs; set_solver).
  destruct (ho_sending h Hh n e todo Hin) as [Hsub Hp]. destruct (ho_open h Hh c ltac:(set_solver)) as (ch & Hch & Hopen).
  pose proof (ho_channels h Hh c ch Hch) as [H1 H2 H3 H4].
  destruct (offer_ok n e ch Hopen H1) as (ch' & Hoff & Hopen' & Hbirth & Hcap & Hacc & Hdel).
  unfold publish_one. simpl. rewrite Hch. simpl. rewrite Hoff. simpl. eexists. split; [done|].
  set (h' := with_chans _ _).
  assert (Ha : forall d m, awaits h' d m <-> awaits h d m /\ ~ (d = c /\ m = n)).
  { intros d m. split.
    - intros (e' & todo' & Hin' & Hd). simpl in Hin'. apply elem_of_app in Hin' as [Hin'|[[= -> -> ->]|Hin']%elem_of_cons].
      + split; [exists e', todo'; rewrite Hs; set_solver|]. intros [-> ->]. by eapply sending_unique; [..|apply elem_of_app; left].
      + split; [|set_solver]. exists e, todo. set_solver.
      + split; [exists e', todo'; rewrite Hs; set_solver|]. intros [-> ->]. by eapply sending_unique; [..|apply elem_of_app; right].
    - intros [(e' & todo' & Hin' & Hd) Hne]. rewrite Hs in Hin'.
      apply elem_of_app in Hin' as [Hin'|[[= -> -> ->]|Hin']%elem_of_cons].
      + exists e', todo'. simpl. set_solver.
      + exists e, (todo ∖ {[ c ]}). simpl. split; [set_solver|]. assert (d <> c) by naive_solver. set_solver.
      + exists e', todo'. simpl. set_solver. }
  assert (Hn : awaits h c n) by (by exists e, todo).
  split; simpl.
  - intros d ch0 [[<- <-]|[_ Hd]]%lookup_insert_Some.
    + split; [done| | |].
      * destruct Hdel as [->| ->]; [done|]. intros m e' [?|[= -> ->]%list_elem_of_singleton]%elem_of_app; auto.
      * rewrite Hacc. apply NoDup_cons. split; [|done]. intros Hacc'. by destruct (H4 n Hacc').
      * intros m. rewrite Hacc, Hbirth. intros [->|Hm]%elem_of_cons.
        -- rewrite Ha. split; [|naive_solver]. split; [|by apply lookup_lt_Some in Hp].
           by apply (ho_birth h Hh c ch).
        -- rewrite Ha. destruct (H4 m Hm). naive_solver.
    + eapply channel_ok_frame; [by apply ho_channels|done|]. intros m [? _]%Ha. done.
  - intros d Hd. destruct (decide (d = c)) as [->|].
    + rewrite lookup_insert_eq. eauto.
    + rewrite lookup_insert_ne by done. by apply ho_open.
  - intros m e' todo' Hin'. apply elem_of_app in Hin' as [Hin'|[[= -> -> ->]|Hin']%elem_of_cons].
    + apply (ho_sending h Hh). rewrite Hs. set_solver.
    + split; [set_solver|done].
    + apply (ho_sending h Hh). rewrite Hs. set_solver.
  - pose proof (ho_distinct h Hh) as Hd. rewrite Hs, map_app in Hd. by rewrite map_app.
  - intros d ch0 m Hd [[<- <-]|[Hne Hch0]]%lookup_insert_Some Hm.
    + rewrite Hbirth in Hm. rewrite Hacc, Ha. destruct (decide (m = n)) as [->|]; [by left; left|].
      destruct (ho_complete h Hh c ch m Hd Hch Hm); [left; by right|right]. naive_solver.
    + rewrite Ha. destruct (ho_complete h Hh d ch0 m Hd Hch0 Hm); [by left|right]. naive_solver.
  - intros d ch0 [[<- <-]|[Hne Hch0]]%lookup_insert_Some; [rewrite Hbirth|]; eauto using ho_old.
  - intros d ch0 m [[<- <-]|[Hne Hch0]]%lookup_insert_Some [Hm _]%Ha; [rewrite Hbirth|]; by eapply ho_birth.
Qed.

Lemma done_ok h l1 n e l2 : sending h = l1 ++ (n, e, ∅) :: l2 -> hub_ok h -> hub_ok (with_sending (l1 ++ l2) h).
Proof.
  intros Hs Hh. assert (Ha : forall c m, awaits (with_sending (l1 ++ l2) h) c m <-> awaits h c m).
  { intros c m. split; intros (e' & todo & Hin & Hc); exists e', todo; (split; [|done]); simpl in *.
    - rewrite Hs, elem_of_app, elem_of_cons. apply elem_of_app in Hin. tauto.
    - rewrite Hs in Hin. apply elem_of_app in Hin as [Hin|[[= -> -> ->]|Hin]%elem_of_cons]; apply elem_of_app; [by left| |by right].
      by apply not_elem_of_empty in Hc. }
  split; simpl.
  - intros c ch Hch. eapply channel_ok_frame; [by apply ho_channels|done|]. intros m. apply Ha.
  - apply (ho_open h Hh).
  - intros m e' todo Hin. apply (ho_sending h Hh). rewrite Hs. set_solver.
  - pose proof (ho_distinct h Hh) as Hd. rewrite Hs, map_app, map_cons, <-Permutation_middle in Hd.
    apply NoDup_cons in Hd as [_ Hd]. by rewrite map_app.
  - intros c ch m. setoid_rewrite Ha. apply (ho_complete h Hh).
  - apply (ho_old h Hh).
  - intros c ch m. setoid_rewrite Ha. apply (ho_birth h Hh).
Qed.

Lemma receive_same ch x ch' :
  receive ch = Some (x, ch') ->
  delivered ch' = delivered ch /\ accounted ch' = accounted ch /\ length (ch_buf ch') <= length (ch_buf ch) /\
  ch_closed ch' = ch_closed ch /\ ch_birth ch' = ch_birth ch.
Proof.
  unfold receive. destruct (ch_buf ch) as [|y rest] eqn:E.
  - destruct (ch_closed ch) eqn:Ec; [|done]. intros [= _ <-]. by rewrite E, Ec.
  - intros [= _ <-]. assert (Hd : (ch_got ch ++ [y]) ++ rest = ch_got ch ++ ch_buf ch) by (by rewrite E, <-(assoc_L (++))).
    unfold accounted, delivered. simpl. rewrite Hd. simpl. auto with lia.
Qed.

Lemma receive_ok h c ch x ch' :
  chans h !! c = Some ch -> receive ch = Some (x, ch') -> hub_ok h -> hub_ok (with_chans (<[c := ch']> (chans h)) h).
Proof.
  intros Hch (Hd & Ha & Hl & Hc & Hb)%receive_same Hh. split; simpl.
  - intros d ch0 [[<- <-]|[_ H0]]%lookup_insert_Some; [|by eapply channel_ok_frame; [apply (ho_channels h Hh)|..]].
    destruct (ho_channels h Hh c ch Hch) as [H1 H2 H3 H4]. split; [lia|by rewrite Hd|by rewrite Ha|by rewrite Ha, Hb].
  - intros d Hsub. destruct (ho_open h Hh d Hsub) as (ch0 & H0 & Hopen). destruct (decide (c = d)) as [<-|].
    + rewrite lookup_insert_eq. exists ch'. split; [done|]. congruence.
    + rewrite lookup_insert_ne by done. eauto.
  - apply (ho_sending h Hh).
  - apply (ho_distinct h Hh).
  - intros d ch0 n Hsub [[<- <-]|[_ H0]]%lookup_insert_Some; [rewrite Hb, Ha|]; by apply (ho_complete h Hh).
  - intros d ch0 [[<- <-]|[_ H0]]%lookup_insert_Some; [rewrite Hb|]; by eapply ho_old.
  - intros d ch0 n [[<- <-]|[_ H0]]%lookup_insert_Some; [rewrite Hb|]; by apply (ho_birth h Hh).
Qed.

Lemma hub_step_ok serial h r : hub_ok h -> hub_step serial h r -> exists h', r = Some h' /\ hub_ok h'.
Proof.
  intros Hh Hstep. destruct Hstep as [c Hs Hc|c Hs|e _|l1 n e todo l2 c Hs Hc|l1 n e l2 Hs|c ch x ch' Hch Hr].
  - eauto using subscribe_ok.
  - by apply unsubscribe_ok.
  - eauto using publish_ok.
  - by apply send_ok.
  - eauto using done_ok.
  - eauto using receive_ok.
Qed.

Lemma hub_run_ok serial h : hub_run serial h -> hub_ok h.
Proof.
  induction 1 as [|h h' _ IH Hstep]; [apply new_hub_ok|]. by destruct (hub_step_ok serial h _ IH Hstep) as (? & [= ->] & ?).
Qed.

(** *** One publication at a time *)

(** The last event is the only one on its way, and channels deliver in the
    order of publication. *)
Record in_order (h : EventHub) : Prop := {
  io_last : forall l1 n e todo l2, sending h = l1 ++ (n, e, todo) :: l2 -> l1 = [] /\ l2 = [] /\ S n = length (published h);
  io_sorted : forall c ch, chans h !! c = Some ch -> StronglySorted lt (map fst (delivered ch));
}.

Lemma offer_order n e ch ch' :
  offer n e ch = Some ch' -> StronglySorted lt (map fst (delivered ch)) -> (forall m, m ∈ map fst (delivered ch) -> m < n) ->
  StronglySorted lt (map fst (delivered ch')).
Proof.
  unfold offer. destruct (ch_closed ch); [done|]. destruct (_ <? _); intros [= <-] Hsort Hlt; [|done].
  unfold delivered in *. simpl. rewrite (assoc_L (++)), map_app. apply StronglySorted_snoc; [done|]. by apply Forall_forall.
Qed.

Lemma in_order_step h h' : hub_ok h -> in_order h -> hub_step true h (Some h') -> in_order h'.
Proof.
  intros Hh [Hlast Hsorted] Hstep.
  inversion Hstep as [c Hs Hc Heq|c Hs Heq|e Hs Heq|l1 n e todo l2 c Hs Hc Heq|l1 n e l2 Hs Heq|c ch x ch' Hch Hr Heq].
  - split; simpl; [done|]. intros d ch [[<- <-]|[_ Hd]]%lookup_insert_Some; [constructor|eauto].
  - unfold Unsubscribe in Heq. case_bool_decide; [|by simplify_eq]. destruct (chans h !! c) as [ch|] eqn:Hch; [|done].
    simpl in Heq. unfold close in Heq. destruct (ch_closed ch); [done|]. simplify_eq/=. split; simpl; [done|].
    intros d ch' [[<- <-]|[_ Hd]]%lookup_insert_Some; [exact (Hsorted c ch Hch)|eauto].
  - specialize (Hs eq_refl). split; simpl; [|done]. rewrite Hs, length_app. simpl. intros l1 n e' todo l2 Heq2.
    destruct l1 as [|a l1]; [|by destruct l1]. simplify_eq/=. split_and!; [done..|lia].
  - destruct (Hlast _ _ _ _ _ Hs) as (-> & -> & Hn). unfold publish_one in Heq. simpl in Heq.
    destruct (chans h !! c) as [ch|] eqn:Hch; [|done]. simpl in Heq. destruct (offer n e ch) as [ch'|] eqn:Ho; [|done].
    simplify_eq/=. split; simpl.
    + intros l1 m e' todo' l2 Heq2. destruct l1 as [|a l1]; [|by destruct l1]. by simplify_eq/=.
    + intros d ch0 [[<- <-]|[_ Hd]]%lookup_insert_Some; [|eauto]. eapply offer_order; [done|eauto|].
      intros m Hm. destruct (ho_channels h Hh c ch Hch) as [_ _ _ Hrange].
      assert (Hm' : m ∈ accounted ch) by (apply elem_of_app; by left). destruct (Hrange m Hm') as [Hlt Hna].
      assert (m <> n); [|lia]. intros ->. apply Hna. exists e, todo. rewrite Hs. split; [left|done].
  - destruct (Hlast _ _ _ _ _ Hs) as (-> & -> & _). simplify_eq/=. split; simpl; [|done]. by intros [|a l1].
  - simplify_eq/=. split; simpl; [done|]. intros d ch0 [[<- <-]|[_ Hd]]%lookup_insert_Some; [|eauto].
    destruct (receive_same _ _ _ Hr) as (-> & _). eauto.
Qed.

Lemma hub_run_order h : hub_run true h -> in_order h.
Proof.
  induction 1 as [|h h' Hr IH Hstep].
  - split; simpl; [by intros [|]|]. intros c ch. by rewrite lookup_empty.
  - by apply (in_order_step h h'); [eapply hub_run_ok|..].
Qed.

(** *** Nothing is dropped without need *)

(** A channel that has dropped an event had a full buffer. *)
Definition full_drops (h : EventHub) : Prop :=
  forall c ch, chans h !! c = Some ch -> ch_dropped ch <> [] -> capacity <= length (delivered ch).

Lemma full_drops_step serial h h' : full_drops h -> hub_step serial h (Some h') -> full_drops h'.
Proof.
  intros Hd Hstep.
  inversion Hstep as [c Hs Hc Heq|c Hs Heq|e Hs Heq|l1 n e todo l2 c Hs Hc Heq|l1 n e l2 Hs Heq|c ch x ch' Hch Hr Heq]; simplify_eq;
    [| |done| |done|].
  - intros d ch. simpl. by intros [[<- <-]|[_ Hch]]%lookup_insert_Some; [|eauto].
  - unfold Unsubscribe in Heq. case_bool_decide; [|by simplify_eq]. destruct (chans h !! c) as [ch|] eqn:Hch; [|done].
    simpl in Heq. unfold close in Heq. destruct (ch_closed ch); [done|]. simplify_eq/=.
    intros d ch'. simpl. intros [[<- <-]|[_ Hd']]%lookup_insert_Some; [exact (Hd c ch Hch)|eauto].
  - unfold publish_one in Heq. simpl in Heq. destruct (chans h !! c) as [ch|] eqn:Hch; [|done]. simpl in Heq.
    destruct (offer n e ch) as [ch'|] eqn:Ho; [|done]. simplify_eq/=.
    intros d ch0. simpl. intros [[<- <-]|[_ Hd']]%lookup_insert_Some; [|eauto].
    unfold offer in Ho. destruct (ch_closed ch); [done|]. unfold delivered in *.
    destruct (length (ch_buf ch) <? capacity) eqn:El; simplify_eq/=; [|apply Nat.ltb_ge in El; rewrite length_app; lia].
    intros Hdr%(Hd c ch Hch). unfold delivered in Hdr. rewrite !length_app in *. lia.
  - intros d ch0. simpl. intros [[<- <-]|[_ Hd']]%lookup_insert_Some; [|eauto].
    destruct (receive_same _ _ _ Hr) as (-> & _).
    assert (Hdr : ch_dropped ch' = ch_dropped ch)
      by (unfold receive in Hr; destruct (ch_buf ch); [destruct (ch_closed ch)|]; by simplify_eq/=).
    rewrite Hdr. by apply (Hd c).
Qed.

Lemma hub_run_drops serial h : hub_run serial h -> full_drops h.
Proof. induction 1; [intros c ch; simpl; by rewrite lookup_empty|by eapply full_drops_step]. Qed.

(** C16. The hub delivers what it can.  Whatever subscribes, leaves, publishes
    and receives, in whatever order, and with several publications in progress,
    no step panics.  When an event is offered to a subscriber whose buffer has
    room it is appended to that buffer, when the buffer is full it is dropped,
    and no other channel changes.  A channel never holds more than its
    capacity, and it has dropped nothing unless it delivered at least as many
    events as its capacity; what it has delivered are published events, none
    twice; and for a subscriber every event published since it subscribed has
    been delivered to it, was dropped, or is still being offered.  When
    publications do not overlap, every channel delivers in the order of
    publication. *)
Theorem hub_delivery (serial : bool) (h : EventHub) :
  hub_run serial h ->
  (forall r, hub_step serial h r -> r <> None) /\
  (forall l1 n e todo l2 c, sending h = l1 ++ (n, e, todo) :: l2 -> c ∈ todo ->
     exists ch ch' h', chans h !! c = Some ch /\
       publish_one n e c (with_sending (l1 ++ (n, e, todo ∖ {[ c ]}) :: l2) h) = Some h' /\
       chans h' = <[c := ch']> (chans h) /\ ch_got ch' = ch_got ch /\ ch_closed ch' = ch_closed ch /\
       (length (ch_buf ch) < capacity -> ch_buf ch' = ch_buf ch ++ [(n, e)] /\ ch_dropped ch' = ch_dropped ch) /\
       (capacity <= length (ch_buf ch) -> ch_buf ch' = ch_buf ch /\ ch_dropped ch' = ch_dropped ch ++ [n])) /\
  (forall c ch, chans h !! c = Some ch ->
     length (ch_buf ch) <= capacity /\
     (ch_dropped ch <> [] -> capacity <= length (delivered ch)) /\
     (forall n e, (n, e) ∈ delivered ch -> published h !! n = Some e) /\
     NoDup (map fst (delivered ch) ++ ch_dropped ch) /\
     (serial = true -> StronglySorted lt (map fst (delivered ch)))) /\
  (forall c ch n e, c ∈ subscribers h -> chans h !! c = Some ch -> ch_birth ch <= n -> published h !! n = Some e ->
     (n, e) ∈ delivered ch \/ n ∈ ch_dropped ch \/ awaits h c n).
Proof.
  intros Hr. pose proof (hub_run_ok serial h Hr) as Hh. split_and!.
  - intros r Hstep. by destruct (hub_step_ok serial h r Hh Hstep) as (? & -> & _).
  - intros l1 n e todo l2 c Hs Hc. assert (Hin : (n, e, todo) ∈ sending h) by (rewrite Hs; set_solver).
    destruct (ho_sending h Hh n e todo Hin) as [Hsub _]. destruct (ho_open h Hh c ltac:(set_solver)) as (ch & Hch & Hopen).
    unfold publish_one. simpl. rewrite Hch. simpl. unfold offer. rewrite Hopen.
    destruct (length (ch_buf ch) <? capacity) eqn:El; [apply Nat.ltb_lt in El|apply Nat.ltb_ge in El];
      eexists ch, _, _; (split_and!; [done..| |]); intros ?; simpl; (done || lia).
  - intros c ch Hch. destruct (ho_channels h Hh c ch Hch) as [H1 H2 H3 _]. split_and!; [done| |done..|].
    + exact (hub_run_drops serial h Hr c ch Hch).
    + intros ->. exact (io_sorted h (hub_run_order h Hr) c ch Hch).
  - intros c ch n e Hc Hch Hb Hp. pose proof (lookup_lt_Some _ _ _ Hp) as Hlt.
    destruct (ho_complete h Hh c ch n Hc Hch (conj Hb Hlt)) as [[Hn|Hn]%elem_of_app|Ha]; [left|by right; left|by right; right].
    apply list_elem_of_fmap in Hn as ([m e'] & -> & Hin). simpl in *. pose proof (co_events h c ch (ho_channels h Hh c ch Hch) m e' Hin).
    congruence.
Qed.
End Hub.

(** ** Server-sent events *)

Section Stream.
Context {D : Type} (marshal : string -> string -> D -> string) (rfc3339nano : Z -> string).

Definition LF : ascii := of_byte 10.
Definition CR : ascii := of_byte 13.
Definition lf : string := String LF "".

(** The object with the type, the time and the data, encoded. *)
Definition payload (now : Z) (e : Event D) : string :=
  marshal (ev_Type e) (rfc3339nano (default now (ev_Time e))) (ev_Data e).

Definition sse_type (e : Event D) : string := if bool_decide (ev_Type e = "") then "message" else ev_Type e.

Definition SSE (now : Z) (e : Event D) : string :=
  "event: " +:+ sse_type e +:+ lf +:+ "data: " +:+ payload now e +:+ lf +:+ lf.

(** The query parameter types: the types to pass on; none passes all on. *)
Definition stream_filters (r : HttpRequest) : list string :=
  let v := TrimSpace (Query r "types") in
  if bool_decide (v = "") then []
  else filter (fun t => t <> "") (map TrimSpace (SplitByte "," v)).

Definition passes (filters : list string) (e : Event D) : bool :=
  match filters with [] => true | _ => bool_decide (ev_Type e ∈ filters) end.

Definition ready_data : string :=
  let dq := String (of_byte 34) "" in "{" +:+ dq +:+ "status" +:+ dq +:+ ":" +:+ dq +:+ "ok" +:+ dq +:+ "}".

Definition ready : string := "event: " +:+ "ready" +:+ lf +:+ "data: " +:+ ready_data +:+ lf +:+ lf.

(** What the handler has written after it received the events. *)
Definition eventStreamHandler (r : HttpRequest) (now : Z) (evs : list (Event D)) : string :=
  ready +:+ foldr (fun e out => SSE now e +:+ out) "" (filter (fun e => passes (stream_filters r) e = true) evs).

(** *** A client *)

(** The lines of a text that have ended. *)
Definition line_end (c : ascii) : bool := bool_decide (c = LF) || bool_decide (c = CR).

Fixpoint lines_of (cur s : string) : list string :=
  match s with
  | "" => []
  | String c s => if line_end c then cur :: lines_of "" s else lines_of (cur +:+ String c "") s
  end%string.

(** A field: the text before the first colon and the text after it, without
    one leading space. *)
Definition skip_space (s : string) : string :=
  match s with String " " s' => s' | _ => s end%string.
Fixpoint field_of (s : string) : string * string :=
  match s with
  | "" => ("", "")
  | String c s => if bool_decide (c = ":"%char) then ("", skip_space s)
                  else let '(name, v) := field_of s in (String c name, v)
  end%string.

(** The events of the lines: an empty line dispatches the event that was
    built, if it has data. *)
Fixpoint dispatch (type : string) (data : option string) (ls : list string) : list (string * string) :=
  match ls with
  | [] => []
  | l :: ls =>
    if bool_decide (l = "")
    then match data with
         | Some d => (if bool_decide (type = "") then "message" else type, d) :: dispatch "" None ls
         | None => dispatch "" None ls
         end
    else match field_of l with
         | ("event", v) => dispatch v data ls
         | ("data", v) => dispatch type (Some (match data with Some d => d +:+ lf +:+ v | None => v end)) ls
         | _ => dispatch type data ls
         end
  end%string.

Definition sse_client (s : string) : list (string * string) := dispatch "" None (lines_of "" s).

(** *** The round trip *)

Definition one_line (s : string) : Prop := forallb_str (fun c => negb (line_end c)) s = true.

Lemma lines_of_line cur l s : one_line l -> lines_of cur (l +:+ lf +:+ s) = (cur +:+ l) :: lines_of "" s.
Proof.
  unfold one_line. revert cur. induction l as [|c l IH]; intros cur.
  - intros _. simpl. by rewrite sapp_nil_r.
  - simpl. rewrite andb_true_iff, negb_true_iff. intros [Hc Hl]. rewrite Hc.
    change (l +:+ String LF s) with (l +:+ lf +:+ s). rewrite IH by done. by rewrite sapp_assoc.
Qed.

Lemma first_line l s : one_line l -> lines_of "" (l +:+ lf +:+ s) = l :: lines_of "" s.
Proof. apply lines_of_line. Qed.

Lemma one_line_app a b : one_line a -> one_line b -> one_line (a +:+ b).
Proof. unfold one_line. induction a as [|c a IH]; simpl; [done|]. rewrite !andb_true_iff. naive_solver. Qed.

Lemma dispatch_event v ty da ls : dispatch ty da (("event: " +:+ v) :: ls) = dispatch v da ls.
Proof. reflexivity. Qed.

Lemma dispatch_data v ty ls : dispatch ty None (("data: " +:+ v) :: ls) = dispatch ty (Some v) ls.
Proof. reflexivity. Qed.

Lemma dispatch_end ty d ls : ty <> "" -> dispatch ty (Some d) ("" :: ls) = (ty, d) :: dispatch "" None ls.
Proof. intros Hty. simpl. by rewrite bool_decide_eq_false_2. Qed.

(** A frame is one event. *)
Lemma client_frame t d s :
  t <> "" -> one_line t -> one_line d ->
  sse_client (("event: " +:+ t +:+ lf +:+ "data: " +:+ d +:+ lf +:+ lf) +:+ s) = (t, d) :: sse_client s.
Proof.
  intros Ht Hlt Hld. unfold sse_client.
  assert (Heq : ("event: " +:+ t +:+ lf +:+ "data: " +:+ d +:+ lf +:+ lf) +:+ s =
                ("event: " +:+ t) +:+ lf +:+ ("data: " +:+ d) +:+ lf +:+ "" +:+ lf +:+ s) by (by rewrite !sapp_assoc).
  rewrite Heq, !first_line; [|done|by apply one_line_app|by apply one_line_app].
  rewrite dispatch_event, dispatch_data. by apply dispatch_end.
Qed.

(** C36. A client of the event stream reads what the handler means.  When the
    types and the encoded data of the events have no line breaks, reading the
    stream as the EventSource protocol says yields the greeting and then, in
    order, every event whose type was asked for, with its type and its data, and
    nothing else. *)
Theorem event_stream_roundtrip (r : HttpRequest) (now : Z) (evs : list (Event D)) :
  Forall (fun e => one_line (ev_Type e) /\ one_line (payload now e)) evs ->
  sse_client (eventStreamHandler r now evs) =
  ("ready"%string, ready_data) ::
  map (fun e => (sse_type e, payload now e)) (filter (fun e => passes (stream_filters r) e = true) evs).
Proof.
  intros Hevs. unfold eventStreamHandler, ready. rewrite client_frame by done. f_equal.
  induction Hevs as [|e evs [Ht Hp] _ IH]; [done|]. rewrite filter_cons. case_decide; [|done]. cbn [foldr map].
  unfold SSE at 1. rewrite client_frame; [by rewrite IH| | |done]; unfold sse_type; by case_bool_decide.
Qed.
End Stream.

Module HubWitnesses.
Definition ev (t : string) : Event string := {| ev_Type := t; ev_Data := "{}"; ev_Time := None |}.

(** A subscriber, an event that reaches it, and one that is on its way. *)
Definition h1 : EventHub := Subscribe 7 (@NewEventHub string).
Definition h2 : EventHub := Publish (ev "a") h1.
Definition h3 : EventHub := default h2 (publish_one 0 (ev "a") 7 (with_sending [(0, ev "a", ∅)] h2)).
Definition h4 : EventHub := with_sending [] h3.
Definition h5 : EventHub := Publish (ev "b") h4.

Lemma run5 : hub_run true h5.
Proof.
  eapply hub_next; [eapply hub_next; [eapply hub_next; [eapply hub_next; [eapply hub_next; [apply hub_start|]|]|]|]|].
  - apply (hub_subscribe true NewEventHub 7); reflexivity.
  - apply (hub_publish true h1 (ev "a")). reflexivity.
  - apply (hub_send true h2 [] 0 (ev "a") {[ 7 ]} [] 7); [vm_compute; reflexivity|set_solver].
  - apply (hub_done true h3 [] 0 (ev "a") []). reflexivity.
  - apply (hub_publish true h4 (ev "b")). reflexivity.
Qed.

Lemma hub_delivery_witness :
  exists ch, chans h5 !! 7 = Some ch /\ map fst (delivered ch) = [0] /\
    ((1, ev "b") ∈ delivered ch \/ 1 ∈ ch_dropped ch \/ awaits h5 7 1).
Proof.
  destruct (chans h5 !! 7) as [ch|] eqn:E; [|by vm_compute in E]. exists ch. split; [done|]. split.
  - vm_compute in E. injection E as <-. reflexivity.
  - apply (proj2 (proj2 (proj2 (hub_delivery true h5 run5))) 7 ch 1 (ev "b")); [set_solver|done| |reflexivity].
    vm_compute in E. injection E as <-. simpl. lia.
Defined.

(** A buffer that is full drops the event. *)
Fixpoint flood (n k : nat) (h : EventHub) : EventHub :=
  match k with
  | 0 => h
  | S k => flood (S n) k (with_sending [] (default h (publish_one n (ev "a") 7 (Publish (ev "a") h))))
  end.

Lemma slow_reader_loses :
  option_map (fun ch => (length (ch_buf ch), ch_dropped ch)) (chans (flood 0 18 h1) !! 7) = Some (16, [16; 17]).
Proof. vm_compute. reflexivity. Qed.

Definition bare (type time : string) (d : string) : string := d.
Definition only_b : HttpRequest := request "GET" "/events" [] [("types", " b ,,")] [] "".

Lemma event_stream_roundtrip_witness :
  sse_client (eventStreamHandler bare (fun _ => "") only_b 0 [ev "a"; ev "b"; ev ""]) =
  [("ready", ready_data); ("b", "{}")]%string.
Proof.
  rewrite (event_stream_roundtrip bare (fun _ => ""%string) only_b 0 [ev "a"; ev "b"; ev ""]).
  - vm_compute. reflexivity.
  - repeat constructor.
Defined.

(** A type with a line break is a frame of its own. *)
Definition forged_type : string := "a" +:+ lf +:+ "data: x" +:+ lf +:+ lf +:+ "event: b".

Lemma forged_event :
  sse_client (eventStreamHandler bare (fun _ => ""%string) (request "GET" "/events" [] [] [] "") 0 [ev forged_type]) =
  [("ready", ready_data); ("a", "x"); ("b", "{}")]%string.
Proof. vm_compute. reflexivity. Qed.
End HubWitnesses.
