(* ===== verification/AsyncScan.v ===== *)
(** * AsyncScan: scan jobs

    src/internal/jobs/processors/scan.go, the routes of
    src/internal/interfaces/http/api/jobs_routes.go and the job manager that
    option_defaults.go sets up, over the manager of [Jobs] and the scanner of
    [ScanIO].  All workers share one scanner: a scan may find its caches in any
    state, and its context may be cancelled at any time.  The JSON encoders are
    the class [JsonResults]. *)

From Stdlib Require Import Ascii String.
From S2P Require Import Prelude GoString Unicode Rules Merge Verifiers Complexity Aho Literals Engine Compile Scanner Load ScanIO Check Jobs Http.

(** [json.Marshal] of the answer of a scan, of a violation and of a whole
    result, and whether a text is valid JSON. *)
Class JsonResults := {
  marshal_summary : list Violation -> Metrics -> string -> result string string;
  marshal_violation : Violation -> result string string;
  marshal_result : ScanResult -> result string string;
  json_Valid : string -> bool;
}.

Record ScanOptions := { OutputFormat : string; FailOn : string }.

Definition parseScanOptions (metadata : gmap string string) : ScanOptions :=
  {| OutputFormat := default "json" (metadata !! "output_format"); FailOn := default "" (metadata !! "fail_on") |}.

Definition lf : string := String newline "".
Definition no_violations : string := "No violations found".

Definition set_progress (n : Z) (j : Job) : Job :=
  {| ID := ID j; Type' := Type' j; Status := Status j; Input := Input j; Result := Result j; Error := Error j;
     CreatedAt := CreatedAt j; StartedAt := StartedAt j; CompletedAt := CompletedAt j; Progress := n; Metadata := Metadata j |}.
Definition set_result (r : string) (j : Job) : Job :=
  {| ID := ID j; Type' := Type' j; Status := Status j; Input := Input j; Result := r; Error := Error j;
     CreatedAt := CreatedAt j; StartedAt := StartedAt j; CompletedAt := CompletedAt j; Progress := Progress j; Metadata := Metadata j |}.

Section Process.
Context `{JR : JsonResults}.

Definition simple_line (v : Violation) : string := v_RuleID v +:+ ": " +:+ v_Message v.

Definition formatScanResult (res : ScanResult) (format : string) : result string string :=
  let format := ToLower format in
  if bool_decide (format = "json") then marshal_summary (sr_Violations res) (sr_Metrics res) (sr_Input res)
  else if bool_decide (format = "ndjson") then
    Ok (Join lf (omap (fun v => match marshal_violation v with Ok b => Some b | Err _ => None end) (sr_Violations res)))
  else if bool_decide (format = "simple") then
    if bool_decide (sr_Violations res = []) then Ok no_violations
    else Ok (Join lf (map simple_line (sr_Violations res)))
  else marshal_result res.

Context `{RS : RegexpSyntax, RE : RegexpEngine, LL : LruLib, AL : AhoLib, PF : Platform, WW : World}.

Definition input_name (metadata : gmap string string) : string := default "async-job" (metadata !! "input_name").
Definition job_reader (input : string) : Reader := {| content := input; read_err := None |}.

(** [Process]: the copy of the job, the error and the state of the scanner. *)
Definition Process (env : ScanEnv) (sc : Scanner) (st : eval_state) (job : Job) : Job * option string * eval_state :=
  let options := parseScanOptions (Metadata job) in
  let inputName := input_name (Metadata job) in
  let job := set_progress 10 job in
  match ScanReader sc (job_reader (Input job)) inputName st with
  | (Err e, st) => (job, Some (error_string e), st)
  | (Ok res, st) =>
    let job := set_progress 80 job in
    match formatScanResult res (OutputFormat options) with
    | Err e => (job, Some e, st)
    | Ok r => (set_progress 100 (set_result r job), None, st)
    end
  end.

(** ** The routes *)

(** The metadata of a submitted job. *)
Definition async_metadata (r : HttpRequest) : gmap string string :=
  let format := Query r "format" in
  let name := Query r "input_name" in
  list_to_map [("output_format"%string, if bool_decide (format = "") then "json"%string else format);
               ("fail_on"%string, Query r "fail_on");
               ("input_name"%string, if bool_decide (name = "") then "http-request"%string else name)].

(** [scanAsync], with the error of reading the body, the id [uuid.New()]
    returns and the error of the durable queue, if any. *)
Definition scanAsync (read_error : option string) (id : string) (enqueue : option string) (now : Z) (r : HttpRequest)
    (m : Manager) : Reply string * Manager :=
  match read_error with
  | Some _ => (Failure 400 "INVALID_REQUEST", m)
  | None =>
    match Submit id "scan" (RawBody r) (async_metadata r) enqueue now m with
    | (_, Some _, m) => (Failure 500 "JOB_SUBMISSION_FAILED", m)
    | (jobID, None, m) => (Answer 202 jobID, m)
    end
  end.

Definition status_text (s : JobStatus) : string :=
  match s with
  | Pending => "pending" | Running => "running" | Completed => "completed" | Jobs.Failed => "failed" | Cancelled => "cancelled"
  end.

(** The result of a job is embedded as it is: the encoder fails on one that is
    not JSON. *)
Definition encodes (j : Job) : bool := bool_decide (Result j = "") || json_Valid (Result j).

(** The error of the encoder is ignored: the body stays empty. *)
Definition list_jobs (r : HttpRequest) (m : Manager) : Reply (option (list Job)) :=
  let status := Query r "status" in
  let js := filter (fun j => (bool_decide (status = "") || bool_decide (status_text (Status j) = status)) = true) (Jobs.List' None m) in
  Answer 200 (if forallb encodes js then Some js else None).

Definition get_job (r : HttpRequest) (m : Manager) : Reply (option Job) :=
  match Jobs.Get (URLParam r "jobID") m with
  | None => Failure 404 "JOB_NOT_FOUND"
  | Some j => Answer 200 (if encodes j then Some j else None)
  end.

Definition delete_job (now : Z) (r : HttpRequest) (m : Manager) : Reply unit * Manager :=
  match Cancel (URLParam r "jobID") now m with
  | (Some _, m) => (Failure 404 "JOB_NOT_FOUND", m)
  | (None, m) => (Answer 204 tt, m)
  end.

(** ** The default manager *)

(** Two workers and a scanner to which no rules are loaded; [queue_ok]: the
    redis queue could be created. *)
Definition default_scanner : Scanner := ScanEngineCstor 0.
Definition default_manager (queue_ok : bool) : Manager :=
  RegisterProcessor "scan" (NewManager 2 (EqualFold (getenv "PS_ASYNC_QUEUE") "redis" && queue_ok)).

(** ** Steps *)

(** The steps of a manager whose only processor is the scan processor. *)
Inductive scan_job_step (sc : Scanner) : Manager -> Manager -> Prop :=
  | sj_take id rest now m :
      durable m = false -> queue m = id :: rest -> List.length (running m) < workers m ->
      scan_job_step sc m (processJob_begin id now (with_queue rest m))
  | sj_deliver id now m :
      durable m = true -> id ∈ messages m -> scan_job_step sc m (processJob_begin id now m)
  | sj_finish k id w env st now m :
      running m !! k = Some (id, w) ->
      scan_job_step sc m (processJob_end k (Process env sc st w).1.1 (Process env sc st w).1.2 now m)
  | sj_submit read_error id enqueue now r m :
      heap m !! id = None -> scan_job_step sc m (scanAsync read_error id enqueue now r m).2
  | sj_cancel now r m : scan_job_step sc m (delete_job now r m).2
  | sj_cleanup maxAge now m : scan_job_step sc m (CleanupCompleted maxAge now m).2.

(** They are steps of the manager, so what [Jobs] shows holds of them. *)
Lemma scan_job_step_step sc m m' : scan_job_step sc m m' -> m' = m \/ Jobs.step m m'.
Proof.
  intros [id rest now m0 Hd Hq Hw|id now m0 Hd Hi|k id w env st now m0 Hk|re id enq now r m0 Hid|now r m0|a now m0].
  - right. by apply step_worker, (step_take id rest).
  - right. by apply step_deliver.
  - right. apply step_worker, step_finish. apply lookup_lt_is_Some_1. eauto.
  - unfold scanAsync. destruct re; [by left|right].
    pose proof (step_submit id "scan" (RawBody r) (async_metadata r) enq now m0 Hid) as Hs.
    destruct (Submit _ _ _ _ _ _ _) as [[i [e|]] m1]; exact Hs.
  - right. pose proof (step_cancel (URLParam r "jobID") now m0) as Hs. unfold delete_job.
    destruct (Cancel _ _ _) as [[e|] m1]; exact Hs.
  - right. apply step_cleanup.
Qed.

Lemma scan_job_step_inv sc m m' : scan_job_step sc m m' -> Inv m -> Inv m'.
Proof. intros [->|Hs]%scan_job_step_step; [done|by apply step_inv]. Qed.

(** ** What a scan job returns *)

(** A line of the simple format is never the text for no violations. *)
Lemma simple_lines_differ vs : vs <> [] -> Join lf (map simple_line vs) <> no_violations.
Proof.
  destruct vs as [|v vs]; [done|]. intros _ He.
  assert (Hc : CountByte ":" (Join lf (map simple_line (v :: vs))) = 0) by by rewrite He.
  assert (Hv : 0 < CountByte ":" (simple_line v)) by (unfold simple_line; rewrite !CountByte_app; simpl; lia).
  destruct vs as [|u vs]; simpl map in Hc; [simpl in Hc; lia|].
  rewrite Join_cons, CountByte_app in Hc by done. lia.
Qed.

Section Scanned.
Context (sc : Scanner) (body : string) (md : gmap string string).

(** [out] is the formatted result of a scan of the input. *)
Definition scanned_as (out : string) : Prop :=
  exists (env : ScanEnv) st res st',
    ScanReader sc (job_reader body) (input_name md) st = (Ok res, st') /\
    formatScanResult res (OutputFormat (parseScanOptions md)) = Ok out.

(** The job [id] scans the input. *)
Record scan_job (id : string) (m : Manager) : Prop := {
  sj_job : exists j, heap m !! id = Some j /\ Type' j = "scan" /\ Input j = body /\ Metadata j = md /\
    (Status j = Completed -> scanned_as (Result j)) /\
    (Status j = Jobs.Failed -> exists env st, (Process env sc st j).1.2 = Some (Error j));
  sj_copy : forall k w, running m !! k = Some (id, w) -> Input w = body /\ Metadata w = md;
  sj_processor : "scan" ∈ processors m;
}.

Lemma Process_inputs env st j j' :
  Input j' = Input j -> Metadata j' = Metadata j -> (Process env sc st j').1.2 = (Process env sc st j).1.2.
Proof.
  intros Hi Hm. unfold Process. rewrite Hm. simpl. rewrite Hi.
  destruct (ScanReader _ _ _ _) as [[res|e] st1]; [|done]. by destruct (formatScanResult _ _).
Qed.

Lemma Process_result env st w :
  Input w = body -> Metadata w = md -> (Process env sc st w).1.2 = None -> scanned_as (Result (Process env sc st w).1.1).
Proof.
  intros Hi Hm. unfold Process, scanned_as. rewrite Hm. simpl. rewrite Hi. intros He. exists env, st.
  destruct (ScanReader _ _ _ _) as [[res|e] st1] eqn:E; [|done].
  destruct (formatScanResult res _) as [out|e] eqn:Ef; [|done]. exists res, st1. simpl. by rewrite Ef.
Qed.

(** Steps that do not touch the object of the job. *)
Lemma scan_job_same id m m' :
  scan_job id m -> heap m' !! id = heap m !! id -> (forall k w, running m' !! k = Some (id, w) -> exists k', running m !! k' = Some (id, w)) ->
  processors m' = processors m -> scan_job id m'.
Proof.
  intros [Hj Hc Hp] Hh Hr Hp'. split; [by rewrite Hh| |by rewrite Hp'].
  intros k w [k' Hk]%Hr. by eapply Hc.
Qed.

(** The object of the job is replaced by [j']. *)
Lemma scan_job_set id m j' :
  scan_job id m -> Type' j' = "scan" -> Input j' = body -> Metadata j' = md ->
  (Status j' = Completed -> scanned_as (Result j')) ->
  (Status j' = Jobs.Failed -> exists env st, (Process env sc st j').1.2 = Some (Error j')) -> scan_job id (set_job id j' m).
Proof.
  intros [Hj Hc Hp] ? ? ? ? ?. split; [|done|done]. exists j'. simpl. by rewrite lookup_insert_eq.
Qed.

Lemma scan_job_other id i j' m : i <> id -> scan_job id m -> scan_job id (set_job i j' m).
Proof.
  intros Hne Hs. eapply scan_job_same; [exact Hs|simpl; by rewrite lookup_insert_ne|eauto|done].
Qed.

Lemma scan_job_begin id i now m : scan_job id m -> scan_job id (processJob_begin i now m).
Proof.
  intros Hs. unfold processJob_begin. destruct (Jobs.Get i m) as [x|] eqn:Eg; [|done].
  apply Get_Some in Eg as [_ Hx]. case_bool_decide as Hp; simpl; [|done].
  destruct (decide (i = id)) as [->|Hne].
  - pose proof Hs as [(j & Hj & Ht & Hi & Hm & _) Hc Hpr]. simplify_eq.
    rewrite Ht, bool_decide_true by done. simpl.
    assert (Hset : scan_job id (set_job id (started now x) m)) by by apply scan_job_set.
    destruct Hset as [Hj' Hc' Hp']. split; [exact Hj'| |exact Hp'].
    intros k w Hk. simpl in Hk. apply lookup_app_Some in Hk as [Hk|[_ Hk]]; [by eapply Hc|].
    by apply list_lookup_singleton_Some in Hk as [_ [= <-]].
  - destruct (negb _); [by apply scan_job_other|].
    eapply scan_job_same; [exact Hs|simpl; by rewrite lookup_insert_ne| |done].
    intros k w Hk. simpl in Hk. apply lookup_app_Some in Hk as [Hk|[_ Hk]]; [eauto|].
    by apply list_lookup_singleton_Some in Hk as [_ [= ? ?]].
Qed.

Lemma scan_job_drop id k m : scan_job id m -> scan_job id (drop_running k m).
Proof.
  intros Hs. eapply scan_job_same; [exact Hs|done| |done]. intros k' w Hk. simpl in Hk.
  apply list_elem_of_lookup. eapply (elem_of_submseteq (delete k (running m))); [by eapply list_elem_of_lookup_2|].
  apply sublist_submseteq, sublist_delete.
Qed.

Lemma scan_job_finish id k i w env st now m :
  scan_job id m -> running m !! k = Some (i, w) ->
  scan_job id (processJob_end k (Process env sc st w).1.1 (Process env sc st w).1.2 now m).
Proof.
  intros Hs Hk. unfold processJob_end. rewrite Hk. destruct (heap m !! i) as [x|] eqn:Hx; [|by apply scan_job_drop].
  case_bool_decide as Hcan; [by apply scan_job_drop|].
  apply scan_job_drop. destruct (decide (i = id)) as [->|Hne]; [|by apply scan_job_other].
  pose proof Hs as [(j & Hj & Ht & Hi & Hm & _) Hc Hpr]. simplify_eq. destruct (Hc _ _ Hk) as [Hwi Hwm].
  apply scan_job_set; try done; simpl.
  - intros Hst. apply Process_result; [done|done|]. by destruct (_.1.2).
  - intros Hst. exists env, st. rewrite (Process_inputs env st w) by (simpl; congruence). by destruct (_.1.2).
Qed.

Lemma scan_job_step_job id m m' : scan_job id m -> scan_job_step sc m m' -> scan_job id m'.
Proof.
  intros Hs Hst. destruct Hst as [i rest now m Hd Hq Hw|i now m Hd Hi|k i w env st now m Hk|re i enq now r m Hid|now r m|a now m].
  - apply (scan_job_begin id i now (with_queue rest m)). by destruct Hs.
  - by apply scan_job_begin.
  - by eapply scan_job_finish.
  - assert (i <> id) by (destruct Hs as [(j & Hj & _) _ _]; congruence).
    unfold scanAsync. destruct re; [done|]. unfold Submit. case_bool_decide; [|done].
    assert (Hst : scan_job id (store i (new_job i "scan" (RawBody r) (async_metadata r) now) m))
      by (eapply scan_job_same; [exact Hs|simpl; by rewrite lookup_insert_ne|eauto|done]).
    destruct (durable _); [destruct enq|destruct (_ <? _)]; simpl; try (by apply scan_job_other); by destruct Hst.
  - unfold delete_job, Cancel. destruct (Jobs.Get _ m) as [x|] eqn:Eg; [|done]. apply Get_Some in Eg as [_ Hx].
    destruct (_ || _); [done|]. simpl. destruct (decide (URLParam r "jobID" = id)) as [Heq|Hne]; [|by apply scan_job_other].
    rewrite Heq in *. pose proof Hs as [(j & Hj & Ht & Hi & Hm & _) Hc Hpr]. simplify_eq. by apply scan_job_set.
  - eapply scan_job_same; [exact Hs|done|eauto|done].
Qed.

Lemma scan_job_steps id m m' : scan_job id m -> rtc (scan_job_step sc) m m' -> scan_job id m'.
Proof. intros Hs. induction 1; eauto using scan_job_step_job. Qed.
End Scanned.

Lemma scanAsync_submits re id enq now r m0 id' m1 sc :
  Inv m0 -> heap m0 !! id = None -> scanAsync re id enq now r m0 = (Answer 202 id', m1) ->
  id' = id /\ scan_job sc (RawBody r) (async_metadata r) id m1.
Proof.
  intros Hm Hid. unfold scanAsync. destruct re; [done|]. unfold Submit. case_bool_decide as Hp; [|done].
  set (j := new_job _ _ _ _ _).
  assert (Hst : scan_job sc (RawBody r) (async_metadata r) id (store id j m0)).
  { split; [|intros k w Hk|done]; [exists j; simpl; by rewrite lookup_insert_eq|]. exfalso.
    destruct (inv_busy _ Hm id) as (x & Hx & _); [|congruence].
    apply (list_elem_of_fmap_2 fst (running m0) (id, w)), list_elem_of_lookup. by exists k. }
  destruct (durable _); [destruct enq; [done|]|destruct (_ <? _); [|done]]; intros [= <- <-]; (split; [done|]); by destruct Hst.
Qed.

(** The requested format. *)
Definition format_of (r : HttpRequest) : string :=
  if bool_decide (Query r "format" = "") then "json" else Query r "format".

Lemma async_metadata_format r : OutputFormat (parseScanOptions (async_metadata r)) = format_of r.
Proof. unfold parseScanOptions, async_metadata, format_of. simpl. by rewrite lookup_insert_eq. Qed.

(** Every line of the input was scanned and no rule fires on it. *)
Definition clean_input (sc : Scanner) (input : string) : Prop :=
  (scan_lines (bufferSizeBytes sc) (job_reader input)).2 = false /\
  Forall (clean_line sc) (scan_lines (bufferSizeBytes sc) (job_reader input)).1.

Lemma scanned_clean sc body name (env : ScanEnv) st :
  scanner_wf sc -> aho sc = None -> quarantineOnTimeout sc = true -> quarantineOnError sc = true ->
  exists res st', ScanReader sc (job_reader body) name st = (Ok res, st') /\ (sr_Violations res = [] -> clean_input sc body).
Proof.
  intros Hwf Ha Hqt Hqe. destruct (ScanReader_clean sc (job_reader body) name st Hwf Hqt Hqe) as (res & st' & E & Hc).
  exists res, st'. split; [done|]. intros Hv. destruct (Hc Hv) as (H1 & _ & _ & _ & H5). split; auto.
Qed.

Lemma simple_format res format out :
  ToLower format = "simple" -> formatScanResult res format = Ok out -> out = no_violations -> sr_Violations res = [].
Proof.
  intros Hf. unfold formatScanResult. rewrite Hf. simpl. case_bool_decide as Hv; [done|].
  intros [= <-] He. by apply simple_lines_differ in He.
Qed.

(** C14. A scan job answers for its own request, whatever happens meanwhile.
    The manager's scanner is well formed, has no keyword automaton and turns
    timeouts and errors into violations.  A request that is accepted gives a
    job of its own; after any further submissions, deliveries (repeated ones
    included), scans by other workers that share the scanner, cancellations
    and cleanups the job still carries the body that was sent.  When it is
    completed its result is what [ScanReader] returned on that body, in the
    requested format, and if that scan had no violations every line of the
    body was scanned and no rule fires on any.  When it has failed,
    [ScanReader] returned a result on that body and the error of the job is
    the one the requested format gave on it.  In the simple format the text
    for no violations is never the answer of a scan that found some. *)
Theorem async_scan_result sc re id enq now r m0 id' m1 m2 :
  scanner_wf sc -> aho sc = None -> quarantineOnTimeout sc = true -> quarantineOnError sc = true ->
  reachable m0 -> heap m0 !! id = None -> scanAsync re id enq now r m0 = (Answer 202 id', m1) ->
  rtc (scan_job_step sc) m1 m2 ->
  let scan env st := @ScanReader _ _ _ _ env sc (job_reader (RawBody r)) (input_name (async_metadata r)) st in
  exists j, heap m2 !! id' = Some j /\ Input j = RawBody r /\
    (Status j = Completed -> exists env st res st', scan env st = (Ok res, st') /\
       formatScanResult res (format_of r) = Ok (Result j) /\ (sr_Violations res = [] -> clean_input sc (RawBody r))) /\
    (Status j = Jobs.Failed -> exists env st res st', scan env st = (Ok res, st') /\
       formatScanResult res (format_of r) = Err (Error j)) /\
    (ToLower (format_of r) = "simple" -> Status j = Completed -> Result j = no_violations -> clean_input sc (RawBody r)).
Proof.
  intros Hwf Ha Hqt Hqe Hm%reachable_inv Hid Hsub Hs scan.
  destruct (scanAsync_submits _ _ _ _ _ _ _ _ sc Hm Hid Hsub) as [-> Hj].
  destruct (scan_job_steps _ _ _ _ _ _ Hj Hs) as [(j & Hj2 & _ & Hi & Hmd & Hc & Hf) _ _].
  pose proof (fun env st => scanned_clean sc (RawBody r) (input_name (async_metadata r)) env st Hwf Ha Hqt Hqe) as Hclean.
  assert (Hres : Status j = Completed -> exists env st res st', scan env st = (Ok res, st') /\
    formatScanResult res (format_of r) = Ok (Result j) /\ (sr_Violations res = [] -> clean_input sc (RawBody r))).
  { intros (env & st & res & st' & E & Ef)%Hc. rewrite async_metadata_format in Ef.
    destruct (Hclean env st) as (res' & st'' & E' & Hcl). rewrite E in E'. injection E' as <- <-. by exists env, st, res, st'. }
  exists j. split_and!; [done|done|exact Hres| |].
  - intros (env & st & He)%Hf. unfold Process in He. rewrite Hmd, async_metadata_format in He. simpl in He. rewrite Hi in He.
    destruct (Hclean env st) as (res & st' & E & _). exists env, st, res, st'.
    rewrite E in He. split; [exact E|]. destruct (formatScanResult res _) as [out|e] eqn:Ef; [done|]. simpl in He. congruence.
  - intros Hsimple (env & st & res & st' & _ & Ef & Hcl)%Hres Hno. eapply Hcl, simple_format; eauto.
Qed.

(** The default manager scans without rules: an undisturbed scan of any text
    whose lines fit the buffer finds nothing. *)
Lemma no_rules_no_violations (env : ScanEnv) lines k st :
  (forall k, ctx_done k = false) -> scan_loop default_scanner k lines st = (Finished, (scan_loop default_scanner k lines st).2) /\
  violations (scan_loop default_scanner k lines st).2 = violations st.
Proof.
  intros Hc. revert k st. induction lines as [|line lines IH]; intros k st; [done|]. cbn [scan_loop]. rewrite Hc. simpl.
  destruct (IH (S k) (clear_seen (set_metrics (count_line (Z.of_nat (String.length line)) (metrics st)) st))) as [H1 H2].
  split; [exact H1|exact H2].
Qed.

Lemma default_scan_blind (env : ScanEnv) input name st :
  (forall k, ctx_done k = false) -> (scan_lines (bufferSizeBytes default_scanner) (job_reader input)).2 = false ->
  exists res st', ScanReader default_scanner (job_reader input) name st = (Ok res, st') /\ sr_Violations res = [].
Proof.
  intros Hc Hl. unfold ScanReader. destruct (scan_lines _ _) as [lines long]. simpl in Hl. rewrite Hl. simpl.
  set (s0 := Build_eval_state _ _ _ _ _ _). destruct (no_rules_no_violations env lines 0 s0 Hc) as [E Hv].
  rewrite E. simpl. eexists _, _. split; [reflexivity|]. exact Hv.
Qed.
End Process.

Module AsyncWitnesses.
Import Demo.
#[local] Existing Instance literal_syntax.
#[local] Existing Instance literal_engine.
#[local] Existing Instance list_lru.
#[local] Existing Instance naive_lib.
#[local] Existing Instance bare_platform.
#[local] Existing Instance quiet_world.

(** An encoder that keeps the identifiers of rules, and the first byte of JSON
    texts. *)
#[local] Instance ids_json : JsonResults := {|
  marshal_summary vs _ _ := Ok ("[" +:+ Join "," (map v_RuleID vs) +:+ "]");
  marshal_violation v := Ok ("[" +:+ v_RuleID v +:+ "]");
  marshal_result res := Ok ("[" +:+ Join "," (map v_RuleID (sr_Violations res)) +:+ "]");
  json_Valid s := HasPrefix "[" s || HasPrefix "{" s;
|}.

Definition post (format body : string) : HttpRequest := request "POST" "/scan/async" [] [("format", format)] [] body.
Definition on_job (id : string) : HttpRequest := request "GET" "" [] [] [("jobID", id)] "".

Definition m0 : Manager := default_manager false.
Definition submitted (format body : string) : Manager := (scanAsync None "a" None 1 (post format body) m0).2.
Definition taken (format body : string) : Manager := processJob_begin "a" 2 (with_queue [] (submitted format body)).
(** The copy the worker scans, and the manager when it is done. *)
Definition copy (format body : string) : Job := started 2 (new_job "a" "scan" body (async_metadata (post format body)) 1).
Definition scanned (sc : Scanner) (format body : string) : Manager :=
  processJob_end 0 (Process calm_env sc st0 (copy format body)).1.1 (Process calm_env sc st0 (copy format body)).1.2 3 (taken format body).
Definition outcome (m : Manager) : option (JobStatus * string) := (fun j => (Status j, Result j)) <$> Jobs.Get "a" m.

Lemma scanned_steps : rtc (scan_job_step plain) (submitted "simple" "fine") (scanned plain "simple" "fine").
Proof.
  eapply rtc_l; [apply (sj_take plain "a" [] 2); [reflexivity|reflexivity|vm_compute; lia]|].
  apply rtc_once, (sj_finish plain 0 "a" (copy "simple" "fine") calm_env st0 3). vm_compute. reflexivity.
Qed.

Lemma m0_reachable : reachable m0.
Proof. exists 2%Z, false. apply rtc_once. exact (step_register "scan" _). Qed.

Lemma async_scan_result_witness :
  outcome (scanned plain "simple" "fine") = Some (Completed, no_violations) /\ clean_input plain "fine".
Proof.
  split; [vm_compute; reflexivity|].
  destruct (async_scan_result plain None "a" None 1 (post "simple" "fine") m0 "a" (submitted "simple" "fine")
    (scanned plain "simple" "fine") plain_wf eq_refl eq_refl eq_refl m0_reachable eq_refl eq_refl scanned_steps)
    as (j & Hj & _ & _ & _ & Hsimple).
  assert (Hj' : heap (scanned plain "simple" "fine") !! "a" = Jobs.Get "a" (scanned plain "simple" "fine")) by (vm_compute; reflexivity).
  rewrite Hj in Hj'. apply Hsimple; [vm_compute; reflexivity| |].
  - apply (f_equal (fmap Status)) in Hj'. vm_compute in Hj'. by injection Hj'.
  - apply (f_equal (fmap Result)) in Hj'. vm_compute in Hj'. by injection Hj'.
Defined.

(** The same prompt: found by a scanner with rules, not by the one the default
    manager is given. *)
Lemma default_manager_blind :
  (outcome (scanned plain "json" "foo"), outcome (scanned default_scanner "json" "foo"))
  = (Some (Completed, "[a]"%string), Some (Completed, "[]"%string)).
Proof. vm_compute. reflexivity. Qed.

(** A result in the simple format is not JSON: neither the job nor the list
    of all jobs can be encoded, and both answers are empty. *)
Lemma simple_result_unreadable :
  let m := scanned plain "simple" "foo" in
  outcome m = Some (Completed, "a: rule violation"%string) /\ get_job (on_job "a") m = Answer 200 None /\
  list_jobs (on_job "") m = Answer 200 None.
Proof. vm_compute. done. Qed.

(** Cancelling a job that is completed is answered as if there were none. *)
Lemma completed_job_not_found :
  (delete_job 9 (on_job "a") (scanned plain "json" "foo")).1 = Failure 404 "JOB_NOT_FOUND".
Proof. vm_compute. reflexivity. Qed.
End AsyncWitnesses.
