(* ===== verification/JobQueue.v ===== *)
(** * JobQueue: the durable queue, and starting and stopping the job manager

    src/internal/jobs/queue/redis.go, and [Start] and [Stop] of
    src/internal/jobs/manager.go.  The redis stream is the list of its entries;
    its consumer group has read a prefix of it, and keeps the entries that were
    delivered and not acknowledged.  Every consumer goroutine of [RunConsumers]
    reads a batch of new entries and works through it; consumers interleave
    at the commands they send.  The JSON codec of messages is the class
    [JsonMessages]. *)

From Stdlib Require Import Ascii String.
From S2P Require Import Prelude GoString Unicode Jobs.

Record Message := {
  msg_ID : string;
  msg_Type : string;
  msg_Input : string;
  msg_Metadata : gmap string string;
}.

(** The strings of a message are valid UTF-8 (the input is bytes, which are
    encoded in base64). *)
Definition message_utf8 (m : Message) : Prop :=
  ValidString (msg_ID m) = true /\ ValidString (msg_Type m) = true /\
  map_Forall (fun k v => ValidString k = true /\ ValidString v = true) (msg_Metadata m).

(** [json.Marshal] and [json.Unmarshal] of a payload: what was encoded is
    decoded, if its strings are valid UTF-8 (the encoder replaces what is
    not). *)
Class JsonMessages := {
  marshal : Message -> result string string;
  unmarshal : string -> result string Message;
  unmarshal_marshal : forall m raw, message_utf8 m -> marshal m = Ok raw -> unmarshal raw = Ok m;
}.

Section Queue.
Context `{JM : JsonMessages}.

(** [group]: the number of entries the group has passed.  [hands] are the
    entries the consumers have read and not worked on yet.  Beside these, the
    state remembers the messages that were enqueued, those the handler was
    called with, with its answer, and the entries a restart left behind. *)
Record queue_state := {
  entries : list string;
  group : option nat;
  pending : gset nat;
  hands : list (list nat);
  enqueued : list Message;
  calls : list (nat * Message * bool);
  lost : list nat;
}.

Definition with_hands (h : list (list nat)) (q : queue_state) : queue_state :=
  {| entries := entries q; group := group q; pending := pending q; hands := h; enqueued := enqueued q; calls := calls q;
     lost := lost q |}.
Definition with_pending (p : gset nat) (q : queue_state) : queue_state :=
  {| entries := entries q; group := group q; pending := p; hands := hands q; enqueued := enqueued q; calls := calls q;
     lost := lost q |}.
Definition with_call (c : nat * Message * bool) (q : queue_state) : queue_state :=
  {| entries := entries q; group := group q; pending := pending q; hands := hands q; enqueued := enqueued q;
     calls := calls q ++ [c]; lost := lost q |}.

(** ** Construction *)

(** [XGROUP CREATE stream group $ MKSTREAM]; a group that exists stays. *)
Definition ensureGroup (fail : option string) (q : queue_state) : option string * queue_state :=
  match group q, fail with
  | Some _, _ => (None, q)
  | None, Some e => (Some e, q)
  | None, None =>
    (None, {| entries := entries q; group := Some (length (entries q)); pending := ∅; hands := hands q; enqueued := enqueued q;
              calls := calls q; lost := lost q |})
  end.

Definition NewRedisQueue (stream grp consumer : string) (fail : option string) (q : queue_state) : option string * queue_state :=
  if bool_decide (stream = "") || bool_decide (grp = "") || bool_decide (consumer = "")
  then (Some "stream, group, and consumer are required"%string, q)
  else ensureGroup fail q.

(** ** [Enqueue] *)

Definition Enqueue (fail : option string) (m : Message) (q : queue_state) : option string * queue_state :=
  match marshal m with
  | Err e => (Some e, q)
  | Ok raw =>
    match fail with
    | Some e => (Some e, q)
    | None => (None, {| entries := entries q ++ [raw]; group := group q; pending := pending q; hands := hands q;
                        enqueued := enqueued q ++ [m]; calls := calls q; lost := lost q |})
    end
  end.

(** ** [RunConsumers] *)

(** [XREADGROUP ... COUNT 10 STREAMS stream >] by the [i]-th consumer. *)
Definition batch : nat := 10.
Definition read_group (i : nat) (q : queue_state) : option queue_state :=
  l ← group q;
  let n := batch `min` (length (entries q) - l) in
  Some {| entries := entries q; group := Some (l + n); pending := list_to_set (seq l n) ∪ pending q;
          hands := <[i := seq l n]> (hands q); enqueued := enqueued q; calls := calls q; lost := lost q |}.

(** [XACK], whose error is ignored. *)
Definition ack (fails : bool) (k : nat) (q : queue_state) : queue_state :=
  if fails then q else with_pending (pending q ∖ {[k]}) q.

(** The body of the loop over the batch, with the answer of the handler: an
    entry that cannot be decoded is acknowledged; one that was not handled
    stays pending ([XCLAIM] by the consumer that owns it changes nothing). *)
Definition consume_entry (k : nat) (handler_ok ack_fails : bool) (q : queue_state) : queue_state :=
  match unmarshal (default "" (entries q !! k)) with
  | Err _ => ack ack_fails k q
  | Ok m => let q := with_call (k, m, handler_ok) q in if handler_ok then ack ack_fails k q else q
  end.

(** What the consumers do. *)
Inductive consumer_step : queue_state -> queue_state -> Prop :=
  | cs_read i q q' : hands q !! i = Some [] -> read_group i q = Some q' -> group q' <> group q -> consumer_step q q'
  | cs_entry i k rest handler_ok ack_fails q :
      hands q !! i = Some (k :: rest) ->
      consumer_step q (consume_entry k handler_ok ack_fails (with_hands (<[i := rest]> (hands q)) q)).

(** [restarts]: the process may be restarted with any number of consumers; what the
    consumers held stays pending in the group. *)
Inductive queue_step (restarts : bool) : queue_state -> queue_state -> Prop :=
  | qs_consume q q' : consumer_step q q' -> queue_step restarts q q'
  | qs_enqueue fail m q : message_utf8 m -> queue_step restarts q (Enqueue fail m q).2
  | qs_restart n stream grp consumer fail q :
      restarts = true ->
      queue_step restarts q
        (NewRedisQueue stream grp consumer fail
           {| entries := entries q; group := group q; pending := pending q; hands := replicate (S n) []; enqueued := enqueued q;
              calls := calls q; lost := lost q ++ concat (hands q) |}).2.

(** A stream with entries of others, a new group, and [n] consumers;
    RunConsumers starts at least one. *)
Definition queue_start (old : list string) (n : Z) : queue_state :=
  (ensureGroup None
     {| entries := old; group := None; pending := ∅; hands := replicate (if (n <=? 0)%Z then 1 else Z.to_nat n) [];
        enqueued := []; calls := []; lost := [] |}).2.

(** ** The invariant *)

Definition called (q : queue_state) : list nat := map (fun c => c.1.1) (calls q).

(** [start] is the number of entries before the group was created, [l] the
    number of entries it has passed. *)
Record queue_ok (start l : nat) (q : queue_state) : Prop := {
  qo_group : group q = Some l /\ start <= l <= length (entries q);
  qo_entries : Forall2 (fun raw m => marshal m = Ok raw /\ message_utf8 m) (drop start (entries q)) (enqueued q);
  qo_split : called q ++ concat (hands q) ++ lost q ≡ₚ seq start (l - start);
  qo_calls : forall k m b, (k, m, b) ∈ calls q -> enqueued q !! (k - start) = Some m;
  qo_pending : forall k, k ∈ concat (hands q) ++ lost q \/ (exists m, (k, m, false) ∈ calls q) -> k ∈ pending q;
  qo_hands : hands q <> [];
}.

Lemma concat_replicate_nil {A} n : concat (replicate n (@nil A)) = [].
Proof. by induction n. Qed.

Lemma queue_start_ok old n : queue_ok (length old) (length old) (queue_start old n).
Proof.
  split; simpl; rewrite ?concat_replicate_nil; [auto| | | | |].
  - rewrite drop_all. constructor.
  - by rewrite Nat.sub_diag.
  - intros k m b Hk. by apply elem_of_nil in Hk.
  - intros k [Hk|[m Hk]]; by apply elem_of_nil in Hk.
  - destruct (n <=? 0)%Z eqn:Hn; [done|]. destruct (Z.to_nat n) eqn:Ez; [lia|done].
Qed.

Lemma concat_insert {A} (ls : list (list A)) i h x :
  ls !! i = Some h -> concat (<[i := x]> ls) ++ h ≡ₚ x ++ concat ls.
Proof.
  revert i. induction ls as [|y ls IH]; intros [|i] Hi; simplify_eq/=.
  - rewrite <-(assoc_L (++)). apply Permutation_app_head, Permutation_app_comm.
  - rewrite <-(assoc_L (++)), (IH i Hi), !(assoc_L (++)). apply Permutation_app_tail, Permutation_app_comm.
Qed.

Lemma seq_split start l n : start <= l -> seq start (l + n - start) = seq start (l - start) ++ seq l n.
Proof.
  intros Hl. replace (l + n - start) with ((l - start) + n) by lia. rewrite seq_app. do 2 f_equal. lia.
Qed.

(** The entries a consumer holds are entries that were enqueued. *)
Lemma held_entry start l q k :
  queue_ok start l q -> k ∈ concat (hands q) ->
  start <= k < l /\ exists m, enqueued q !! (k - start) = Some m /\ unmarshal (default "" (entries q !! k)) = Ok m.
Proof.
  intros Hq Hk.
  assert (Hin : k ∈ seq start (l - start)) by (rewrite <-(qo_split _ _ _ Hq), !elem_of_app; auto).
  apply elem_of_seq in Hin. destruct (qo_group _ _ _ Hq) as [_ Hl]. split; [lia|].
  destruct (lookup_lt_is_Some_2 (entries q) k) as [raw Hraw]; [lia|].
  assert (Hd : drop start (entries q) !! (k - start) = Some raw) by (rewrite lookup_drop, <-Hraw; f_equal; lia).
  destruct (Forall2_lookup_l _ _ _ _ _ (qo_entries _ _ _ Hq) Hd) as (m & Hm & Henc & Hutf).
  exists m. split; [done|]. rewrite Hraw. by apply unmarshal_marshal.
Qed.

Lemma read_ok start l i q q' :
  queue_ok start l q -> hands q !! i = Some [] -> read_group i q = Some q' ->
  exists n, queue_ok start (l + n) q' /\ n <= length (entries q) - l /\ length (concat (hands q')) = n + length (concat (hands q)) /\
    entries q' = entries q /\ enqueued q' = enqueued q /\ group q' = Some (l + n) /\ lost q' = lost q.
Proof.
  intros Hq Hi. pose proof Hq as [[Hg Hl] He Hs Hc Hp Hh]. unfold read_group. rewrite Hg. cbn [mbind option_bind].
  set (n := batch `min` (length (entries q) - l)). intros [= <-].
  assert (Hperm : concat (<[i:=seq l n]> (hands q)) ≡ₚ seq l n ++ concat (hands q))
    by (rewrite <-(concat_insert _ _ _ (seq l n) Hi); by rewrite app_nil_r).
  exists n. split_and!; [|lia|cbn [hands]; by rewrite Hperm, length_app, length_seq|done..].
  split; simpl; try done.
  - split; [done|lia].
  - rewrite Hperm. unfold called in *. simpl. rewrite seq_split, <-Hs by lia.
    rewrite <-!(assoc_L (++)). apply Permutation_app_head. by rewrite (comm (++) (seq l n)), <-!(assoc_L (++)).
  - intros k Hk. rewrite Hperm, <-(assoc_L (++)), elem_of_app in Hk.
    apply elem_of_union. rewrite elem_of_list_to_set. destruct Hk as [[Hk|Hk]|Hk]; auto.
  - intros ?%(f_equal length). rewrite length_insert in H. destruct (hands q); done.
Qed.

Lemma entry_ok start l i k rest b fails q :
  queue_ok start l q -> hands q !! i = Some (k :: rest) ->
  let q' := consume_entry k b fails (with_hands (<[i := rest]> (hands q)) q) in
  queue_ok start l q' /\ S (length (concat (hands q'))) = length (concat (hands q)) /\
  entries q' = entries q /\ enqueued q' = enqueued q /\ group q' = group q /\ lost q' = lost q.
Proof.
  intros Hq Hi q'.
  assert (Hperm : concat (hands q) ≡ₚ k :: concat (<[i:=rest]> (hands q))).
  { pose proof (concat_insert _ _ _ rest Hi) as Hp.
    apply (Permutation_app_inv_l rest). rewrite <-Hp, <-!Permutation_middle.
    apply perm_skip, Permutation_app_comm. }
  assert (Hk : k ∈ concat (hands q)) by (rewrite Hperm; by left).
  destruct (held_entry _ _ _ _ Hq Hk) as (Hlt & m & Hm & Hdec).
  subst q'. unfold consume_entry. simpl. rewrite Hdec. pose proof Hq as [[Hg Hl] He Hs Hc Hp Hh].
  assert (Hnd : NoDup (called q ++ concat (hands q) ++ lost q)) by (rewrite Hs; apply NoDup_seq).
  assert (Hfresh : k ∉ called q /\ k ∉ concat (<[i:=rest]> (hands q)) ++ lost q).
  { rewrite Hperm in Hnd. simpl in Hnd. rewrite <-Permutation_middle in Hnd. apply NoDup_cons in Hnd as [Hnin _].
    rewrite elem_of_app in Hnin. tauto. }
  set (q1 := with_call _ _).
  assert (Hq1 : forall p, (forall j, j ∈ pending q -> j <> k \/ b = false -> j ∈ p) -> queue_ok start l (with_pending p q1)).
  { intros p Hpend. split; simpl; try done.
    - unfold called. simpl. rewrite map_app. simpl. rewrite <-Hs, Hperm, <-!(assoc_L (++)). done.
    - intros j m' b' [Hj|Hj]%elem_of_app; [by eapply Hc|]. apply list_elem_of_singleton in Hj as [= -> -> ->]. done.
    - intros j Hj. destruct Hfresh as [Hf1 Hf2]. destruct Hj as [Hj|[m' Hj]].
      + apply Hpend; [apply Hp; left; rewrite elem_of_app in Hj |- *; rewrite Hperm, elem_of_cons; tauto|].
        left. by intros ->.
      + apply elem_of_app in Hj as [Hj|Hj].
        * apply Hpend; [eauto|]. left. intros ->. apply Hf1. unfold called. apply list_elem_of_fmap. by exists (k, m', false).
        * apply list_elem_of_singleton in Hj as [= -> _ <-]. apply Hpend; [|by right].
          apply Hp. left. apply elem_of_app. by left.
    - intros ?%(f_equal length). rewrite length_insert in H. destruct (hands q); done. }
  assert (Hlen : S (length (concat (<[i:=rest]> (hands q)))) = length (concat (hands q))) by (by rewrite Hperm).
  unfold ack. destruct b; [destruct fails|]; simpl; (split; [|done]).
  - change q1 with (with_pending (pending q) q1). apply Hq1. auto.
  - apply Hq1. intros j Hj [Hne|?]; [set_solver|done].
  - change q1 with (with_pending (pending q) q1). apply Hq1. auto.
Qed.

Lemma enqueue_ok start l fail m q : message_utf8 m -> queue_ok start l q -> queue_ok start l (Enqueue fail m q).2.
Proof.
  intros Hu Hq. unfold Enqueue. destruct (marshal m) as [raw|e] eqn:Em; [|done]. destruct fail; [done|].
  destruct Hq as [[Hg Hl] He Hs Hc Hp Hh]. split; simpl; try done.
  - rewrite length_app. simpl. split; [done|lia].
  - rewrite drop_app_le by lia. apply Forall2_app; [done|]. by constructor.
  - intros k m' b Hk. by eapply lookup_app_l_Some, Hc.
Qed.

Lemma restart_ok start l n stream grp consumer fail q :
  queue_ok start l q ->
  queue_ok start l (NewRedisQueue stream grp consumer fail
    {| entries := entries q; group := group q; pending := pending q; hands := replicate (S n) []; enqueued := enqueued q;
       calls := calls q; lost := lost q ++ concat (hands q) |}).2.
Proof.
  intros [[Hg Hl] He Hs Hc Hp Hh].
  match goal with |- queue_ok _ _ (NewRedisQueue _ _ _ _ ?x).2 => assert (Hsame : (NewRedisQueue stream grp consumer fail x).2 = x) end.
  { unfold NewRedisQueue, ensureGroup. simpl. rewrite Hg. by case_if. }
  rewrite Hsame. clear Hsame. split; cbn [group entries enqueued calls pending hands lost];
    rewrite ?concat_replicate_nil; try done.
  - unfold called in *. simpl. rewrite <-Hs. apply Permutation_app_head, Permutation_app_comm.
  - intros k Hk. apply Hp. rewrite elem_of_app. simpl in Hk. rewrite elem_of_app in Hk. tauto.
Qed.

(** What the consumers still have to do. *)
Definition work (q : queue_state) : nat :=
  2 * (length (entries q) - default 0 (group q)) + length (concat (hands q)).

Lemma consumer_step_ok start l q q' :
  queue_ok start l q -> consumer_step q q' ->
  exists l', queue_ok start l' q' /\ work q' < work q /\ entries q' = entries q /\ enqueued q' = enqueued q /\ lost q' = lost q.
Proof.
  intros Hq Hs. pose proof (proj1 (qo_group _ _ _ Hq)) as Hg. unfold work. rewrite Hg.
  destruct Hs as [i q q' Hi Hr Hne|i k rest b fails q Hi].
  - destruct (read_ok _ _ _ _ _ Hq Hi Hr) as (n & Hok & Hle & Hlen & He & Hen & Hg' & Hlo).
    exists (l + n). rewrite Hg', Hlen, He. split_and!; try done. rewrite Hg, Hg' in Hne.
    assert (n <> 0) by (intros ->; rewrite Nat.add_0_r in Hne; done). simpl. lia.
  - destruct (entry_ok _ _ _ _ _ b fails _ Hq Hi) as (Hok & Hlen & He & Hen & Hg' & Hlo).
    exists l. rewrite Hg', Hg, He. split_and!; try done. lia.
Qed.

Lemma queue_step_ok restarts start l q q' :
  queue_ok start l q -> queue_step restarts q q' -> exists l', queue_ok start l' q' /\ (restarts = false -> lost q' = lost q).
Proof.
  intros Hq Hst. destruct Hst as [q q' Hs|fail m q Hu|n stream grp consumer fail q Hr].
  - destruct (consumer_step_ok _ _ _ _ Hq Hs) as (l' & Hok & _ & _ & _ & Hlo). by exists l'.
  - exists l. split; [by apply enqueue_ok|]. unfold Enqueue. by destruct (marshal m); [destruct fail|].
  - exists l. split; [by apply restart_ok|]. by rewrite Hr.
Qed.

Lemma queue_steps_ok restarts old n q :
  rtc (queue_step restarts) (queue_start old n) q ->
  exists l, queue_ok (length old) l q /\ (restarts = false -> lost q = []).
Proof.
  intros Hs.
  assert (Hgen : forall q0, rtc (queue_step restarts) q0 q -> forall l0, queue_ok (length old) l0 q0 ->
    exists l, queue_ok (length old) l q /\ (restarts = false -> lost q = lost q0)).
  { induction 1 as [q0|q0 q1 q2 H1 _ IH]; intros l0 Hq0; [by exists l0|].
    destruct (queue_step_ok _ _ _ _ _ Hq0 H1) as (l1 & Hq1 & Hlo).
    destruct (IH ltac:(eauto) l1 Hq1) as (l & Hq & Hlo'). exists l. split; [done|]. intros Hr. rewrite Hlo', Hlo; done. }
  exact (Hgen _ Hs _ (queue_start_ok old n)).
Qed.

(** A consumer that holds entries, or entries that were not read, can move. *)
Lemma quiet_or_step start l q :
  queue_ok start l q -> (l = length (entries q) /\ concat (hands q) = []) \/ exists q', consumer_step q q'.
Proof.
  intros Hq. destruct (concat (hands q)) as [|k ks] eqn:Ec.
  - destruct (qo_group _ _ _ Hq) as [Hg Hl]. destruct (decide (l = length (entries q))) as [|Hne]; [by left|right].
    destruct (hands q) as [|h hs] eqn:Eh; [by destruct (qo_hands _ _ _ Hq)|].
    assert (h = []) as -> by (by apply app_eq_nil in Ec as [? _]).
    assert (Hrd : exists q', read_group 0 q = Some q' /\ group q' <> group q).
    { unfold read_group. rewrite Hg. eexists. split; [reflexivity|]. cbn [group].
      assert (Hpos : batch `min` (length (entries q) - l) <> 0) by (unfold batch; lia). intros H. apply Some_inj in H. lia. }
    destruct Hrd as (q' & Hr & Hgr). exists q'. apply (cs_read 0); [by rewrite Eh|done|done].
  - right. assert (Hin : k ∈ concat (hands q)) by (rewrite Ec; by left).
    apply list_elem_of_In, in_concat in Hin as (h & Hh%list_elem_of_In & Hk%list_elem_of_In). apply list_elem_of_lookup in Hh as [i Hi].
    destruct h as [|k' rest]; [by apply elem_of_nil in Hk|]. eexists. by apply (cs_entry i k' rest true false).
Qed.

Lemma consumer_nsteps start l n q q' :
  queue_ok start l q -> nsteps consumer_step n q q' ->
  n + work q' <= work q /\ exists l', queue_ok start l' q' /\ entries q' = entries q /\ enqueued q' = enqueued q /\ lost q' = lost q.
Proof.
  intros Hq Hs. revert l Hq. induction Hs as [q|n q q1 q' H1 Hs IH]; intros l Hq; [split; [done|by exists l]|].
  destruct (consumer_step_ok _ _ _ _ Hq H1) as (l1 & Hq1 & Hlt & He & Hen & Hlo).
  destruct (IH l1 Hq1) as (Hle & l' & Hq' & ? & ? & ?). split; [lia|]. exists l'. split_and!; congruence.
Qed.

Lemma consumers_finish start l q : queue_ok start l q -> exists q', rtc consumer_step q q' /\ forall q'', ~ consumer_step q' q''.
Proof.
  revert l. induction (Wf_nat.well_founded_ltof _ work q) as [q _ IH]. intros l Hq.
  destruct (quiet_or_step _ _ _ Hq) as [[Hl Hc]|[q1 H1]].
  - exists q. split; [done|]. intros q' Hs. destruct (consumer_step_ok _ _ _ _ Hq Hs) as (? & _ & Hlt & _).
    unfold work in Hlt. rewrite (proj1 (qo_group _ _ _ Hq)), Hc, Hl in Hlt. simpl in Hlt. lia.
  - destruct (consumer_step_ok _ _ _ _ Hq H1) as (l1 & Hq1 & Hlt & _).
    destruct (IH q1 Hlt l1 Hq1) as (q' & Hs & Hst). exists q'. split; [by econstructor|done].
Qed.

(** When the consumers have nothing left, the handler has seen everything. *)
Lemma quiet_calls start q :
  queue_ok start (length (entries q)) q -> concat (hands q) = [] -> lost q = [] -> map (fun c => c.1.2) (calls q) ≡ₚ enqueued q.
Proof.
  intros Hq Hc Hlo. pose proof (qo_split _ _ _ Hq) as Hs. rewrite Hc, Hlo, !app_nil_r in Hs.
  pose proof (Forall2_length _ _ _ (qo_entries _ _ _ Hq)) as Hlen. rewrite length_drop in Hlen.
  set (msg := fun k => enqueued q !! (k - start)).
  assert (Hcalls : map (fun c => c.1.2) (calls q) = omap msg (called q)).
  { pose proof (qo_calls _ _ _ Hq) as Hall. unfold called. clear Hs.
    induction (calls q) as [|[[k m] b] cs IH]; [done|]. simpl.
    assert (msg k = Some m) as -> by (eapply Hall; by left). rewrite IH; [done|]. intros; eapply Hall. by right. }
  rewrite Hcalls, Hs, Hlen. apply Permutation_refl'. unfold msg. clear.
  assert (Hgen : forall l pre : list Message, omap (fun k => (pre ++ l) !! (k - start)) (seq (start + length pre) (length l)) = l).
  { induction l as [|m l IH]; intros pre; [done|]. simpl.
    replace (start + length pre - start) with (length pre) by lia. rewrite list_lookup_middle by done.
    specialize (IH (pre ++ [m])). rewrite <-(assoc_L (++)), length_app, Nat.add_assoc, Nat.add_1_r in IH. simpl in IH. f_equal. exact IH. }
  specialize (Hgen (enqueued q) []). simpl in Hgen. by rewrite Nat.add_0_r in Hgen.
Qed.

(** C23. The durable queue loses nothing.  Whatever messages (of valid UTF-8) are
    enqueued, and whatever is read and acknowledged by the consumers, in
    whatever order and with acknowledgements failing, and however often the
    process is restarted: the handler is only called with messages that were
    enqueued; and every message that was enqueued since the group was created
    either has not been read yet, or is still pending in the group, or was
    handed to the handler with success, so that only what was handled is ever
    acknowledged.  The consumers run out of work after at most two steps for an
    entry that was not read and one for an entry they hold, and if there was no
    restart every message has then been handed to the handler at least once.
    (Whether a pending message is tried again is another matter:
    [failed_message_not_retried].) *)
Theorem queue_delivery restarts old n q :
  rtc (queue_step restarts) (queue_start old n) q ->
  (forall k m b, (k, m, b) ∈ calls q -> enqueued q !! (k - length old) = Some m) /\
  (forall i m, enqueued q !! i = Some m -> let k := length old + i in
     (exists l, group q = Some l /\ l <= k) \/ k ∈ pending q \/ (k, m, true) ∈ calls q) /\
  (exists q', rtc consumer_step q q' /\ forall q'', ~ consumer_step q' q'') /\
  forall i q', nsteps consumer_step i q q' ->
    i <= work q /\
    (restarts = false -> (forall q'', ~ consumer_step q' q'') -> enqueued q ⊆+ map (fun c => c.1.2) (calls q')).
Proof.
  intros (l & Hq & Hlo)%queue_steps_ok. split_and!.
  - apply (qo_calls _ _ _ Hq).
  - intros i m Hi k. destruct (qo_group _ _ _ Hq) as [Hg Hl]. destruct (decide (l <= k)) as [|Hlt]; [left; eauto|right].
    assert (Hk : k ∈ called q ++ concat (hands q) ++ lost q) by (rewrite (qo_split _ _ _ Hq); apply elem_of_seq; lia).
    apply elem_of_app in Hk as [Hk|Hk]; [|left; apply (qo_pending _ _ _ Hq); by left].
    apply list_elem_of_fmap in Hk as ([[k' m'] b] & Heq & Hin). simpl in Heq. subst k'.
    pose proof (qo_calls _ _ _ Hq k m' b Hin) as Hm'. replace (k - length old) with i in Hm' by lia.
    rewrite Hi in Hm'. injection Hm' as <-. destruct b; [by right|left]. apply (qo_pending _ _ _ Hq). eauto.
  - by eapply consumers_finish.
  - intros i q' Hs. destruct (consumer_nsteps _ _ _ _ _ Hq Hs) as (Hle & l' & Hq' & He & Hen & Hlo').
    split; [lia|]. intros Hr Hstop. rewrite <-Hen. destruct (quiet_or_step _ _ _ Hq') as [[-> Hc]|[q'' H]]; [|by destruct (Hstop q'')].
    apply Permutation_submseteq. symmetry. eapply quiet_calls; [done|done|]. rewrite Hlo'. by apply Hlo.
Qed.
End Queue.

(** ** The handler of the manager *)

(** The handler [Start] passes to [RunConsumers], up to the call of the
    processor: it looks the job up by the id of the message alone, and its
    answer is that the message was handled. *)
Definition start_handler `{JsonMessages} (msg : Message) (now : Z) (m : Manager) : bool * Manager :=
  (true, processJob_begin (msg_ID msg) now m).

(** ** Stopping *)

(** The goroutines of [Start] and the channels they end with: [done] is
    closed by the worker 0.  Closing a closed channel panics. *)
Record lifecycle := {
  shutdown_closed : bool;
  done_closed : bool;
  alive : list nat;
}.

Definition Start (m : Manager) : lifecycle :=
  {| shutdown_closed := false; done_closed := false; alive := if durable m then [] else seq 0 (workers m) |}.

(** [close(m.shutdown)] of [Stop]; [None] is a panic. *)
Definition Stop_begin (s : lifecycle) : option lifecycle :=
  if shutdown_closed s then None
  else Some {| shutdown_closed := true; done_closed := done_closed s; alive := alive s |}.

(** [<-m.done]: whether [Stop] can return. *)
Definition Stop_returns (s : lifecycle) : bool := done_closed s.

(** A worker that is not processing a job leaves its loop when the manager is
    shut down or the context is cancelled. *)
Definition worker_exit (ctx_done : bool) (i : nat) (s : lifecycle) : option lifecycle :=
  if (shutdown_closed s || ctx_done) && bool_decide (i ∈ alive s) then
    if bool_decide (i = 0) then
      if done_closed s then None
      else Some {| shutdown_closed := shutdown_closed s; done_closed := true; alive := filter (fun j => j <> i) (alive s) |}
    else Some {| shutdown_closed := shutdown_closed s; done_closed := done_closed s; alive := filter (fun j => j <> i) (alive s) |}
  else Some s.

(** The workers leave one after the other. *)
Fixpoint exits (ctx_done : bool) (ws : list nat) (s : lifecycle) : option lifecycle :=
  match ws with [] => Some s | i :: ws => s ← worker_exit ctx_done i s; exits ctx_done ws s end.

Lemma worker_exit_ok ctx_done i s :
  (done_closed s = true <-> 0 ∉ alive s) ->
  exists s', worker_exit ctx_done i s = Some s' /\ (done_closed s' = true <-> 0 ∉ alive s') /\ shutdown_closed s' = shutdown_closed s /\
    (shutdown_closed s = true -> 0 ∈ alive s' <-> 0 ∈ alive s /\ 0 <> i).
Proof.
  intros Hd. unfold worker_exit. destruct (shutdown_closed s || ctx_done) eqn:Eo; simpl.
  - case_bool_decide as Hin.
    + case_bool_decide as Hi.
      * subst. destruct (done_closed s); [by destruct (proj1 Hd eq_refl)|]. eexists. split; [done|]. simpl.
        rewrite list_elem_of_filter. naive_solver.
      * eexists. split; [done|]. simpl. rewrite Hd, list_elem_of_filter. naive_solver.
    + exists s. split_and!; try done. intros _. split; [|by intros [? _]]. intros H0. by split; [|intros <-].
  - apply orb_false_iff in Eo as [Es _]. exists s. split_and!; try done. by rewrite Es.
Qed.

(** Stopping an in-memory manager never panics, and returns as soon as the
    worker 0 has left its loop, in whatever order the workers leave. *)
Lemma stop_returns ws (m : Manager) :
  durable m = false -> 0 < workers m -> 
  exists s0 s1, Stop_begin (Start m) = Some s0 /\ exits false ws s0 = Some s1 /\ (Stop_returns s1 = true <-> 0 ∈ ws).
Proof.
  intros Hd Hw. eexists. unfold Start. rewrite Hd.
  assert (Hgen : forall ws s, shutdown_closed s = true -> (done_closed s = true <-> 0 ∉ alive s) ->
    exists s1, exits false ws s = Some s1 /\ (done_closed s1 = true <-> done_closed s = true \/ 0 ∈ ws)).
  { clear. induction ws as [|i ws IH]; intros s Hs Hinv; simpl; [exists s; rewrite elem_of_nil; naive_solver|].
    destruct (worker_exit_ok false i s Hinv) as (s1 & -> & Hinv1 & Hs1 & Ha). simpl.
    destruct (IH s1) as (s2 & -> & Hd2); [congruence|done|]. exists s2. split; [done|].
    rewrite Hd2, Hinv1, (Ha Hs), Hinv, elem_of_cons. destruct (decide (0 = i)); naive_solver. }
  edestruct (Hgen ws) as (s1 & Hs1 & Hd1); [| |exists s1; split; [reflexivity|split; [exact Hs1|]]].
  - done.
  - simpl. split; [done|]. intros Hn. destruct Hn. apply elem_of_seq. lia.
  - unfold Stop_returns. rewrite Hd1. simpl. naive_solver.
Qed.

(** With a durable queue no worker runs: [Stop] waits forever. *)
Lemma durable_stop_hangs ctx_done ws (m : Manager) s0 s1 :
  durable m = true -> Stop_begin (Start m) = Some s0 -> exits ctx_done ws s0 = Some s1 -> Stop_returns s1 = false.
Proof.
  intros Hd. unfold Start. rewrite Hd. intros [= <-]. induction ws as [|i ws IH]; simpl; [by intros [= <-]|].
  exact IH.
Qed.

(** ** Ending the consumers *)

(** [errCh] of [RunConsumers] when the context is cancelled: the caller closes
    it, every consumer that sees the cancellation at the head of its loop sends
    on it; [None] is a panic. *)
Definition end_consumers (closed : bool) : option bool := if closed then None else Some true.
Definition consumer_exit (closed : bool) : option bool := if closed then None else Some false.

(** A consumer that notices the cancellation after the caller panics. *)
Lemma consumer_exit_panics : (end_consumers false ≫= consumer_exit) = None /\ (consumer_exit false ≫= end_consumers) = Some true.
Proof. done. Qed.

Module QueueWitnesses.
Definition msg (id : string) : Message := {| msg_ID := id; msg_Type := "scan"; msg_Input := ""; msg_Metadata := ∅ |}.

#[local] Instance Message_eq_dec : EqDecision Message.
Proof. solve_decision. Defined.

Lemma msg_id m raw : message_utf8 m -> (if bool_decide (m = msg (msg_ID m)) then Ok (msg_ID m) else @Err string string "") = Ok raw ->
  @Ok string Message (msg raw) = Ok m.
Proof. intros _. case_bool_decide as H; [|done]. intros [= <-]. by rewrite <-H. Qed.

(** Messages without input and metadata, encoded by their id. *)
#[local] Instance id_codec : JsonMessages := {|
  marshal m := if bool_decide (m = msg (msg_ID m)) then Ok (msg_ID m) else Err "";
  unmarshal raw := Ok (msg raw);
  unmarshal_marshal := msg_id;
|}.

Definition q0 : queue_state := queue_start ["old"] 2.
Definition q1 : queue_state := (Enqueue None (msg "b") (Enqueue None (msg "a") q0).2).2.
Definition q2 : queue_state := default q1 (read_group 1 q1).
(** The second consumer takes both messages; the handler fails on the first. *)
Definition q3 : queue_state := consume_entry 1 false false (with_hands [[]; [2]] q2).
Definition q4 : queue_state := consume_entry 2 true false (with_hands [[]; []] q3).

Lemma q1_reachable : rtc (queue_step false) q0 q1.
Proof.
  assert (Hu : forall id, ValidString id = true -> message_utf8 (msg id)) by (intros id ?; by split_and!; [| |apply map_Forall_empty]).
  eapply rtc_l; [exact (qs_enqueue _ None (msg "a") q0 (Hu "a" eq_refl))|].
  apply rtc_once, (qs_enqueue _ None (msg "b")). by apply Hu.
Qed.

Lemma q1_q4 : nsteps consumer_step 3 q1 q4.
Proof.
  eapply nsteps_l; [apply (cs_read 1 q1 q2); [reflexivity|reflexivity|discriminate]|].
  eapply nsteps_l; [exact (cs_entry 1 1 [2] false false q2 eq_refl)|].
  apply nsteps_once. exact (cs_entry 1 2 [] true false q3 eq_refl).
Qed.

Lemma q4_idle q : ~ consumer_step q4 q.
Proof.
  inversion 1 as [i q' q'' Hi Hr Hne|i k rest b f q' Hi]; subst.
  - apply Hne. destruct i as [|[|i]]; [| |done]; vm_compute in Hr |- *; injection Hr as <-; vm_compute; reflexivity.
  - by destruct i as [|[|i]].
Qed.

Lemma queue_delivery_witness : work q1 = 4 /\ [msg "a"; msg "b"] ⊆+ map (fun c => c.1.2) (calls q4).
Proof.
  split; [reflexivity|].
  destruct (queue_delivery false ["old"] 2 q1 q1_reachable) as (_ & _ & _ & Hrun).
  destruct (Hrun 3 q4 q1_q4) as [_ Hall]. exact (Hall eq_refl q4_idle).
Defined.

(** The first message was not handled and stays pending, yet no consumer has
    anything to do: it is never tried again. *)
Lemma failed_message_not_retried : pending q4 = {[1]} /\ called q4 = [1; 2] /\ forall q, ~ consumer_step q4 q.
Proof. split_and!; [vm_compute; reflexivity|reflexivity|exact q4_idle]. Qed.

(** After a restart the message of a job is delivered to a manager that does
    not know the job: nothing is done, and the message is acknowledged. *)
Lemma restart_loses_job :
  let m := RegisterProcessor "scan" (NewManager 2 true) in
  start_handler (msg "a") 5 m = (true, m) /\ Get "a" m = None.
Proof. vm_compute. done. Qed.
End QueueWitnesses.
