(* ===== verification/Server.v ===== *)
(** * Server: starting and stopping the gateway

    src/internal/interfaces/http/enforcer: serve.go, tls.go, toggles.go,
    server.go and the options of api_options.go, as the decisions they take
    from the environment: how the gateway listens, which guard its
    administration has, whether it is ready, and what a shutdown closes.  The
    network functions and the file system are the class [Host]; routing,
    tracing and the clients that are constructed are left out. *)

From Stdlib Require Import Ascii String.
From S2P Require Import Prelude GoString Unicode Verifiers Complexity Aho Literals Engine Compile Scanner Load ScanIO Rulesets Decisions Check Loader Config Http.

(** [net.SplitHostPort] (the host), [net.ParseIP] with [IsLoopback], [os.Stat],
    [os.ReadFile], and whether a text holds certificates. *)
Class Host := {
  SplitHostPort : string -> option string;
  ParseIP_IsLoopback : string -> option bool;
  Stat : string -> bool;
  ReadFile : string -> option string;
  AppendCertsFromPEM : string -> bool;
}.

Section Server.
Context `{PF : Platform}.

(** ** Toggles *)

Definition env_lower (key : string) : string := ToLower (TrimSpace (getenv key)).
Definition yes (v : string) : bool := bool_decide (v = "1") || bool_decide (v = "true") || bool_decide (v = "yes").

Definition metricsEnabled : bool := negb (yes (env_lower "PS_ENFORCER_DISABLE_METRICS")).
Definition tracingEnabled : bool := negb (yes (env_lower "PS_ENFORCER_DISABLE_TRACING")).
Definition fastMode : bool := yes (env_lower "PS_ENFORCER_FAST").
Definition envBool (key : string) : bool := yes (env_lower key) || bool_decide (env_lower key = "on").

(** The options of the administration endpoints. *)
Definition getAPIOptions : Options :=
  {| AdminToken := getenv "PS_ENFORCER_ADMIN_TOKEN"; AllowInsecureAdmin := envBool "PS_ENFORCER_ALLOW_INSECURE_ADMIN" |}.

(** ** TLS *)

Context `{HO : Host}.

Definition tlsMode : string :=
  let mode := env_lower "PS_ENFORCER_TLS_MODE" in
  if bool_decide (mode = "require") || bool_decide (mode = "disable") then mode else "auto".

Definition isLoopbackAddr (addr : string) : bool :=
  if HasPrefix ":" addr then false
  else
    let host := TrimSpace (default addr (SplitHostPort addr)) in
    if bool_decide (host = "") || bool_decide (host = "0.0.0.0") || bool_decide (host = "::") then false
    else if EqualFold host "localhost" then true
    else default false (ParseIP_IsLoopback host).

Fixpoint first_pair (ps : list (string * string)) : option (string * string) :=
  match ps with [] => None | p :: ps => if Stat p.1 && Stat p.2 then Some p else first_pair ps end.

Definition findTLSPair : option (string * string) :=
  let certFile := TrimSpace (getenv "PS_ENFORCER_TLS_CERT") in
  let keyFile := TrimSpace (getenv "PS_ENFORCER_TLS_KEY") in
  if negb (bool_decide (certFile = "")) && negb (bool_decide (keyFile = "")) then Some (certFile, keyFile)
  else first_pair [("/tls/server.crt", "/tls/server.key"); ("tls/server.crt", "tls/server.key")].

(** How the server listens; [Exits] is [os.Exit(1)]. *)
Inductive listener :=
  | PlainHTTP
  | HTTPS (certFile keyFile : string) (requireClientCert : bool)
  | Exits.

(** [startHTTPS]: client certificates are required when the configured CA file
    could be used; an error is only logged. *)
Definition client_auth : bool :=
  let clientCA := getenv "PS_ENFORCER_TLS_CLIENT_CA" in
  if bool_decide (clientCA = "") then false
  else match ValidateCAFilePath clientCA with
       | Some _ => false
       | None => match ReadFile clientCA with Some pem => AppendCertsFromPEM pem | None => false end
       end.
Definition startHTTPS (p : string * string) : listener := HTTPS p.1 p.2 client_auth.

(** The end of [Serve]. *)
Definition Serve (addr : string) : listener :=
  let mode := tlsMode in
  let nonLoop := negb (isLoopbackAddr addr) in
  if bool_decide (mode = "disable") then PlainHTTP
  else if bool_decide (mode = "require") then
    match findTLSPair with None => Exits | Some p => startHTTPS p end
  else if nonLoop then match findTLSPair with None => Exits | Some p => startHTTPS p end
  else match findTLSPair with Some p => startHTTPS p | None => PlainHTTP end.

(** An address the gateway treats as local binds to a loopback address. *)
Definition local_host (host : string) : Prop := EqualFold host "localhost" = true \/ ParseIP_IsLoopback host = Some true.

Lemma isLoopbackAddr_local addr :
  isLoopbackAddr addr = true -> HasPrefix ":" addr = false /\ local_host (TrimSpace (default addr (SplitHostPort addr))).
Proof.
  unfold isLoopbackAddr, local_host. destruct (HasPrefix _ _); [done|]. destruct (_ || _ || _); [done|].
  destruct (EqualFold _ _); [auto|]. destruct (ParseIP_IsLoopback _) as [[]|]; simpl; auto.
Qed.

(** ** Readiness *)

(** What [NewMuxWithOptions] finds out: [db] is [None] without a DSN, else
    whether the database answered. *)
Definition dbHealthy (db : option bool) : bool := default true db.

(** [PS_ENFORCER_MODE] after start-up: an unreachable database switches to
    observe mode. *)
Definition mode_after (db : option bool) : string :=
  if dbHealthy db then getenv "PS_ENFORCER_MODE" else "observe".
Definition env_after (db : option bool) (key : string) : string :=
  if bool_decide (key = "PS_ENFORCER_MODE") then mode_after db else getenv key.

Definition readyz (db : option bool) (s : Set') : bool :=
  dbHealthy db && (negb (bool_decide (set_packs s = [])) || negb (envBool "PS_REQUIRE_RULEPACK_AT_STARTUP")).

Definition max_stream_bytes : Z :=
  let v := getenv "PS_ENFORCER_MAX_STREAM_BYTES" in
  if bool_decide (v = "") then 0
  else match ParseInt v with Some n => if (0 <? n)%Z then n else 0 | None => 0 end.

(** ** Shutdown *)

Inductive closing := CloseAudit | CloseUsage | CloseDatabase | StopServer (ctx_done : bool).

(** [OnShutdown]: with a delay it waits for the timer or the context, whichever
    is first. *)
Definition OnShutdown (audit usage db : bool) (ctx_done : bool) (delay : Z) : result string (list closing) :=
  if (0 <? delay)%Z && ctx_done then Err "context canceled"
  else Ok ((if audit then [CloseAudit] else []) ++ (if usage then [CloseUsage] else []) ++
           (if db then [CloseDatabase] else []) ++ [StopServer ctx_done]).

(** C27. The gateway is not exposed by default.  It listens without TLS only when
    TLS was disabled explicitly or the address is a host name or an address of
    the loopback interface, never on all interfaces; with TLS it uses the
    configured or the mounted pair of files, and requires client certificates
    exactly when the configured CA file is acceptable, readable and holds
    certificates; it refuses to start only when there is no pair.  Unless a
    token is configured or insecure administration is enabled, no request
    passes the guard of the administration endpoints. *)
Theorem gateway_not_exposed (addr : string) :
  match Serve addr with
  | PlainHTTP => tlsMode = "disable" \/
      HasPrefix ":" addr = false /\ local_host (TrimSpace (default addr (SplitHostPort addr)))
  | HTTPS certFile keyFile requireClientCert =>
      findTLSPair = Some (certFile, keyFile) /\
      (requireClientCert = true <-> exists pem, let ca := getenv "PS_ENFORCER_TLS_CLIENT_CA" in
         ca <> "" /\ ValidateCAFilePath ca = None /\ ReadFile ca = Some pem /\ AppendCertsFromPEM pem = true)
  | Exits => findTLSPair = None /\ (tlsMode = "require" \/ isLoopbackAddr addr = false)
  end /\
  forall A S (r : HttpRequest) (next : S -> Reply A * S) (s : S),
    getenv "PS_ENFORCER_ADMIN_TOKEN" = "" -> envBool "PS_ENFORCER_ALLOW_INSECURE_ADMIN" = false ->
    adminAuth getAPIOptions r next s = (Failure 401 "UNAUTHORIZED", s).
Proof.
  assert (Hauth : client_auth = true <-> exists pem, let ca := getenv "PS_ENFORCER_TLS_CLIENT_CA" in
    ca <> "" /\ ValidateCAFilePath ca = None /\ ReadFile ca = Some pem /\ AppendCertsFromPEM pem = true).
  { unfold client_auth. set (ca := getenv _). case_bool_decide as Hca; [naive_solver|].
    destruct (ValidateCAFilePath ca); [naive_solver|]. destruct (ReadFile ca) as [pem|]; naive_solver. }
  split.
  - unfold Serve, startHTTPS. case_bool_decide as Hd; [by left|].
    case_bool_decide as Hr; [destruct findTLSPair as [[c k]|]; auto|].
    destruct (isLoopbackAddr addr) eqn:El; simpl; destruct findTLSPair as [[c k]|]; auto.
    right. by apply isLoopbackAddr_local.
  - intros A S r next s Ht Hi. unfold adminAuth. simpl. by rewrite Ht, Hi.
Qed.

(** A CA file that cannot be used is ignored: clients are not authenticated,
    although it was configured. *)
Lemma client_auth_dropped :
  ReadFile (getenv "PS_ENFORCER_TLS_CLIENT_CA") = None -> client_auth = false.
Proof. unfold client_auth. intros ->. case_bool_decide; [done|]. by destruct (ValidateCAFilePath _). Qed.

(** When the database does not answer at start-up the gateway no longer
    enforces, whatever mode was configured, and reports that it is not ready. *)
Lemma database_outage_observes s :
  @enforcing {| getenv := env_after (Some false); ParseDuration := @ParseDuration PF |} = false /\ readyz (Some false) s = false.
Proof.
  split; [|done]. unfold enforcing, enforcement_mode. simpl. unfold env_after. simpl. vm_compute. reflexivity.
Qed.

(** A delayed shutdown whose context ends with the request does nothing. *)
Lemma delayed_shutdown_cancelled a u d delay : (0 < delay)%Z -> OnShutdown a u d true delay = Err "context canceled".
Proof. intros Hd. unfold OnShutdown. by rewrite (proj2 (Z.ltb_lt 0 delay) Hd). Qed.

(** The database is closed before the server stops taking requests. *)
Lemma database_closed_first a u ctx_done :
  exists pre, OnShutdown a u true ctx_done 0 = Ok (pre ++ [CloseDatabase; StopServer ctx_done]).
Proof. exists ((if a then [CloseAudit] else []) ++ (if u then [CloseUsage] else [])). unfold OnShutdown. simpl. by rewrite <-(assoc_L (++)). Qed.
End Server.

Module ServerWitnesses.
#[local] Existing Instance bare_platform.

(** One loopback address, and a pair of files in the default place. *)
#[local] Instance lab : Host := {|
  SplitHostPort a := match SplitByte ":" a with [h; _] => Some h | _ => None end;
  ParseIP_IsLoopback h := if bool_decide (h = "127.0.0.1") then Some true else if bool_decide (h = "10.0.0.1") then Some false else None;
  Stat f := bool_decide (f ∈ ["/tls/server.crt"; "/tls/server.key"]);
  ReadFile _ := None;
  AppendCertsFromPEM _ := false;
|}.

Lemma gateway_not_exposed_witness :
  (Serve ":8080", isLoopbackAddr "127.0.0.1:80", isLoopbackAddr "10.0.0.1:80")
    = (HTTPS "/tls/server.crt" "/tls/server.key" false, true, false) /\
  adminAuth getAPIOptions (request "POST" "/" [] [] [] "") (fun s : nat => (Answer 200 tt, S s)) 0 = (Failure 401 "UNAUTHORIZED", 0).
Proof.
  split; [vm_compute; reflexivity|].
  apply (proj2 (gateway_not_exposed ":8080")); vm_compute; reflexivity.
Defined.
End ServerWitnesses.
