(* ===== verification/SystemApi.v ===== *)
(** * SystemApi: diagnostics, administration and metrics

    src/internal/interfaces/http/api: system.go, admin_routes.go,
    active_rules.go and metrics_summary.go; build information, stack traces and
    memory statistics are in [Diagnostics].  The format of times is left out; memory sizes are compared in bytes, which
    is exact because they are divided by powers of two.  The order in which Go
    ranges over the components is any order; the samples of the metrics
    registry are arguments. *)

From Stdlib Require Import Ascii String.
From Stdlib Require Import Floats.SpecFloat.
From S2P Require Import Prelude GoString Unicode Rules Merge Verifiers Complexity Aho Literals Engine Compile Scanner Load ScanIO Rulesets Decisions Check Http Hub Server.

(** ** Features *)

(** Which optional dependencies [Options] has. *)
Record dependencies := { has_tenants : bool; has_audit : bool; has_usage : bool; has_quota : bool }.

Record SystemFeatures := {
  AsyncJobs : bool;
  L3Semantic : bool;
  TenantManagement : bool;
  AuditLogging : bool;
  UsageTracking : bool;
  QuotaManagement : bool;
}.

Definition getFeaturesHandler (d : dependencies) : Reply SystemFeatures :=
  Answer 200 {| AsyncJobs := true; L3Semantic := true; TenantManagement := has_tenants d; AuditLogging := has_audit d;
                UsageTracking := has_usage d; QuotaManagement := has_quota d |}.

(** ** Drain and shutdown *)

(** The calls of the hooks: a context that is the request's is over when the
    answer has been sent. *)
Inductive hook := Drain (request_ctx : bool) | Shutdown (request_ctx : bool) (delay : Z).

(** [time.Duration(seconds) * time.Second]. *)
Definition delay_of (r : HttpRequest) : Z :=
  let v := Query r "delay" in
  if bool_decide (v = "") then 0
  else match Atoi v with Some n => if (0 <=? n)%Z then wrap64 (n * 1000000000) else 0 | None => 0 end.

Definition drainSystemHandler (onDrain : bool) (hooks : list hook) : Reply unit * list hook :=
  (Answer 202 tt, if onDrain then hooks ++ [Drain true] else hooks).

(** The answer has the delay in seconds when it is positive. *)
Definition shutdownSystemHandler (onShutdown : bool) (r : HttpRequest) (hooks : list hook) : Reply (option Z) * list hook :=
  let delay := delay_of r in
  (Answer 202 (if (0 <? delay)%Z then Some (Z.quot delay 1000000000) else None),
   if onShutdown then hooks ++ [Shutdown false delay] else hooks).

(** [/admin/drain] and [/admin/shutdown]. *)
Definition admin_drain (onDrain : bool) (hooks : list hook) : Reply unit * list hook := drainSystemHandler onDrain hooks.
Definition admin_shutdown (onShutdown : bool) (r : HttpRequest) (hooks : list hook) : Reply unit * list hook :=
  (Answer 202 tt, if onShutdown then hooks ++ [Shutdown true (delay_of r)] else hooks).

(** ** Status *)

Inductive health := Healthy | Degraded | Unhealthy.
#[export] Instance health_eq_dec : EqDecision health.
Proof. solve_decision. Defined.

(** The database check: [None] without a repository, else whether the query
    succeeded. *)
Definition database_status (db : option bool) : option health := (fun ok : bool => if ok then Healthy else Unhealthy) <$> db.

Definition memory_status (alloc : Z) : health :=
  let s := if (1000 * 1024 * 1024 <? alloc)%Z then Degraded else Healthy in
  if (2000 * 1024 * 1024 <? alloc)%Z then Unhealthy else s.

Definition goroutine_status (n : Z) : health :=
  let s := if (1000 <? n)%Z then Degraded else Healthy in
  if (5000 <? n)%Z then Unhealthy else s.

Definition components (db : option bool) (alloc n : Z) : gmap string health :=
  let c := <["goroutines"%string := goroutine_status n]> (<["memory"%string := memory_status alloc]> ∅) in
  match database_status db with Some s => <["database"%string := s]> c | None => c end.

(** The loop over the components, which stops at the first unhealthy one. *)
Fixpoint overall_loop (overall : health) (cs : list health) : health :=
  match cs with
  | [] => overall
  | c :: cs =>
    if bool_decide (c = Unhealthy) then Unhealthy
    else if bool_decide (c = Degraded) && bool_decide (overall = Healthy) then overall_loop Degraded cs
    else overall_loop overall cs
  end.

Definition status_code (s : health) : Z := match s with Healthy => 200 | Degraded => 206 | Unhealthy => 503 end.

(** [getSystemStatusHandler], for the order in which the components are visited. *)
Definition getSystemStatusHandler (order : list health) (db : option bool) (alloc n : Z) : Reply (health * gmap string health) :=
  let overall := overall_loop Healthy order in
  Answer (status_code overall) (overall, components db alloc n).

(** [getHealthCheckHandler]: the status and the components. *)
Definition getHealthCheckHandler (d : dependencies) (db : option bool) : Reply (health * gmap string health) :=
  let c := match database_status db with Some s => <["database"%string := s]> ∅ | None => ∅ end in
  let c := if has_usage d then <["usage_store"%string := Healthy]> c else c in
  let c := if has_quota d then <["quota_store"%string := Healthy]> c else c in
  Answer 200 (match db with Some false => Degraded | _ => Healthy end, c).

(** ** The worst component decides *)

Definition worst (a b : health) : health :=
  match a, b with Unhealthy, _ | _, Unhealthy => Unhealthy | Degraded, _ | _, Degraded => Degraded | _, _ => Healthy end.

Lemma overall_worst o cs : o <> Unhealthy -> overall_loop o cs = foldr worst o cs.
Proof.
  revert o. induction cs as [|c cs IH]; intros o Ho; simpl; [done|].
  assert (Hd : foldr worst Degraded cs = worst Degraded (foldr worst Healthy cs)).
  { clear. induction cs as [|c cs IH]; [done|]. simpl. rewrite IH. by destruct c, (foldr worst Healthy cs). }
  destruct c; simpl; rewrite ?bool_decide_true, ?bool_decide_false by done.
  - rewrite IH by done. by destruct (foldr worst o cs).
  - destruct o; simpl; [rewrite IH by done; done || by rewrite Hd|rewrite IH by done; rewrite Hd; by destruct (foldr worst Healthy cs)|done].
  - by destruct (foldr worst o cs).
Qed.

Lemma worst_perm cs cs' : cs ≡ₚ cs' -> foldr worst Healthy cs = foldr worst Healthy cs'.
Proof.
  induction 1 as [|c cs cs' _ IH|a b cs|cs cs' cs'' _ IH1 _ IH2]; simpl; [done|by rewrite IH| |by rewrite IH1].
  destruct a, b, (foldr worst Healthy cs); done.
Qed.

(** The status does not depend on the order in which the map is visited: it is
    the worst of the components. *)
Lemma system_status_worst order db alloc n :
  order ≡ₚ (map_to_list (components db alloc n)).*2 ->
  getSystemStatusHandler order db alloc n =
    let w := worst (from_option (fun ok : bool => if ok then Healthy else Unhealthy) Healthy db)
                   (worst (memory_status alloc) (goroutine_status n)) in
    Answer (status_code w) (w, components db alloc n).
Proof.
  intros Hp. unfold getSystemStatusHandler. rewrite overall_worst, (worst_perm _ _ Hp) by done.
  assert (Hc : foldr worst Healthy (map_to_list (components db alloc n)).*2 =
    worst (from_option (fun ok : bool => if ok then Healthy else Unhealthy) Healthy db) (worst (memory_status alloc) (goroutine_status n))).
  { unfold components, database_status.
    assert (Hmg : (map_to_list (<["goroutines"%string := goroutine_status n]> (<["memory"%string := memory_status alloc]> (∅ : gmap string health)))).*2
      ≡ₚ [goroutine_status n; memory_status alloc]).
    { rewrite !map_to_list_insert by done. by rewrite map_to_list_empty. }
    destruct db as [b|]; simpl.
    - rewrite (worst_perm _ ((if b then Healthy else Unhealthy) :: [goroutine_status n; memory_status alloc])).
      + simpl. destruct b, (goroutine_status n), (memory_status alloc); done.
      + rewrite map_to_list_insert by done. simpl. by rewrite Hmg.
    - rewrite (worst_perm _ _ Hmg). simpl. destruct (goroutine_status n), (memory_status alloc); done. }
  by rewrite Hc.
Qed.

(** [getSystemStatsHandler] reports no counters: the decisions by kind, the
    latency, the requests and the errors. *)
Definition getSystemStatsHandler : Reply (gmap string Z * Z * Z * Z) :=
  Answer 200 (list_to_map [("allow"%string, 0%Z); ("deny"%string, 0%Z); ("quarantine"%string, 0%Z)], 0%Z, 0%Z, 0%Z).

(** ** The active rules *)

Section Rules.
Context {D : Type} (rules_reloaded : Z -> Z -> D).

Definition activeRulesSnapshot (set : option Set') : Snapshot' :=
  match set with
  | None => {| snap_Source := ""; snap_LoadedAt := 0; snap_Generation := 0; snap_RuleCount := 0; snap_Packs := [] |}
  | Some s => Snapshot s
  end.

(** [POST /rules/reload], given the loader. *)
Definition post_rules_reload (load : string -> result string (list RulePack)) (now : Z) (set : option Set') (hub : EventHub (D := D)) :
    Reply Snapshot' * option Set' * EventHub (D := D) :=
  match set with
  | None => (Failure 409 "RULES_NOT_CONFIGURED", None, hub)
  | Some s =>
    match Reload load now s with
    | (Err ErrNoSource, s) => (Failure 409 "RULES_NOT_CONFIGURED", Some s, hub)
    | (Err _, s) => (Failure 422 "RULEPACK_INVALID", Some s, hub)
    | (Ok _, s) =>
      let snap := Snapshot s in
      (Answer 200 snap, Some s,
       Hub.Publish {| ev_Type := "rules_reloaded"; ev_Data := rules_reloaded (snap_Generation snap) (snap_RuleCount snap); ev_Time := None |} hub)
    end
  end.

(** A reload that fails keeps the active rules and tells nobody; one that
    succeeds activates what was loaded, under the next generation, and announces
    exactly what it answers. *)
Lemma rules_reload_effect load now set hub :
  match post_rules_reload load now set hub with
  | (Failure _ _, set', hub') => set' = set /\ hub' = hub
  | (Answer st snap, set', hub') =>
    exists s packs, st = 200%Z /\ set = Some s /\ load (set_path s) = Ok packs /\ set' = Some (commit packs now s) /\
      snap = activeRulesSnapshot set' /\ snap_Generation snap = wrap64 (set_generation s + 1) /\
      hub' = Hub.Publish {| ev_Type := "rules_reloaded"; ev_Data := rules_reloaded (snap_Generation snap) (snap_RuleCount snap); ev_Time := None |} hub
  end.
Proof.
  unfold post_rules_reload, Reload. destruct set as [s|]; [|done]. case_bool_decide as Hp; [done|].
  destruct (load (set_path s)) as [packs|e] eqn:El; [|done]. exists s, packs. split_and!; try done.
  unfold Snapshot. by destruct (foldl _ _ _).
Qed.
End Rules.

(** ** Metrics *)

(** A histogram: its buckets, with their upper bound in seconds and the
    cumulative count. *)
Notation histogram := (list (spec_float * Z)).

Definition add_decision (m : gmap string Z) (s : string * Z) : gmap string Z :=
  if bool_decide (s.1 = "") then m else <[s.1 := (default 0 (m !! s.1) + s.2)%Z]> m.

(** The first bucket at which the running sum reaches the threshold. *)
Fixpoint p95_bucket (threshold : spec_float) (cum : Z) (bs : histogram) : spec_float :=
  match bs with
  | [] => float_of_int 0
  | (upper, n) :: bs =>
    let cum := (cum + n)%Z in
    if negb (float_less (float_of_int cum) threshold) then float_mul upper (float_of_int 1000)
    else p95_bucket threshold cum bs
  end.

Definition histogram_p95 (bs : histogram) : option spec_float :=
  let total := foldl (fun t b => (t + b.2)%Z) 0%Z bs in
  if (total =? 0)%Z then None
  else let x := p95_bucket (float_mul (float_of_int total) p95) 0 bs in
       if float_less (float_of_int 0) x then Some x else None.

(** [statsHandler]: the decisions by kind and the latency of the first
    histogram that has one. *)
Definition statsHandler (decisions : list (string * Z)) (durations : list histogram) : gmap string Z * spec_float :=
  (foldl add_decision ∅ decisions, default (float_of_int 0) (head (omap histogram_p95 durations))).

(** [usageHandler]: the decisions, and the bytes of the first series. *)
Definition usageHandler (decisions : list (string * Z)) (bytes : list Z) : Z * Z :=
  (foldl (fun t d => (t + d.2)%Z) 0%Z decisions, default 0%Z (head bytes)).

Module SystemWitnesses.
Definition sec (num : BinNums.positive) (e : Z) : spec_float := binary_normalize 53 1024 (Z.pos num) e false.

(** 95 of 100 requests took at most an eighth of a second; the counts, which
    are cumulative, are added up again, and the answer is 8 seconds. *)
Lemma p95_of_sums :
  (statsHandler [] [[(sec 1 (-3), 95%Z); (sec 1 0, 95%Z); (sec 1 3, 100%Z)]]).2 = float_of_int 8000.
Proof. vm_compute. reflexivity. Qed.

(** [/admin/shutdown] with a delay: the context of the hook ends with the
    request, and nothing is shut down; [/admin/system/shutdown] does it. *)
Definition delayed : HttpRequest := request "POST" "" [] [("delay", "5")] [] "".
Definition shuts_down (hs : list hook) : list bool :=
  map (fun h => match h with
                | Shutdown request_ctx delay => is_ok (OnShutdown true false true request_ctx delay)
                | Drain _ => true
                end) hs.
Lemma delayed_shutdown_lost :
  (shuts_down (admin_shutdown true delayed []).2, shuts_down (shutdownSystemHandler true delayed []).2) = ([false], [true]).
Proof. vm_compute. reflexivity. Qed.

(** A large delay overflows: the shutdown is immediate. *)
Lemma delay_overflows :
  (delay_of (request "POST" "" [] [("delay", "9223372037")] [] "") < 0)%Z.
Proof. vm_compute. reflexivity. Qed.

Lemma worst_of_components :
  getSystemStatusHandler [Healthy; Degraded; Unhealthy] (Some false) 0 2000 =
  Answer 503 (Unhealthy, components (Some false) 0 2000).
Proof. vm_compute. reflexivity. Qed.
End SystemWitnesses.
