(* ===== verification/RulepacksApi.v ===== *)
(** * RulepacksApi: the rule pack endpoints

    src/internal/interfaces/http/api/rulepacks.go over the rule pack service
    ([RulepackSvc]), behind [adminAuth] where the routes are.  Identifiers,
    times and the cancellation of a request are drawn per request ([draw]);
    [uuid.Parse] and the JSON decoder are arguments.  The store of idempotency
    keys is part of the state; uploads, which look into it, create the pack,
    upload its text and write to it one after the other, are also steps that
    interleave with those of other requests. *)

From Stdlib Require Import Ascii String.
From S2P Require Import Prelude GoString Unicode Rules Merge Verifiers Complexity Aho Literals Engine Compile Scanner Load Loader Validate Repos RulepackSvc Redact Http.

Record RulepackMeta := {
  meta_ID : string;
  meta_Name : string;
  meta_Version : string;
  meta_Source : string;
  meta_Active : bool;
}.

Definition meta0 : RulepackMeta :=
  {| meta_ID := ""; meta_Name := ""; meta_Version := ""; meta_Source := ""; meta_Active := false |}.

(** What a request draws: the identifiers of a pack and of a version, the
    time, and the error of its context if it is cancelled while it waits. *)
Record draw := {
  d_pack : uuid;
  d_version : uuid;
  d_now : Z;
  d_cancelled : option string;
}.

Definition defaultTenantID : uuid := "00000000-0000-0000-0000-000000000001".

Section Api.
Context `{RS : RegexpSyntax, RE : RegexpEngine, LL : LruLib, PF : Platform, SL : SchemaLib, SR : Sources}.
Context `{RepoI : RulepackRepo, DG : Digest}.
Context (uuid_Parse : string -> option uuid) (decode_id : string -> string).

Record api := {
  service : RulepackService;
  idempotencyStore : gmap string RulepackMeta;
}.

Definition with_service (s : RulepackService) (a : api) : api :=
  {| service := s; idempotencyStore := idempotencyStore a |}.

Definition meta_of (i : RulepackInfo) : RulepackMeta :=
  {| meta_ID := info_ID i; meta_Name := info_Name i; meta_Version := Itoa (info_Version i); meta_Source := "";
     meta_Active := info_Active i |}.

(** GET /rulepacks and GET /rulepacks/active. *)
Definition get_rulepacks (a : api) : Reply (list RulepackMeta) :=
  match repo_ListByTenant defaultTenantID (svc_repo (service a)) with
  | Err _ => Failure 500 "INTERNAL_ERROR"
  | Ok l => Answer 200 (map meta_of l)
  end.

Definition get_active (a : api) : Reply RulepackMeta :=
  match repo_ListByTenant defaultTenantID (svc_repo (service a)) with
  | Err _ => Failure 500 "INTERNAL_ERROR"
  | Ok l => Answer 200 match filter (fun i => info_Active i = true) l with i :: _ => meta_of i | [] => meta0 end
  end.

(** POST /rulepacks/validate. *)
Definition post_validate (r : HttpRequest) (a : api) : Reply (bool * list dsl_error) * api :=
  (Answer 200 (ValidateDSL (RawBody r)), a).

(** The text of an upload: the field [file] of a form, or the body. *)
Definition upload_data (r : HttpRequest) : result string string :=
  if HasPrefix "multipart/form-data" (Headers r "content-type") then
    match FormFile r with
    | Err _ => Err "invalid multipart form"
    | Ok None => Err "missing file"
    | Ok (Some data) => Ok data
    end
  else Ok (RawBody r).

(** The status and code of an error of [Create]. *)
Definition create_failure {A} (e : svc_error) : Reply A :=
  match e with
  | NameExists _ => Failure 409 "ALREADY_EXISTS"
  | _ => Failure 500 "INTERNAL_ERROR"
  end.

(** Uploading the first version of a pack. *)
Definition upload_first (d : draw) (packID : uuid) (pack : RulePack) (data source : string) (activate : bool) (a : api) :
    Reply RulepackMeta * api :=
  match Upload (d_cancelled d) (d_version d) (d_now d) defaultTenantID packID 1 data activate (service a) with
  | (_, Some _, s) => (Failure 500 "INTERNAL_ERROR", with_service s a)
  | (_, None, s) =>
    (Answer 201 {| meta_ID := packID; meta_Name := rp_Name pack; meta_Version := Itoa 1; meta_Source := source;
                   meta_Active := activate |}, with_service s a)
  end.

(** Creating a pack and uploading its first version, as POST /rulepacks and
    POST /rulepacks/reload both do. *)
Definition store_pack (d : draw) (pack : RulePack) (data source : string) (activate : bool) (a : api) :
    Reply RulepackMeta * api :=
  match Create (d_pack d) (d_now d) defaultTenantID (rp_Name pack) (md_Description (rp_Metadata pack)) (service a) with
  | (Err e, s) => (create_failure e, with_service s a)
  | (Ok packID, s) => upload_first d packID pack data source activate (with_service s a)
  end.

(** [idempotencyStore.Store], for a request with a key. *)
Definition remember (key : string) (m : RulepackMeta) (a : api) : api :=
  if bool_decide (key = "") then a
  else {| service := service a; idempotencyStore := <[key := m]> (idempotencyStore a) |}.

(** [idempotencyStore.Load], for a request with a key. *)
Definition recall (key : string) (a : api) : option RulepackMeta :=
  if bool_decide (key = "") then None else idempotencyStore a !! key.

(** POST /rulepacks once no stored answer was found. *)
Definition upload_pack (d : draw) (r : HttpRequest) (a : api) : Reply RulepackMeta * api :=
  let key := Headers r "Idempotency-Key" in
  match upload_data r with
  | Err _ => (Failure 400 "INVALID_ARGUMENT", a)
  | Ok data =>
    match ParseDSL data with
    | Err _ => (Failure 400 "INVALID_ARGUMENT", a)
    | Ok pack =>
      match store_pack d pack data (rp_SourcePath pack) (bool_decide (Query r "activate" = "true")) a with
      | (Answer st m, a) => (Answer st m, remember key m a)
      | (f, a) => (f, a)
      end
    end
  end.

(** The handler with nothing in between. *)
Definition post_rulepacks (d : draw) (r : HttpRequest) (a : api) : Reply RulepackMeta * api :=
  match recall (Headers r "Idempotency-Key") a with
  | Some m => (Answer 200 m, a)
  | None => upload_pack d r a
  end.

(** POST /rulepacks/reload answers 200. *)
Definition post_reload (d : draw) (r : HttpRequest) (a : api) : Reply RulepackMeta * api :=
  let path := if bool_decide (Query r "path" = "") then getenv "PS_ENFORCER_RULEPACK" else Query r "path" in
  if bool_decide (path = "") then (Failure 400 "INVALID_ARGUMENT", a)
  else match ReadFile path with
       | Err _ => (Failure 400 "INVALID_ARGUMENT", a)
       | Ok data =>
         match ParseDSL data with
         | Err _ => (Failure 400 "INVALID_ARGUMENT", a)
         | Ok pack =>
           match store_pack d pack data path true a with
           | (Answer _ m, a) => (Answer 200 m, a)
           | (f, a) => (f, a)
           end
         end
       end.

(** The version number between quotes. *)
Definition etag (version : Z) : string := q +:+ Itoa version +:+ q.

(** The version [GetActive] returns, 0 with an error. *)
Definition current_version (packID : uuid) (a : api) : Z :=
  match repo_GetActive packID (svc_repo (service a)) with Ok (_, v) => v | Err _ => 0%Z end.

(** PUT /rulepacks/active up to the check of If-Match. *)
Definition put_active_check (r : HttpRequest) (a : api) : result (Reply (RulepackMeta * string)) uuid :=
  let ifMatch := Headers r "If-Match" in
  let id := decode_id (RawBody r) in
  if bool_decide (id = "") then Err (Failure 400 "INVALID_ARGUMENT")
  else match uuid_Parse id with
       | None => Err (Failure 400 "INVALID_ARGUMENT")
       | Some packID =>
         if bool_decide (ifMatch = "") then Err (Failure 428 "PRECONDITION_REQUIRED")
         else if negb (bool_decide (ifMatch = "*")) && negb (bool_decide (ifMatch = etag (current_version packID a)))
              then Err (Failure 412 "PRECONDITION_FAILED")
         else Ok packID
       end.

(** The rest of the handler: the pack with its new ETag. *)
Definition put_active_commit (d : draw) (packID : uuid) (a : api) : Reply (RulepackMeta * string) * api :=
  match ActivateLatest (d_cancelled d) defaultTenantID packID (service a) with
  | (Some _, s) => (Failure 500 "INTERNAL_ERROR", with_service s a)
  | (None, s) =>
    let a := with_service s a in
    match repo_ListByTenant defaultTenantID (svc_repo (service a)) with
    | Err _ => (Failure 500 "INTERNAL_ERROR", a)
    | Ok l =>
      match filter (fun i => info_ID i = packID /\ info_Active i = true) l with
      | i :: _ => (Answer 200 (meta_of i, etag (info_Version i)), a)
      | [] => (Failure 404 "NOT_FOUND", a)
      end
    end
  end.

Definition put_active (d : draw) (r : HttpRequest) (a : api) : Reply (RulepackMeta * string) * api :=
  match put_active_check r a with
  | Err f => (f, a)
  | Ok packID => put_active_commit d packID a
  end.

(** DELETE /rulepacks/{id}. *)
Definition delete_rulepack (r : HttpRequest) (a : api) : Reply unit * api :=
  match uuid_Parse (URLParam r "id") with
  | None => (Failure 400 "INVALID_ARGUMENT", a)
  | Some packID =>
    match Delete defaultTenantID packID (service a) with
    | (Some _, s) => (Failure 500 "INTERNAL_ERROR", with_service s a)
    | (None, s) => (Answer 204 tt, with_service s a)
    end
  end.

(** ** The routes that change something *)

Inductive api_request :=
  | PostRulepacks (d : draw) (r : HttpRequest)
  | PostReload (d : draw) (r : HttpRequest)
  | PutActive (d : draw) (r : HttpRequest)
  | DeleteRulepack (r : HttpRequest).

Definition request_of (q : api_request) : HttpRequest :=
  match q with PostRulepacks _ r | PostReload _ r | PutActive _ r | DeleteRulepack r => r end.

(** A handler behind [adminAuth]: the status of the answer and the new state. *)
Definition guarded {A} (opt : Options) (r : HttpRequest) (next : api -> Reply A * api) (a : api) : Z * api :=
  let '(x, a) := adminAuth opt r next a in (StatusOf x, a).

Definition serve_api (opt : Options) (q : api_request) (a : api) : Z * api :=
  match q with
  | PostRulepacks d r => guarded opt r (post_rulepacks d r) a
  | PostReload d r => guarded opt r (post_reload d r) a
  | PutActive d r => guarded opt r (put_active d r) a
  | DeleteRulepack r => guarded opt r (delete_rulepack r) a
  end.

(** ** Errors of the client change nothing *)

Lemma with_service_same a : with_service (service a) a = a.
Proof. by destruct a. Qed.

Lemma with_repo_same (s : RulepackService) : with_repo (svc_repo s) s = s.
Proof. by destruct s. Qed.

(** [Create] that fails leaves the service as it was. *)
Lemma Create_fails id now t n desc s e s' : Create id now t n desc s = (Err e, s') -> s' = s.
Proof.
  unfold Create. destruct (repo_ListByTenant t (svc_repo s)); [|by intros [= _ <-]].
  destruct (existsb _ _); [by intros [= _ <-]|].
  destruct (repo_Create id t n desc now (svc_repo s)) as [[id'|e'] r] eqn:E; [done|].
  apply repo_Create_fails in E as ->. rewrite with_repo_same. destruct e'; by intros [= _ <-].
Qed.

(** The outcomes of [store_pack]. *)
Lemma store_pack_cases d pack data src act a x a' :
  store_pack d pack data src act a = (x, a') ->
  idempotencyStore a' = idempotencyStore a /\
  ((x = Failure 409 "ALREADY_EXISTS" /\ a' = a) \/ x = Failure 500 "INTERNAL_ERROR" \/
   (exists m, x = Answer 201 m /\ meta_Name m = rp_Name pack /\ meta_Active m = act /\
      (act = true -> repo_GetActive (meta_ID m) (svc_repo (service a')) = Ok (repo_dsl data, 1%Z)))).
Proof.
  unfold store_pack, upload_first. destruct (Create _ _ _ _ _ _) as [[p|e] s] eqn:Ec.
  - unfold Upload. cbn [service with_service].
    destruct (repo_CreateVersion _ _ _ _ _ _ _ _) as [[v|e] r] eqn:Ev; [|by intros [= <- <-]; simpl; auto].
    destruct act; [|by intros [= <- <-]; simpl; split; [done|]; right; right; eexists; done].
    destruct (canaryDelay _); [by intros [= <- <-]; simpl; auto|].
    change (svc_repo (with_repo r s)) with r.
    destruct (repo_Activate p v r) as [[[]|e] r'] eqn:Ea; [|by intros [= <- <-]; simpl; auto].
    intros [= <- <-]. split; [done|]. right; right. eexists. split_and!; [done..|]. intros _. simpl.
    unfold publish. destruct (svc_pub _); by eapply repo_Activate_active.
  - apply Create_fails in Ec as ->. rewrite with_service_same. intros [= <- <-]. split; [done|].
    destruct e; simpl; auto.
Qed.

Lemma upload_pack_cases d r a x a' :
  upload_pack d r a = (x, a') ->
  (succeeded x = false /\ idempotencyStore a' = idempotencyStore a /\
     ((400 <= StatusOf x < 500)%Z -> a' = a)) \/
  (exists m, x = Answer 201 m /\ idempotencyStore a' = idempotencyStore (remember (Headers r "Idempotency-Key") m a)).
Proof.
  unfold upload_pack. destruct (upload_data r) as [data|]; [|by intros [= <- <-]; left].
  destruct (ParseDSL data) as [pack|]; [|by intros [= <- <-]; left].
  destruct (store_pack _ _ _ _ _ _) as [y b] eqn:E.
  destruct (store_pack_cases _ _ _ _ _ _ _ _ E) as [Hi [[-> ->]|[->|(m & -> & _)]]]; intros [= <- <-].
  - by left.
  - left. split_and!; [done|done|simpl; lia].
  - right. exists m. split; [done|]. unfold remember. clear E. case_bool_decide; simpl; by rewrite Hi.
Qed.

(** ** Concurrent uploads *)

(** An upload past the look into the store: it has to create its pack, to
    upload the text, and to store its answer. *)
Inductive flight :=
  | Missed (d : draw) (r : HttpRequest)
  | Created (d : draw) (r : HttpRequest) (pack : RulePack) (data : string) (packID : uuid)
  | Uploaded (r : HttpRequest) (m : RulepackMeta).

Definition key_of (r : HttpRequest) : string := Headers r "Idempotency-Key".
Definition activates (r : HttpRequest) : bool := bool_decide (Query r "activate" = "true").
Definition flight_request (f : flight) : HttpRequest :=
  match f with Missed _ r | Created _ r _ _ _ | Uploaded r _ => r end.

(** The next step of an upload, or its answer. *)
Definition advance (f : flight) (a : api) : (flight + Reply RulepackMeta) * api :=
  match f with
  | Missed d r =>
    match upload_data r with
    | Err _ => (inr (Failure 400 "INVALID_ARGUMENT"), a)
    | Ok data =>
      match ParseDSL data with
      | Err _ => (inr (Failure 400 "INVALID_ARGUMENT"), a)
      | Ok pack =>
        match Create (d_pack d) (d_now d) defaultTenantID (rp_Name pack) (md_Description (rp_Metadata pack)) (service a) with
        | (Err e, s) => (inr (create_failure e), with_service s a)
        | (Ok packID, s) => (inl (Created d r pack data packID), with_service s a)
        end
      end
    end
  | Created d r pack data packID =>
    match upload_first d packID pack data (rp_SourcePath pack) (activates r) a with
    | (Answer _ m, a) => (inl (Uploaded r m), a)
    | (x, a) => (inr x, a)
    end
  | Uploaded r m => (inr (Answer 201 m), remember (key_of r) m a)
  end.

(** With nothing in between, the steps are the handler. *)
Fixpoint alone (n : nat) (f : flight) (a : api) : option (Reply RulepackMeta) * api :=
  match n with
  | 0 => (None, a)
  | S n => match advance f a with (inr x, a) => (Some x, a) | (inl f, a) => alone n f a end
  end.

Lemma alone_handler d r a :
  recall (key_of r) a = None -> alone 3 (Missed d r) a = (Some (post_rulepacks d r a).1, (post_rulepacks d r a).2).
Proof.
  intros Hr. unfold post_rulepacks. fold (key_of r). rewrite Hr. unfold upload_pack, store_pack. simpl.
  destruct (upload_data r) as [data|]; [|done]. destruct (ParseDSL data) as [pack|]; [|done].
  destruct (Create _ _ _ _ _ _) as [[p|e] s]; [|by destruct e]. fold (activates r). cbn [advance]. unfold upload_first.
  by destruct (Upload _ _ _ _ _ _ _ _ _) as [[? [e|]] s'].
Qed.

(** The uploads in progress and the answers given, the newest first. *)
Record traffic := T { tr_api : api; tr_flying : list flight; tr_answers : list (HttpRequest * Reply RulepackMeta) }.

Definition is_upload (q : api_request) : bool := match q with PostRulepacks _ _ => true | _ => false end.

Inductive upload_step (opt : Options) : traffic -> traffic -> Prop :=
  | up_hit a fs l r m :
      recall (key_of r) a = Some m -> upload_step opt (T a fs l) (T a fs ((r, Answer 200 m) :: l))
  | up_miss a fs l d r :
      recall (key_of r) a = None -> upload_step opt (T a fs l) (T a (Missed d r :: fs) l)
  | up_advance a a' fs1 fs2 l f f' :
      advance f a = (inl f', a') -> upload_step opt (T a (fs1 ++ f :: fs2) l) (T a' (fs1 ++ f' :: fs2) l)
  | up_answer a a' fs1 fs2 l f x :
      advance f a = (inr x, a') ->
      upload_step opt (T a (fs1 ++ f :: fs2) l) (T a' (fs1 ++ fs2) ((flight_request f, x) :: l))
  | up_other a fs l q :
      is_upload q = false -> upload_step opt (T a fs l) (T (serve_api opt q a).2 fs l).

(** A schedule: the upload at a position goes on. *)
Definition drive (t : traffic) (i : nat) : traffic :=
  match tr_flying t !! i with
  | None => t
  | Some f =>
    match advance f (tr_api t) with
    | (inl f', a) => T a (take i (tr_flying t) ++ f' :: drop (S i) (tr_flying t)) (tr_answers t)
    | (inr x, a) => T a (take i (tr_flying t) ++ drop (S i) (tr_flying t)) ((flight_request f, x) :: tr_answers t)
    end
  end.
Definition drives (sched : list nat) (t : traffic) : traffic := foldl drive t sched.

Lemma drives_steps opt sched t : rtc (upload_step opt) t (drives sched t).
Proof.
  revert t. induction sched as [|i sched IH]; intros t; [apply rtc_refl|]. simpl. etrans; [|apply IH].
  unfold drive. destruct t as [a fs l]. simpl. destruct (fs !! i) as [f|] eqn:E; [|apply rtc_refl].
  pose proof (take_drop_middle fs i f E) as Hfs. destruct (advance f a) as [[f'|x] a'] eqn:Ea; apply rtc_once; rewrite <-Hfs at 1.
  - by apply up_advance.
  - by apply up_answer.
Qed.

Definition started (t : traffic) : Prop := idempotencyStore (tr_api t) = ∅ /\ tr_flying t = [] /\ tr_answers t = [].

(** The metadata of the packs that uploads with a key were answered 201 with. *)
Definition created (k : string) (l : list (HttpRequest * Reply RulepackMeta)) : list RulepackMeta :=
  omap (fun p => match p.2 with
                 | Answer st m => if bool_decide (key_of p.1 = k) && (st =? 201)%Z then Some m else None
                 | _ => None
                 end) l.

(** What an upload answers 201 with. *)
Definition describes (r : HttpRequest) (m : RulepackMeta) : Prop :=
  exists data pack, upload_data r = Ok data /\ ParseDSL data = Ok pack /\
    meta_Name m = rp_Name pack /\ meta_Version m = "1" /\ meta_Source m = rp_SourcePath pack /\ meta_Active m = activates r.
Definition flight_ok (f : flight) : Prop :=
  match f with
  | Missed _ _ => True
  | Created _ r pack data _ => upload_data r = Ok data /\ ParseDSL data = Ok pack
  | Uploaded r m => describes r m
  end.

Record upload_inv (t : traffic) : Prop := {
  ui_store : forall k, k <> "" -> idempotencyStore (tr_api t) !! k = head (created k (tr_answers t));
  ui_flying : Forall flight_ok (tr_flying t);
  ui_new : forall r m, (r, Answer 201 m) ∈ tr_answers t -> describes r m;
  ui_again : forall l1 l2 r m, tr_answers t = l1 ++ (r, Answer 200 m) :: l2 -> key_of r <> "" /\ m ∈ created (key_of r) l2;
}.

(** What advancing an upload does to the store, and how it ends. *)
Lemma advance_cases f a y a' :
  advance f a = (y, a') -> flight_ok f ->
  match y with
  | inl f' => idempotencyStore a' = idempotencyStore a /\ flight_ok f' /\ flight_request f' = flight_request f
  | inr (Answer st m) =>
      st = 201%Z /\ describes (flight_request f) m /\ idempotencyStore a' = idempotencyStore (remember (key_of (flight_request f)) m a)
  | inr _ => idempotencyStore a' = idempotencyStore a
  end.
Proof.
  destruct f as [d r|d r pack data p|r m]; simpl.
  - destruct (upload_data r) as [data|] eqn:Ed; [|by intros [= <- <-]].
    destruct (ParseDSL data) as [pack|] eqn:Ep; [|by intros [= <- <-]].
    destruct (Create _ _ _ _ _ _) as [[p|e] s]; intros [= <- <-] _; [done|by destruct e].
  - unfold upload_first. destruct (Upload _ _ _ _ _ _ _ _ _) as [[? [e|]] s']; intros [= <- <-] [Hd Hp]; [done|].
    split; [done|]. split; [|done]. by exists data, pack.
  - intros [= <- <-] Hd. done.
Qed.

Lemma remember_store k k' m a :
  k <> "" -> idempotencyStore (remember k' m a) !! k = if bool_decide (k' = k) then Some m else idempotencyStore a !! k.
Proof.
  intros Hk. unfold remember. destruct (decide (k' = "")) as [->|Hne].
  - rewrite bool_decide_true by done. by rewrite bool_decide_false.
  - rewrite (bool_decide_false (k' = "")) by done. simpl. case_bool_decide as E; [subst; apply lookup_insert_eq|by apply lookup_insert_ne].
Qed.

(** One more answer. *)
Lemma created_cons k r x l :
  created k ((r, x) :: l) =
  match x with Answer st m => if bool_decide (key_of r = k) && (st =? 201)%Z then [m] else [] | _ => [] end ++ created k l.
Proof. unfold created. simpl. destruct x as [st m|? ?]; [|done]. by destruct (bool_decide (key_of r = k) && (st =? 201)%Z). Qed.

Lemma serve_api_keys opt q a :
  is_upload q = false -> idempotencyStore (serve_api opt q a).2 = idempotencyStore a.
Proof.
  destruct q as [d r|d r|d r|r]; [done|intros _..]; unfold serve_api, guarded.
  - destruct (adminAuth_passes opt r (post_reload d r) a) as [[_ ->]|[_ ->]]; [|done].
    unfold post_reload. case_bool_decide; [done|]. destruct (ReadFile _); [|done]. destruct (ParseDSL _); [|done].
    destruct (store_pack _ _ _ _ _ _) as [y b] eqn:E. apply store_pack_cases in E as [Hi _].
    destruct y; simpl; by rewrite Hi.
  - destruct (adminAuth_passes opt r (put_active d r) a) as [[_ ->]|[_ ->]]; [|done].
    unfold put_active. destruct (put_active_check r a) as [p|f]; [|done]. unfold put_active_commit.
    destruct (ActivateLatest _ _ _ _) as [[e|] s]; [done|]. cbv zeta. destruct (repo_ListByTenant _ _) as [l|]; [|done]. by destruct (filter _ l).
  - destruct (adminAuth_passes opt r (delete_rulepack r) a) as [[_ ->]|[_ ->]]; [|done].
    unfold delete_rulepack. destruct (uuid_Parse _); [|done]. destruct (Delete _ _ _) as [[e|] sv]; done.
Qed.

(** An answer to an upload in progress. *)
Lemma answer_inv a a' fs1 fs2 l f x :
  advance f a = (inr x, a') -> upload_inv (T a (fs1 ++ f :: fs2) l) -> upload_inv (T a' (fs1 ++ fs2) ((flight_request f, x) :: l)).
Proof.
  intros Ha [Hs Hf Hn Hg]. cbn [tr_api tr_flying tr_answers] in *. apply Forall_app in Hf as [Hf1 Hf2].
  apply Forall_cons in Hf2 as [Hf Hf2]. pose proof (advance_cases _ _ _ _ Ha Hf) as Hc. split; cbn [tr_api tr_flying tr_answers].
  - intros k Hk. rewrite created_cons. destruct x as [st m|]; [|by rewrite Hc, Hs]. destruct Hc as (-> & _ & ->).
    rewrite (remember_store _ _ _ _ Hk), (Hs k Hk). by case_bool_decide.
  - by apply Forall_app.
  - intros r m [[= -> <-]|Hin]%elem_of_cons; [by destruct Hc as (_ & ? & _)|by apply Hn].
  - intros [|y l1] l2 r m; simpl; intros [= <- ?]; simplify_eq; [by destruct Hc|by apply (Hg l1)].
Qed.

Lemma upload_step_inv opt t t' : upload_step opt t t' -> upload_inv t -> upload_inv t'.
Proof.
  intros Hst Hi. destruct Hst as [a fs l r m Hr|a fs l d r Hr|a a' fs1 fs2 l f f' Ha|a a' fs1 fs2 l f x Ha|a fs l q Hq].
  - destruct Hi as [Hs Hf Hn Hg]. cbn [tr_api tr_flying tr_answers] in *. unfold recall in Hr. case_bool_decide as Hk; [done|].
    rewrite (Hs _ Hk) in Hr. split; cbn [tr_api tr_flying tr_answers].
    + intros k Hk'. rewrite created_cons, andb_false_r. by apply Hs.
    + done.
    + intros r' m' [[=]|Hin]%elem_of_cons. by apply Hn.
    + intros [|y l1] l2 r' m'; simpl; intros [= <- ?]; simplify_eq; [|by apply (Hg l1)]. split; [done|].
      destruct (created (key_of r) l2); [done|]. simplify_eq/=. by left.
  - destruct Hi as [Hs Hf Hn Hg]. split; try done. by constructor.
  - destruct Hi as [Hs Hf Hn Hg]. cbn [tr_api tr_flying tr_answers] in *. apply Forall_app in Hf as [Hf1 Hf2].
    apply Forall_cons in Hf2 as [Hf Hf2]. destruct (advance_cases _ _ _ _ Ha Hf) as (E & Hf' & _).
    split; cbn [tr_api tr_flying tr_answers]; [by rewrite E| |done..]. apply Forall_app. by split; [|constructor].
  - by eapply answer_inv.
  - destruct Hi as [Hs Hf Hn Hg]. split; try done. cbn [tr_api tr_answers] in *. by rewrite (serve_api_keys opt q a Hq).
Qed.

Lemma uploads_inv opt t0 t : started t0 -> rtc (upload_step opt) t0 t -> upload_inv t.
Proof.
  intros (E1 & E2 & E3) Hr. assert (upload_inv t0) as H0.
  { destruct t0 as [a fs l]. simpl in *. subst. split; simpl; [by rewrite E1|constructor|by intros ? ? ?%elem_of_nil|by intros [|] ? ? ?]. }
  clear E1 E2 E3. induction Hr as [t|t t' t'' Hst _ IH]; [done|]. by apply IH, (upload_step_inv opt t).
Qed.

(** A key that has an answer, with no upload under it in progress. *)
Record settled (k : string) (m : RulepackMeta) (l : list (HttpRequest * Reply RulepackMeta)) (t : traffic) : Prop := {
  st_key : idempotencyStore (tr_api t) !! k = Some m;
  st_flying : Forall (fun f => key_of (flight_request f) <> k) (tr_flying t);
  st_answers : exists new, tr_answers t = new ++ l /\ forall r x, (r, x) ∈ new -> key_of r = k -> x = Answer 200 m;
}.

Lemma upload_step_settled opt k m l t t' :
  k <> "" -> upload_step opt t t' -> upload_inv t -> settled k m l t -> settled k m l t'.
Proof.
  intros Hk Hst Hi [Hs Hf (new & El & Hn)]. pose proof (ui_flying _ Hi) as Ho.
  destruct Hst as [a fs l0 r m' Hr|a fs l0 d r Hr|a a' fs1 fs2 l0 f f' Ha|a a' fs1 fs2 l0 f x Ha|a fs l0 q Hq];
    cbn [tr_api tr_flying tr_answers] in *.
  - split; [done|done|]. exists ((r, Answer 200 m') :: new). split; [by rewrite El|]. intros r' x [[= -> ->]|Hin]%elem_of_cons Hk'; [|by eapply Hn].
    unfold recall in Hr. rewrite Hk', bool_decide_false in Hr by done. congruence.
  - split; [done| |by exists new]. constructor; [|done]. simpl. intros E. unfold recall in Hr. rewrite E, bool_decide_false in Hr by done. congruence.
  - apply Forall_app in Hf as [Hf1 [Hf Hf2]%Forall_cons]. apply Forall_app in Ho as [_ [Ho _]%Forall_cons].
    destruct (advance_cases _ _ _ _ Ha Ho) as (E & _ & Er). split; cbn [tr_api tr_flying tr_answers]; [by rewrite E| |by exists new].
    apply Forall_app. split; [done|]. constructor; [by rewrite Er|done].
  - apply Forall_app in Hf as [Hf1 [Hf Hf2]%Forall_cons]. apply Forall_app in Ho as [_ [Ho _]%Forall_cons].
    pose proof (advance_cases _ _ _ _ Ha Ho) as Hc. split; cbn [tr_api tr_flying tr_answers].
    + destruct x as [st m'|]; [|by rewrite Hc]. destruct Hc as (_ & _ & ->). by rewrite remember_store, bool_decide_false.
    + by apply Forall_app.
    + exists ((flight_request f, x) :: new). split; [by rewrite El|]. intros r' y [[= -> ->]|Hin]%elem_of_cons; [done|by apply Hn].
  - split; cbn [tr_api]; [by rewrite (serve_api_keys opt q a Hq)|done|by exists new].
Qed.

(** C35. Uploads with an idempotency key happen once, unless they overlap.  In any interleaving of uploads (each of which looks into
    the store, creates its pack, uploads the text and stores its answer as separate steps) with each other and with the other
    requests that change rule packs: an upload answered 201 describes the pack of its text; one answered 200 gets the metadata
    that an earlier upload with its key was answered 201 with.  Once an upload with a key was answered 201 and no other with
    that key is in progress, every later upload with it, whatever its body, is answered 200 with the metadata of the latest of
    those packs and never reaches the rule packs.  Uploads under one key that overlap may both create a pack. *)
Theorem upload_idempotent (opt : Options) (t0 t : traffic) :
  started t0 -> rtc (upload_step opt) t0 t ->
  (forall r m, (r, Answer 201 m) ∈ tr_answers t -> describes r m) /\
  (forall l1 l2 r m, tr_answers t = l1 ++ (r, Answer 200 m) :: l2 -> key_of r <> "" /\ m ∈ created (key_of r) l2) /\
  (forall k m ms, k <> "" -> created k (tr_answers t) = m :: ms -> Forall (fun f => key_of (flight_request f) <> k) (tr_flying t) ->
     forall t', rtc (upload_step opt) t t' ->
       Forall (fun f => key_of (flight_request f) <> k) (tr_flying t') /\
       exists new, tr_answers t' = new ++ tr_answers t /\ forall r x, (r, x) ∈ new -> key_of r = k -> x = Answer 200 m).
Proof.
  intros H0 Hr. pose proof (uploads_inv opt t0 t H0 Hr) as Hi. split_and!; [apply Hi..|].
  intros k m ms Hk Hc Hf t' Hr'. assert (settled k m (tr_answers t) t) as Hs.
  { split; [by rewrite (ui_store _ Hi k Hk), Hc|done|]. exists []. split; [done|]. by intros ? ? ?%elem_of_nil. }
  assert (settled k m (tr_answers t) t') as [_ Hf' Hn]; [|done]. clear Hc Hf. revert Hs. generalize (tr_answers t) as l. clear Hr.
  induction Hr' as [t|t t1 t2 Hst _ IH]; intros l Hs; [done|]. apply IH; [by eapply upload_step_inv|by eapply upload_step_settled].
Qed.

(** ** Optimistic locking *)

Lemma ActivateLatest_fails c t p s e s' : ActivateLatest c t p s = (Some e, s') -> s' = s.
Proof.
  unfold ActivateLatest. destruct (canaryDelay c); [by intros [= _ <-]|].
  destruct (repo_ActivateLatest p (svc_repo s)) as [[[]|e'] r] eqn:E; [done|].
  apply repo_ActivateLatest_fails in E as ->. rewrite with_repo_same. by intros [= _ <-].
Qed.

Lemma Delete_fails t p s e s' : Delete t p s = (Some e, s') -> s' = s.
Proof.
  unfold Delete. destruct (repo_Delete p (svc_repo s)) as [[[]|e'] r] eqn:E; [done|].
  apply repo_Delete_fails in E as ->. rewrite with_repo_same. by intros [= _ <-].
Qed.

(** What the second half of PUT /rulepacks/active answers. *)
Lemma put_active_commit_cases d p a x a' :
  put_active_commit d p a = (x, a') ->
  (x = Failure 500 "INTERNAL_ERROR" \/ x = Failure 404 "NOT_FOUND") \/
  exists m, x = Answer 200 (m, etag (current_version p a')) /\ meta_ID m = p /\ meta_Active m = true.
Proof.
  unfold put_active_commit. destruct (ActivateLatest _ _ _ _) as [[e|] s]; [by intros [= <- <-]; left; left|].
  cbv zeta. destruct (repo_ListByTenant _ _) as [l|] eqn:El; [|by intros [= <- <-]; left; left].
  destruct (filter _ l) as [|i l'] eqn:Ef; intros [= <- <-]; [by left; right|]. right.
  assert (Hi : i ∈ filter (fun i => info_ID i = p /\ info_Active i = true) l) by (rewrite Ef; by left).
  apply list_elem_of_filter in Hi as [[Hid Hact] Hin].
  destruct (repo_List_active _ _ _ _ El Hin Hact) as [dsl Hg]. rewrite Hid in Hg.
  exists (meta_of i). split_and!; [|done|done]. unfold current_version. by rewrite Hg.
Qed.

(** C24. Changing the active pack is guarded by If-Match.  Without the header, or
    when it is neither a star nor the quoted number of the version that is
    active, PUT /rulepacks/active answers 428 or 412 and changes nothing; so it
    changes something only when the caller named the active version or a star.
    A successful answer is about the pack that was named, and its ETag is the
    one the next request has to present: with it, the same request passes the
    check. *)
Theorem active_version_guarded (d : draw) (r : HttpRequest) (a : api) (x : Reply (RulepackMeta * string)) (a' : api) :
  put_active d r a = (x, a') ->
  (a' <> a -> exists p, uuid_Parse (decode_id (RawBody r)) = Some p /\
     (Headers r "If-Match" = "*" \/ Headers r "If-Match" = etag (current_version p a))) /\
  (forall p, uuid_Parse (decode_id (RawBody r)) = Some p -> decode_id (RawBody r) <> "" ->
     (Headers r "If-Match" = "" -> x = Failure 428 "PRECONDITION_REQUIRED") /\
     (Headers r "If-Match" <> "" -> Headers r "If-Match" <> "*" -> Headers r "If-Match" <> etag (current_version p a) ->
      x = Failure 412 "PRECONDITION_FAILED")) /\
  (forall st m tag, x = Answer st (m, tag) ->
     uuid_Parse (decode_id (RawBody r)) = Some (meta_ID m) /\ meta_Active m = true /\
     forall r', RawBody r' = RawBody r -> Headers r' "If-Match" = tag -> put_active_check r' a' = Ok (meta_ID m)).
Proof.
  unfold put_active, put_active_check. intros Hput.
  destruct (decide (decode_id (RawBody r) = "")) as [Hid|Hid].
  { rewrite bool_decide_eq_true_2 in Hput by done. injection Hput as <- <-. split_and!; [done|by intros ? ? []|done]. }
  rewrite bool_decide_eq_false_2 in Hput by done.
  destruct (uuid_Parse (decode_id (RawBody r))) as [p|] eqn:Ep; [|by injection Hput as <- <-].
  case_bool_decide as Hm; [injection Hput as <- <-; split_and!; [done|by intros p' [= <-]|done]|].
  destruct (negb _ && negb _) eqn:Eg.
  { injection Hput as <- <-. split_and!; [done|by intros p' [= <-]|done]. }
  assert (Hok : Headers r "If-Match" = "*" \/ Headers r "If-Match" = etag (current_version p a)).
  { apply andb_false_iff in Eg as [Eg|Eg]; apply negb_false_iff, bool_decide_eq_true in Eg; auto. }
  split_and!; [intros _; by exists p|intros p' [= <-] _; split; [done|by intros _ ? ?; destruct Hok]|].
  intros st m tag ->. destruct (put_active_commit_cases _ _ _ _ _ Hput) as [[|]|(m' & [= _ <- ->] & Hp & Ha)]; [done..|].
  rewrite Hp. split_and!; [done|done|]. intros r' Hb Ht. unfold put_active_check. rewrite Hb, Ep, Ht.
  rewrite bool_decide_eq_false_2 by done. rewrite (bool_decide_eq_false_2 (etag _ = "")) by done.
  rewrite (bool_decide_eq_true_2 (etag _ = etag _)) by done. by rewrite andb_false_r.
Qed.

(** The rule pack routes that change something are closed: a request without
    the admin token answers 401, and no answer that blames the request (400,
    401, 409, 412 or 428) has changed anything. *)
Theorem rejected_requests_harmless (opt : Options) (q : api_request) (a : api) :
  (~ admin_ok opt (request_of q) -> serve_api opt q a = (401%Z, a)) /\
  ((400 <= (serve_api opt q a).1 < 500)%Z -> (serve_api opt q a).1 <> 404%Z -> (serve_api opt q a).2 = a).
Proof.
  assert (Hg : forall A (r : HttpRequest) (next : api -> Reply A * api),
    ((400 <= StatusOf (next a).1 < 500)%Z -> StatusOf (next a).1 <> 404%Z -> (next a).2 = a) ->
    (~ admin_ok opt r -> guarded opt r next a = (401%Z, a)) /\
    ((400 <= (guarded opt r next a).1 < 500)%Z -> (guarded opt r next a).1 <> 404%Z -> (guarded opt r next a).2 = a)).
  { intros A r next Hn. unfold guarded. destruct (adminAuth_passes opt r next a) as [[Hok ->]|[Hno ->]]; [|done].
    destruct (next a) as [x a']. simpl in *. done. }
  destruct q as [d r|d r|d r|r]; apply Hg.
  - unfold post_rulepacks. destruct (recall _ a); [done|]. destruct (upload_pack d r a) as [x a'] eqn:E. simpl.
    destruct (upload_pack_cases _ _ _ _ _ E) as [(_ & _ & Hs)|(m & -> & _)]; [by auto|simpl; lia].
  - unfold post_reload. case_bool_decide; [done|]. destruct (ReadFile _); [|done]. destruct (ParseDSL _); [|done].
    destruct (store_pack _ _ _ _ _ _) as [y b] eqn:E.
    apply store_pack_cases in E as [_ [[-> ->]|[->|(m & -> & _)]]]; simpl; [done|lia|lia].
  - unfold put_active. destruct (put_active_check r a) as [p|f]; [|done].
    destruct (put_active_commit d p a) as [x a'] eqn:E. simpl.
    destruct (put_active_commit_cases _ _ _ _ _ E) as [[->| ->]|(m & -> & _)]; simpl; lia.
  - unfold delete_rulepack. destruct (uuid_Parse _); [|done]. destruct (Delete _ _ _) as [[e|] sv] eqn:E; simpl; lia.
Qed.
End Api.

(** ** Concrete requests *)

Module RulepackApiWitnesses.
#[local] Existing Instance literal_syntax.
#[local] Existing Instance literal_engine.
#[local] Existing Instance list_lru.
#[local] Existing Instance bare_platform.
#[local] Existing Instance ValidateWitnesses.open_schema.
#[local] Existing Instance SvcWitnesses.plain_digest.
#[local] Instance mem : RulepackRepo := memory_repo some_order.

Definition pack : RulePack := pack0 "mine" [] [LoaderWitnesses.rule "a" "" "foo"].

#[local] Instance texts : Sources.
Proof.
  refine {| Stat _ := Err "no file"; ReadFile _ := Err "no file";
            Unmarshal data := if bool_decide (data = "rules: mine") then Ok pack else Err "yaml";
            Tree path := BadNode path "none"; Glob _ := Ok []; PathMatch _ _ := false; Rel _ p := p;
            HTTPGet _ := Err "404" |}.
  reflexivity.
Defined.

(** An environment without settings, and one with a canary delay. *)
Definition canary : Platform :=
  {| getenv v := if bool_decide (v = "PS_RULEPACK_CANARY_DELAY_SECONDS") then "60" else ""; ParseDuration _ := None |}.

Definition opt : Options := {| AdminToken := "secret"; AllowInsecureAdmin := false |}.
Definition a0 : api :=
  {| service := {| svc_repo := NewRulepackRepository "v0" "dsl" 0 : @repo mem; svc_pub := true; svc_published := [];
                   svc_audit := [] |}; idempotencyStore := ∅ |}.
Definition dr (id : string) : draw :=
  {| d_pack := "p" +:+ id; d_version := "w" +:+ id; d_now := 5; d_cancelled := Some "context deadline exceeded" |}.
Definition upload (key : string) : HttpRequest :=
  request "POST" "/v1/rulepacks" [("Authorization", "Bearer secret"); ("Idempotency-Key", key)] [("activate", "true")] []
    "rules: mine".
Definition put (tag id : string) : HttpRequest :=
  request "PUT" "/v1/rulepacks/active" [("Authorization", "Bearer secret"); ("If-Match", tag)] [] [] id.
Definition parse_any (s : string) : option uuid := Some s.
Definition a1 : api := (post_rulepacks (dr "1") (upload "k") a0).2.
Definition uploaded : RulepackMeta :=
  {| meta_ID := "p1"; meta_Name := "mine"; meta_Version := "1"; meta_Source := ""; meta_Active := true |}.

(** The second upload with the key is answered from the store, although the
    active pack was changed in between. *)
Definition t1 : traffic := drives [0; 0; 0] (T a0 [Missed (dr "1") (upload "k")] []).

Lemma t1_reached : rtc (upload_step parse_any id opt) (T a0 [] []) t1.
Proof. eapply rtc_l; [apply (up_miss _ _ _ a0 [] [] (dr "1") (upload "k")); vm_compute; reflexivity|]. apply drives_steps. Qed.

Lemma t1_shape : tr_flying t1 = [] /\ tr_answers t1 = [(upload "k", Answer 201 uploaded)].
Proof. split; vm_compute; reflexivity. Qed.

Lemma upload_idempotent_witness :
  describes (upload "k") uploaded /\
  forall t', rtc (upload_step parse_any id opt) t1 t' ->
    exists new, tr_answers t' = new ++ tr_answers t1 /\ forall r x, (r, x) ∈ new -> key_of r = "k" -> x = Answer 200 uploaded.
Proof.
  destruct (upload_idempotent parse_any id opt (T a0 [] []) t1) as (H1 & _ & H3).
  - done.
  - exact t1_reached.
  - destruct t1_shape as [Ef Ea]. split; [apply H1; rewrite Ea; left|]. intros t' Hr.
    apply (H3 "k" uploaded []); [discriminate|rewrite Ea; reflexivity|rewrite Ef; constructor|exact Hr].
Defined.

(** Two uploads of one pack with one key that overlap: the first has created
    the pack when the second has looked into the store in vain, so the second
    is answered 409 instead of with the pack. *)
Lemma overlapping_uploads_conflict :
  exists t, rtc (upload_step parse_any id opt) (T a0 [] []) t /\
    tr_answers t = [(upload "k", Failure 409 "ALREADY_EXISTS"); (upload "k", Answer 201 uploaded)].
Proof.
  exists (drives [1; 1; 1; 0] (T a0 [Missed (dr "2") (upload "k"); Missed (dr "1") (upload "k")] [])). split; [|vm_compute; reflexivity].
  eapply rtc_l; [apply (up_miss _ _ _ a0 [] [] (dr "1") (upload "k")); vm_compute; reflexivity|].
  eapply rtc_l; [apply (up_miss _ _ _ a0 _ [] (dr "2") (upload "k")); vm_compute; reflexivity|]. apply drives_steps.
Qed.

(** Activating the uploaded pack with its ETag. *)
Definition put1 : HttpRequest := put (etag 1) "p1".
Lemma active_version_guarded_witness :
  (put_active parse_any id (dr "4") put1 a1).1 = Answer 200 (uploaded, etag 1) /\
  put_active_check parse_any id put1 (put_active parse_any id (dr "4") put1 a1).2 = Ok "p1".
Proof.
  assert (Hs : (put_active parse_any id (dr "4") put1 a1).1 = Answer 200 (uploaded, etag 1)) by (vm_compute; reflexivity).
  split; [exact Hs|].
  destruct (put_active parse_any id (dr "4") put1 a1) as [x a'] eqn:E.
  destruct (active_version_guarded parse_any id (dr "4") put1 a1 x a' E) as (_ & _ & H).
  destruct (H _ _ _ Hs) as (_ & _ & Hn). apply Hn; reflexivity.
Defined.

(** A wrong tag, and a request without the token. *)
Lemma rejected_requests_harmless_witness :
  serve_api parse_any id opt (PutActive (dr "5") (put (etag 7) "p1")) a1 = (412%Z, a1) /\
  serve_api parse_any id opt (DeleteRulepack (request "DELETE" "" [] [] [("id", "p1")] "")) a1 = (401%Z, a1).
Proof.
  split.
  - destruct (rejected_requests_harmless parse_any id opt (PutActive (dr "5") (put (etag 7) "p1")) a1) as [_ H].
    assert (Hs : (serve_api parse_any id opt (PutActive (dr "5") (put (etag 7) "p1")) a1).1 = 412%Z) by (vm_compute; reflexivity).
    rewrite Hs in H. specialize (H ltac:(lia) ltac:(lia)).
    rewrite (surjective_pairing (serve_api _ _ _ _ _)), Hs, H. reflexivity.
  - apply rejected_requests_harmless. vm_compute. discriminate.
Defined.

(** ** Where the endpoints fall short *)

(** The check of If-Match and the activation are two steps: a request that was
    checked before another one changed the active version still succeeds,
    although its tag no longer matches. *)
Definition with_version2 : api :=
  with_service (CreateVersionActivate None "w2" 6 defaultTenantID "p1" 2 "two" (service a1)).2 a1.

Lemma lost_update :
  put_active_check parse_any id put1 a1 = Ok "p1" /\
  put_active_check parse_any id put1 with_version2 = Err (Failure 412 "PRECONDITION_FAILED") /\
  StatusOf (put_active_commit (dr "6") "p1" with_version2).1 = 200%Z.
Proof. vm_compute. done. Qed.

(** A request that is cancelled during the canary delay answers 500 but leaves
    the pack behind: trying again answers 409, with the idempotency key too. *)
Lemma failed_upload_blocks_retry :
  let first := post_rulepacks (PF := canary) (dr "1") (upload "k") a0 in
  StatusOf first.1 = 500%Z /\ (post_rulepacks (PF := canary) (dr "2") (upload "k") first.2).1 = Failure 409 "ALREADY_EXISTS".
Proof. vm_compute. done. Qed.

(** The built-in pack belongs to no tenant: it is not listed, and activating it
    answers 404 after it was activated and announced. *)
Lemma default_pack_hidden :
  get_rulepacks a0 = Answer 200 [] /\
  let '(x, a) := put_active parse_any id (dr "7") (put "*" default_pack_id) a0 in
  x = Failure 404 "NOT_FOUND" /\ List.length (svc_published (service a)) = 1.
Proof. vm_compute. done. Qed.

(** Deleting a pack that does not exist answers 500. *)
Lemma delete_unknown_pack :
  (delete_rulepack parse_any (request "DELETE" "" [] [] [("id", "nope")] "") a0).1 = Failure 500 "INTERNAL_ERROR".
Proof. vm_compute. reflexivity. Qed.

(** A key is not tied to what was uploaded: another pack under the same key is
    answered with the first one and never stored. *)
Lemma key_ignores_body :
  let r := request "POST" "/v1/rulepacks" [("Idempotency-Key", "k")] [] [] "not even yaml" in
  (post_rulepacks (dr "8") r a1).1 = Answer 200 uploaded.
Proof. vm_compute. reflexivity. Qed.
End RulepackApiWitnesses.
