(* ===== verification/PgRulepacks.v ===== *)
(** * PgRulepacks: rule packs in PostgreSQL

    src/internal/infrastructure/persistence/postgres/rulepacks.go over the
    tables of src/migrations/0001_init.sql and 0005_unique_rulepack_name.sql.
    A statement is a function on the tables that checks the constraints the
    migrations declare: the keys, UNIQUE(rulepack_id, version), the unique
    index on tenant and name, the CHECK on the status and the foreign keys,
    none of which is deferred.  [pg_error] is the error of a database that
    cannot be reached.  The type of a version is a 32-bit integer and that of
    the text is JSONB, which the server parses and keeps in a normal form:
    [jsonb] is that form, [None] for a text that is not JSON.

    The repository implements the interface of the services, [RulepackRepo], on
    the databases that satisfy the constraints. *)

From Stdlib Require Import Ascii String.
From S2P Require Import Prelude GoString Unicode Rules Merge Verifiers Complexity Aho Literals Engine Compile Scanner Load Loader Validate Repos RulepackSvc Http RulepacksApi.
Set Default Proof Using "Type".

(** A row of rulepacks; its key is the column id. *)
Record pack_row := {
  row_tenant : uuid;
  row_name : string;
  row_desc : string;
  current_version_id : option uuid;
}.

Record pg_rulepacks := {
  tenant_ids : gset uuid;
  packs : gmap uuid pack_row;
  vers : gmap uuid rulepackVersion;
  pg_error : option string;
}.

Definition with_packs (m : gmap uuid pack_row) (s : pg_rulepacks) : pg_rulepacks :=
  {| tenant_ids := tenant_ids s; packs := m; vers := vers s; pg_error := pg_error s |}.
Definition with_vers (m : gmap uuid rulepackVersion) (s : pg_rulepacks) : pg_rulepacks :=
  {| tenant_ids := tenant_ids s; packs := packs s; vers := m; pg_error := pg_error s |}.

Definition set_current (v : uuid) (row : pack_row) : pack_row :=
  {| row_tenant := row_tenant row; row_name := row_name row; row_desc := row_desc row; current_version_id := Some v |}.

Definition unique_error : string := "duplicate key value violates unique constraint".
Definition fk_error : string := "violates foreign key constraint".

Definition statuses : list string := ["draft"; "approved"; "active"; "archived"].
Definition int4 (z : Z) : bool := (- 2^31 <=? z)%Z && (z <? 2^31)%Z.

Definition name_used (t : uuid) (n : string) (s : pg_rulepacks) : bool :=
  existsb (fun row => bool_decide (row_tenant row = t) && bool_decide (row_name row = n)) (map_to_list (packs s)).*2.

Definition number_used (p : uuid) (v : Z) (s : pg_rulepacks) : bool :=
  existsb (fun x => bool_decide (ver_RulepackID x = p) && bool_decide (ver_Version x = v)) (map_to_list (vers s)).*2.

(** The versions some pack points to: they cannot be deleted. *)
Definition referenced (v : uuid) (s : pg_rulepacks) : bool :=
  existsb (fun row => bool_decide (current_version_id row = Some v)) (map_to_list (packs s)).*2.

Section Jsonb.
Context (jsonb : string -> option string).

Definition pgr_Create (id tenantID : uuid) (name desc : string) (_ : Z) (s : pg_rulepacks) :
    result repo_error uuid * pg_rulepacks :=
  match pg_error s with
  | Some e => (Err (StoreError ("create rulepack: " +:+ e)), s)
  | None =>
    match packs s !! id with
    | Some _ => (Err (StoreError ("create rulepack: " +:+ unique_error)), s)
    | None =>
      if name_used tenantID name s then (Err ErrRulepackNameExists, s)
      else if bool_decide (tenantID ∈ tenant_ids s)
      then (Ok id, with_packs (<[id := {| row_tenant := tenantID; row_name := name; row_desc := desc;
                                           current_version_id := None |}]> (packs s)) s)
      else (Err (StoreError ("create rulepack: " +:+ fk_error)), s)
    end
  end.

(** INSERT INTO rulepack_versions. *)
Definition insert_version (id packID : uuid) (version : Z) (dsl status : string) (createdBy : uuid) (now : Z)
    (s : pg_rulepacks) : result string pg_rulepacks :=
  match pg_error s, jsonb dsl with
  | Some e, _ => Err e
  | None, None => Err "invalid input syntax for type json"
  | None, Some text =>
    if negb (int4 version) then Err "integer out of range"
    else if negb (bool_decide (status ∈ statuses)) then Err "violates check constraint"
    else if number_used packID version s then Err unique_error
    else match vers s !! id, packs s !! packID with
         | Some _, _ => Err unique_error
         | None, None => Err fk_error
         | None, Some _ =>
           Ok (with_vers (<[id := new_version id packID version text status createdBy now]> (vers s)) s)
         end
  end.

Definition pgr_CreateVersion (id packID : uuid) (version : Z) (dsl status : string) (createdBy : uuid) (now : Z)
    (s : pg_rulepacks) : result repo_error uuid * pg_rulepacks :=
  match insert_version id packID version dsl status createdBy now s with
  | Err e => (Err (StoreError ("create version: " +:+ e)), s)
  | Ok s' => (Ok id, s')
  end.

(** UPDATE rulepacks SET current_version_id: the number of rows, unless the
    version does not exist. *)
Definition update_current (packID versionID : uuid) (s : pg_rulepacks) : result string (nat * pg_rulepacks) :=
  match pg_error s with
  | Some e => Err e
  | None =>
    match packs s !! packID with
    | None => Ok (0, s)
    | Some row =>
      match vers s !! versionID with
      | None => Err fk_error
      | Some _ => Ok (1, with_packs (<[packID := set_current versionID row]> (packs s)) s)
      end
    end
  end.

(** A transaction that fails is rolled back. *)
Definition pgr_CreateVersionActivateTx (id packID : uuid) (version : Z) (dsl : string) (createdBy : uuid) (now : Z)
    (s : pg_rulepacks) : result repo_error uuid * pg_rulepacks :=
  match insert_version id packID version dsl "approved" createdBy now s with
  | Err e => (Err (StoreError ("create version: " +:+ e)), s)
  | Ok s1 =>
    match update_current packID id s1 with
    | Err e => (Err (StoreError ("activate version: " +:+ e)), s)
    | Ok (_, s2) => (Ok id, s2)
    end
  end.

Definition pgr_GetActive (packID : uuid) (s : pg_rulepacks) : result repo_error (string * Z) :=
  match pg_error s with
  | Some e => Err (StoreError ("get active: " +:+ e))
  | None =>
    match row ← packs s !! packID; v ← current_version_id row; vers s !! v with
    | Some x => Ok (ver_DSL x, ver_Version x)
    | None => Err (StoreError "not found")
    end
  end.

Definition pgr_Activate (packID versionID : uuid) (s : pg_rulepacks) : result repo_error unit * pg_rulepacks :=
  match update_current packID versionID s with
  | Err e => (Err (StoreError ("activate: " +:+ e)), s)
  | Ok (0, _) => (Err (StoreError "activate: no rows"), s)
  | Ok (_, s') => (Ok tt, s')
  end.

Definition of_pack (p : uuid) (s : pg_rulepacks) : gmap uuid rulepackVersion :=
  filter (fun kv => ver_RulepackID kv.2 = p) (vers s).

Definition numbered (p : uuid) (v : Z) (s : pg_rulepacks) : list rulepackVersion :=
  filter (fun x => ver_Version x = v) (map_to_list (of_pack p s)).*2.

Definition pgr_GetVersion (packID : uuid) (version : Z) (s : pg_rulepacks) : result repo_error (string * string) :=
  match pg_error s with
  | Some e => Err (StoreError e)
  | None => match numbered packID version s with
            | x :: _ => Ok (ver_DSL x, ver_Status x)
            | [] => Err (StoreError "not found")
            end
  end.

Definition approve (x : rulepackVersion) : rulepackVersion :=
  {| ver_ID := ver_ID x; ver_RulepackID := ver_RulepackID x; ver_Version := ver_Version x; ver_DSL := ver_DSL x;
     ver_Status := "approved"; ver_CreatedBy := ver_CreatedBy x; ver_CreatedAt := ver_CreatedAt x |}.

Definition is_draft (p : uuid) (v : Z) (x : rulepackVersion) : bool :=
  bool_decide (ver_RulepackID x = p) && bool_decide (ver_Version x = v) && bool_decide (ver_Status x = "draft").

Definition pgr_ApproveVersion (packID : uuid) (version : Z) (s : pg_rulepacks) : option repo_error * pg_rulepacks :=
  match pg_error s with
  | Some e => (Some (StoreError e), s)
  | None =>
    if existsb (is_draft packID version) (map_to_list (vers s)).*2
    then (None, with_vers ((fun x => if is_draft packID version x then approve x else x) <$> vers s) s)
    else (Some (StoreError "no draft version updated"), s)
  end.

Definition pack_name_le (a b : RulepackInfo) : Prop := String.leb (info_Name a) (info_Name b) = true.
#[export] Instance pack_name_le_dec a b : Decision (pack_name_le a b).
Proof. unfold pack_name_le. apply _. Defined.

(** LEFT JOIN: a pack without a version has the version 0. *)
Definition info_of (s : pg_rulepacks) (id : uuid) (row : pack_row) : RulepackInfo :=
  {| info_ID := id; info_Name := row_name row; info_Description := row_desc row;
     info_Version := from_option ver_Version 0%Z (v ← current_version_id row; vers s !! v);
     info_Active := bool_decide (is_Some (current_version_id row)) |}.

Definition pgr_ListByTenant (tenantID : uuid) (s : pg_rulepacks) : result repo_error (list RulepackInfo) :=
  match pg_error s with
  | Some e => Err (StoreError ("list rulepacks: " +:+ e))
  | None => Ok (merge_sort pack_name_le
                  (map (fun '(id, row) => info_of s id row)
                     (map_to_list (filter (fun kv => row_tenant kv.2 = tenantID) (packs s)))))
  end.

(** ORDER BY version DESC. *)
Definition newest_first (a b : rulepackVersion) : Prop := (ver_Version b <= ver_Version a)%Z.
#[export] Instance newest_first_dec a b : Decision (newest_first a b).
Proof. unfold newest_first. apply _. Defined.

Definition newest (p : uuid) (s : pg_rulepacks) : list rulepackVersion :=
  merge_sort newest_first (map_to_list (of_pack p s)).*2.

Definition pgr_GetLatestVersion (packID : uuid) (s : pg_rulepacks) : result repo_error (uuid * Z) :=
  match pg_error s with
  | Some e => Err (StoreError ("get latest version: " +:+ e))
  | None => match newest packID s with
            | x :: _ => Ok (ver_ID x, ver_Version x)
            | [] => Err (StoreError "no versions found")
            end
  end.

Definition pgr_ActivateLatest (packID : uuid) (s : pg_rulepacks) : result repo_error unit * pg_rulepacks :=
  match pgr_GetLatestVersion packID s with
  | Err e => (Err e, s)
  | Ok (versionID, _) => pgr_Activate packID versionID s
  end.

(** DELETE FROM rulepack_versions, for the given rows. *)
Definition delete_versions (doomed : rulepackVersion -> bool) (s : pg_rulepacks) : result string pg_rulepacks :=
  match pg_error s with
  | Some e => Err e
  | None =>
    if existsb (fun kv => doomed kv.2 && referenced kv.1 s) (map_to_list (vers s)) then Err fk_error
    else Ok (with_vers (filter (fun kv => doomed kv.2 = false) (vers s)) s)
  end.

Definition pgr_Delete (packID : uuid) (s : pg_rulepacks) : result repo_error unit * pg_rulepacks :=
  match delete_versions (fun x => bool_decide (ver_RulepackID x = packID)) s with
  | Err e => (Err (StoreError ("delete versions: " +:+ e)), s)
  | Ok s1 =>
    match packs s1 !! packID with
    | None => (Err (StoreError "rulepack not found"), s)
    | Some _ => (Ok tt, with_packs (delete packID (packs s1)) s1)
    end
  end.

(** The WITH clause: the newest [keep] versions. *)
Definition retained (p : uuid) (keep : Z) (s : pg_rulepacks) : list uuid :=
  map ver_ID (take (Z.to_nat keep) (newest p s)).

(** The WHERE clause.  The table rulepacks is joined without a condition: some
    pack, whichever, has no current version or another one. *)
Definition purged (p : uuid) (keep : Z) (s : pg_rulepacks) (x : rulepackVersion) : bool :=
  bool_decide (ver_RulepackID x = p) && negb (bool_decide (ver_ID x ∈ retained p keep s)) &&
  existsb (fun row => negb (bool_decide (current_version_id row = Some (ver_ID x)))) (map_to_list (packs s)).*2.

Definition pgr_PurgeOldVersions (packID : uuid) (keep : Z) (s : pg_rulepacks) : option repo_error * pg_rulepacks :=
  if (keep <=? 0)%Z then (None, s)
  else match delete_versions (purged packID keep s) s with
       | Err e => (Some (StoreError ("purge old versions: " +:+ e)), s)
       | Ok s' => (None, s')
       end.

(** ** The constraints of the schema *)

(** Foreign keys, keys and unique indexes. *)
Record schema_ok (s : pg_rulepacks) : Prop := {
  fk_current : forall p row v, packs s !! p = Some row -> current_version_id row = Some v -> is_Some (vers s !! v);
  fk_tenant : forall p row, packs s !! p = Some row -> row_tenant row ∈ tenant_ids s;
  fk_pack : forall i x, vers s !! i = Some x -> ver_ID x = i /\ is_Some (packs s !! ver_RulepackID x);
  one_number : forall i j x y, vers s !! i = Some x -> vers s !! j = Some y ->
    ver_RulepackID x = ver_RulepackID y -> ver_Version x = ver_Version y -> i = j;
  one_name : forall p q a b, packs s !! p = Some a -> packs s !! q = Some b ->
    row_tenant a = row_tenant b -> row_name a = row_name b -> p = q;
}.

(** The same as a test. *)
Definition schema (s : pg_rulepacks) : bool :=
  bool_decide (map_Forall (fun _ row =>
      match current_version_id row with None => true | Some v => bool_decide (is_Some (vers s !! v)) end = true /\
      row_tenant row ∈ tenant_ids s) (packs s)) &&
  bool_decide (map_Forall (fun i x => ver_ID x = i /\ is_Some (packs s !! ver_RulepackID x)) (vers s)) &&
  bool_decide (map_Forall (fun i x => map_Forall (fun j y =>
      ver_RulepackID x = ver_RulepackID y -> ver_Version x = ver_Version y -> i = j) (vers s)) (vers s)) &&
  bool_decide (map_Forall (fun p a => map_Forall (fun q b =>
      row_tenant a = row_tenant b -> row_name a = row_name b -> p = q) (packs s)) (packs s)).

Lemma schema_spec s : schema s = true <-> schema_ok s.
Proof.
  unfold schema. rewrite !andb_true_iff, !bool_decide_eq_true. split.
  - intros [[[H1 H2] H3] H4]. split.
    + intros p row v Hp Hv. destruct (H1 p row Hp) as [Hc _]. rewrite Hv in Hc. by apply bool_decide_eq_true in Hc.
    + intros p row Hp. apply (H1 p row Hp).
    + apply H2.
    + intros i j x y Hi Hj. apply (H3 i x Hi j y Hj).
    + intros p q a b Hp Hq. apply (H4 p a Hp q b Hq).
  - intros [H1 H2 H3 H4 H5]. split_and!.
    + intros p row Hp. split; [|by eapply H2]. destruct (current_version_id row) eqn:E; [|done].
      apply bool_decide_eq_true. by eapply H1.
    + exact H3.
    + intros i x Hi j y Hj. by apply (H4 i j x y).
    + intros p a Hp q b Hq. by apply (H5 p q a b).
Qed.

(** ** What the statements do *)

Lemma in_values {V} (m : gmap uuid V) (v : V) : v ∈ (map_to_list m).*2 <-> exists k, m !! k = Some v.
Proof.
  rewrite list_elem_of_fmap. split.
  - intros ([k v'] & -> & H%elem_of_map_to_list). by exists k.
  - intros [k H]. exists (k, v). split; [done|]. by apply elem_of_map_to_list.
Qed.

Lemma existsb_values {V} (m : gmap uuid V) (P : V -> bool) :
  existsb P (map_to_list m).*2 = true <-> exists k v, m !! k = Some v /\ P v = true.
Proof.
  rewrite existsb_exists. split.
  - intros (v & Hv%list_elem_of_In%in_values & HP). destruct Hv as [k Hk]. by exists k, v.
  - intros (k & v & Hk & HP). exists v. split; [|done]. apply list_elem_of_In, in_values. by exists k.
Qed.

Lemma existsb_values_false {V} (m : gmap uuid V) (P : V -> bool) k v :
  existsb P (map_to_list m).*2 = false -> m !! k = Some v -> P v = false.
Proof.
  intros Hf Hk. destruct (P v) eqn:HP; [|done]. rewrite <-Hf. symmetry. apply existsb_values. by exists k, v.
Qed.

Lemma referenced_spec v s : referenced v s = true <-> exists p row, packs s !! p = Some row /\ current_version_id row = Some v.
Proof. unfold referenced. rewrite existsb_values. by setoid_rewrite bool_decide_eq_true. Qed.

Lemma pg_insert_version_ok id p v dsl st by_ now s s' :
  insert_version id p v dsl st by_ now s = Ok s' ->
  exists text row, jsonb dsl = Some text /\ packs s !! p = Some row /\ vers s !! id = None /\ number_used p v s = false /\
    pg_error s = None /\ s' = with_vers (<[id := new_version id p v text st by_ now]> (vers s)) s.
Proof.
  unfold insert_version. destruct (pg_error s); [done|]. destruct (jsonb dsl) as [text|]; [|done].
  destruct (negb (int4 v)); [done|]. destruct (negb _); [done|]. destruct (number_used p v s) eqn:En; [done|].
  destruct (vers s !! id); [done|]. destruct (packs s !! p) as [row|]; [|done]. intros [= <-]. by exists text, row.
Qed.

Lemma insert_version_schema id p v dsl st by_ now s s' :
  schema_ok s -> insert_version id p v dsl st by_ now s = Ok s' -> schema_ok s'.
Proof.
  intros [H1 H2 H3 H4 H5] (text & row & _ & Hp & Hid & Hn & _ & ->)%pg_insert_version_ok.
  assert (Hnew : forall i x, vers s !! i = Some x -> ver_RulepackID x = p -> ver_Version x = v -> False).
  { intros i x Hi Hxp Hxv. pose proof (existsb_values_false _ _ _ _ Hn Hi) as Hf. simpl in Hf.
    by rewrite !bool_decide_eq_true_2 in Hf. }
  split; simpl; [|done| | |done].
  - intros q row' v' Hq Hc. destruct (H1 q row' v' Hq Hc) as [x Hx]. rewrite lookup_insert_ne; [by exists x|congruence].
  - intros i x [[-> <-]|[_ Hi]]%lookup_insert_Some; [by split; [|exists row]|by apply H3].
  - intros i j x y [[<- <-]|[_ Hi]]%lookup_insert_Some [[<- <-]|[_ Hj]]%lookup_insert_Some; simpl; [done| | |by apply H4].
    + intros Hp' Hv'. exfalso. by eapply Hnew.
    + intros Hp' Hv'. exfalso. by eapply Hnew.
Qed.

Lemma update_current_ok p v s n s' :
  update_current p v s = Ok (n, s') ->
  pg_error s = None /\
  ((n = 0 /\ s' = s /\ packs s !! p = None) \/
   (n = 1 /\ exists row, packs s !! p = Some row /\ is_Some (vers s !! v) /\
      s' = with_packs (<[p := set_current v row]> (packs s)) s)).
Proof.
  unfold update_current. destruct (pg_error s); [done|]. destruct (packs s !! p) as [row|] eqn:Hp.
  - destruct (vers s !! v) eqn:Hv; [|done]. intros [= <- <-]. split; [done|]. right. split; [done|]. exists row. eauto.
  - intros [= <- <-]. auto.
Qed.

Lemma update_current_schema p v s n s' : schema_ok s -> update_current p v s = Ok (n, s') -> schema_ok s'.
Proof.
  intros Hs (_ & [(_ & -> & _)|(_ & row & Hp & Hv & ->)])%update_current_ok; [done|].
  destruct Hs as [H1 H2 H3 H4 H5]. split; simpl; [| | |done|].
  - intros q row' v' [[_ <-]|[_ Hq]]%lookup_insert_Some; [by intros [= <-]|by apply H1 with q].
  - intros q row' [[_ <-]|[_ Hq]]%lookup_insert_Some; simpl; eauto.
  - intros i x Hi. destruct (H3 i x Hi) as [? [row' Hr]]. split; [done|].
    destruct (decide (p = ver_RulepackID x)) as [<-|]; [rewrite lookup_insert_eq|rewrite lookup_insert_ne by done]; eauto.
  - intros q q' a b [[<- <-]|[_ Ha]]%lookup_insert_Some [[<- <-]|[_ Hb]]%lookup_insert_Some; simpl; eauto.
Qed.

Lemma delete_versions_ok doomed s s' :
  delete_versions doomed s = Ok s' ->
  pg_error s = None /\ (forall i x, vers s !! i = Some x -> doomed x = true -> referenced i s = false) /\
  s' = with_vers (filter (fun kv => doomed kv.2 = false) (vers s)) s.
Proof.
  unfold delete_versions. destruct (pg_error s); [done|]. destruct (existsb _ _) eqn:E; [done|]. intros [= <-].
  split_and!; [done| |done]. intros i x Hi Hd. destruct (referenced i s) eqn:Hr; [|done]. rewrite <-E. symmetry.
  apply existsb_exists. exists (i, x). split; [by apply list_elem_of_In, elem_of_map_to_list|]. simpl. by rewrite Hd, Hr.
Qed.

Lemma delete_versions_schema doomed s s' : schema_ok s -> delete_versions doomed s = Ok s' -> schema_ok s'.
Proof.
  intros [H1 H2 H3 H4 H5] (_ & Hr & ->)%delete_versions_ok. split; simpl; [|done| | |done].
  - intros p row v Hp Hv. destruct (H1 p row v Hp Hv) as [x Hx]. exists x. apply map_lookup_filter_Some. split; [done|].
    simpl. destruct (doomed x) eqn:Hd; [|done]. rewrite <-(Hr v x Hx Hd). symmetry. apply referenced_spec. eauto.
  - intros i x [Hi _]%map_lookup_filter_Some. by apply H3.
  - intros i j x y [Hi _]%map_lookup_filter_Some [Hj _]%map_lookup_filter_Some. by apply H4.
Qed.

(** ** The operations keep the constraints *)

Lemma pgr_Create_schema id t n d now s : schema_ok s -> schema_ok (pgr_Create id t n d now s).2.
Proof.
  intros Hs. unfold pgr_Create. destruct (pg_error s); [done|]. destruct (packs s !! id) eqn:Hid; [done|].
  destruct (name_used t n s) eqn:Hn; [done|]. case_bool_decide as Ht; [|done]. destruct Hs as [H1 H2 H3 H4 H5].
  assert (Hnew : forall p row, packs s !! p = Some row -> row_tenant row = t -> row_name row = n -> False).
  { intros p row Hp Hrt Hrn. pose proof (existsb_values_false _ _ _ _ Hn Hp) as Hf. simpl in Hf.
    by rewrite !bool_decide_eq_true_2 in Hf. }
  split; simpl; [| | |done|].
  - intros p row v [[_ <-]|[_ Hp]]%lookup_insert_Some; [done|eauto].
  - intros p row [[_ <-]|[_ Hp]]%lookup_insert_Some; simpl; eauto.
  - intros i x Hi. destruct (H3 i x Hi) as [? [row Hr]]. split; [done|].
    rewrite lookup_insert_ne by congruence. eauto.
  - intros p q a b [[<- <-]|[_ Ha]]%lookup_insert_Some [[<- <-]|[_ Hb]]%lookup_insert_Some; simpl; [done| | |eauto];
      intros ? ?; exfalso; by eapply Hnew.
Qed.

Lemma pgr_CreateVersion_schema id p v dsl st by_ now s : schema_ok s -> schema_ok (pgr_CreateVersion id p v dsl st by_ now s).2.
Proof.
  intros Hs. unfold pgr_CreateVersion. destruct (insert_version _ _ _ _ _ _ _ _) eqn:E; [|done].
  by eapply insert_version_schema.
Qed.

Lemma pgr_CreateVersionActivateTx_schema id p v dsl by_ now s :
  schema_ok s -> schema_ok (pgr_CreateVersionActivateTx id p v dsl by_ now s).2.
Proof.
  intros Hs. unfold pgr_CreateVersionActivateTx. destruct (insert_version _ _ _ _ _ _ _ _) as [s1|] eqn:E; [|done].
  apply insert_version_schema in E; [|done]. destruct (update_current p id s1) as [[n s2]|] eqn:E2; [|done].
  by eapply update_current_schema.
Qed.

Lemma pgr_Activate_schema p v s : schema_ok s -> schema_ok (pgr_Activate p v s).2.
Proof.
  intros Hs. unfold pgr_Activate. destruct (update_current p v s) as [[n s']|] eqn:E; [|done].
  destruct n; [done|]. by eapply update_current_schema.
Qed.

Lemma pgr_ActivateLatest_schema p s : schema_ok s -> schema_ok (pgr_ActivateLatest p s).2.
Proof.
  intros Hs. unfold pgr_ActivateLatest. destruct (pgr_GetLatestVersion p s) as [[v ?]|]; [|done]. by apply pgr_Activate_schema.
Qed.

Lemma pgr_ApproveVersion_schema p v s : schema_ok s -> schema_ok (pgr_ApproveVersion p v s).2.
Proof.
  intros Hs. unfold pgr_ApproveVersion. destruct (pg_error s); [done|]. case_match; [|done]. destruct Hs as [H1 H2 H3 H4 H5].
  assert (Hf : forall x, ver_RulepackID (if is_draft p v x then approve x else x) = ver_RulepackID x /\
                         ver_Version (if is_draft p v x then approve x else x) = ver_Version x /\
                         ver_ID (if is_draft p v x then approve x else x) = ver_ID x) by (intros x; by destruct (is_draft p v x)).
  split; simpl; [|done| | |done].
  - intros q row v' Hq Hv. rewrite lookup_fmap. destruct (H1 q row v' Hq Hv) as [x ->]. by eexists.
  - intros i x. rewrite lookup_fmap, fmap_Some. intros (y & Hy & ->). destruct (Hf y) as (-> & _ & ->). by apply H3.
  - intros i j x y. rewrite !lookup_fmap, !fmap_Some. intros (x' & Hx & ->) (y' & Hy & ->).
    destruct (Hf x') as (-> & -> & _), (Hf y') as (-> & -> & _). by apply H4.
Qed.

Lemma pgr_Delete_schema p s : schema_ok s -> schema_ok (pgr_Delete p s).2.
Proof.
  intros Hs. unfold pgr_Delete. destruct (delete_versions _ s) as [s1|] eqn:E; [|done].
  pose proof (delete_versions_schema _ _ _ Hs E) as [H1 H2 H3 H4 H5]. apply delete_versions_ok in E as (_ & _ & ->).
  destruct (packs _ !! p); [|done]. split; simpl; [| | |done|].
  - intros q row v [_ Hq]%lookup_delete_Some. eauto.
  - intros q row [_ Hq]%lookup_delete_Some. eauto.
  - intros i x Hi. destruct (H3 i x Hi) as [? Hp]. split; [done|].
    apply map_lookup_filter_Some in Hi as [_ Hd]. simpl in Hd. apply bool_decide_eq_false in Hd.
    by rewrite lookup_delete_ne.
  - intros q q' a b [_ Ha]%lookup_delete_Some [_ Hb]%lookup_delete_Some. eauto.
Qed.

Lemma pgr_PurgeOldVersions_schema p keep s : schema_ok s -> schema_ok (pgr_PurgeOldVersions p keep s).2.
Proof.
  intros Hs. unfold pgr_PurgeOldVersions. destruct (keep <=? 0)%Z; [done|]. destruct (delete_versions _ s) eqn:E; [|done].
  by eapply delete_versions_schema.
Qed.

(** ** The interface of the services *)

(** A database that satisfies the constraints. *)
Definition database : Type := dsig (fun s => schema s = true).

Definition lift {A} (f : pg_rulepacks -> A * pg_rulepacks) (Hf : forall s, schema_ok s -> schema_ok (f s).2) (d : database) :
    A * database :=
  ((f (`d)).1, dexist (f (`d)).2 (proj2 (schema_spec _) (Hf _ (proj1 (schema_spec _) (proj2_dsig d))))).

Lemma lift_eq {A} (f : pg_rulepacks -> A * pg_rulepacks) Hf d x d' : lift f Hf d = (x, d') -> f (`d) = (x, `d').
Proof. intros [= <- <-]. apply surjective_pairing. Qed.

Lemma lift_fails {A} (f : pg_rulepacks -> result repo_error A * pg_rulepacks) Hf d e d' :
  (forall s e s', f s = (Err e, s') -> s' = s) -> lift f Hf d = (Err e, d') -> d' = d.
Proof. intros Hfail H%lift_eq. apply dsig_eq. by eapply Hfail. Qed.

Lemma pgr_CreateVersionActivateTx_active id p v dsl by_ now s id' s' :
  pgr_CreateVersionActivateTx id p v dsl by_ now s = (Ok id', s') -> pgr_GetActive p s' = Ok (default dsl (jsonb dsl), v).
Proof.
  unfold pgr_CreateVersionActivateTx. destruct (insert_version _ _ _ _ _ _ _ _) as [s1|] eqn:E; [|done].
  destruct (update_current p id s1) as [[n s2]|] eqn:E2; [|done]. intros [= _ <-].
  apply pg_insert_version_ok in E as (text & row & Hj & Hp & _ & _ & Hup & ->).
  apply update_current_ok in E2 as (_ & [(_ & _ & Hnone)|(_ & row' & _ & _ & ->)]); [simpl in Hnone; congruence|].
  unfold pgr_GetActive. simpl. rewrite Hup, lookup_insert_eq. simpl. by rewrite lookup_insert_eq, Hj.
Qed.

Lemma pgr_Activate_ok p v s s' :
  pgr_Activate p v s = (Ok tt, s') ->
  pg_error s = None /\ exists x, vers s !! v = Some x /\ pgr_GetActive p s' = Ok (ver_DSL x, ver_Version x).
Proof.
  unfold pgr_Activate. destruct (update_current p v s) as [[n s1]|] eqn:E; [|done].
  apply update_current_ok in E as (Hup & [(-> & _)|(-> & row & Hp & [x Hx] & ->)]); [done|]. intros [= <-].
  split; [done|]. exists x. split; [done|]. unfold pgr_GetActive. simpl. rewrite Hup, lookup_insert_eq. simpl. by rewrite Hx.
Qed.

Lemma pgr_Activate_created id p v dsl st by_ now s id' s1 s2 :
  pgr_CreateVersion id p v dsl st by_ now s = (Ok id', s1) -> pgr_Activate p id' s1 = (Ok tt, s2) ->
  pgr_GetActive p s2 = Ok (default dsl (jsonb dsl), v).
Proof.
  unfold pgr_CreateVersion. destruct (insert_version _ _ _ _ _ _ _ _) as [s0|] eqn:E; [|done]. intros [= <- <-].
  apply pg_insert_version_ok in E as (text & row & Hj & _ & _ & _ & _ & ->).
  intros (_ & x & Hx & ->)%pgr_Activate_ok. simpl in Hx. rewrite lookup_insert_eq in Hx. simplify_eq. by rewrite Hj.
Qed.

(** Deleting versions leaves every active version: the foreign key forbids
    anything else. *)
Lemma delete_versions_active doomed s s' q :
  schema_ok s -> delete_versions doomed s = Ok s' -> pgr_GetActive q s' = pgr_GetActive q s.
Proof.
  intros Hs (Hup & Hr & ->)%delete_versions_ok. unfold pgr_GetActive. simpl. rewrite Hup.
  destruct (packs s !! q) as [row|] eqn:Hq; [|done]. simpl. destruct (current_version_id row) as [v|] eqn:Hv; [|done]. simpl.
  destruct (fk_current s Hs q row v Hq Hv) as [x Hx]. rewrite Hx. rewrite (map_lookup_filter_Some_2 _ _ _ x); [done|done|].
  simpl. destruct (doomed x) eqn:Hd; [|done]. rewrite <-(Hr v x Hx Hd). symmetry. apply referenced_spec. eauto.
Qed.

Lemma pgr_Purge_active p keep s q :
  schema_ok s -> pgr_GetActive q (pgr_PurgeOldVersions p keep s).2 = pgr_GetActive q s.
Proof.
  intros Hs. unfold pgr_PurgeOldVersions. destruct (keep <=? 0)%Z; [done|].
  destruct (delete_versions _ s) eqn:E; [|done]. by eapply delete_versions_active.
Qed.

Lemma pgr_Delete_inactive p s s' : pgr_Delete p s = (Ok tt, s') -> is_ok (pgr_GetActive p s') = false.
Proof.
  unfold pgr_Delete. destruct (delete_versions _ s) as [s1|]; [|done]. destruct (packs s1 !! p); [|done]. intros [= <-].
  unfold pgr_GetActive. simpl. rewrite lookup_delete_eq. by destruct (pg_error s1).
Qed.

Lemma pgr_List_active t s infos info :
  schema_ok s -> pgr_ListByTenant t s = Ok infos -> info ∈ infos -> info_Active info = true ->
  exists dsl, pgr_GetActive (info_ID info) s = Ok (dsl, info_Version info).
Proof.
  intros Hs. unfold pgr_ListByTenant, pgr_GetActive. destruct (pg_error s); [done|]. intros [= <-].
  rewrite merge_sort_Permutation. intros ([id row] & -> & Hin%elem_of_map_to_list)%list_elem_of_fmap.
  apply map_lookup_filter_Some in Hin as [Hp _]. simpl. rewrite bool_decide_eq_true, Hp. intros [v Hv]. simpl. rewrite Hv. simpl.
  destruct (fk_current s Hs id row v Hp Hv) as [x Hx]. rewrite Hx. by exists (ver_DSL x).
Qed.

Lemma pgr_Create_fails id t n d now s e s' : pgr_Create id t n d now s = (Err e, s') -> s' = s.
Proof. unfold pgr_Create. repeat case_match; intros [=]; congruence. Qed.

Lemma pgr_CreateVersion_fails id p v dsl st by_ now s e s' : pgr_CreateVersion id p v dsl st by_ now s = (Err e, s') -> s' = s.
Proof. unfold pgr_CreateVersion. repeat case_match; intros [=]; congruence. Qed.

Lemma pgr_CreateVersionActivateTx_fails id p v dsl by_ now s e s' :
  pgr_CreateVersionActivateTx id p v dsl by_ now s = (Err e, s') -> s' = s.
Proof. unfold pgr_CreateVersionActivateTx. repeat case_match; intros [=]; congruence. Qed.

Lemma pgr_Activate_fails p v s e s' : pgr_Activate p v s = (Err e, s') -> s' = s.
Proof. unfold pgr_Activate. repeat case_match; intros [=]; congruence. Qed.

Lemma pgr_ActivateLatest_fails p s e s' : pgr_ActivateLatest p s = (Err e, s') -> s' = s.
Proof. unfold pgr_ActivateLatest. destruct (pgr_GetLatestVersion p s) as [[]|]; [apply pgr_Activate_fails|by intros [= _ <-]]. Qed.

Lemma pgr_Delete_fails p s e s' : pgr_Delete p s = (Err e, s') -> s' = s.
Proof. unfold pgr_Delete. repeat case_match; intros [=]; congruence. Qed.

Definition schema_proof (d : database) : schema_ok (`d) := proj1 (schema_spec _) (proj2_dsig d).

Program Definition postgres_repo : RulepackRepo :=
  {| repo := database; repo_dsl dsl := default dsl (jsonb dsl);
     repo_Create id t n d now := lift (pgr_Create id t n d now) (pgr_Create_schema id t n d now);
     repo_CreateVersion id p v dsl st by_ now :=
       lift (pgr_CreateVersion id p v dsl st by_ now) (pgr_CreateVersion_schema id p v dsl st by_ now);
     repo_CreateVersionActivateTx id p v dsl by_ now :=
       lift (pgr_CreateVersionActivateTx id p v dsl by_ now) (pgr_CreateVersionActivateTx_schema id p v dsl by_ now);
     repo_GetActive p d := pgr_GetActive p (`d);
     repo_Activate p v := lift (pgr_Activate p v) (pgr_Activate_schema p v);
     repo_GetVersion p v d := pgr_GetVersion p v (`d);
     repo_GetLatestVersion p d := pgr_GetLatestVersion p (`d);
     repo_ActivateLatest p := lift (pgr_ActivateLatest p) (pgr_ActivateLatest_schema p);
     repo_ListByTenant t d := pgr_ListByTenant t (`d);
     repo_Delete p := lift (pgr_Delete p) (pgr_Delete_schema p);
     repo_PurgeOldVersions p keep d := (lift (pgr_PurgeOldVersions p keep) (pgr_PurgeOldVersions_schema p keep) d).2 |}.
Next Obligation. intros. cbv beta in *. eapply lift_fails; [|eassumption]. apply pgr_Create_fails. Qed.
Next Obligation. intros. cbv beta in *. eapply lift_fails; [|eassumption]. apply pgr_CreateVersion_fails. Qed.
Next Obligation. intros. cbv beta in *. eapply lift_fails; [|eassumption]. apply pgr_CreateVersionActivateTx_fails. Qed.
Next Obligation. intros ? ? ? ? ? ? ? ? ? H. cbv beta in H. apply lift_eq in H. by eapply pgr_CreateVersionActivateTx_active. Qed.
Next Obligation. intros. cbv beta in *. eapply lift_fails; [|eassumption]. apply pgr_Activate_fails. Qed.
Next Obligation. intros ? ? ? ? ? ? ? ? ? ? ? H1 H2. cbv beta in H1, H2. apply lift_eq in H1, H2. by eapply pgr_Activate_created. Qed.
Next Obligation. intros p n r. apply pgr_Purge_active, schema_proof. Qed.
Next Obligation. intros ? ? ? H. cbv beta in H. apply lift_eq in H. by eapply pgr_Delete_inactive. Qed.
Next Obligation. intros. cbv beta in *. eapply lift_fails; [|eassumption]. apply pgr_ActivateLatest_fails. Qed.
Next Obligation. intros. cbv beta in *. eapply lift_fails; [|eassumption]. apply pgr_Delete_fails. Qed.
Next Obligation. intros t r infos info. apply pgr_List_active, schema_proof. Qed.

End Jsonb.

(** ** Retention *)

Lemma and_iff_under (A B C : Prop) : (A -> B <-> C) -> (A /\ B <-> A /\ C).
Proof. tauto. Qed.

#[local] Instance newest_first_trans : Transitive newest_first.
Proof. intros a b c. unfold newest_first. lia. Qed.
#[local] Instance newest_first_total : Total newest_first.
Proof. intros a b. unfold newest_first. lia. Qed.

Lemma elem_of_newest p s x : x ∈ newest p s <-> exists i, vers s !! i = Some x /\ ver_RulepackID x = p.
Proof.
  unfold newest. rewrite merge_sort_Permutation, in_values. unfold of_pack.
  setoid_rewrite map_lookup_filter_Some. done.
Qed.

Lemma newest_sorted p s : StronglySorted newest_first (newest p s).
Proof. apply Sorted_StronglySorted; [apply _|]. apply Sorted_merge_sort. apply _. Qed.

(** A retained version is newer than one that is not. *)
Lemma retained_newest p keep s i j x y :
  schema_ok s -> vers s !! i = Some x -> vers s !! j = Some y -> ver_RulepackID y = p ->
  i ∈ retained p keep s -> j ∉ retained p keep s -> (ver_Version y < ver_Version x)%Z.
Proof.
  intros Hs Hi Hj Hy Hin Hnin. unfold retained in Hin, Hnin. set (n := Z.to_nat keep) in *.
  pose proof (newest_sorted p s) as Hsort. rewrite <-(take_drop n (newest p s)) in Hsort.
  apply list_elem_of_fmap in Hin as (x' & Hix & Hx').
  assert (Hn : x' ∈ newest p s) by (apply elem_of_take in Hx' as (k & Hk & _); by eapply list_elem_of_lookup_2).
  apply elem_of_newest in Hn as (k & Hk & Hp). destruct (fk_pack s Hs k x' Hk) as [Hid _].
  assert (x' = x) as -> by congruence.
  assert (Hyn : y ∈ newest p s) by (apply elem_of_newest; eauto).
  rewrite <-(take_drop n (newest p s)) in Hyn. apply elem_of_app in Hyn as [Hyt|Hyd].
  { exfalso. apply Hnin, list_elem_of_fmap. exists y. split; [|done]. by destruct (fk_pack s Hs j y Hj). }
  pose proof (StronglySorted_app_1_elem_of _ _ _ _ _ Hsort Hx' Hyd) as Hle. unfold newest_first in Hle.
  destruct (decide (ver_Version y = ver_Version x)) as [Heq|]; [|lia].
  exfalso. apply Hnin. rewrite (one_number s Hs j i y x Hj Hi); [|congruence|done].
  apply list_elem_of_fmap. eauto.
Qed.

Lemma retained_length p keep s : length (retained p keep s) = min (Z.to_nat keep) (size (of_pack p s)).
Proof.
  unfold retained. rewrite length_map, length_take. unfold newest.
  by rewrite (Permutation_length (merge_sort_Permutation newest_first _)), length_fmap, length_map_to_list.
Qed.

Lemma purged_spec p keep s i x :
  schema_ok s -> vers s !! i = Some x ->
  purged p keep s x = true <->
  ver_RulepackID x = p /\ i ∉ retained p keep s /\ exists q row, packs s !! q = Some row /\ current_version_id row <> Some i.
Proof.
  intros Hs Hi. destruct (fk_pack s Hs i x Hi) as [Hid _]. unfold purged. rewrite Hid, !andb_true_iff, bool_decide_eq_true.
  rewrite negb_true_iff, bool_decide_eq_false, existsb_values. setoid_rewrite negb_true_iff. setoid_rewrite bool_decide_eq_false.
  tauto.
Qed.

(** C29. Retention keeps what it must.  On a database that satisfies its
    constraints, purging a pack with a positive limit keeps its newest versions,
    as many as the limit allows, and never changes what any pack has active.
    When it succeeds, the versions that remain are exactly those of other packs,
    the newest ones, and those a pack points to; when it fails, nothing changed,
    and the reason is an old version that one pack points to and another does
    not. *)
Theorem pg_purge_exact (p : uuid) (keep : Z) (s : pg_rulepacks) :
  schema_ok s -> pg_error s = None -> (0 < keep)%Z ->
  length (retained p keep s) = min (Z.to_nat keep) (size (of_pack p s)) /\
  (forall i j x y, vers s !! i = Some x -> vers s !! j = Some y -> ver_RulepackID y = p ->
     i ∈ retained p keep s -> j ∉ retained p keep s -> (ver_Version y < ver_Version x)%Z) /\
  (forall q, pgr_GetActive q (pgr_PurgeOldVersions p keep s).2 = pgr_GetActive q s) /\
  match pgr_PurgeOldVersions p keep s with
  | (None, s') =>
      packs s' = packs s /\
      forall i x, vers s' !! i = Some x <->
        vers s !! i = Some x /\ (ver_RulepackID x <> p \/ i ∈ retained p keep s \/ referenced i s = true)
  | (Some _, s') =>
      s' = s /\ exists i x q row, vers s !! i = Some x /\ ver_RulepackID x = p /\ i ∉ retained p keep s /\
        referenced i s = true /\ packs s !! q = Some row /\ current_version_id row <> Some i
  end.
Proof.
  intros Hs Hup Hk. split; [apply retained_length|]. split; [intros i j x y; by apply retained_newest|].
  split; [intros q; by apply pgr_Purge_active|]. unfold pgr_PurgeOldVersions. rewrite (proj2 (Z.leb_gt keep 0)) by lia.
  destruct (delete_versions _ s) as [s'|e] eqn:E.
  - apply delete_versions_ok in E as (_ & Hr & ->). split; [done|]. intros i x. simpl. rewrite map_lookup_filter_Some. simpl.
    apply and_iff_under. intros Hi. pose proof (purged_spec p keep s i x Hs Hi) as Hspec.
    destruct (purged p keep s x) eqn:Ep.
    + destruct (proj1 Hspec eq_refl) as (? & ? & _). rewrite (Hr i x Hi Ep). split; [done|by intros [?|[?|?]]].
    + split; [intros _|done]. destruct (decide (ver_RulepackID x = p)) as [Hp|]; [|by left].
      destruct (decide (i ∈ retained p keep s)); [by right; left|]. right; right.
      destruct (fk_pack s Hs i x Hi) as [_ [row Hrow]]. apply referenced_spec. exists (ver_RulepackID x), row. split; [done|].
      destruct (decide (current_version_id row = Some i)) as [|Hne]; [done|]. exfalso.
      enough (false = true) by done. apply Hspec. eauto 10.
  - split; [done|]. unfold delete_versions in E. rewrite Hup in E. destruct (existsb _ _) eqn:Ex; [|done].
    apply existsb_exists in Ex as ([i x] & Hin%list_elem_of_In%elem_of_map_to_list & [Hd Href]%andb_true_iff). simpl in *.
    apply (purged_spec p keep s i x Hs Hin) in Hd as (? & ? & q & row & ? & ?). exists i, x, q, row. done.
Qed.

(** ** Versions by number *)

Lemma elem_of_numbered p n s x :
  x ∈ numbered p n s <-> exists i, vers s !! i = Some x /\ ver_RulepackID x = p /\ ver_Version x = n.
Proof.
  unfold numbered. rewrite list_elem_of_filter, in_values. unfold of_pack. setoid_rewrite map_lookup_filter_Some. naive_solver.
Qed.

Lemma pgr_GetVersion_row i x s :
  schema_ok s -> pg_error s = None -> vers s !! i = Some x ->
  pgr_GetVersion (ver_RulepackID x) (ver_Version x) s = Ok (ver_DSL x, ver_Status x).
Proof.
  intros Hs Hup Hi. unfold pgr_GetVersion. rewrite Hup.
  assert (Hx : x ∈ numbered (ver_RulepackID x) (ver_Version x) s) by (apply elem_of_numbered; eauto).
  destruct (numbered _ _ s) as [|y l] eqn:E; [set_solver|].
  assert (Hy : y ∈ numbered (ver_RulepackID x) (ver_Version x) s) by (rewrite E; left).
  apply elem_of_numbered in Hy as (j & Hj & Hp & Hv). rewrite (one_number s Hs j i y x Hj Hi Hp Hv) in Hj. congruence.
Qed.

Lemma pgr_CreateVersion_row jsonb id p v dsl st by_ now s id' s' :
  pgr_CreateVersion jsonb id p v dsl st by_ now s = (Ok id', s') ->
  pg_error s' = None /\ id' = id /\ packs s' = packs s /\ vers s !! id = None /\
  vers s' = <[id := new_version id p v (default dsl (jsonb dsl)) st by_ now]> (vers s).
Proof.
  unfold pgr_CreateVersion. destruct (insert_version _ _ _ _ _ _ _ _ _) as [s1|] eqn:E; [|done]. intros [= <- <-].
  apply pg_insert_version_ok in E as (text & row & Hj & _ & Hid & _ & Hup & ->). by rewrite Hj.
Qed.

(** Adding a version activates nothing. *)
Lemma pgr_CreateVersion_active jsonb id p v dsl st by_ now s id' s' q :
  schema_ok s -> pgr_CreateVersion jsonb id p v dsl st by_ now s = (Ok id', s') -> pgr_GetActive q s' = pgr_GetActive q s.
Proof.
  intros Hs E. assert (Hup : pg_error s = pg_error s').
  { unfold pgr_CreateVersion in E. destruct (insert_version _ _ _ _ _ _ _ _ _) as [s1|] eqn:Ei; [|done]. simplify_eq.
    by apply pg_insert_version_ok in Ei as (? & ? & _ & _ & _ & _ & _ & ->). }
  apply pgr_CreateVersion_row in E as (Hup' & _ & Hp & Hid & Hv). unfold pgr_GetActive. rewrite Hup, Hup', Hp, Hv.
  destruct (packs s !! q) as [row|] eqn:Hq; [|done]. simpl. destruct (current_version_id row) as [c|] eqn:Hc; [|done]. simpl.
  destruct (fk_current s Hs q row c Hq Hc) as [x Hx]. rewrite lookup_insert_ne; [done|congruence].
Qed.

Lemma pgr_ApproveVersion_row p v s s' :
  schema_ok s -> pgr_ApproveVersion p v s = (None, s') ->
  (exists dsl, pgr_GetVersion p v s = Ok (dsl, "draft"%string) /\ pgr_GetVersion p v s' = Ok (dsl, "approved"%string)) /\
  forall q, pgr_GetActive q s' = pgr_GetActive q s.
Proof.
  intros Hs E. assert (Hs' : schema_ok s') by (replace s' with (pgr_ApproveVersion p v s).2 by (by rewrite E); by apply pgr_ApproveVersion_schema).
  unfold pgr_ApproveVersion in E. destruct (pg_error s) eqn:Hup; [done|].
  destruct (existsb _ _) eqn:Ex; [|done]. injection E as <-. split.
  - apply existsb_values in Ex as (i & x & Hi & Hd). unfold is_draft in Hd. rewrite !andb_true_iff, !bool_decide_eq_true in Hd.
    destruct Hd as [[<- <-] Hst]. exists (ver_DSL x). rewrite (pgr_GetVersion_row i x s Hs Hup Hi), Hst. split; [done|].
    apply (pgr_GetVersion_row i (approve x) _ Hs'); [done|]. simpl. rewrite lookup_fmap, Hi. simpl.
    unfold is_draft. by rewrite !bool_decide_eq_true_2.
  - intros q. unfold pgr_GetActive. simpl. rewrite Hup. destruct (packs s !! q) as [row|]; [|done]. simpl.
    destruct (current_version_id row) as [c|]; [|done]. simpl. rewrite lookup_fmap. destruct (vers s !! c) as [x|]; [|done].
    simpl. by destruct (is_draft p v x).
Qed.

Lemma pgr_CreateVersionActivateTx_number jsonb id p v dsl by_ now s id' s' :
  pgr_CreateVersionActivateTx jsonb id p v dsl by_ now s = (Ok id', s') -> number_used p v s = false.
Proof.
  unfold pgr_CreateVersionActivateTx. destruct (insert_version _ _ _ _ _ _ _ _ _) as [s1|] eqn:E; [|done].
  intros _. by apply pg_insert_version_ok in E as (? & ? & _ & _ & _ & ? & _).
Qed.

Module PgWitnesses.
(** Objects are JSON; their normal form has no spaces. *)
Fixpoint squeeze (s : string) : string :=
  match s with
  | "" => ""
  | String c s => if bool_decide (c = " "%char) then squeeze s else String c (squeeze s)
  end%string.
Definition objects (s : string) : option string :=
  match s with String "{" _ => Some (squeeze s) | _ => None end%string.

Definition version (id pack : uuid) (n : Z) : rulepackVersion := new_version id pack n "{}" "approved" uuid_Nil 0.
Definition row (name : string) (current : option uuid) : pack_row :=
  {| row_tenant := "t"; row_name := name; row_desc := ""; current_version_id := current |}.

(** A pack with three versions, the oldest of them active, and a second pack. *)
Definition versions3 : gmap uuid rulepackVersion :=
  {[ "v1" := version "v1" "p" 1; "v2" := version "v2" "p" 2; "v3" := version "v3" "p" 3 ]}.
Definition one_pack : pg_rulepacks :=
  {| tenant_ids := {[ "t" ]}; packs := {[ "p" := row "mine" (Some "v1") ]}; vers := versions3; pg_error := None |}.
Definition two_packs : pg_rulepacks :=
  {| tenant_ids := {[ "t" ]}; packs := {[ "p" := row "mine" (Some "v1"); "q" := row "other" None ]}; vers := versions3;
     pg_error := None |}.

Lemma pg_purge_exact_witness :
  schema one_pack = true /\
  map fst (map_to_list (vers (pgr_PurgeOldVersions "p" 1 one_pack).2)) = ["v3"; "v1"]%string /\
  pgr_GetActive "p" (pgr_PurgeOldVersions "p" 1 one_pack).2 = pgr_GetActive "p" one_pack.
Proof.
  split; [vm_compute; reflexivity|]. split; [vm_compute; reflexivity|].
  assert (Hok : schema_ok one_pack) by (apply schema_spec; vm_compute; reflexivity).
  exact (proj1 (proj2 (proj2 (pg_purge_exact "p" 1 one_pack Hok eq_refl ltac:(lia)))) "p"%string).
Defined.

(** A second pack, of any tenant, makes the statement delete the version the
    first pack points to; the foreign key makes it fail, and nothing is purged. *)
Lemma purge_blocked :
  schema two_packs = true /\
  pgr_PurgeOldVersions "p" 1 two_packs = (Some (StoreError "purge old versions: violates foreign key constraint"), two_packs).
Proof. vm_compute. done. Qed.

(** A pack with an active version cannot be deleted. *)
Lemma active_pack_undeletable :
  (pgr_Delete "p" one_pack).1 = Err (StoreError "delete versions: violates foreign key constraint").
Proof. vm_compute. reflexivity. Qed.

(** A pack can be pointed to a version of another pack. *)
Lemma pg_foreign_version : pgr_GetActive "q" (pgr_Activate "q" "v3" two_packs).2 = Ok ("{}"%string, 3%Z).
Proof. vm_compute. reflexivity. Qed.

(** The column takes JSON only: a pack in YAML is not stored. *)
Lemma yaml_rejected :
  (pgr_CreateVersion objects "v9" "p" 4 "rules: []" "approved" uuid_Nil 0 one_pack).1 =
  Err (StoreError "create version: invalid input syntax for type json").
Proof. vm_compute. reflexivity. Qed.

(** What is announced is the checksum of the text that was sent, not of the
    normal form that is active. *)
Definition db : database := dexist one_pack (eq_refl : schema one_pack = true).
Definition svc : @RulepackService (postgres_repo objects) :=
  {| svc_repo := db : @repo (postgres_repo objects); svc_pub := true; svc_published := []; svc_audit := [] |}.
Definition after : @RulepackService (postgres_repo objects) :=
  (@CreateVersionActivate (postgres_repo objects) SvcWitnesses.plain_digest bare_platform None "v4" 0 "t" "p" 4 "{ }" svc).2.

Lemma checksum_of_other_text :
  map ru_ContentSHA256 (svc_published after) = ["{ }"]%string /\
  @repo_GetActive (postgres_repo objects) "p" (svc_repo after) = Ok ("{}"%string, 4%Z).
Proof. vm_compute. done. Qed.
End PgWitnesses.

(** The tenant of the REST endpoints is a constant that no migration inserts
    and no identifier of a created tenant equals: without it every pack is
    refused. *)
Lemma default_tenant_missing id n desc now s :
  defaultTenantID ∉ tenant_ids s -> is_ok (pgr_Create id defaultTenantID n desc now s).1 = false.
Proof.
  intros Ht. unfold pgr_Create. repeat case_match; try done. case_bool_decide; done.
Qed.
