(* ===== verification/AuditApi.v ===== *)
(** * AuditApi: the audit table and the audit endpoints

    src/internal/infrastructure/persistence/postgres/audits.go and
    src/internal/interfaces/http/api/audits.go, with the entries of
    src/internal/domain/models.go.  The table is the list of its rows; the
    statements fail while the database is down, and an identifier can be
    inserted once.  Rows are ordered by time, newest first; rows of the same
    time in some order.  [uuid.Parse], the JSON decoder and the format of times
    are arguments. *)

From Stdlib Require Import Ascii String.
From S2P Require Import Prelude GoString Unicode Repos Http.

Record AuditEntry := {
  ae_ID : uuid;
  ae_TenantID : option uuid;
  ae_ActorID : option uuid;
  ae_ActorType : string;
  ae_ActorEmail : string;
  ae_Action : string;
  ae_ObjectType : string;
  ae_ObjectID : uuid;
  ae_Before : string;
  ae_After : string;
  ae_Metadata : string;
  ae_CreatedAt : Z;
  ae_Hash : string;
  ae_PrevHash : string;
}.

(** ** The table *)

Record pg_audits := {
  entries : list AuditEntry;
  audits_down : option string;
}.

(** The columns of the INSERT; the time is the database's. *)
Definition stored (now : Z) (e : AuditEntry) : AuditEntry :=
  {| ae_ID := ae_ID e; ae_TenantID := ae_TenantID e; ae_ActorID := ae_ActorID e; ae_ActorType := ae_ActorType e;
     ae_ActorEmail := ae_ActorEmail e; ae_Action := ae_Action e; ae_ObjectType := ae_ObjectType e;
     ae_ObjectID := ae_ObjectID e; ae_Before := ae_Before e; ae_After := ae_After e; ae_Metadata := ae_Metadata e; ae_CreatedAt := now; ae_Hash := ae_Hash e;
     ae_PrevHash := ae_PrevHash e |}.

Definition audit_Create (now : Z) (e : AuditEntry) (s : pg_audits) : option string * pg_audits :=
  match audits_down s with
  | Some err => (Some ("create audit: " +:+ err), s)
  | None =>
    if existsb (fun x => bool_decide (ae_ID x = ae_ID e)) (entries s)
    then (Some "create audit: duplicate key value violates unique constraint", s)
    else (None, {| entries := entries s ++ [stored now e]; audits_down := audits_down s |})
  end.

Definition audit_Get (id : uuid) (s : pg_audits) : result string AuditEntry :=
  match audits_down s with
  | Some err => Err ("get audit: " +:+ err)
  | None => match filter (fun e => ae_ID e = id) (entries s) with
            | e :: _ => Ok e
            | [] => Err "get audit: no rows in result set"
            end
  end.

(** ORDER BY created_at DESC. *)
Definition newer (e1 e2 : AuditEntry) : Prop := (ae_CreatedAt e2 <= ae_CreatedAt e1)%Z.
#[export] Instance newer_dec e1 e2 : Decision (newer e1 e2).
Proof. unfold newer. apply _. Defined.

(** The limit the repository uses. *)
Definition audit_limit (limit : Z) : Z := if ((limit <=? 0) || (1000 <? limit))%Z then 100%Z else limit.

(** The page of the rows that a query selects, and their number. *)
Definition audit_page (sel : AuditEntry -> bool) (offset limit : Z) (s : pg_audits) :
    result string (list AuditEntry * Z) :=
  match audits_down s with
  | Some err => Err ("count audits: " +:+ err)
  | None =>
    let l := filter (fun e => sel e = true) (entries s) in
    Ok (take (Z.to_nat (audit_limit limit)) (drop (Z.to_nat offset) (merge_sort newer l)), Z.of_nat (List.length l))
  end.

Definition audit_ListByTenant (tenantID : uuid) : Z -> Z -> pg_audits -> result string (list AuditEntry * Z) :=
  audit_page (fun e => bool_decide (ae_TenantID e = Some tenantID)).
Definition audit_ListByObject (objectType : string) (objectID : uuid) : Z -> Z -> pg_audits -> result string (list AuditEntry * Z) :=
  audit_page (fun e => bool_decide (ae_ObjectType e = objectType) && bool_decide (ae_ObjectID e = objectID)).
Definition audit_ListByAction (action : string) : Z -> Z -> pg_audits -> result string (list AuditEntry * Z) :=
  audit_page (fun e => bool_decide (ae_Action e = action)).

(** ** Searching *)

Record AuditSearchRequest := {
  as_TenantID : option uuid;
  as_ActorID : option uuid;
  as_ActorEmail : string;
  as_Actions : list string;
  as_ObjectTypes : list string;
  as_ObjectID : option uuid;
  as_StartTime : option Z;
  as_EndTime : option Z;
  as_Limit : Z;
  as_Offset : Z;
}.

Record AuditSearchResponse := {
  ar_Events : list AuditEntry;
  ar_Count : Z;
  ar_HasMore : bool;
  ar_Limit : Z;
  ar_Offset : Z;
}.

(** The filters of the loop. *)
Definition audit_matches (req : AuditSearchRequest) (e : AuditEntry) : bool :=
  match as_ActorID req with
  | Some a => bool_decide (ae_ActorID e = Some a)
  | None => true
  end
  && (bool_decide (as_ActorEmail req = "") || Contains (ToLower (ae_ActorEmail e)) (ToLower (as_ActorEmail req)))
  && (bool_decide (as_Actions req = []) || existsb (EqualFold (ae_Action e)) (as_Actions req))
  && (bool_decide (as_ObjectTypes req = []) || existsb (EqualFold (ae_ObjectType e)) (as_ObjectTypes req))
  && match as_StartTime req with Some t => negb (ae_CreatedAt e <? t)%Z | None => true end
  && match as_EndTime req with Some t => negb (t <? ae_CreatedAt e)%Z | None => true end.

(** [filterAuditEvents]; slicing with bounds out of order would panic. *)
Definition filterAuditEvents (events : list AuditEntry) (req : AuditSearchRequest) : option (list AuditEntry) :=
  let filtered := filter (fun e => audit_matches req e = true) events in
  let n := Z.of_nat (List.length filtered) in
  if (n <? as_Offset req)%Z then Some []
  else
    let e := wrap64 (as_Offset req + as_Limit req) in
    let e := if (n <? e)%Z then n else e in
    if ((0 <=? as_Offset req) && (as_Offset req <=? e))%Z
    then Some (take (Z.to_nat (e - as_Offset req)) (drop (Z.to_nat (as_Offset req)) filtered))
    else None.

(** The limits and offsets the search uses. *)
Definition search_defaults (req : AuditSearchRequest) : AuditSearchRequest :=
  {| as_TenantID := as_TenantID req; as_ActorID := as_ActorID req; as_ActorEmail := as_ActorEmail req;
     as_Actions := as_Actions req; as_ObjectTypes := as_ObjectTypes req; as_ObjectID := as_ObjectID req;
     as_StartTime := as_StartTime req; as_EndTime := as_EndTime req;
     as_Limit := if ((as_Limit req <=? 0) || (1000 <? as_Limit req))%Z then 100%Z else as_Limit req;
     as_Offset := if (as_Offset req <? 0)%Z then 0%Z else as_Offset req |}.

Definition response (events : list AuditEntry) (limit offset : Z) : AuditSearchResponse :=
  {| ar_Events := events; ar_Count := Z.of_nat (List.length events);
     ar_HasMore := (Z.of_nat (List.length events) =? limit)%Z; ar_Limit := limit; ar_Offset := offset |}.

(** A limit of the query string within bounds, or the default. *)
Definition query_limit (v : string) (dflt max : Z) : Z :=
  if bool_decide (v = "") then dflt
  else match Atoi v with
       | Some l => if ((0 <? l) && (l <=? max))%Z then l else dflt
       | None => dflt
       end.

Section Handlers.
Context (uuid_Parse : string -> option uuid) (decode : string -> result string AuditSearchRequest) (rfc3339 : Z -> string).

(** The tenant of the query string, [uuid.Nil] without one. *)
Definition query_tenant (r : HttpRequest) : option uuid :=
  let v := Query r "tenant" in if bool_decide (v = "") then Some uuid_Nil else uuid_Parse v.

(** The events of a tenant; none for [uuid.Nil]. *)
Definition events_of (tenantID : uuid) (limit : Z) (s : pg_audits) : result string (list AuditEntry) :=
  if bool_decide (tenantID = uuid_Nil) then Ok []
  else match audit_ListByTenant tenantID 0 limit s with Ok (l, _) => Ok l | Err e => Err e end.

Definition listAuditEventsHandler (repo : option pg_audits) (r : HttpRequest) : Reply AuditSearchResponse :=
  match repo with
  | None => Failure 501 "NOT_IMPLEMENTED"
  | Some s =>
    match query_tenant r with
    | None => Failure 400 "INVALID_ARGUMENT"
    | Some tenantID =>
      let limit := query_limit (Query r "limit") 100 1000 in
      match events_of tenantID limit s with
      | Err _ => Failure 500 "INTERNAL_ERROR"
      | Ok l => Answer 200 (response l limit 0)
      end
    end
  end.

(** The events the search starts from. *)
Definition search_events (req : AuditSearchRequest) (s : pg_audits) : result string (list AuditEntry * Z) :=
  match as_TenantID req, as_ObjectID req, as_ObjectTypes req with
  | Some t, _, _ => audit_ListByTenant t 0 (as_Limit req) s
  | None, Some o, ty :: _ => audit_ListByObject ty o 0 (as_Limit req) s
  | _, _, _ => Ok ([], 0%Z)
  end.

(** [None] is a panic. *)
Definition searchAuditEventsHandler (repo : option pg_audits) (r : HttpRequest) : option (Reply AuditSearchResponse) :=
  match repo with
  | None => Some (Failure 501 "NOT_IMPLEMENTED")
  | Some s =>
    match decode (RawBody r) with
    | Err _ => Some (Failure 400 "INVALID_REQUEST")
    | Ok req =>
      let req := search_defaults req in
      let reversed := match as_StartTime req, as_EndTime req with Some a, Some b => (b <? a)%Z | _, _ => false end in
      if reversed then Some (Failure 400 "INVALID_ARGUMENT")
      else match search_events req s with
           | Err _ => Some (Failure 500 "INTERNAL_ERROR")
           | Ok (events, _) =>
             l ← filterAuditEvents events req; Some (Answer 200 (response l (as_Limit req) (as_Offset req)))
           end
    end
  end.

Definition getAuditEventsByObjectHandler (repo : option pg_audits) (r : HttpRequest) : Reply AuditSearchResponse :=
  match repo with
  | None => Failure 501 "NOT_IMPLEMENTED"
  | Some s =>
    let objectType := URLParam r "type" in
    if bool_decide (objectType = "") then Failure 400 "INVALID_ARGUMENT"
    else match uuid_Parse (URLParam r "objectId") with
         | None => Failure 400 "INVALID_ARGUMENT"
         | Some objectID =>
           let limit := query_limit (Query r "limit") 100 1000 in
           match audit_ListByObject objectType objectID 0 limit s with
           | Err _ => Failure 500 "INTERNAL_ERROR"
           | Ok (l, _) => Answer 200 (response l limit 0)
           end
         end
  end.

(** ** Exporting *)

Definition newline : string := String (of_byte 10) "".

Definition csv_header : string := "timestamp,action,object_type,object_id,actor_email,tenant_id" +:+ newline.
Definition csv_line (e : AuditEntry) : string :=
  rfc3339 (ae_CreatedAt e) +:+ "," +:+ ae_Action e +:+ "," +:+ ae_ObjectType e +:+ "," +:+ ae_ObjectID e +:+ "," +:+
  ae_ActorEmail e +:+ "," +:+ default "" (ae_TenantID e) +:+ newline.
Fixpoint csv_lines (l : list AuditEntry) : string := match l with [] => "" | e :: l => csv_line e +:+ csv_lines l end.

(** What is exported, with the count of the header. *)
Inductive export :=
  | ExportJSON (count : Z) (events : list AuditEntry)
  | ExportCSV (count : Z) (text : string).

Definition exportAuditEventsHandler (repo : option pg_audits) (r : HttpRequest) : Reply export :=
  match repo with
  | None => Failure 501 "NOT_IMPLEMENTED"
  | Some s =>
    let format := if bool_decide (Query r "format" = "") then "json" else Query r "format" in
    if negb (bool_decide (format = "json")) && negb (bool_decide (format = "csv")) then Failure 400 "INVALID_ARGUMENT"
    else match query_tenant r with
         | None => Failure 400 "INVALID_ARGUMENT"
         | Some tenantID =>
           let limit := query_limit (Query r "limit") 10000 50000 in
           match events_of tenantID limit s with
           | Err _ => Failure 500 "INTERNAL_ERROR"
           | Ok l =>
             let n := Z.of_nat (List.length l) in
             Answer 200 (if bool_decide (format = "json") then ExportJSON n l else ExportCSV n (csv_header +:+ csv_lines l))
           end
         end
  end.

(** ** What a search finds *)

(** The rows a search is about. *)
Definition searched (req : AuditSearchRequest) (e : AuditEntry) : bool :=
  match as_TenantID req, as_ObjectID req, as_ObjectTypes req with
  | Some t, _, _ => bool_decide (ae_TenantID e = Some t)
  | None, Some o, ty :: _ => bool_decide (ae_ObjectType e = ty) && bool_decide (ae_ObjectID e = o)
  | _, _, _ => false
  end.

Definition rows_of (req : AuditSearchRequest) (s : pg_audits) : list AuditEntry :=
  filter (fun e => searched req e = true) (entries s).

#[local] Instance newer_trans : Transitive newer.
Proof. unfold newer. intros a b c. lia. Qed.
#[local] Instance newer_total : Total newer.
Proof. unfold newer. intros a b. lia. Qed.

Lemma StronglySorted_sublist {A} (R : A -> A -> Prop) l k : l `sublist_of` k -> StronglySorted R k -> StronglySorted R l.
Proof.
  induction 1 as [|x l k Hs IH|x l k Hs IH]; intros Hk; [constructor| |];
    apply StronglySorted_inv in Hk as [Hk Hx].
  - constructor; [by apply IH|]. apply Forall_forall. intros y Hy. rewrite Forall_forall in Hx. apply Hx.
    by eapply elem_of_sublist.
  - by apply IH.
Qed.

(** The first rows of the search, newest first. *)
Definition first_rows (req : AuditSearchRequest) (s : pg_audits) : list AuditEntry :=
  take (Z.to_nat (as_Limit req)) (merge_sort newer (rows_of req s)).

Lemma filter_none {A} (P : A -> Prop) `{!forall x, Decision (P x)} l : (forall x, ~ P x) -> filter P l = [].
Proof. intros HP. induction l as [|x l IH]; [done|]. by rewrite filter_cons_False. Qed.

Lemma search_events_spec req s :
  audits_down s = None -> (0 < as_Limit req <= 1000)%Z -> exists n, search_events req s = Ok (first_rows req s, n).
Proof.
  intros Hd Hl. assert (Hlim : audit_limit (as_Limit req) = as_Limit req) by (unfold audit_limit; case_if; lia).
  unfold search_events, audit_ListByTenant, audit_ListByObject, audit_page, first_rows, rows_of, searched. rewrite Hd, Hlim.
  assert (Hno : forall n, take n (merge_sort newer (filter (fun _ => false = true) (entries s))) = []).
  { intros n. rewrite (filter_none (fun _ : AuditEntry => false = true)) by done. by destruct n. }
  destruct (as_TenantID req); [by eexists|]. destruct (as_ObjectID req); [|eexists; by rewrite Hno].
  destruct (as_ObjectTypes req); [eexists; by rewrite Hno|by eexists].
Qed.

(** [filterAuditEvents] is the page of the matching events. *)
Lemma filterAuditEvents_spec events req :
  (0 < as_Limit req <= 1000)%Z -> (0 <= as_Offset req < 2 ^ 63)%Z -> (Z.of_nat (List.length events) <= 1000)%Z ->
  filterAuditEvents events req =
  Some (take (Z.to_nat (as_Limit req)) (drop (Z.to_nat (as_Offset req)) (filter (fun e => audit_matches req e = true) events))).
Proof.
  intros Hl Ho Hn. unfold filterAuditEvents. set (fl := filter _ events).
  assert (Hf : (Z.of_nat (List.length fl) <= 1000)%Z).
  { assert (List.length fl <= List.length events); [apply sublist_length, sublist_filter|lia]. }
  destruct (_ <? _)%Z eqn:E.
  - rewrite drop_ge by lia. by rewrite take_nil.
  - rewrite wrap64_id by (unfold int64_range; lia). set (n := Z.of_nat (List.length fl)) in *.
    assert (Hguard : ((0 <=? as_Offset req) && (as_Offset req <=? (if n <? as_Offset req + as_Limit req then n else as_Offset req + as_Limit req)))%Z = true)
      by (case_if; lia).
    rewrite Hguard. f_equal. case_if; [|f_equal; lia].
    rewrite !take_ge; [done| |]; rewrite length_drop; lia.
Qed.

(** Searching the audit trail is exact on the rows it looks at.  A request
    that decodes, with its limit and offset brought into bounds and its times in
    order, is answered (no bounds of the slice are ever out of order): with at
    most the limit of events, newest first, each a row of the tenant or object
    asked for that passes every filter; and from offset 0, when there are no
    more rows of that tenant or object than the limit, with all of them that
    pass. *)
Theorem audit_search_exact (s : pg_audits) (r : HttpRequest) (req : AuditSearchRequest) :
  decode (RawBody r) = Ok req -> audits_down s = None -> (as_Offset req < 2 ^ 63)%Z ->
  (forall a b, as_StartTime req = Some a -> as_EndTime req = Some b -> (a <= b)%Z) ->
  let q := search_defaults req in
  exists l, searchAuditEventsHandler (Some s) r = Some (Answer 200 (response l (as_Limit q) (as_Offset q))) /\
    (Z.of_nat (List.length l) <= as_Limit q <= 1000)%Z /\ (0 < as_Limit q)%Z /\ StronglySorted newer l /\
    (forall e, e ∈ l -> e ∈ entries s /\ searched q e = true /\ audit_matches q e = true) /\
    (as_Offset q = 0%Z -> (Z.of_nat (List.length (rows_of q s)) <= as_Limit q)%Z ->
     forall e, e ∈ entries s -> searched q e = true -> audit_matches q e = true -> e ∈ l).
Proof.
  intros Hdec Hd Hoff Htimes q.
  assert (Hl : (0 < as_Limit q <= 1000)%Z) by (unfold q, search_defaults; simpl; case_if; lia).
  assert (Ho : (0 <= as_Offset q < 2 ^ 63)%Z) by (unfold q, search_defaults; simpl; case_if; lia).
  destruct (search_events_spec q s Hd Hl) as [n He].
  assert (Hlen : (Z.of_nat (List.length (first_rows q s)) <= as_Limit q)%Z)
    by (unfold first_rows; rewrite length_take; lia).
  pose proof (filterAuditEvents_spec (first_rows q s) q Hl Ho ltac:(lia)) as Hf.
  set (l := take _ (drop _ (filter _ (first_rows q s)))) in Hf. exists l.
  assert (Hsub : l `sublist_of` first_rows q s)
    by (unfold l; etrans; [apply sublist_take|etrans; [apply sublist_drop|apply sublist_filter]]).
  assert (Hrows : forall e, e ∈ first_rows q s -> e ∈ rows_of q s).
  { intros e. unfold first_rows. intros Hin. rewrite <-(merge_sort_Permutation newer). by eapply elem_of_sublist, sublist_take. }
  split_and!; [|unfold l; rewrite length_take; lia|lia|lia| | |].
  - unfold searchAuditEventsHandler. rewrite Hdec. fold q.
    assert (Hrev : match as_StartTime q, as_EndTime q with Some a, Some b => (b <? a)%Z | _, _ => false end = false).
    { unfold q; simpl. destruct (as_StartTime req) as [a|]; [|done]. destruct (as_EndTime req) as [b|]; [|done].
      specialize (Htimes a b eq_refl eq_refl). lia. }
    rewrite Hrev, He, Hf. reflexivity.
  - eapply StronglySorted_sublist; [exact Hsub|]. unfold first_rows.
    eapply StronglySorted_sublist; [apply sublist_take|]. apply StronglySorted_merge_sort; apply _.
  - intros e Hin. assert (He1 : e ∈ first_rows q s) by (by eapply elem_of_sublist).
    apply Hrows in He1. unfold rows_of in He1. apply list_elem_of_filter in He1 as [Hse Hent]. split_and!; [done|done|].
    assert (Hm : e ∈ filter (fun e => audit_matches q e = true) (first_rows q s)).
    { unfold l in Hin. eapply elem_of_sublist; [exact Hin|]. etrans; [apply sublist_take|apply sublist_drop]. }
    by apply list_elem_of_filter in Hm as [? _].
  - intros Hz Hall e Hent Hse Hm. unfold l. rewrite Hz. change (Z.to_nat 0) with 0. rewrite drop_0.
    assert (Hfr : first_rows q s = merge_sort newer (rows_of q s)).
    { unfold first_rows. apply take_ge. rewrite (merge_sort_Permutation newer). lia. }
    rewrite take_ge; [|assert (List.length (filter (fun e => audit_matches q e = true) (first_rows q s)) <= List.length (first_rows q s));
      [apply sublist_length, sublist_filter|lia]].
    apply list_elem_of_filter. split; [done|]. rewrite Hfr, merge_sort_Permutation. apply list_elem_of_filter. done.
Qed.
End Handlers.

(** ** Where the endpoints fall short *)

(** Only the first page of rows is fetched, and the offset is applied to it:
    a search with an offset of at least its limit finds nothing. *)
Lemma second_page_empty s req :
  let q := search_defaults req in
  (as_Limit q <= as_Offset q < 2 ^ 63)%Z -> filterAuditEvents (first_rows q s) q = Some [].
Proof.
  intros q Ho. assert (Hl : (0 < as_Limit q <= 1000)%Z) by (unfold q, search_defaults; simpl; case_if; lia).
  assert (Hlen : (Z.of_nat (List.length (first_rows q s)) <= as_Limit q)%Z)
    by (unfold first_rows; rewrite length_take; lia).
  rewrite filterAuditEvents_spec by lia. rewrite drop_ge; [by rewrite take_nil|].
  assert (List.length (filter (fun e => audit_matches q e = true) (first_rows q s)) <= List.length (first_rows q s));
    [apply sublist_length, sublist_filter|lia].
Qed.

(** An export asks for 10000 events, or up to 50000, and the repository turns
    every limit over 1000 into 100: by default an export has at most 100. *)
Lemma export_truncated tenantID limit s l :
  (1000 < limit)%Z -> events_of tenantID limit s = Ok l -> List.length l <= 100.
Proof.
  intros Hl. unfold events_of. case_bool_decide; [by intros [= <-]; simpl; lia|].
  unfold audit_ListByTenant, audit_page, audit_limit. destruct (audits_down s); [done|].
  assert (((limit <=? 0) || (1000 <? limit))%Z = true) as -> by lia. intros [= <-]. rewrite length_take. lia.
Qed.

(** The columns of the INSERT, and those the migrations create. *)
Definition insert_columns : list string :=
  ["id"; "tenant_id"; "actor_id"; "actor_type"; "actor_email"; "action"; "object_type"; "object_id"; "before_data";
   "after_data"; "metadata"; "hash"; "prev_hash"].
Definition migrated_columns : list string :=
  ["id"; "tenant_id"; "actor_id"; "action"; "object_type"; "object_id"; "diff"; "created_at"; "actor_email"; "metadata"].

(** Five columns do not exist: with the schema of the migrations every
    statement on the table fails. *)
Lemma missing_columns :
  filter (fun c => c ∉ migrated_columns) insert_columns = ["actor_type"; "before_data"; "after_data"; "hash"; "prev_hash"].
Proof. vm_compute. reflexivity. Qed.

(** ** Concrete requests *)

Module AuditApiWitnesses.
Definition entry (id : string) (tenant : option uuid) (object action email : string) (at_ : Z) : AuditEntry :=
  {| ae_ID := id; ae_TenantID := tenant; ae_ActorID := None; ae_ActorType := "user"; ae_ActorEmail := email;
     ae_Action := action; ae_ObjectType := "policy"; ae_ObjectID := object; ae_Before := ""; ae_After := "";
     ae_Metadata := ""; ae_CreatedAt := at_; ae_Hash := ""; ae_PrevHash := "" |}.
Definition table : pg_audits :=
  {| entries := [entry "1" (Some "t") "o1" "policy.create" "Ann@example.com" 1;
                 entry "2" (Some "t") "o2" "policy.create" "bob@example.com" 2;
                 entry "3" (Some "u") "o1" "policy.delete" "ann@example.com" 3;
                 entry "4" (Some "t") "o1" "policy.delete" "ann@example.com" 4];
     audits_down := None |}.
Definition search : AuditSearchRequest :=
  {| as_TenantID := Some "t"; as_ActorID := None; as_ActorEmail := "ANN@"; as_Actions := []; as_ObjectTypes := [];
     as_ObjectID := Some "o2"; as_StartTime := None; as_EndTime := Some 4%Z; as_Limit := 0; as_Offset := 0 |}.
Definition decode_search (_ : string) : result string AuditSearchRequest := Ok search.
Definition get_audits (query : list (string * string)) : HttpRequest := request "GET" "/v1/admin/audits" [] query [] "".

Lemma audit_search_exact_witness :
  exists l, searchAuditEventsHandler decode_search (Some table) (get_audits []) = Some (Answer 200 (response l 100 0)) /\
    StronglySorted newer l /\ entry "4" (Some "t") "o1" "policy.delete" "ann@example.com" 4 ∈ l.
Proof.
  destruct (audit_search_exact decode_search table (get_audits []) search) as (l & Hl & _ & _ & Hs & _ & Hc);
    [reflexivity|reflexivity|simpl; lia|discriminate|].
  exists l. split; [exact Hl|]. split; [exact Hs|]. apply Hc; [reflexivity|vm_compute; discriminate| |vm_compute; reflexivity..].
  apply list_elem_of_In. simpl. tauto.
Defined.

(** The object of a search is ignored when the tenant is given: both events
    found are about another object. *)
Lemma search_ignores_object :
  map ae_ObjectID <$> (filterAuditEvents (first_rows (search_defaults search) table) (search_defaults search)) = Some ["o1"; "o1"].
Proof. vm_compute. reflexivity. Qed.

(** Fields are not quoted: an e-mail address with a line break adds a line of
    its own to the export. *)
Lemma csv_forged_row :
  let forged := "x,t" +:+ newline +:+ "now,tenant.delete,policy,t9,root@example.com" in
  csv_lines (fun _ => "now") [entry "1" (Some "t") "o" "login" forged 0] =
  csv_lines (fun _ => "now") [entry "1" (Some "t") "o" "login" "x" 0; entry "2" (Some "t") "t9" "tenant.delete" "root@example.com" 0].
Proof. vm_compute. reflexivity. Qed.
End AuditApiWitnesses.
