(* ===== verification/Tenants.v ===== *)
(** * Tenants: the tenants table, its cache and the tenant endpoints

    src/internal/infrastructure/persistence/postgres/tenants.go,
    redis_tenant_cache.go and src/internal/interfaces/http/api/tenants.go.
    The table is a finite map of its rows with the unique constraints of
    src/migrations; every statement fails while the database is down.  Redis is
    a finite map from keys to values, which are kept decoded: a tenant, or the
    identifier a name maps to; commands are ignored, and reads miss, while it is
    down.  Times have the precision of the database.  The endpoints are written
    against the interface [TenantRepository], which the table and the cached
    table implement. *)

From Stdlib Require Import Ascii String.
From S2P Require Import Prelude GoString Repos Http AuditApi.

Record Tenant := {
  tn_ID : uuid;
  tn_Name : string;
  tn_Status : string;
  tn_Metadata : string;
  tn_CreatedAt : Z;
  tn_UpdatedAt : Z;
}.

#[export] Instance Tenant_eq_dec : EqDecision Tenant.
Proof. solve_decision. Defined.

Definition TenantStatusActive : string := "active".

(** The zero [time.Time]. *)
Definition time_zero : Z := 0.

(** The canonical text of an identifier: hexadecimal digits and hyphens. *)
Definition id_char (c : ascii) : bool :=
  is_digit_byte c || ((97 <=? byte_of c) && (byte_of c <=? 102))%Z || (byte_of c =? 45)%Z.
Definition canonical (i : uuid) : bool := forallb_str id_char i.

(** ** The table *)

Record pg_tenants := {
  rows : gmap uuid Tenant;
  pg_down : option string;
}.

Definition with_rows (m : gmap uuid Tenant) (s : pg_tenants) : pg_tenants := {| rows := m; pg_down := pg_down s |}.

Definition unique_violation : string := "duplicate key value violates unique constraint".
Definition tenant_not_found : string := "tenant not found".

(** A row that is not [i] has the name. *)
Definition name_taken (i : uuid) (n : string) (m : gmap uuid Tenant) : bool :=
  bool_decide (map_Exists (fun j t => j <> i /\ tn_Name t = n) m).

(** The rows with the name; there is at most one. *)
Definition named (n : string) (m : gmap uuid Tenant) : list Tenant :=
  filter (fun t => tn_Name t = n) (map_to_list m).*2.

(** The defaults [Create] fills in; [id] and [now] are drawn. *)
Definition fill_tenant (id : uuid) (now : Z) (t : Tenant) : Tenant :=
  {| tn_ID := if bool_decide (tn_ID t = uuid_Nil) then id else tn_ID t; tn_Name := tn_Name t;
     tn_Status := if bool_decide (tn_Status t = "") then TenantStatusActive else tn_Status t;
     tn_Metadata := tn_Metadata t;
     tn_CreatedAt := if (tn_CreatedAt t =? time_zero)%Z then now else tn_CreatedAt t;
     tn_UpdatedAt := if (tn_UpdatedAt t =? time_zero)%Z then now else tn_UpdatedAt t |}.

(** INSERT INTO tenants. *)
Definition pg_Create (id : uuid) (now : Z) (t : Tenant) (s : pg_tenants) : option string * Tenant * pg_tenants :=
  let t := fill_tenant id now t in
  match pg_down s with
  | Some e => (Some ("create tenant: " +:+ e), t, s)
  | None =>
    if bool_decide (is_Some (rows s !! tn_ID t)) || name_taken (tn_ID t) (tn_Name t) (rows s)
    then (Some ("create tenant: " +:+ unique_violation), t, s)
    else (None, t, with_rows (<[tn_ID t := t]> (rows s)) s)
  end.

(** SELECT ... WHERE id = $1. *)
Definition pg_Get (id : uuid) (s : pg_tenants) : result string Tenant :=
  match pg_down s with
  | Some e => Err ("get tenant: " +:+ e)
  | None => match rows s !! id with Some t => Ok t | None => Err tenant_not_found end
  end.

(** SELECT ... WHERE name = $1. *)
Definition pg_GetByName (n : string) (s : pg_tenants) : result string Tenant :=
  match pg_down s with
  | Some e => Err ("get tenant by name: " +:+ e)
  | None => match named n (rows s) with t :: _ => Ok t | [] => Err tenant_not_found end
  end.

(** SELECT ... ORDER BY name LIMIT OFFSET, with the count of all rows. *)
Definition name_le (t1 t2 : Tenant) : Prop := String.leb (tn_Name t1) (tn_Name t2) = true.
#[export] Instance name_le_dec t1 t2 : Decision (name_le t1 t2).
Proof. unfold name_le. apply _. Defined.

Definition pg_List (offset limit : Z) (s : pg_tenants) : result string (list Tenant * Z) :=
  let limit := if ((limit <=? 0) || (1000 <? limit))%Z then 100%Z else limit in
  match pg_down s with
  | Some e => Err ("count tenants: " +:+ e)
  | None => Ok (take (Z.to_nat limit) (drop (Z.to_nat offset) (merge_sort name_le (map_to_list (rows s)).*2)),
                Z.of_nat (size (rows s)))
  end.

(** UPDATE tenants SET name, status, metadata, updated_at: the trigger
    [update_tenants_updated_at] of the schema replaces the time the statement
    gives by the clock of the database. *)
Definition set_row (db_now : Z) (t row : Tenant) : Tenant :=
  {| tn_ID := tn_ID row; tn_Name := tn_Name t; tn_Status := tn_Status t; tn_Metadata := tn_Metadata t;
     tn_CreatedAt := tn_CreatedAt row; tn_UpdatedAt := db_now |}.

Definition touched (now : Z) (t : Tenant) : Tenant :=
  {| tn_ID := tn_ID t; tn_Name := tn_Name t; tn_Status := tn_Status t; tn_Metadata := tn_Metadata t;
     tn_CreatedAt := tn_CreatedAt t; tn_UpdatedAt := now |}.

Definition pg_Update (db_now now : Z) (t : Tenant) (s : pg_tenants) : option string * Tenant * pg_tenants :=
  let t := touched now t in
  match pg_down s with
  | Some e => (Some ("update tenant: " +:+ e), t, s)
  | None =>
    match rows s !! tn_ID t with
    | None => (Some tenant_not_found, t, s)
    | Some row =>
      if name_taken (tn_ID t) (tn_Name t) (rows s) then (Some ("update tenant: " +:+ unique_violation), t, s)
      else (None, t, with_rows (<[tn_ID t := set_row db_now t row]> (rows s)) s)
    end
  end.

(** DELETE FROM tenants. *)
Definition pg_Delete (id : uuid) (s : pg_tenants) : option string * pg_tenants :=
  match pg_down s with
  | Some e => (Some ("delete tenant: " +:+ e), s)
  | None =>
    match rows s !! id with
    | None => (Some tenant_not_found, s)
    | Some _ => (None, with_rows (delete id (rows s)) s)
    end
  end.

(** ** The cache *)

Inductive cached :=
  | CTenant (t : Tenant)
  | CId (i : uuid).

Record RedisTenantRepository := {
  pg : pg_tenants;
  redis : gmap string cached;
  redis_up : bool;
}.

Definition tenantKey (id : uuid) : string := "tenant:" +:+ id.
Definition tenantNameKey (name : string) : string := "tenant:name:" +:+ name.

Definition with_pg (p : pg_tenants) (s : RedisTenantRepository) : RedisTenantRepository :=
  {| pg := p; redis := redis s; redis_up := redis_up s |}.
Definition with_redis (m : gmap string cached) (s : RedisTenantRepository) : RedisTenantRepository :=
  if redis_up s then {| pg := pg s; redis := m; redis_up := redis_up s |} else s.

(** GET of Redis. *)
Definition redis_Get (k : string) (s : RedisTenantRepository) : option cached :=
  if redis_up s then redis s !! k else None.

Definition cacheTenant (t : Tenant) (s : RedisTenantRepository) : RedisTenantRepository :=
  with_redis (<[tenantNameKey (tn_Name t) := CId (tn_ID t)]> (<[tenantKey (tn_ID t) := CTenant t]> (redis s))) s.

Definition invalidateTenant (id : uuid) (name : string) (s : RedisTenantRepository) : RedisTenantRepository :=
  with_redis (let m := delete (tenantKey id) (redis s) in
              if bool_decide (name = "") then m else delete (tenantNameKey name) m) s.

Definition redis_Create (id : uuid) (now : Z) (t : Tenant) (s : RedisTenantRepository) :
    option string * Tenant * RedisTenantRepository :=
  match pg_Create id now t (pg s) with
  | (Some e, t, p) => (Some e, t, with_pg p s)
  | (None, t, p) => (None, t, cacheTenant t (with_pg p s))
  end.

Definition redis_Get_tenant (id : uuid) (s : RedisTenantRepository) : result string Tenant * RedisTenantRepository :=
  match redis_Get (tenantKey id) s with
  | Some (CTenant t) => (Ok t, s)
  | _ =>
    match pg_Get id (pg s) with
    | Err e => (Err e, s)
    | Ok t => (Ok t, cacheTenant t s)
    end
  end.

Definition redis_GetByName (n : string) (s : RedisTenantRepository) : result string Tenant * RedisTenantRepository :=
  match redis_Get (tenantNameKey n) s with
  | Some (CId id) => redis_Get_tenant id s
  | _ =>
    match pg_GetByName n (pg s) with
    | Err e => (Err e, s)
    | Ok t => (Ok t, cacheTenant t s)
    end
  end.

Definition redis_Update (db_now now : Z) (t : Tenant) (s : RedisTenantRepository) :
    option string * Tenant * RedisTenantRepository :=
  match pg_Update db_now now t (pg s) with
  | (Some e, t, p) => (Some e, t, with_pg p s)
  | (None, t, p) => (None, t, cacheTenant t (invalidateTenant (tn_ID t) (tn_Name t) (with_pg p s)))
  end.

Definition redis_Delete (id : uuid) (s : RedisTenantRepository) : option string * RedisTenantRepository :=
  match pg_Get id (pg s) with
  | Err e => (Some e, s)
  | Ok t =>
    match pg_Delete id (pg s) with
    | (Some e, p) => (Some e, with_pg p s)
    | (None, p) => (None, invalidateTenant id (tn_Name t) (with_pg p s))
    end
  end.

(** ** What both promise *)

(** Two tenants that differ at most in the time of their last update. *)
Definition same_tenant (t u : Tenant) : Prop := touched 0 t = touched 0 u.

#[export] Instance same_tenant_equivalence : Equivalence same_tenant.
Proof. unfold same_tenant. split; red; congruence. Qed.

Lemma same_tenant_fields t u :
  same_tenant t u -> tn_ID t = tn_ID u /\ tn_Name t = tn_Name u /\ tn_Status t = tn_Status u /\
    tn_Metadata t = tn_Metadata u /\ tn_CreatedAt t = tn_CreatedAt u.
Proof. by intros [=]. Qed.

Lemma touched_same now t u : same_tenant t u -> same_tenant (touched now t) u.
Proof. done. Qed.

(** The row, up to the time of its last update. *)
Definition shows (m : gmap uuid Tenant) (i : uuid) (t : Tenant) : Prop :=
  exists row, m !! i = Some row /\ same_tenant t row.

Record table_ok (m : gmap uuid Tenant) : Prop := {
  row_ids : forall i t, m !! i = Some t -> tn_ID t = i /\ canonical i = true;
  row_names : forall i j t u, m !! i = Some t -> m !! j = Some u -> tn_Name t = tn_Name u -> i = j;
}.

(** The repository of tenants as its clients see it: a table of rows that may
    be out of reach.  Reading a name finds the row that has it; it may also
    find a row that once had it.  What is read may carry another time of its
    last update than the row. *)
Class TenantRepository := {
  trepo : Type;
  t_ok : trepo -> Prop;
  t_rows : trepo -> gmap uuid Tenant;
  t_Create : uuid -> Z -> Tenant -> trepo -> option string * Tenant * trepo;
  t_Get : uuid -> trepo -> result string Tenant * trepo;
  t_GetByName : string -> trepo -> result string Tenant * trepo;
  t_List : Z -> Z -> trepo -> result string (list Tenant * Z) * trepo;
  t_Delete : uuid -> trepo -> option string * trepo;
  t_ok_table : forall s, t_ok s -> table_ok (t_rows s);
  t_Create_spec : forall id now t s e t' s',
    t_ok s -> canonical (tn_ID (fill_tenant id now t)) = true -> t_Create id now t s = (e, t', s') ->
    t_ok s' /\ t' = fill_tenant id now t /\
    match e with
    | None => t_rows s !! tn_ID t' = None /\ t_rows s' = <[tn_ID t' := t']> (t_rows s)
    | Some _ => t_rows s' = t_rows s
    end;
  t_Get_spec : forall id s r s',
    t_ok s -> canonical id = true -> t_Get id s = (r, s') ->
    t_ok s' /\ t_rows s' = t_rows s /\ (forall t, r = Ok t -> shows (t_rows s) id t);
  t_GetByName_spec : forall n s r s',
    t_ok s -> t_GetByName n s = (r, s') ->
    t_ok s' /\ t_rows s' = t_rows s /\ (forall t, r = Ok t -> shows (t_rows s) (tn_ID t) t) /\
    (forall i t u, t_rows s !! i = Some t -> tn_Name t = n -> r = Ok u -> same_tenant u t);
  t_List_spec : forall offset limit s r s', t_List offset limit s = (r, s') -> s' = s;
  t_Delete_spec : forall id s e s',
    t_ok s -> canonical id = true -> t_Delete id s = (e, s') ->
    t_ok s' /\ match e with
               | None => is_Some (t_rows s !! id) /\ t_rows s' = delete id (t_rows s)
               | Some _ => t_rows s' = t_rows s
               end;
}.

(** *** The table *)

Lemma name_taken_false i n m :
  name_taken i n m = false -> forall j t, m !! j = Some t -> tn_Name t = n -> j = i.
Proof.
  unfold name_taken. intros Hn j t Hj Ht. apply bool_decide_eq_false in Hn.
  destruct (decide (j = i)) as [|Hji]; [done|]. destruct Hn. by exists j, t.
Qed.

Lemma insert_row_ok i t m :
  table_ok m -> tn_ID t = i -> canonical i = true -> name_taken i (tn_Name t) m = false -> table_ok (<[i := t]> m).
Proof.
  intros [Hids Hnames] Hi Hc Hn. pose proof (name_taken_false _ _ _ Hn) as Hfree. split.
  - intros j u [[<- <-]|[_ Hj]]%lookup_insert_Some; [done|by apply Hids].
  - intros j k u v [[<- <-]|[? Hj]]%lookup_insert_Some [[<- <-]|[? Hk]]%lookup_insert_Some E; [done| | |by eapply Hnames].
    + symmetry. by eapply Hfree.
    + by eapply Hfree.
Qed.

Lemma delete_row_ok i m : table_ok m -> table_ok (delete i m).
Proof.
  intros [Hids Hnames]. split.
  - intros j t [_ Hj]%lookup_delete_Some. by apply Hids.
  - intros j k t u [_ Hj]%lookup_delete_Some [_ Hk]%lookup_delete_Some. by apply Hnames.
Qed.

Lemma elem_of_named t n m : t ∈ named n m <-> tn_Name t = n /\ exists i, m !! i = Some t.
Proof.
  unfold named. rewrite list_elem_of_filter, list_elem_of_fmap. split.
  - intros (Hn & [i u] & -> & Hi%elem_of_map_to_list). split; [done|by exists i].
  - intros (Hn & i & Hi). split; [done|]. exists (i, t). split; [done|]. by apply elem_of_map_to_list.
Qed.

(** What [GetByName] of the table finds. *)
Lemma pg_GetByName_spec n s :
  table_ok (rows s) -> pg_down s = None ->
  match pg_GetByName n s with
  | Ok t => tn_Name t = n /\ rows s !! tn_ID t = Some t
  | Err _ => forall i t, rows s !! i = Some t -> tn_Name t <> n
  end.
Proof.
  intros [Hids Hnames] Hd. unfold pg_GetByName. rewrite Hd. destruct (named n (rows s)) as [|t l] eqn:E.
  - intros i t Hi Ht. assert (Hin : t ∈ named n (rows s)) by (apply elem_of_named; eauto). rewrite E in Hin. set_solver.
  - assert (Hin : t ∈ named n (rows s)) by (rewrite E; by left). apply elem_of_named in Hin as (Hn & i & Hi).
    destruct (Hids i t Hi) as [<- _]. done.
Qed.

Lemma pg_Create_spec id now t s e t' s' :
  table_ok (rows s) -> canonical (tn_ID (fill_tenant id now t)) = true -> pg_Create id now t s = (e, t', s') ->
  table_ok (rows s') /\ t' = fill_tenant id now t /\
  match e with
  | None => rows s !! tn_ID t' = None /\ rows s' = <[tn_ID t' := t']> (rows s)
  | Some _ => s' = s
  end.
Proof.
  intros Hok Hc. unfold pg_Create. destruct (pg_down s); [by intros [= <- <- <-]|].
  set (t1 := fill_tenant id now t) in *. destruct (bool_decide _ || _) eqn:E; intros [= <- <- <-]; [done|].
  apply orb_false_iff in E as [E1 E2]. apply bool_decide_eq_false, eq_None_not_Some in E1.
  split_and!; [by apply insert_row_ok|done|done|done].
Qed.

Lemma pg_Get_rows id s t : pg_Get id s = Ok t -> rows s !! id = Some t.
Proof. unfold pg_Get. destruct (pg_down s); [done|]. destruct (rows s !! id); [by intros [= <-]|done]. Qed.

Lemma pg_Delete_spec id s e s' :
  table_ok (rows s) -> pg_Delete id s = (e, s') ->
  table_ok (rows s') /\ match e with
                        | None => is_Some (rows s !! id) /\ s' = with_rows (delete id (rows s)) s
                        | Some _ => s' = s
                        end.
Proof.
  intros Hok. unfold pg_Delete. destruct (pg_down s); [by intros [= <- <-]|].
  destruct (rows s !! id) eqn:E; intros [= <- <-]; [|done]. split; [by apply delete_row_ok|done].
Qed.

#[export, program] Instance pg_repository : TenantRepository :=
  {| trepo := pg_tenants; t_ok s := table_ok (rows s); t_rows := rows; t_Create := pg_Create;
     t_Get id s := (pg_Get id s, s); t_GetByName n s := (pg_GetByName n s, s);
     t_List o l s := (pg_List o l s, s); t_Delete := pg_Delete |}.
Next Obligation. done. Qed.
Next Obligation.
  intros id now t s e t' s' Hok Hc E. destruct (pg_Create_spec _ _ _ _ _ _ _ Hok Hc E) as (? & ? & He).
  split_and!; [done|done|]. destruct e; [by subst|done].
Qed.
Next Obligation. intros id s r s' Hok _ [= <- <-]. split_and!; [done|done|]. intros t Ht. exists t. by apply pg_Get_rows in Ht. Qed.
Next Obligation.
  intros n s r s' Hok [= <- <-]. split_and!; [done|done| |].
  - intros t E. destruct (pg_down s) eqn:Ed; [unfold pg_GetByName in E; by rewrite Ed in E|].
    pose proof (pg_GetByName_spec n s Hok Ed) as Hs. rewrite E in Hs. exists t. split; [apply Hs|done].
  - intros i t u Hi Ht E. destruct (pg_down s) eqn:Ed; [unfold pg_GetByName in E; by rewrite Ed in E|].
    pose proof (pg_GetByName_spec n s Hok Ed) as Hs. rewrite E in Hs. destruct Hs as [Hn Hu].
    assert (i = tn_ID u) as -> by (eapply (row_names _ Hok); [done|done|congruence]).
    rewrite Hu in Hi. by injection Hi as ->.
Qed.
Next Obligation. by intros offset limit s r s' [= <- <-]. Qed.
Next Obligation.
  intros id s e s' Hok _ E. destruct (pg_Delete_spec _ _ _ _ Hok E) as [? He]. split; [done|].
  destruct e; [by subst|]. destruct He as [? ->]. done.
Qed.

(** *** The cached table *)

Lemma tenantKey_inj i j : tenantKey i = tenantKey j -> i = j.
Proof. unfold tenantKey. intros [= E]. done. Qed.

Lemma tenantNameKey_inj m n : tenantNameKey m = tenantNameKey n -> m = n.
Proof. unfold tenantNameKey. intros [= E]. done. Qed.

Lemma keys_differ i n : canonical i = true -> tenantKey i <> tenantNameKey n.
Proof. unfold tenantKey, tenantNameKey. intros Hc [= ->]. discriminate Hc. Qed.

(** What the entries of the cache say about the rows: a tenant shows the row,
    and if a row has a name the name maps to it. *)
Definition tenant_entry (m : gmap uuid Tenant) (r : gmap string cached) (i : uuid) : Prop :=
  forall v, r !! tenantKey i = Some v -> exists t, v = CTenant t /\ shows m i t.
Definition name_entry (m : gmap uuid Tenant) (r : gmap string cached) (n : string) : Prop :=
  forall v, r !! tenantNameKey n = Some v ->
    exists i, v = CId i /\ canonical i = true /\ forall j t, m !! j = Some t -> tn_Name t = n -> j = i.

Record cache_ok (s : RedisTenantRepository) : Prop := {
  ok_table : table_ok (rows (pg s));
  ok_up : redis_up s = true;
  ok_tenants : forall i, canonical i = true -> tenant_entry (rows (pg s)) (redis s) i;
  ok_names : forall n, name_entry (rows (pg s)) (redis s) n;
}.

(** Caching a row repairs the entries of its identifier and its name. *)
Lemma cacheTenant_ok t s :
  table_ok (rows (pg s)) -> redis_up s = true -> shows (rows (pg s)) (tn_ID t) t ->
  (forall i, canonical i = true -> i <> tn_ID t -> tenant_entry (rows (pg s)) (redis s) i) ->
  (forall n, n <> tn_Name t -> name_entry (rows (pg s)) (redis s) n) ->
  cache_ok (cacheTenant t s).
Proof.
  intros Htab Hup (row & Ht & Hsame) Hi Hn. unfold cacheTenant, with_redis. rewrite Hup.
  destruct (row_ids _ Htab _ _ Ht) as [_ Hc]. destruct (same_tenant_fields _ _ Hsame) as (_ & Hname & _).
  split; simpl; [done|done| |].
  - intros i Hci v. rewrite lookup_insert_ne by (intros E; by eapply keys_differ).
    destruct (decide (i = tn_ID t)) as [->|Hne].
    + rewrite lookup_insert_eq. intros [= <-]. exists t. split; [done|by exists row].
    + rewrite lookup_insert_ne by (intros E%tenantKey_inj; done). by apply Hi.
  - intros n v. destruct (decide (n = tn_Name t)) as [->|Hne].
    + rewrite lookup_insert_eq. intros [= <-]. exists (tn_ID t). split_and!; [done|done|]. intros j u Hj Hu.
      eapply (row_names _ Htab); [done|done|congruence].
    + rewrite lookup_insert_ne by (intros E%tenantNameKey_inj; done).
      rewrite lookup_insert_ne by (by apply keys_differ). by apply Hn.
Qed.

Lemma cacheTenant_same t s : cache_ok s -> shows (rows (pg s)) (tn_ID t) t -> cache_ok (cacheTenant t s).
Proof. intros [Ht Hup Hi Hn] Hrow. apply cacheTenant_ok; auto. Qed.

Lemma cacheTenant_pg t s : pg (cacheTenant t s) = pg s.
Proof. unfold cacheTenant, with_redis. by destruct (redis_up s). Qed.

Lemma invalidateTenant_pg i n s : pg (invalidateTenant i n s) = pg s.
Proof. unfold invalidateTenant, with_redis. by destruct (redis_up s). Qed.

Lemma pg_down_same s : cache_ok s -> with_pg (pg s) s = s.
Proof. by destruct s. Qed.

Lemma redis_Create_spec id now t s e t' s' :
  cache_ok s -> canonical (tn_ID (fill_tenant id now t)) = true -> redis_Create id now t s = (e, t', s') ->
  cache_ok s' /\ t' = fill_tenant id now t /\
  match e with
  | None => rows (pg s) !! tn_ID t' = None /\ rows (pg s') = <[tn_ID t' := t']> (rows (pg s))
  | Some _ => s' = s
  end.
Proof.
  intros Hok Hc. unfold redis_Create. destruct (pg_Create id now t (pg s)) as [[e1 t1] p] eqn:E.
  destruct (pg_Create_spec _ _ _ _ _ _ _ (ok_table _ Hok) Hc E) as (Htab & -> & He).
  destruct e1 as [e1|]; intros [= <- <- <-].
  - subst p. by rewrite pg_down_same.
  - destruct He as [Hnew Hrows]. set (u := fill_tenant id now t) in *. rewrite cacheTenant_pg.
    split_and!; [|done|done|done]. destruct Hok as [_ Hup Hi Hn]. apply cacheTenant_ok; simpl; [done|done| | |].
    + rewrite Hrows. exists u. by rewrite lookup_insert_eq.
    + intros i Hci Hne v Hv. destruct (Hi i Hci v Hv) as (w & -> & row & Hw & ?). exists w. split; [done|].
      exists row. rewrite Hrows. by rewrite lookup_insert_ne.
    + intros n Hne v Hv. destruct (Hn n v Hv) as (i & -> & Hci & Hj). exists i. split_and!; [done|done|].
      intros j w. rewrite Hrows. intros [[<- <-]|[_ Hw]]%lookup_insert_Some E2; [done|by eapply Hj].
Qed.

(** Two reads with the same error, or with the same tenant up to the time of
    its last update. *)
Definition agree (r r' : result string Tenant) : Prop :=
  match r, r' with Ok t, Ok u => same_tenant t u | Err e, Err e' => e = e' | _, _ => False end.

(** Reading through the cache reads the table. *)
Lemma redis_Get_spec id s r s' :
  cache_ok s -> canonical id = true -> redis_Get_tenant id s = (r, s') ->
  cache_ok s' /\ pg s' = pg s /\ (forall t, r = Ok t -> shows (rows (pg s)) id t) /\
  (pg_down (pg s) = None -> agree r (pg_Get id (pg s))).
Proof.
  intros Hok Hc. unfold redis_Get_tenant, redis_Get. rewrite (ok_up _ Hok).
  destruct (redis s !! tenantKey id) as [v|] eqn:Ev.
  - destruct (ok_tenants _ Hok id Hc v Ev) as (t & -> & Ht). intros [= <- <-].
    split_and!; [done|done|by intros ? [= <-]|]. intros Hd. unfold pg_Get. destruct Ht as (row & -> & ?). by rewrite Hd.
  - destruct (pg_Get id (pg s)) as [t|e] eqn:E; intros [= <- <-]; [|done]. apply pg_Get_rows in E as Ht.
    rewrite cacheTenant_pg. split_and!; [|done|intros ? [= <-]; by exists t|done].
    apply cacheTenant_same; [done|]. rewrite (proj1 (row_ids _ (ok_table _ Hok) _ _ Ht)). by exists t.
Qed.

Lemma redis_GetByName_spec n s r s' :
  cache_ok s -> redis_GetByName n s = (r, s') ->
  cache_ok s' /\ pg s' = pg s /\ (forall t, r = Ok t -> shows (rows (pg s)) (tn_ID t) t) /\
  (forall i t, rows (pg s) !! i = Some t -> tn_Name t = n -> pg_down (pg s) = None -> agree r (Ok t)) /\
  (forall i t u, rows (pg s) !! i = Some t -> tn_Name t = n -> r = Ok u -> same_tenant u t).
Proof.
  intros Hok. unfold redis_GetByName. destruct (redis_Get (tenantNameKey n) s) as [v|] eqn:Ev.
  - unfold redis_Get in Ev. rewrite (ok_up _ Hok) in Ev. destruct (ok_names _ Hok n v Ev) as (i & -> & Hc & Hj).
    intros E. destruct (redis_Get_spec _ _ _ _ Hok Hc E) as (Hok' & Hpg & Hr & Hd).
    split_and!; [done|done| | |].
    + intros t Ht. destruct (Hr t Ht) as (row & Hrow & Hsame). exists row. split; [|done].
      destruct (same_tenant_fields _ _ Hsame) as [-> _]. by rewrite (proj1 (row_ids _ (ok_table _ Hok) _ _ Hrow)).
    + intros j t Hj' Hn Hdn. specialize (Hd Hdn). unfold pg_Get in Hd. rewrite Hdn in Hd.
      by rewrite <-(Hj j t Hj' Hn), Hj' in Hd.
    + intros j t u Hj' Hn Hu. destruct (Hr u Hu) as (row & Hrow & Hsame). rewrite <-(Hj j t Hj' Hn) in Hrow.
      rewrite Hj' in Hrow. by injection Hrow as <-.
  - destruct (pg_GetByName n (pg s)) as [t|e] eqn:E; intros [= <- <-].
    + assert (Hd : pg_down (pg s) = None) by (unfold pg_GetByName in E; by destruct (pg_down (pg s))).
      pose proof (pg_GetByName_spec n (pg s) (ok_table _ Hok) Hd) as Hs. rewrite E in Hs. destruct Hs as [Hn Ht].
      assert (Huniq : forall i u, rows (pg s) !! i = Some u -> tn_Name u = n -> u = t).
      { intros i u Hi Hu. assert (i = tn_ID t) as -> by (eapply (row_names _ (ok_table _ Hok)); [done|done|congruence]). congruence. }
      rewrite cacheTenant_pg. split_and!; [apply cacheTenant_same; [done|by exists t]|done|intros ? [= <-]; by exists t| |].
      * intros i u Hi Hu _. by rewrite (Huniq i u Hi Hu).
      * intros i u w Hi Hu [= <-]. by rewrite (Huniq i u Hi Hu).
    + split_and!; [done|done|done| |done]. intros i t Hi Hn Hd.
      pose proof (pg_GetByName_spec n (pg s) (ok_table _ Hok) Hd) as Hs. rewrite E in Hs. by destruct (Hs i t Hi).
Qed.

(** Removing the entries of a row that is deleted. *)
Lemma redis_Delete_spec id s e s' :
  cache_ok s -> canonical id = true -> redis_Delete id s = (e, s') ->
  cache_ok s' /\ match e with
                 | None => is_Some (rows (pg s) !! id) /\ rows (pg s') = delete id (rows (pg s))
                 | Some _ => s' = s
                 end.
Proof.
  intros Hok Hc. unfold redis_Delete. destruct (pg_Get id (pg s)) as [t|e1] eqn:E; [|by intros [= <- <-]].
  apply pg_Get_rows in E. destruct (pg_Delete id (pg s)) as [e1 p] eqn:Ed.
  destruct (pg_Delete_spec _ _ _ _ (ok_table _ Hok) Ed) as [Htab He].
  destruct e1 as [e1|]; intros [= <- <-]; [subst p; by rewrite pg_down_same|]. destruct He as [Hsome ->].
  rewrite invalidateTenant_pg. split; [|done]. destruct Hok as [_ Hup Hi Hn].
  unfold invalidateTenant, with_redis. simpl. rewrite Hup.
  assert (Hsub : forall k v, (if bool_decide (tn_Name t = "") then delete (tenantKey id) (redis s)
    else delete (tenantNameKey (tn_Name t)) (delete (tenantKey id) (redis s))) !! k = Some v ->
    redis s !! k = Some v /\ k <> tenantKey id).
  { intros k v. case_bool_decide; [intros [? ?]%lookup_delete_Some; done|].
    intros [_ [? ?]%lookup_delete_Some]%lookup_delete_Some. done. }
  split; simpl; [done|done| |].
  - intros i Hci v [Hv Hne]%Hsub. destruct (Hi i Hci v Hv) as (u & -> & row & Hu & ?). exists u. split; [done|].
    exists row. rewrite lookup_delete_ne; [done|]. intros <-. done.
  - intros n v [Hv _]%Hsub. destruct (Hn n v Hv) as (i & -> & Hci & Hj). exists i. split_and!; [done|done|].
    intros j u [_ Hju]%lookup_delete_Some. by apply Hj.
Qed.

(** An update of a tenant that was read before: its creation time is the row's. *)
Definition read_before (t : Tenant) (s : RedisTenantRepository) : Prop :=
  forall row, rows (pg s) !! tn_ID t = Some row -> tn_CreatedAt t = tn_CreatedAt row.

Lemma redis_Update_spec db_now now t s e t' s' :
  cache_ok s -> read_before t s -> redis_Update db_now now t s = (e, t', s') ->
  cache_ok s' /\
  match e with
  | None => is_Some (rows (pg s) !! tn_ID t) /\ rows (pg s') = <[tn_ID t := touched db_now t]> (rows (pg s))
  | Some _ => s' = s
  end.
Proof.
  intros Hok Hrb. unfold redis_Update, pg_Update. set (u := touched now t).
  assert (Hu : tn_ID u = tn_ID t) by done. destruct (pg_down (pg s)); [intros [= <- <- <-]; by rewrite pg_down_same|].
  destruct (rows (pg s) !! tn_ID u) as [row|] eqn:Er; [|intros [= <- <- <-]; by rewrite pg_down_same].
  destruct (name_taken _ _ _) eqn:Ent; [intros [= <- <- <-]; by rewrite pg_down_same|]. intros [= <- <- <-].
  set (w := touched db_now t).
  assert (Hset : set_row db_now u row = w).
  { destruct (row_ids _ (ok_table _ Hok) _ _ Er) as [Hid _]. unfold set_row. rewrite <-(Hrb row Er), Hid. by destruct t. }
  rewrite cacheTenant_pg, invalidateTenant_pg. simpl. rewrite Hset. split; [|done].
  destruct (row_ids _ (ok_table _ Hok) _ _ Er) as [_ Hc].
  assert (Htab : table_ok (<[tn_ID u := w]> (rows (pg s)))) by (by apply insert_row_ok; [apply Hok|..]).
  destruct Hok as [Htab0 Hup Hi Hn].
  assert (Hsub : forall k v, redis (invalidateTenant (tn_ID u) (tn_Name u) (with_pg (with_rows (<[tn_ID u := w]> (rows (pg s))) (pg s)) s)) !! k = Some v ->
    redis s !! k = Some v).
  { intros k v. unfold invalidateTenant, with_redis. simpl. rewrite Hup. simpl.
    case_bool_decide; [by intros [? ?]%lookup_delete_Some|]. by intros [_ [? ?]%lookup_delete_Some]%lookup_delete_Some. }
  apply cacheTenant_ok; rewrite ?invalidateTenant_pg; simpl.
  - done.
  - unfold invalidateTenant, with_redis. simpl. by rewrite Hup.
  - exists w. split; [apply lookup_insert_eq|done].
  - intros i Hci Hne v Hv%Hsub. destruct (Hi i Hci v Hv) as (x & -> & row' & Hx & ?). exists x. split; [done|].
    exists row'. by rewrite lookup_insert_ne.
  - intros n Hne v Hv%Hsub. destruct (Hn n v Hv) as (i & -> & Hci & Hj). exists i. split_and!; [done|done|].
    intros j x [[<- <-]|[_ Hw]]%lookup_insert_Some E2; [by destruct Hne|by eapply Hj].
Qed.

#[export, program] Instance redis_repository : TenantRepository :=
  {| trepo := RedisTenantRepository; t_ok := cache_ok; t_rows s := rows (pg s); t_Create := redis_Create;
     t_Get := redis_Get_tenant; t_GetByName := redis_GetByName; t_List o l s := (pg_List o l (pg s), s);
     t_Delete := redis_Delete |}.
Next Obligation. intros s Hok. apply Hok. Qed.
Next Obligation.
  intros id now t s e t' s' Hok Hc E. destruct (redis_Create_spec _ _ _ _ _ _ _ Hok Hc E) as (? & ? & He).
  split_and!; [done|done|]. destruct e; [by subst|done].
Qed.
Next Obligation.
  intros id s r s' Hok Hc E. destruct (redis_Get_spec _ _ _ _ Hok Hc E) as (? & -> & ? & _). done.
Qed.
Next Obligation.
  intros n s r s' Hok E. destruct (redis_GetByName_spec _ _ _ _ Hok E) as (? & -> & ? & _ & ?). done.
Qed.
Next Obligation. by intros offset limit s r s' [= <- <-]. Qed.
Next Obligation.
  intros id s e s' Hok Hc E. destruct (redis_Delete_spec _ _ _ _ Hok Hc E) as [? He]. split; [done|].
  destruct e; [by subst|done].
Qed.

(** *** Runs of the cached table *)

(** Operations, entries that expire, and the database that goes down or comes
    back. *)
Inductive tenant_op :=
  | OpCreateTenant (id : uuid) (now : Z) (t : Tenant)
  | OpGetTenant (id : uuid)
  | OpGetByName (n : string)
  | OpUpdateTenant (db_now now : Z) (t : Tenant)
  | OpDeleteTenant (id : uuid)
  | OpExpire (k : string)
  | OpDatabase (down : option string).

Definition tenant_apply (o : tenant_op) (s : RedisTenantRepository) : RedisTenantRepository :=
  match o with
  | OpCreateTenant id now t => (redis_Create id now t s).2
  | OpGetTenant id => (redis_Get_tenant id s).2
  | OpGetByName n => (redis_GetByName n s).2
  | OpUpdateTenant db_now now t => (redis_Update db_now now t s).2
  | OpDeleteTenant id => (redis_Delete id s).2
  | OpExpire k => with_redis (delete k (redis s)) s
  | OpDatabase d => with_pg {| rows := rows (pg s); pg_down := d |} s
  end.

(** Identifiers are canonical, and updates change what was read. *)
Definition tenant_op_ok (o : tenant_op) (s : RedisTenantRepository) : Prop :=
  match o with
  | OpCreateTenant id now t => canonical (tn_ID (fill_tenant id now t)) = true
  | OpGetTenant id | OpDeleteTenant id => canonical id = true
  | OpUpdateTenant _ _ t => read_before t s
  | _ => True
  end.

Inductive tenant_run : RedisTenantRepository -> list tenant_op -> RedisTenantRepository -> Prop :=
  | tenant_nil s : tenant_run s [] s
  | tenant_cons o os s s' : tenant_op_ok o s -> tenant_run (tenant_apply o s) os s' -> tenant_run s (o :: os) s'.

Lemma tenant_apply_ok o s : cache_ok s -> tenant_op_ok o s -> cache_ok (tenant_apply o s).
Proof.
  intros Hok Ho. destruct o as [id now t|id|n|db_now now t|id|k|d]; simpl in *.
  - destruct (redis_Create id now t s) as [[e t'] s'] eqn:E. by apply redis_Create_spec in E as [? _].
  - destruct (redis_Get_tenant id s) as [r s'] eqn:E. by apply redis_Get_spec in E as [? _].
  - destruct (redis_GetByName n s) as [r s'] eqn:E. by apply redis_GetByName_spec in E as [? _].
  - destruct (redis_Update db_now now t s) as [[e t'] s'] eqn:E. by apply redis_Update_spec in E as [? _].
  - destruct (redis_Delete id s) as [e s'] eqn:E. by apply redis_Delete_spec in E as [? _].
  - destruct Hok as [Ht Hup Hi Hn]. unfold with_redis. rewrite Hup. split; simpl; [done|done| |].
    + intros i Hc v [_ Hv]%lookup_delete_Some. by apply Hi.
    + intros n v [_ Hv]%lookup_delete_Some. by apply Hn.
  - destruct Hok as [Ht Hup Hi Hn]. by split.
Qed.

(** C12. The write-through cache of tenants is coherent with the table, up to
    the time of the last update (which a trigger of the schema sets in the row
    after the application has set it in the tenant it caches).  As long as
    Redis answers every command, operations follow one another, identifiers
    are canonical and updates carry the creation time that was read, then after
    any sequence of operations on the cached repository, with entries expiring
    and the database going down and coming back in between: reading a tenant by
    its identifier gives its row, or the error of the table when there is none,
    and while the database is down nothing but the row; reading by a name that
    a tenant has gives that tenant; and whatever is read by name is a current
    row. *)
Theorem tenant_cache_coherent (p : pg_tenants) (os : list tenant_op) (s : RedisTenantRepository) :
  table_ok (rows p) -> tenant_run {| pg := p; redis := ∅; redis_up := true |} os s ->
  (forall id, canonical id = true -> pg_down (pg s) = None -> agree (redis_Get_tenant id s).1 (pg_Get id (pg s))) /\
  (forall id t, canonical id = true -> (redis_Get_tenant id s).1 = Ok t -> shows (rows (pg s)) id t) /\
  (forall n i t, pg_down (pg s) = None -> rows (pg s) !! i = Some t -> tn_Name t = n -> agree (redis_GetByName n s).1 (Ok t)) /\
  (forall n t, (redis_GetByName n s).1 = Ok t -> shows (rows (pg s)) (tn_ID t) t).
Proof.
  intros Htab Hrun.
  assert (Hok : cache_ok s).
  { assert (H0 : cache_ok {| pg := p; redis := ∅; redis_up := true |})
      by (split; simpl; [done|done|intros i _ v|intros n v]; by rewrite lookup_empty).
    revert H0. induction Hrun as [|o os s s' Ho _ IH]; intros H0; [done|]. by apply IH, tenant_apply_ok. }
  clear Hrun. split_and!.
  - intros id Hc Hd. destruct (redis_Get_tenant id s) as [r s'] eqn:E. by apply redis_Get_spec in E as (_ & _ & _ & ?); auto.
  - intros id t Hc Hr. destruct (redis_Get_tenant id s) as [r s'] eqn:E. apply redis_Get_spec in E as (_ & _ & ? & _); auto.
  - intros n i t Hd Hi Hn. destruct (redis_GetByName n s) as [r s'] eqn:E.
    apply redis_GetByName_spec in E as (_ & _ & _ & Hf & _); [|done]. by eapply Hf.
  - intros n t Hr. destruct (redis_GetByName n s) as [r s'] eqn:E.
    apply redis_GetByName_spec in E as (_ & _ & Hf & _); [|done]. by apply Hf.
Qed.

(** ** The endpoints *)

Section TenantHandlers.
Context `{TenantRepository} (uuid_Parse : string -> option uuid) (decode_name : string -> result string string).

(** The repositories of the options; the audit table is optional. *)
Record tenant_api := {
  tenant_repo : option trepo;
  audit_repo : option pg_audits;
}.

Definition with_tenants (s : trepo) (a : tenant_api) : tenant_api := {| tenant_repo := Some s; audit_repo := audit_repo a |}.

(** An entry of the handlers: no identifier of its own. *)
Definition tenant_audit (action : string) (objectID : uuid) (metadata : string) (now : Z) : AuditEntry :=
  {| ae_ID := uuid_Nil; ae_TenantID := None; ae_ActorID := None; ae_ActorType := ""; ae_ActorEmail := "";
     ae_Action := action; ae_ObjectType := "tenant"; ae_ObjectID := objectID; ae_Before := ""; ae_After := "";
     ae_Metadata := metadata; ae_CreatedAt := now; ae_Hash := ""; ae_PrevHash := "" |}.

(** [_ = opt.AuditRepository.Create(...)], if there is one. *)
Definition audit_note (now : Z) (e : AuditEntry) (a : tenant_api) : tenant_api :=
  {| tenant_repo := tenant_repo a; audit_repo := (fun s => (audit_Create now e s).2) <$> audit_repo a |}.

(** The metadata is put together as text. *)
Definition name_metadata (n : string) : string :=
  let dq := String (of_byte 34) "" in "{" +:+ dq +:+ "name" +:+ dq +:+ ":" +:+ dq +:+ n +:+ dq +:+ "}".

Definition createTenantHandler (id : uuid) (now : Z) (r : HttpRequest) (a : tenant_api) : Reply Tenant * tenant_api :=
  match tenant_repo a with
  | None => (Failure 501 "NOT_IMPLEMENTED", a)
  | Some s =>
    match decode_name (RawBody r) with
    | Err _ => (Failure 400 "INVALID_REQUEST", a)
    | Ok n =>
      if bool_decide (n = "") then (Failure 400 "INVALID_ARGUMENT", a)
      else match t_GetByName n s with
           | (Ok _, s) => (Failure 409 "ALREADY_EXISTS", with_tenants s a)
           | (Err _, s) =>
             let t := {| tn_ID := id; tn_Name := n; tn_Status := TenantStatusActive; tn_Metadata := "";
                         tn_CreatedAt := now; tn_UpdatedAt := now |} in
             match t_Create id now t s with
             | (Some _, _, s) => (Failure 500 "INTERNAL_ERROR", with_tenants s a)
             | (None, t, s) =>
               (Answer 201 t, audit_note now (tenant_audit "tenant.create" (tn_ID t) (name_metadata n) now) (with_tenants s a))
             end
           end
    end
  end.

Definition listTenantsHandler (a : tenant_api) : Reply (list Tenant * Z) * tenant_api :=
  match tenant_repo a with
  | None => (Failure 501 "NOT_IMPLEMENTED", a)
  | Some s =>
    match t_List 0 100 s with
    | (Err _, s) => (Failure 500 "INTERNAL_ERROR", with_tenants s a)
    | (Ok (l, _), s) => (Answer 200 (l, Z.of_nat (List.length l)), with_tenants s a)
    end
  end.

Definition getTenantHandler (r : HttpRequest) (a : tenant_api) : Reply Tenant * tenant_api :=
  match tenant_repo a with
  | None => (Failure 501 "NOT_IMPLEMENTED", a)
  | Some s =>
    match uuid_Parse (URLParam r "id") with
    | None => (Failure 400 "INVALID_ARGUMENT", a)
    | Some id =>
      match t_Get id s with
      | (Err _, s) => (Failure 404 "NOT_FOUND", with_tenants s a)
      | (Ok t, s) => (Answer 200 t, with_tenants s a)
      end
    end
  end.

(** The tenant with the name and time of the request. *)
Definition renamed (n : string) (now : Z) (t : Tenant) : Tenant :=
  {| tn_ID := tn_ID t; tn_Name := n; tn_Status := tn_Status t; tn_Metadata := tn_Metadata t;
     tn_CreatedAt := tn_CreatedAt t; tn_UpdatedAt := now |}.

(** The name is checked and put into the answer; it is not stored. *)
Definition updateTenantHandler (now : Z) (r : HttpRequest) (a : tenant_api) : Reply Tenant * tenant_api :=
  match tenant_repo a with
  | None => (Failure 501 "NOT_IMPLEMENTED", a)
  | Some s =>
    match uuid_Parse (URLParam r "id") with
    | None => (Failure 400 "INVALID_ARGUMENT", a)
    | Some id =>
      match decode_name (RawBody r) with
      | Err _ => (Failure 400 "INVALID_REQUEST", a)
      | Ok n =>
        match t_Get id s with
        | (Err _, s) => (Failure 404 "NOT_FOUND", with_tenants s a)
        | (Ok t, s) =>
          let note t s := audit_note now (tenant_audit "tenant.update" (tn_ID t) (name_metadata n) now) (with_tenants s a) in
          if negb (bool_decide (n = "")) && negb (bool_decide (n = tn_Name t)) then
            match t_GetByName n s with
            | (Ok existing, s) =>
              if bool_decide (tn_ID existing = id) then (Answer 200 (renamed n now t), note t s)
              else (Failure 409 "ALREADY_EXISTS", with_tenants s a)
            | (Err _, s) => (Answer 200 (renamed n now t), note t s)
            end
          else (Answer 200 t, note t s)
        end
      end
    end
  end.

Definition deleteTenantHandler (now : Z) (r : HttpRequest) (a : tenant_api) : Reply unit * tenant_api :=
  match tenant_repo a with
  | None => (Failure 501 "NOT_IMPLEMENTED", a)
  | Some s =>
    match uuid_Parse (URLParam r "id") with
    | None => (Failure 400 "INVALID_ARGUMENT", a)
    | Some id =>
      match t_Get id s with
      | (Err _, s) => (Failure 404 "NOT_FOUND", with_tenants s a)
      | (Ok t, s) =>
        match t_Delete id s with
        | (Some _, s) => (Failure 500 "INTERNAL_ERROR", with_tenants s a)
        | (None, s) => (Answer 204 tt, audit_note now (tenant_audit "tenant.delete" (tn_ID t) "" now) (with_tenants s a))
        end
      end
    end
  end.

(** *** What they do to the table *)

(** [uuid.Parse] gives canonical identifiers. *)
Hypothesis parse_canonical : forall s i, uuid_Parse s = Some i -> canonical i = true.

Definition api_ok (a : tenant_api) : Prop := forall s, tenant_repo a = Some s -> t_ok s.
Definition api_rows (a : tenant_api) : gmap uuid Tenant := match tenant_repo a with Some s => t_rows s | None => ∅ end.

Lemma with_tenants_ok s a : t_ok s -> api_ok (with_tenants s a).
Proof. by intros Hs s' [= <-]. Qed.

Lemma audit_note_ok now e a : api_ok a -> api_ok (audit_note now e a).
Proof. done. Qed.

Lemma create_tenant id now r a :
  api_ok a -> canonical id = true -> id <> uuid_Nil -> now <> time_zero ->
  let '(x, a') := createTenantHandler id now r a in
  api_ok a' /\
  match x with
  | Answer _ t => decode_name (RawBody r) = Ok (tn_Name t) /\ tn_ID t = id /\ tn_Status t = TenantStatusActive /\
      api_rows a !! id = None /\ (forall j u, api_rows a !! j = Some u -> tn_Name u <> tn_Name t) /\
      api_rows a' = <[id := t]> (api_rows a)
  | Failure _ _ => api_rows a' = api_rows a
  end.
Proof.
  intros Hok Hc Hid Hnow. unfold createTenantHandler, api_rows.
  destruct (tenant_repo a) as [s|] eqn:Es; [|by rewrite Es]. specialize (Hok s Es) as Hs.
  destruct (decode_name (RawBody r)) as [n|]; [|by rewrite Es]. case_bool_decide; [by rewrite Es|].
  destruct (t_GetByName n s) as [[u|e] s1] eqn:Eg; apply t_GetByName_spec in Eg as (Hs1 & Hr1 & _ & _); [|done| |done].
  { simpl. split; [by apply with_tenants_ok|done]. }
  set (t := {| tn_ID := id |}).
  assert (Hfill : fill_tenant id now t = t).
  { unfold fill_tenant, t. simpl. rewrite bool_decide_eq_false_2 by done.
    by rewrite (proj2 (Z.eqb_neq now time_zero)) by done. }
  destruct (t_Create id now t s1) as [[e1 t'] s2] eqn:Ec.
  apply t_Create_spec in Ec as (Hs2 & -> & Hcase); [|done|by rewrite Hfill]. rewrite Hfill in *.
  destruct e1; simpl; (split; [by apply with_tenants_ok|]); [congruence|].
  destruct Hcase as [Hnew Hrows]. simpl in Hnew, Hrows. rewrite Hr1 in Hnew, Hrows. split_and!; [done..| |done].
  intros j u Hj Hn. assert (j = id); [|congruence].
  apply (row_names _ (t_ok_table _ Hs2) j id u t); [|rewrite Hrows; apply lookup_insert_eq|done].
  rewrite Hrows, lookup_insert_ne; [done|]. intros ->. congruence.
Qed.

Lemma get_tenant r a :
  api_ok a ->
  let '(x, a') := getTenantHandler r a in
  api_ok a' /\ api_rows a' = api_rows a /\
  forall st t, x = Answer st t -> shows (api_rows a) (tn_ID t) t /\ uuid_Parse (URLParam r "id") = Some (tn_ID t).
Proof.
  intros Hok. unfold getTenantHandler, api_rows. destruct (tenant_repo a) as [s|] eqn:Es; [|by rewrite Es].
  specialize (Hok s Es) as Hs. destruct (uuid_Parse _) as [i|] eqn:Ep; [|by rewrite Es].
  destruct (t_Get i s) as [x s'] eqn:Eg. apply t_Get_spec in Eg as (Hs' & Hr & Hx); [|done|by eapply parse_canonical].
  destruct x as [t|e]; simpl; (split_and!; [by apply with_tenants_ok|done|]); [|done]. intros st u [= _ <-].
  destruct (Hx t eq_refl) as (row & Hrow & Hsame). destruct (row_ids _ (t_ok_table _ Hs) _ _ Hrow) as [<- _].
  destruct (same_tenant_fields _ _ Hsame) as [-> _]. split; [by exists row|done].
Qed.

Lemma delete_tenant now r a :
  api_ok a ->
  let '(x, a') := deleteTenantHandler now r a in
  api_ok a' /\
  match x with
  | Answer _ _ => exists i, uuid_Parse (URLParam r "id") = Some i /\ is_Some (api_rows a !! i) /\ api_rows a' = delete i (api_rows a)
  | Failure _ _ => api_rows a' = api_rows a
  end.
Proof.
  intros Hok. unfold deleteTenantHandler, api_rows. destruct (tenant_repo a) as [s|] eqn:Es; [|by rewrite Es].
  specialize (Hok s Es) as Hs. destruct (uuid_Parse _) as [i|] eqn:Ep; [|by rewrite Es].
  pose proof (parse_canonical _ _ Ep) as Hc.
  destruct (t_Get i s) as [x s1] eqn:Eg. apply t_Get_spec in Eg as (Hs1 & Hr & _); [|done|done].
  destruct x as [t|e]; simpl; [|split; [by apply with_tenants_ok|done]].
  destruct (t_Delete i s1) as [e s2] eqn:Ed. apply t_Delete_spec in Ed as (Hs2 & He); [|done|done].
  destruct e; simpl; (split; [by apply with_tenants_ok|]); [congruence|]. destruct He as [Hsome Hrows].
  exists i. rewrite <-Hr. done.
Qed.

Lemma update_tenant now r a :
  api_ok a -> let '(x, a') := updateTenantHandler now r a in api_ok a' /\ api_rows a' = api_rows a.
Proof.
  intros Hok. unfold updateTenantHandler, api_rows. destruct (tenant_repo a) as [s|] eqn:Es; [|by rewrite Es].
  specialize (Hok s Es) as Hs. destruct (uuid_Parse _) as [i|] eqn:Ep; [|by rewrite Es].
  pose proof (parse_canonical _ _ Ep) as Hc. destruct (decode_name (RawBody r)) as [n|]; [|by rewrite Es].
  destruct (t_Get i s) as [x s1] eqn:Eg. apply t_Get_spec in Eg as (Hs1 & Hr & _); [|done|done].
  destruct x as [t|e]; simpl; [|split; [by apply with_tenants_ok|done]].
  destruct (_ && _); [|split; [by apply audit_note_ok, with_tenants_ok|done]].
  destruct (t_GetByName n s1) as [x s2] eqn:En. apply t_GetByName_spec in En as (Hs2 & Hr2 & _ & _); [|done].
  destruct x as [u|e]; simpl; [case_bool_decide; simpl|];
    (split; [try apply audit_note_ok; by apply with_tenants_ok|congruence]).
Qed.

(** The tenant endpoints keep the table.  Whatever the repository, with or
    without a cache: creating a tenant that answers 201 adds exactly that
    tenant, active, under the name of the request, which no other tenant had;
    an answer that is not 201 leaves the rows as they were.  Reading one
    answers with the row, up to the time of its last update.  Deleting answers 204 exactly when the row is gone,
    and then no other row is touched.  Updating never changes a row. *)
Theorem tenant_endpoints (id : uuid) (now : Z) (r : HttpRequest) (a : tenant_api) :
  api_ok a -> canonical id = true -> id <> uuid_Nil -> now <> time_zero ->
  (let '(x, a') := createTenantHandler id now r a in
   api_ok a' /\
   match x with
   | Answer _ t => decode_name (RawBody r) = Ok (tn_Name t) /\ tn_ID t = id /\ tn_Status t = TenantStatusActive /\
       api_rows a !! id = None /\ (forall j u, api_rows a !! j = Some u -> tn_Name u <> tn_Name t) /\
       api_rows a' = <[id := t]> (api_rows a)
   | Failure _ _ => api_rows a' = api_rows a
   end) /\
  (let '(x, a') := getTenantHandler r a in
   api_ok a' /\ api_rows a' = api_rows a /\
   forall st t, x = Answer st t -> shows (api_rows a) (tn_ID t) t /\ uuid_Parse (URLParam r "id") = Some (tn_ID t)) /\
  (let '(x, a') := deleteTenantHandler now r a in
   api_ok a' /\
   match x with
   | Answer _ _ => exists i, uuid_Parse (URLParam r "id") = Some i /\ is_Some (api_rows a !! i) /\ api_rows a' = delete i (api_rows a)
   | Failure _ _ => api_rows a' = api_rows a
   end) /\
  (let '(x, a') := updateTenantHandler now r a in api_ok a' /\ api_rows a' = api_rows a).
Proof.
  intros Hok Hc Hid Hnow. split_and!; [by apply create_tenant|by apply get_tenant|by apply delete_tenant|by apply update_tenant].
Qed.
End TenantHandlers.

(** ** Concrete runs *)

Module TenantWitnesses.
Definition empty_table : pg_tenants := {| rows := ∅; pg_down := None |}.
Definition fresh : RedisTenantRepository := {| pg := empty_table; redis := ∅; redis_up := true |}.
Definition tenant (id name : string) (now : Z) : Tenant :=
  {| tn_ID := id; tn_Name := name; tn_Status := TenantStatusActive; tn_Metadata := ""; tn_CreatedAt := now; tn_UpdatedAt := now |}.

Lemma empty_table_ok : table_ok (rows empty_table).
Proof. by split; intros; simplify_map_eq. Qed.

(** A tenant is created, renamed and, after its entry expired, read. *)
Definition os : list tenant_op :=
  [OpCreateTenant "aa" 1 (tenant "aa" "old" 1); OpUpdateTenant 9 2 (tenant "aa" "new" 1); OpExpire "tenant:aa"].
Definition after : RedisTenantRepository := foldl (fun s o => tenant_apply o s) fresh os.

Lemma after_run : tenant_run fresh os after.
Proof.
  apply tenant_cons; [reflexivity|]. apply tenant_cons; [|apply tenant_cons; [exact I|apply tenant_nil]].
  intros row Hrow. vm_compute in Hrow. injection Hrow as <-. reflexivity.
Qed.

Lemma tenant_cache_coherent_witness :
  agree (redis_Get_tenant "aa" after).1 (pg_Get "aa" (pg after)) /\
  agree (redis_GetByName "new" after).1 (Ok (touched 9 (tenant "aa" "new" 1))).
Proof.
  destruct (tenant_cache_coherent empty_table os after empty_table_ok after_run) as (Hg & _ & Hn & _).
  split; [apply Hg; reflexivity|]. apply (Hn "new" "aa" _); reflexivity.
Defined.

(** The entry of the old name is not removed: it finds a tenant of another
    name, and a new tenant cannot take the name. *)
Definition no_audit (s : RedisTenantRepository) : @tenant_api redis_repository := {| tenant_repo := Some s : option (@trepo redis_repository); audit_repo := None |}.
Definition post (name : string) : HttpRequest := request "POST" "/v1/admin/tenants" [] [] [] name.
Definition plain (s : string) : result string string := Ok s.

Lemma old_name_still_taken :
  (redis_GetByName "old" after).1 = Ok (touched 9 (tenant "aa" "new" 1)) /\
  pg_GetByName "old" (pg after) = Err tenant_not_found /\
  (createTenantHandler plain "bb" 3 (post "old") (no_audit after)).1 = Failure 409 "ALREADY_EXISTS".
Proof. vm_compute. done. Qed.

(** The cached tenant has the time of the application, the row that of the
    database. *)
Lemma cached_time_differs :
  let s := tenant_apply (OpUpdateTenant 9 2 (tenant "aa" "new" 1)) (tenant_apply (OpCreateTenant "aa" 1 (tenant "aa" "old" 1)) fresh) in
  (redis_Get_tenant "aa" s).1 = Ok (touched 2 (tenant "aa" "new" 1)) /\ pg_Get "aa" (pg s) = Ok (touched 9 (tenant "aa" "new" 1)).
Proof. vm_compute. done. Qed.

(** Entries are removed without looking at the result: a tenant that is deleted
    while Redis cannot be reached is still found afterwards. *)
Lemma deleted_tenant_found :
  let s := tenant_apply (OpCreateTenant "aa" 1 (tenant "aa" "one" 1)) fresh in
  let s := (redis_Delete "aa" {| pg := pg s; redis := redis s; redis_up := false |}).2 in
  let s := {| pg := pg s; redis := redis s; redis_up := true |} in
  rows (pg s) !! "aa" = None /\ (redis_Get_tenant "aa" s).1 = Ok (tenant "aa" "one" 1).
Proof. vm_compute. done. Qed.

(** The endpoints on the table itself. *)
Definition api0 : @tenant_api pg_repository :=
  {| tenant_repo := Some empty_table : option (@trepo pg_repository);
     audit_repo := Some {| entries := []; audits_down := None |} |}.
Definition parse_canonical_only (s : string) : option uuid := if canonical s then Some s else None.
Definition api1 : @tenant_api pg_repository := (createTenantHandler plain "aa" 1 (post "one") api0).2.
Definition api2 : @tenant_api pg_repository := (createTenantHandler plain "bb" 2 (post "two") api1).2.

Lemma api0_ok : api_ok api0.
Proof. intros s [= <-]. exact empty_table_ok. Qed.

Lemma tenant_endpoints_witness :
  api_rows api1 = <["aa" := tenant "aa" "one" 1]> ∅ /\
  (deleteTenantHandler parse_canonical_only 3 (request "DELETE" "" [] [] [("id", "aa")] "") api1).1 = Answer 204 tt.
Proof.
  split; [|vm_compute; reflexivity].
  destruct (@tenant_endpoints pg_repository parse_canonical_only plain) with (id := "aa") (now := 1%Z) (r := post "one") (a := api0) as [Hc _].
  - intros s i. unfold parse_canonical_only. destruct (canonical s) eqn:E; [by intros [= <-]|done].
  - exact api0_ok.
  - reflexivity.
  - discriminate.
  - discriminate.
  - destruct (createTenantHandler plain "aa" 1 (post "one") api0) as [x a'] eqn:E.
    assert (Hx : x = Answer 201 (tenant "aa" "one" 1)) by (apply (f_equal fst) in E; vm_compute in E; exact (eq_sym E)).
    subst x. destruct Hc as (_ & _ & _ & _ & _ & _ & Hrows).
    assert (Ha : a' = api1) by (unfold api1; by rewrite E). rewrite <-Ha, Hrows. reflexivity.
Defined.

(** The entries of the handlers have no identifier of their own: the second one
    violates the primary key, and the error is ignored. *)
Lemma second_audit_entry_lost :
  map ae_Action <$> (entries <$> audit_repo api2) = Some ["tenant.create"] /\ size (api_rows api2) = 2.
Proof. vm_compute. done. Qed.

(** An update answers with the new name and stores nothing. *)
Lemma update_not_stored :
  let '(x, a) := updateTenantHandler parse_canonical_only plain 3 (request "PUT" "" [] [] [("id", "aa")] "uno") api1 in
  x = Answer 200 (renamed "uno" 3 (tenant "aa" "one" 1)) /\ api_rows a !! "aa" = Some (tenant "aa" "one" 1).
Proof. vm_compute. done. Qed.
End TenantWitnesses.
