(* ===== verification/Tokens.v ===== *)
(** * Tokens: API tokens and their cache

    src/internal/infrastructure/persistence/postgres/api_tokens.go and
    redis_api_token_cache.go.  The table is a finite map of its rows with the
    constraints of src/migrations/0004_enterprise_schema.sql.  A cached token
    is kept decoded: its JSON form leaves the hash out, so a token read from the
    cache has none.  The clock is part of the state of the server, which also
    holds what runs concurrently: tokens that were read from the table and are
    still to be cached, and the updates of the last use that a lookup starts. *)

From Stdlib Require Import Ascii String.
From S2P Require Import Prelude GoString Repos Http AuditApi Tenants.

Record APIToken := {
  tk_ID : uuid;
  tk_TenantID : uuid;
  tk_TokenHash : string;
  tk_Name : string;
  tk_Scopes : list string;
  tk_ExpiresAt : option Z;
  tk_LastUsed : option Z;
  tk_CreatedAt : Z;
  tk_RevokedAt : option Z;
}.

(** A token with other times. *)
Definition with_times (used revoked : option Z) (t : APIToken) : APIToken :=
  {| tk_ID := tk_ID t; tk_TenantID := tk_TenantID t; tk_TokenHash := tk_TokenHash t; tk_Name := tk_Name t;
     tk_Scopes := tk_Scopes t; tk_ExpiresAt := tk_ExpiresAt t; tk_LastUsed := used; tk_CreatedAt := tk_CreatedAt t;
     tk_RevokedAt := revoked |}.

(** ** The table *)

Record pg_tokens := {
  tk_rows : gmap uuid APIToken;
  tk_tenants : gset uuid;
  tk_down : option string;
}.

Definition with_tokens (m : gmap uuid APIToken) (p : pg_tokens) : pg_tokens :=
  {| tk_rows := m; tk_tenants := tk_tenants p; tk_down := tk_down p |}.

Definition hash_taken (h : string) (m : gmap uuid APIToken) : bool :=
  existsb (fun t => bool_decide (tk_TokenHash t = h)) (map_to_list m).*2.

(** The new row is neither used nor revoked. *)
Definition tpg_Create (t : APIToken) (p : pg_tokens) : option string * pg_tokens :=
  match tk_down p with
  | Some e => (Some ("create api token: " +:+ e), p)
  | None =>
    if bool_decide (is_Some (tk_rows p !! tk_ID t)) || hash_taken (tk_TokenHash t) (tk_rows p)
    then (Some ("create api token: " +:+ unique_violation), p)
    else if bool_decide (tk_TenantID t ∈ tk_tenants p)
    then (None, with_tokens (<[tk_ID t := with_times None None t]> (tk_rows p)) p)
    else (Some "create api token: violates foreign key constraint", p)
  end.

Definition tpg_Get (id : uuid) (p : pg_tokens) : result string APIToken :=
  match tk_down p with
  | Some e => Err ("get api token: " +:+ e)
  | None => match tk_rows p !! id with Some t => Ok t | None => Err "api token not found" end
  end.

(** The WHERE clause of [GetByHash]. *)
Definition valid_token (h : string) (now : Z) (t : APIToken) : bool :=
  bool_decide (tk_TokenHash t = h) && bool_decide (tk_RevokedAt t = None) &&
  match tk_ExpiresAt t with None => true | Some e => (now <? e)%Z end.

Definition tpg_GetByHash (h : string) (now : Z) (p : pg_tokens) : result string APIToken :=
  match tk_down p with
  | Some e => Err ("get api token by hash: " +:+ e)
  | None => match filter (fun t => valid_token h now t = true) (map_to_list (tk_rows p)).*2 with
            | t :: _ => Ok t
            | [] => Err "api token not found or invalid"
            end
  end.

Definition created_last (a b : APIToken) : Prop := (tk_CreatedAt b <= tk_CreatedAt a)%Z.
#[export] Instance created_last_dec a b : Decision (created_last a b).
Proof. unfold created_last. apply _. Defined.

Definition tpg_ListByTenant (t : uuid) (p : pg_tokens) : result string (list APIToken) :=
  match tk_down p with
  | Some e => Err ("list api tokens by tenant: " +:+ e)
  | None => Ok (merge_sort created_last (filter (fun x => tk_TenantID x = t) (map_to_list (tk_rows p)).*2))
  end.

Definition tpg_UpdateLastUsed (id : uuid) (now : Z) (p : pg_tokens) : option string * pg_tokens :=
  match tk_down p with
  | Some e => (Some ("update last used: " +:+ e), p)
  | None => (None, with_tokens (alter (fun t => with_times (Some now) (tk_RevokedAt t) t) id (tk_rows p)) p)
  end.

Definition tpg_Revoke (id : uuid) (now : Z) (p : pg_tokens) : option string * pg_tokens :=
  match tk_down p with
  | Some e => (Some ("revoke api token: " +:+ e), p)
  | None =>
    match tk_rows p !! id with
    | Some t =>
      match tk_RevokedAt t with
      | None => (None, with_tokens (<[id := with_times (tk_LastUsed t) (Some now) t]> (tk_rows p)) p)
      | Some _ => (Some "api token not found or already revoked", p)
      end
    | None => (Some "api token not found or already revoked", p)
    end
  end.

Definition tpg_Delete (id : uuid) (p : pg_tokens) : option string * pg_tokens :=
  match tk_down p with
  | Some e => (Some ("delete api token: " +:+ e), p)
  | None =>
    match tk_rows p !! id with
    | Some _ => (None, with_tokens (delete id (tk_rows p)) p)
    | None => (Some "api token not found", p)
    end
  end.

(** expires_at < NOW() *)
Definition expired_at (now : Z) (t : APIToken) : bool :=
  match tk_ExpiresAt t with Some e => (e <? now)%Z | None => false end.


(** DELETE FROM tenants takes the tokens of the tenant with it. *)
Definition tpg_DeleteTenant (tid : uuid) (p : pg_tokens) : pg_tokens :=
  {| tk_rows := filter (fun kv => tk_TenantID kv.2 <> tid) (tk_rows p); tk_tenants := tk_tenants p ∖ {[tid]};
     tk_down := tk_down p |}.

(** ** The cache *)

(** What a token becomes in the cache. *)
Definition json_token (t : APIToken) : APIToken :=
  {| tk_ID := tk_ID t; tk_TenantID := tk_TenantID t; tk_TokenHash := ""; tk_Name := tk_Name t; tk_Scopes := tk_Scopes t;
     tk_ExpiresAt := tk_ExpiresAt t; tk_LastUsed := tk_LastUsed t; tk_CreatedAt := tk_CreatedAt t;
     tk_RevokedAt := tk_RevokedAt t |}.

(** [gone] is a ghost: the tenants deleted so far. *)
Record token_server := {
  tk_pg : pg_tokens;
  tk_redis : gmap string APIToken;
  tk_redis_up : bool;
  to_cache : list APIToken;
  to_touch : list uuid;
  clock : Z;
  gone : gset uuid;
}.

Definition with_tpg (p : pg_tokens) (s : token_server) : token_server :=
  {| tk_pg := p; tk_redis := tk_redis s; tk_redis_up := tk_redis_up s; to_cache := to_cache s; to_touch := to_touch s;
     clock := clock s; gone := gone s |}.
Definition with_tredis (m : gmap string APIToken) (s : token_server) : token_server :=
  {| tk_pg := tk_pg s; tk_redis := m; tk_redis_up := tk_redis_up s; to_cache := to_cache s; to_touch := to_touch s;
     clock := clock s; gone := gone s |}.
Definition with_work (c : list APIToken) (u : list uuid) (s : token_server) : token_server :=
  {| tk_pg := tk_pg s; tk_redis := tk_redis s; tk_redis_up := tk_redis_up s; to_cache := c; to_touch := u; clock := clock s;
     gone := gone s |}.

Definition tokenKey (id : uuid) : string := "token:" +:+ id.
Definition tokenHashKey (h : string) : string := "token:hash:" +:+ h.

(** GET, which misses while redis is down; SET and DEL are lost then. *)
Definition tk_GET (k : string) (s : token_server) : option APIToken := if tk_redis_up s then tk_redis s !! k else None.

Definition cacheToken (t : APIToken) (s : token_server) : token_server :=
  if bool_decide (is_Some (tk_RevokedAt t)) || expired_at (clock s) t || negb (tk_redis_up s) then s
  else with_tredis (<[tokenHashKey (tk_TokenHash t) := json_token t]> (<[tokenKey (tk_ID t) := json_token t]> (tk_redis s))) s.

Definition invalidateToken (t : APIToken) (s : token_server) : token_server :=
  if tk_redis_up s
  then with_tredis (delete (tokenHashKey (tk_TokenHash t)) (delete (tokenKey (tk_ID t)) (tk_redis s))) s
  else s.

(** The operations up to the write to the cache that ends them, which is left
    to do. *)
Definition later (t : APIToken) (s : token_server) : token_server := with_work (to_cache s ++ [t]) (to_touch s) s.

Definition tok_Create (t : APIToken) (s : token_server) : option string * token_server :=
  match tpg_Create t (tk_pg s) with
  | (Some e, p) => (Some e, with_tpg p s)
  | (None, p) => (None, later t (with_tpg p s))
  end.


(** A hit starts the update of the last use. *)
Definition tok_GetByHash (h : string) (s : token_server) : result string APIToken * token_server :=
  match tk_GET (tokenHashKey h) s with
  | Some t => (Ok t, with_work (to_cache s) (to_touch s ++ [tk_ID t]) s)
  | None => match tpg_GetByHash h (clock s) (tk_pg s) with
            | Err e => (Err e, s)
            | Ok t => (Ok t, later t s)
            end
  end.

Definition tok_UpdateLastUsed (id : uuid) (s : token_server) : option string * token_server :=
  match tpg_UpdateLastUsed id (clock s) (tk_pg s) with
  | (Some e, p) => (Some e, with_tpg p s)
  | (None, p) =>
    let s := with_tpg p s in
    (None, match tk_GET (tokenKey id) s with
           | Some t => later (with_times (Some (clock s)) (tk_RevokedAt t) t) s
           | None => s
           end)
  end.

Definition tok_Revoke (id : uuid) (s : token_server) : option string * token_server :=
  match tpg_Get id (tk_pg s) with
  | Err e => (Some e, s)
  | Ok t => match tpg_Revoke id (clock s) (tk_pg s) with
            | (Some e, p) => (Some e, with_tpg p s)
            | (None, p) => (None, invalidateToken t (with_tpg p s))
            end
  end.


Definition tok_ListByTenant (t : uuid) (s : token_server) : result string (list APIToken) := tpg_ListByTenant t (tk_pg s).

(** ** The server *)



Definition token_start (p : pg_tokens) (now : Z) : token_server :=
  {| tk_pg := p; tk_redis := ∅; tk_redis_up := true; to_cache := []; to_touch := []; clock := now; gone := ∅ |}.

(** ** What a lookup can find *)


(** The same token, but for its hash and its last use. *)
Definition same_token (t u : APIToken) : Prop := with_times None None (json_token t) = with_times None None (json_token u).








Lemma same_token_id t u : same_token t u -> tk_ID t = tk_ID u.
Proof. by intros [= ? ? ? ? ? ?]. Qed.
























Module TokenWitnesses.
Definition tok : APIToken :=
  {| tk_ID := "aa"; tk_TenantID := "t"; tk_TokenHash := "h1"; tk_Name := "ci"; tk_Scopes := ["scan"]; tk_ExpiresAt := Some 100%Z;
     tk_LastUsed := None; tk_CreatedAt := 1; tk_RevokedAt := None |}.
Definition table0 : pg_tokens := {| tk_rows := ∅; tk_tenants := {[ "t" ]}; tk_down := None |}.
Definition s0 : token_server := token_start table0 10.

(** The token is created and cached. *)
Definition s1 : token_server := (tok_Create tok s0).2.
Definition s2 : token_server := cacheToken tok (with_work [] [] s1).
Definition fill (s : token_server) : token_server :=
  match to_cache s with t :: l => cacheToken t (with_work l (to_touch s) s) | [] => s end.




(** A cached token outlives its tenant. *)
Lemma orphan_accepted :
  let s := {| tk_pg := tpg_DeleteTenant "t" (tk_pg s2); tk_redis := tk_redis s2; tk_redis_up := true; to_cache := [];
              to_touch := []; clock := 10; gone := {["t"]} |} in
  (tok_GetByHash "h1" s).1 = Ok (json_token tok) /\ tk_rows (tk_pg s) !! "aa" = None.
Proof. vm_compute. done. Qed.

(** A copy that was read before the revocation is cached after it: the revoked
    token is accepted until the entry expires. *)
Definition raced : token_server :=
  fill (tok_Revoke "aa" (tok_GetByHash "h1" (with_tredis ∅ s2)).2).2.

Lemma revoked_token_accepted :
  (tok_GetByHash "h1" raced).1 = Ok (json_token tok) /\
  option_map tk_RevokedAt (tk_rows (tk_pg raced) !! "aa"%string) = Some (Some 10%Z).
Proof. vm_compute. done. Qed.

(** A cached token is accepted after it has expired. *)
Definition at_time (now : Z) (s : token_server) : token_server :=
  {| tk_pg := tk_pg s; tk_redis := tk_redis s; tk_redis_up := tk_redis_up s; to_cache := to_cache s; to_touch := to_touch s;
     clock := now; gone := gone s |}.

Lemma expired_token_accepted :
  (tok_GetByHash "h1" (at_time 500 s2)).1 = Ok (json_token tok) /\ expired_at 500 (json_token tok) = true /\
  is_ok (tpg_GetByHash "h1" 500 (tk_pg s2)) = false.
Proof. vm_compute. done. Qed.

(** The cached token has lost its hash, so the update of its last use caches it
    under the empty hash. *)
Lemma empty_hash_found :
  let s := fill (tok_UpdateLastUsed "aa" (tok_GetByHash "h1" s2).2).2 in
  is_ok (tok_GetByHash "" s2).1 = false /\ is_ok (tok_GetByHash "" s).1 = true.
Proof. vm_compute. done. Qed.

(** While redis is down a revocation does not reach the cache. *)
Lemma revocation_not_cached :
  let down := {| tk_pg := tk_pg s2; tk_redis := tk_redis s2; tk_redis_up := false; to_cache := []; to_touch := [];
                 clock := 10; gone := ∅ |} in
  let revoked := (tok_Revoke "aa" down).2 in
  let up := {| tk_pg := tk_pg revoked; tk_redis := tk_redis revoked; tk_redis_up := true; to_cache := []; to_touch := [];
               clock := 10; gone := ∅ |} in
  (tok_Revoke "aa" down).1 = None /\ is_ok (tok_GetByHash "h1" up).1 = true.
Proof. vm_compute. done. Qed.
End TokenWitnesses.
