(* ===== verification/Assignments.v ===== *)
(** * Assignments: policy assignments, their cache and their endpoints

    src/internal/infrastructure/persistence/postgres/assignments.go,
    redis_policy_assignment_cache.go and
    src/internal/interfaces/http/api/assignments.go.  The table is a finite map
    of its rows with the constraints of src/migrations, among them the foreign
    keys to tenants and policies with their cascades and the trigger that sets
    updated_at, Redis a finite map of decoded values whose commands may fail;
    rows that tie in the order of a query come in some order. *)

From Stdlib Require Import Ascii String.
From S2P Require Import Prelude GoString Repos Http AuditApi Tenants.

Record PolicyAssignment := {
  pa_ID : uuid;
  pa_TenantID : uuid;
  pa_PolicyID : uuid;
  pa_TargetScope : string;
  pa_Priority : Z;
  pa_Enabled : bool;
  pa_CreatedAt : Z;
  pa_UpdatedAt : Z;
}.

#[export] Instance PolicyAssignment_eq_dec : EqDecision PolicyAssignment.
Proof. solve_decision. Defined.

(** ** The table *)

Record pg_assignments := {
  arows : gmap uuid PolicyAssignment;
  fk_tenants : gset uuid;
  fk_policies : gset uuid;
  pg_off : option string;
}.

Definition with_arows (m : gmap uuid PolicyAssignment) (s : pg_assignments) : pg_assignments :=
  {| arows := m; fk_tenants := fk_tenants s; fk_policies := fk_policies s; pg_off := pg_off s |}.

Definition fill_assignment (id : uuid) (now : Z) (a : PolicyAssignment) : PolicyAssignment :=
  {| pa_ID := if bool_decide (pa_ID a = uuid_Nil) then id else pa_ID a; pa_TenantID := pa_TenantID a;
     pa_PolicyID := pa_PolicyID a; pa_TargetScope := pa_TargetScope a; pa_Priority := pa_Priority a;
     pa_Enabled := pa_Enabled a;
     pa_CreatedAt := if (pa_CreatedAt a =? time_zero)%Z then now else pa_CreatedAt a;
     pa_UpdatedAt := if (pa_UpdatedAt a =? time_zero)%Z then now else pa_UpdatedAt a |}.

(** The rows a query selects. *)
Definition selected (sel : PolicyAssignment -> bool) (m : gmap uuid PolicyAssignment) : list PolicyAssignment :=
  filter (fun a => sel a = true) (map_to_list m).*2.

(** The columns of the unique constraint. *)
Definition same_target (a b : PolicyAssignment) : bool :=
  bool_decide (pa_TenantID a = pa_TenantID b) && bool_decide (pa_TargetScope a = pa_TargetScope b)
  && bool_decide (pa_PolicyID a = pa_PolicyID b).

(** DO UPDATE SET priority, enabled, updated_at; the trigger
    [update_policy_assignments_updated_at] replaces the time by the clock of the
    database. *)
Definition upsert (db_now : Z) (a row : PolicyAssignment) : PolicyAssignment :=
  {| pa_ID := pa_ID row; pa_TenantID := pa_TenantID row; pa_PolicyID := pa_PolicyID row;
     pa_TargetScope := pa_TargetScope row; pa_Priority := pa_Priority a; pa_Enabled := pa_Enabled a;
     pa_CreatedAt := pa_CreatedAt row; pa_UpdatedAt := db_now |}.

(** INSERT ... ON CONFLICT (tenant_id, target_scope, policy_id) DO UPDATE: a row
    for the same target keeps its identifier. *)
Definition apg_Create (id : uuid) (db_now now : Z) (a : PolicyAssignment) (s : pg_assignments) :
    option string * PolicyAssignment * pg_assignments :=
  let a := fill_assignment id now a in
  match pg_off s with
  | Some e => (Some ("create policy assignment: " +:+ e), a, s)
  | None =>
    match selected (same_target a) (arows s) with
    | row :: _ => (None, a, with_arows (<[pa_ID row := upsert db_now a row]> (arows s)) s)
    | [] =>
      if bool_decide (is_Some (arows s !! pa_ID a))
      then (Some ("create policy assignment: " +:+ unique_violation), a, s)
      else if negb (bool_decide (pa_TenantID a ∈ fk_tenants s) && bool_decide (pa_PolicyID a ∈ fk_policies s))
      then (Some "create policy assignment: violates foreign key constraint", a, s)
      else (None, a, with_arows (<[pa_ID a := a]> (arows s)) s)
    end
  end.

Definition apg_Get (id : uuid) (s : pg_assignments) : result string PolicyAssignment :=
  match pg_off s with
  | Some e => Err ("get policy assignment: " +:+ e)
  | None => match arows s !! id with
            | Some a => Ok a
            | None => Err "get policy assignment: no rows in result set"
            end
  end.

(** ORDER BY priority DESC, created_at ASC. *)
Definition ranks_before (a b : PolicyAssignment) : Prop :=
  (pa_Priority b < pa_Priority a \/ (pa_Priority b = pa_Priority a /\ pa_CreatedAt a <= pa_CreatedAt b))%Z.
#[export] Instance ranks_before_dec a b : Decision (ranks_before a b).
Proof. unfold ranks_before. apply _. Defined.

Definition apg_list (what : string) (sel : PolicyAssignment -> bool) (s : pg_assignments) :
    result string (list PolicyAssignment) :=
  match pg_off s with
  | Some e => Err (what +:+ e)
  | None => Ok (merge_sort ranks_before (selected sel (arows s)))
  end.

Definition of_tenant (t : uuid) (a : PolicyAssignment) : bool := bool_decide (pa_TenantID a = t).
Definition of_policy (p : uuid) (a : PolicyAssignment) : bool := bool_decide (pa_PolicyID a = p).
Definition of_scope (t : uuid) (scope : string) (a : PolicyAssignment) : bool :=
  of_tenant t a && bool_decide (pa_TargetScope a = scope) && pa_Enabled a.

Definition apg_ListByTenant (t : uuid) : pg_assignments -> result string (list PolicyAssignment) :=
  apg_list "list policy assignments: " (of_tenant t).
Definition apg_ListByPolicy (p : uuid) : pg_assignments -> result string (list PolicyAssignment) :=
  apg_list "list policy assignments by policy: " (of_policy p).
Definition apg_ListByScope (t : uuid) (scope : string) : pg_assignments -> result string (list PolicyAssignment) :=
  apg_list "list policy assignments by scope: " (of_scope t scope).

(** UPDATE ... SET target_scope, priority, enabled, updated_at, with the same
    trigger. *)
Definition set_assignment (db_now : Z) (a row : PolicyAssignment) : PolicyAssignment :=
  {| pa_ID := pa_ID row; pa_TenantID := pa_TenantID row; pa_PolicyID := pa_PolicyID row;
     pa_TargetScope := pa_TargetScope a; pa_Priority := pa_Priority a; pa_Enabled := pa_Enabled a;
     pa_CreatedAt := pa_CreatedAt row; pa_UpdatedAt := db_now |}.
Definition atouched (now : Z) (a : PolicyAssignment) : PolicyAssignment :=
  {| pa_ID := pa_ID a; pa_TenantID := pa_TenantID a; pa_PolicyID := pa_PolicyID a; pa_TargetScope := pa_TargetScope a;
     pa_Priority := pa_Priority a; pa_Enabled := pa_Enabled a; pa_CreatedAt := pa_CreatedAt a; pa_UpdatedAt := now |}.

Definition assignment_not_found : string := "policy assignment not found".

Definition apg_Update (db_now now : Z) (a : PolicyAssignment) (s : pg_assignments) :
    option string * PolicyAssignment * pg_assignments :=
  let a := atouched now a in
  match pg_off s with
  | Some e => (Some ("update policy assignment: " +:+ e), a, s)
  | None =>
    match arows s !! pa_ID a with
    | None => (Some assignment_not_found, a, s)
    | Some row =>
      let row' := set_assignment db_now a row in
      if bool_decide (map_Exists (fun j b => j <> pa_ID a /\ same_target row' b = true) (arows s))
      then (Some ("update policy assignment: " +:+ unique_violation), a, s)
      else (None, a, with_arows (<[pa_ID a := row']> (arows s)) s)
    end
  end.

Definition apg_Delete (id : uuid) (s : pg_assignments) : option string * pg_assignments :=
  match pg_off s with
  | Some e => (Some ("delete policy assignment: " +:+ e), s)
  | None =>
    match arows s !! id with
    | None => (Some assignment_not_found, s)
    | Some _ => (None, with_arows (delete id (arows s)) s)
    end
  end.

Definition apg_DeleteByTenantAndPolicy (t p : uuid) (s : pg_assignments) : option string * pg_assignments :=
  match pg_off s with
  | Some e => (Some ("delete policy assignments: " +:+ e), s)
  | None => (None, with_arows (filter (fun kv => (of_tenant t kv.2 && of_policy p kv.2) = false) (arows s)) s)
  end.

(** DELETE FROM tenants and DELETE FROM policies take the assignments with
    them. *)
Definition apg_DropTenant (t : uuid) (s : pg_assignments) : pg_assignments :=
  {| arows := filter (fun kv => of_tenant t kv.2 = false) (arows s); fk_tenants := fk_tenants s ∖ {[t]};
     fk_policies := fk_policies s; pg_off := pg_off s |}.
Definition apg_DropPolicy (p : uuid) (s : pg_assignments) : pg_assignments :=
  {| arows := filter (fun kv => of_policy p kv.2 = false) (arows s); fk_tenants := fk_tenants s;
     fk_policies := fk_policies s ∖ {[p]}; pg_off := pg_off s |}.

(** ** The cache *)

Inductive acached :=
  | CAssignment (a : PolicyAssignment)
  | CList (l : list PolicyAssignment).

Record RedisPolicyAssignmentRepository := {
  apg : pg_assignments;
  aredis : gmap string acached;
}.

Definition with_apg (p : pg_assignments) (s : RedisPolicyAssignmentRepository) : RedisPolicyAssignmentRepository :=
  {| apg := p; aredis := aredis s |}.
Definition with_aredis (m : gmap string acached) (s : RedisPolicyAssignmentRepository) : RedisPolicyAssignmentRepository :=
  {| apg := apg s; aredis := m |}.

Definition assignmentKey (id : uuid) : string := "assignment:" +:+ id.
Definition atenantKey (t : uuid) : string := "assignments:tenant:" +:+ t.
Definition tenantScopeKey (t : uuid) (scope : string) : string := "assignments:tenant:" +:+ t +:+ ":scope:" +:+ scope.
Definition policyKey (p : uuid) : string := "assignments:policy:" +:+ p.

(** What becomes of the commands of an operation: which keys a GET, SET or DEL
    reaches, and for each tenant whether the sweep of its collections is
    complete ([None]) or deletes only some of the keys, because SCAN or a DEL
    fails.  No error is looked at. *)
Record redis_fate := {
  rf_reach : string -> bool;
  rf_sweep : uuid -> option (string -> bool);
}.
Definition reliable : redis_fate := {| rf_reach _ := true; rf_sweep _ := None |}.

Definition a_GET (f : redis_fate) (k : string) (s : RedisPolicyAssignmentRepository) : option acached :=
  if rf_reach f k then aredis s !! k else None.
Definition a_SET (f : redis_fate) (k : string) (v : acached) (s : RedisPolicyAssignmentRepository) :
    RedisPolicyAssignmentRepository :=
  if rf_reach f k then with_aredis (<[k := v]> (aredis s)) s else s.
Definition a_DEL (f : redis_fate) (k : string) (s : RedisPolicyAssignmentRepository) : RedisPolicyAssignmentRepository :=
  if rf_reach f k then with_aredis (delete k (aredis s)) s else s.

Definition cacheAssignment (f : redis_fate) (a : PolicyAssignment) (s : RedisPolicyAssignmentRepository) :
    RedisPolicyAssignmentRepository :=
  a_SET f (assignmentKey (pa_ID a)) (CAssignment a) s.
Definition cache_list (f : redis_fate) (k : string) (l : list PolicyAssignment) (s : RedisPolicyAssignmentRepository) :
    RedisPolicyAssignmentRepository :=
  a_SET f k (CList l) s.

(** The keys that SCAN finds for the pattern of the tenant are deleted. *)
Definition sweeps (f : redis_fate) (t : uuid) (k : string) : bool :=
  HasPrefix (atenantKey t) k && match rf_sweep f t with None => true | Some g => g k end.
Definition invalidateTenantCollections (f : redis_fate) (t : uuid) (s : RedisPolicyAssignmentRepository) :
    RedisPolicyAssignmentRepository :=
  with_aredis (filter (fun kv => sweeps f t kv.1 = false) (aredis s)) s.

Definition ar_Create (f : redis_fate) (id : uuid) (db_now now : Z) (a : PolicyAssignment) (s : RedisPolicyAssignmentRepository) :
    option string * PolicyAssignment * RedisPolicyAssignmentRepository :=
  match apg_Create id db_now now a (apg s) with
  | (Some e, a, p) => (Some e, a, with_apg p s)
  | (None, a, p) => (None, a, invalidateTenantCollections f (pa_TenantID a) (cacheAssignment f a (with_apg p s)))
  end.

Definition ar_Get (f : redis_fate) (id : uuid) (s : RedisPolicyAssignmentRepository) :
    result string PolicyAssignment * RedisPolicyAssignmentRepository :=
  match a_GET f (assignmentKey id) s with
  | Some (CAssignment a) => (Ok a, s)
  | _ => match apg_Get id (apg s) with
         | Err e => (Err e, s)
         | Ok a => (Ok a, cacheAssignment f a s)
         end
  end.

(** The three lists read through the cache in the same way. *)
Definition ar_read (f : redis_fate) (k : string) (load : pg_assignments -> result string (list PolicyAssignment))
    (s : RedisPolicyAssignmentRepository) : result string (list PolicyAssignment) * RedisPolicyAssignmentRepository :=
  match a_GET f k s with
  | Some (CList l) => (Ok l, s)
  | _ => match load (apg s) with
         | Err e => (Err e, s)
         | Ok l => (Ok l, cache_list f k l s)
         end
  end.

Definition ar_ListByTenant (f : redis_fate) (t : uuid) := ar_read f (atenantKey t) (apg_ListByTenant t).
Definition ar_ListByPolicy (f : redis_fate) (p : uuid) := ar_read f (policyKey p) (apg_ListByPolicy p).
Definition ar_ListByScope (f : redis_fate) (t : uuid) (scope : string) := ar_read f (tenantScopeKey t scope) (apg_ListByScope t scope).

Definition ar_Update (f : redis_fate) (db_now now : Z) (a : PolicyAssignment) (s : RedisPolicyAssignmentRepository) :
    option string * PolicyAssignment * RedisPolicyAssignmentRepository :=
  let old := apg_Get (pa_ID a) (apg s) in
  match apg_Update db_now now a (apg s) with
  | (Some e, a, p) => (Some e, a, with_apg p s)
  | (None, a, p) =>
    let s := invalidateTenantCollections f (pa_TenantID a) (cacheAssignment f a (with_apg p s)) in
    (None, a, match old with
              | Ok o => if bool_decide (pa_TenantID o = pa_TenantID a) then s
                        else invalidateTenantCollections f (pa_TenantID o) s
              | Err _ => s
              end)
  end.

Definition ar_Delete (f : redis_fate) (id : uuid) (s : RedisPolicyAssignmentRepository) : option string * RedisPolicyAssignmentRepository :=
  let old := apg_Get id (apg s) in
  match apg_Delete id (apg s) with
  | (Some e, p) => (Some e, with_apg p s)
  | (None, p) =>
    let s := a_DEL f (assignmentKey id) (with_apg p s) in
    (None, match old with Ok o => invalidateTenantCollections f (pa_TenantID o) s | Err _ => s end)
  end.

Definition ar_DeleteByTenantAndPolicy (f : redis_fate) (t p : uuid) (s : RedisPolicyAssignmentRepository) :
    option string * RedisPolicyAssignmentRepository :=
  match apg_DeleteByTenantAndPolicy t p (apg s) with
  | (Some e, pg) => (Some e, with_apg pg s)
  | (None, pg) =>
    (None, a_DEL f (policyKey p) (invalidateTenantCollections f t (with_apg pg s)))
  end.

(** ** The lists of a tenant are coherent *)














#[local] Instance ranks_before_trans : Transitive ranks_before.
Proof. unfold ranks_before. intros a b c. lia. Qed.
#[local] Instance ranks_before_total : Total ranks_before.
Proof. unfold ranks_before. intros a b. lia. Qed.



























(** Operations on the cached repository, with entries expiring, the database
    going down, and tenants and policies coming and going. *)
Inductive assignment_op :=
  | OpCreateA (id : uuid) (db_now now : Z) (a : PolicyAssignment)
  | OpGetA (id : uuid)
  | OpTenantA (t : uuid)
  | OpPolicyA (p : uuid)
  | OpScopeA (t : uuid) (scope : string)
  | OpUpdateA (db_now now : Z) (a : PolicyAssignment)
  | OpDeleteA (id : uuid)
  | OpDeleteAllA (t p : uuid)
  | OpExpireA (k : string)
  | OpDatabaseA (off : option string)
  | OpReferenced (tenants policies : gset uuid)
  | OpDropTenant (t : uuid)
  | OpDropPolicy (p : uuid).

Definition assignment_apply (f : redis_fate) (o : assignment_op) (s : RedisPolicyAssignmentRepository) : RedisPolicyAssignmentRepository :=
  match o with
  | OpCreateA id db_now now a => (ar_Create f id db_now now a s).2
  | OpGetA id => (ar_Get f id s).2
  | OpTenantA t => (ar_ListByTenant f t s).2
  | OpPolicyA p => (ar_ListByPolicy f p s).2
  | OpScopeA t scope => (ar_ListByScope f t scope s).2
  | OpUpdateA db_now now a => (ar_Update f db_now now a s).2
  | OpDeleteA id => (ar_Delete f id s).2
  | OpDeleteAllA t p => (ar_DeleteByTenantAndPolicy f t p s).2
  | OpExpireA k => with_aredis (delete k (aredis s)) s
  | OpDatabaseA off => with_apg {| arows := arows (apg s); fk_tenants := fk_tenants (apg s); fk_policies := fk_policies (apg s); pg_off := off |} s
  | OpReferenced ts ps => with_apg {| arows := arows (apg s); fk_tenants := ts ∪ fk_tenants (apg s);
                                      fk_policies := ps ∪ fk_policies (apg s); pg_off := pg_off (apg s) |} s
  | OpDropTenant t => with_apg (apg_DropTenant t (apg s)) s
  | OpDropPolicy p => with_apg (apg_DropPolicy p (apg s)) s
  end.






(** ** The endpoints *)

(** The repository as the handlers use it. *)
Class AssignmentRepository := {
  arepo : Type;
  r_Create : uuid -> Z -> Z -> PolicyAssignment -> arepo -> option string * PolicyAssignment * arepo;
  r_Get : uuid -> arepo -> result string PolicyAssignment * arepo;
  r_ListByTenant : uuid -> arepo -> result string (list PolicyAssignment) * arepo;
  r_ListByScope : uuid -> string -> arepo -> result string (list PolicyAssignment) * arepo;
  r_Update : Z -> Z -> PolicyAssignment -> arepo -> option string * PolicyAssignment * arepo;
  r_Delete : uuid -> arepo -> option string * arepo;
}.

Definition pg_assignment_repository : AssignmentRepository :=
  {| arepo := pg_assignments; r_Create := apg_Create; r_Get id s := (apg_Get id s, s);
     r_ListByTenant t s := (apg_ListByTenant t s, s); r_ListByScope t sc s := (apg_ListByScope t sc s, s);
     r_Update := apg_Update; r_Delete := apg_Delete |}.
Definition redis_assignment_repository (f : redis_fate) : AssignmentRepository :=
  {| arepo := RedisPolicyAssignmentRepository; r_Create := ar_Create f; r_Get := ar_Get f;
     r_ListByTenant := ar_ListByTenant f; r_ListByScope := ar_ListByScope f; r_Update := ar_Update f; r_Delete := ar_Delete f |}.

(** The request body of a creation. *)
Record create_request := {
  cr_RulepackID : uuid;
  cr_TargetScope : string;
  cr_Priority : Z;
}.

Section AssignmentHandlers.
Context `{TenantRepository, AssignmentRepository} (uuid_Parse : string -> option uuid).
Context (decode_create : string -> result string create_request) (decode_priority : string -> result string Z).

Record assignment_api := {
  aa_tenants : option trepo;
  aa_assignments : option arepo;
  aa_audits : list (string * uuid);
  aa_audited : bool;
}.

Definition with_assignments (s : arepo) (a : assignment_api) : assignment_api :=
  {| aa_tenants := aa_tenants a; aa_assignments := Some s; aa_audits := aa_audits a; aa_audited := aa_audited a |}.

(** The entry given to the audit repository: its action and object. *)
Definition note (action : string) (id : uuid) (a : assignment_api) : assignment_api :=
  {| aa_tenants := aa_tenants a; aa_assignments := aa_assignments a;
     aa_audits := if aa_audited a then aa_audits a ++ [(action, id)] else aa_audits a; aa_audited := aa_audited a |}.

(** The check that the tenant exists, if tenants are configured. *)
Definition tenant_exists (t : uuid) (a : assignment_api) : bool * assignment_api :=
  match aa_tenants a with
  | None => (true, a)
  | Some s => let '(r, s) := t_Get t s in
              (is_ok r, {| aa_tenants := Some s; aa_assignments := aa_assignments a; aa_audits := aa_audits a;
                           aa_audited := aa_audited a |})
  end.

Definition new_assignment (id t : uuid) (now : Z) (req : create_request) : PolicyAssignment :=
  {| pa_ID := id; pa_TenantID := t; pa_PolicyID := cr_RulepackID req;
     pa_TargetScope := if bool_decide (cr_TargetScope req = "") then "*" else cr_TargetScope req;
     pa_Priority := if (cr_Priority req =? 0)%Z then 100%Z else cr_Priority req;
     pa_Enabled := true; pa_CreatedAt := now; pa_UpdatedAt := now |}.

Definition createAssignmentHandler (id : uuid) (db_now now : Z) (r : HttpRequest) (a : assignment_api) :
    Reply PolicyAssignment * assignment_api :=
  match aa_assignments a with
  | None => (Failure 501 "NOT_IMPLEMENTED", a)
  | Some s =>
    match uuid_Parse (URLParam r "id") with
    | None => (Failure 400 "INVALID_ARGUMENT", a)
    | Some t =>
      match decode_create (RawBody r) with
      | Err _ => (Failure 400 "INVALID_REQUEST", a)
      | Ok req =>
        if bool_decide (cr_RulepackID req = uuid_Nil) then (Failure 400 "INVALID_ARGUMENT", a)
        else
          let '(exists_, a) := tenant_exists t a in
          if negb exists_ then (Failure 404 "TENANT_NOT_FOUND", a)
          else match r_Create id db_now now (new_assignment id t now req) s with
               | (Some _, _, s) => (Failure 500 "INTERNAL_ERROR", with_assignments s a)
               | (None, x, s) => (Answer 201 x, note "assignment.create" (pa_ID x) (with_assignments s a))
               end
      end
    end
  end.

Definition listAssignmentsHandler (r : HttpRequest) (a : assignment_api) : Reply (list PolicyAssignment) * assignment_api :=
  match aa_assignments a with
  | None => (Failure 501 "NOT_IMPLEMENTED", a)
  | Some s =>
    match uuid_Parse (URLParam r "id") with
    | None => (Failure 400 "INVALID_ARGUMENT", a)
    | Some t =>
      let scope := Query r "scope" in
      match (if bool_decide (scope = "") then r_ListByTenant t s else r_ListByScope t scope s) with
      | (Err _, s) => (Failure 500 "INTERNAL_ERROR", with_assignments s a)
      | (Ok l, s) => (Answer 200 l, with_assignments s a)
      end
    end
  end.

Definition set_priority (p now : Z) (x : PolicyAssignment) : PolicyAssignment :=
  {| pa_ID := pa_ID x; pa_TenantID := pa_TenantID x; pa_PolicyID := pa_PolicyID x; pa_TargetScope := pa_TargetScope x;
     pa_Priority := p; pa_Enabled := pa_Enabled x; pa_CreatedAt := pa_CreatedAt x; pa_UpdatedAt := now |}.

Definition updateAssignmentHandler (db_now now : Z) (r : HttpRequest) (a : assignment_api) : Reply (uuid * Z) * assignment_api :=
  match aa_assignments a with
  | None => (Failure 501 "NOT_IMPLEMENTED", a)
  | Some s =>
    match uuid_Parse (URLParam r "assignmentId") with
    | None => (Failure 400 "INVALID_ARGUMENT", a)
    | Some id =>
      match decode_priority (RawBody r) with
      | Err _ => (Failure 400 "INVALID_REQUEST", a)
      | Ok p =>
        if (p <? 0)%Z then (Failure 400 "INVALID_ARGUMENT", a)
        else match r_Get id s with
             | (Err _, s) => (Failure 404 "ASSIGNMENT_NOT_FOUND", with_assignments s a)
             | (Ok x, s) =>
               match r_Update db_now now (set_priority p now x) s with
               | (Some _, _, s) => (Failure 500 "INTERNAL_ERROR", with_assignments s a)
               | (None, _, s) => (Answer 200 (id, p), note "assignment.update" id (with_assignments s a))
               end
             end
      end
    end
  end.

Definition deleteAssignmentHandler (r : HttpRequest) (a : assignment_api) : Reply unit * assignment_api :=
  match aa_assignments a with
  | None => (Failure 501 "NOT_IMPLEMENTED", a)
  | Some s =>
    match uuid_Parse (URLParam r "assignmentId") with
    | None => (Failure 400 "INVALID_ARGUMENT", a)
    | Some id =>
      match r_Delete id s with
      | (Some e, s) =>
        (if bool_decide (e = "assignment not found") then Failure 404 "NOT_FOUND" else Failure 500 "INTERNAL_ERROR",
         with_assignments s a)
      | (None, s) => (Answer 204 tt, note "assignment.delete" id (with_assignments s a))
      end
    end
  end.
End AssignmentHandlers.

(** ** Concrete runs, and where the code falls short *)

Module AssignmentWitnesses.
Definition a1 : PolicyAssignment :=
  {| pa_ID := "a1"; pa_TenantID := "c"; pa_PolicyID := "b"; pa_TargetScope := "*"; pa_Priority := 1; pa_Enabled := true;
     pa_CreatedAt := 1; pa_UpdatedAt := 1 |}.
Definition a2 : PolicyAssignment :=
  {| pa_ID := "a2"; pa_TenantID := "c"; pa_PolicyID := "b"; pa_TargetScope := "*"; pa_Priority := 5; pa_Enabled := true;
     pa_CreatedAt := 2; pa_UpdatedAt := 2 |}.
Definition empty : pg_assignments :=
  {| arows := ∅; fk_tenants := {[ "c" ]}; fk_policies := {[ "b" ]}; pg_off := None |}.
Definition fresh : RedisPolicyAssignmentRepository := {| apg := empty; aredis := ∅ |}.
Definition run_with (f : redis_fate) (os : list assignment_op) : RedisPolicyAssignmentRepository :=
  foldl (fun s o => assignment_apply f o s) fresh os.
Definition run : list assignment_op -> RedisPolicyAssignmentRepository := run_with reliable.

(** The list of a scope was cached before the priority changed. *)
Definition os : list (redis_fate * assignment_op) :=
  [(reliable, OpCreateA "a1" 1 1 a1); (reliable, OpScopeA "c" "*"); (reliable, OpUpdateA 4 3 (set_priority 9 3 a1))].


(** Assigning a policy again updates the row, which keeps its identifier, but
    the answer and the cache carry a new one: it can be read, not changed. *)
Lemma phantom_assignment :
  let s := run [OpCreateA "a1" 1 1 a1; OpCreateA "a2" 2 2 a2] in
  arows (apg s) !! "a2" = None /\ (ar_Get reliable "a2" s).1 = Ok a2 /\ (ar_Update reliable 3 3 a2 s).1.1 = Some assignment_not_found.
Proof. vm_compute. done. Qed.

(** The list of a policy is not removed when one of its assignments changes. *)
Lemma stale_policy_list :
  let s := run [OpCreateA "a1" 1 1 a1; OpPolicyA "b"; OpDeleteA "a1"] in
  apg_ListByPolicy "b" (apg s) = Ok [] /\ (ar_ListByPolicy reliable "b" s).1 = Ok [a1].
Proof. vm_compute. done. Qed.

(** Deleting all assignments of a tenant and policy leaves their own entries. *)
Lemma deleted_assignment_found :
  let s := run [OpCreateA "a1" 1 1 a1; OpDeleteAllA "c" "b"] in
  arows (apg s) !! "a1" = None /\ (ar_Get reliable "a1" s).1 = Ok a1.
Proof. vm_compute. done. Qed.

(** The errors of SCAN and DEL are not looked at: a deletion succeeds and its
    assignment is still enforced. *)
Definition no_scan : redis_fate := {| rf_reach _ := true; rf_sweep _ := Some (fun _ => false) |}.
Lemma failed_sweep_enforced :
  let s := run [OpCreateA "a1" 1 1 a1; OpScopeA "c" "*"] in
  (ar_Delete no_scan "a1" s).1 = None /\ (ar_ListByScope reliable "c" "*" (ar_Delete no_scan "a1" s).2).1 = Ok [a1].
Proof. vm_compute. done. Qed.

(** An assignment that was deleted with its policy is still enforced. *)
Lemma dropped_policy_enforced :
  let s := run [OpCreateA "a1" 1 1 a1; OpScopeA "c" "*"; OpDropPolicy "b"] in
  apg_ListByScope "c" "*" (apg s) = Ok [] /\ (ar_ListByScope reliable "c" "*" s).1 = Ok [a1].
Proof. vm_compute. done. Qed.

(** The text of the error is not the one the handler looks for: deleting an
    assignment that does not exist answers 500. *)
Definition api : @assignment_api pg_repository pg_assignment_repository :=
  {| aa_tenants := None; aa_assignments := Some empty : option (@arepo pg_assignment_repository); aa_audits := [];
     aa_audited := false |}.
Lemma delete_unknown_assignment :
  (@deleteAssignmentHandler pg_repository pg_assignment_repository Some (request "DELETE" "" [] [] [("assignmentId", "a9")] "") api).1 =
  Failure 500 "INTERNAL_ERROR".
Proof. vm_compute. reflexivity. Qed.

(** The endpoint stores the identifier of a rule pack in the column that refers
    to the policies: unless a policy has the same identifier it answers 500. *)
Lemma pack_is_no_policy :
  (@createAssignmentHandler pg_repository pg_assignment_repository Some
     (fun _ => Ok {| cr_RulepackID := "e"; cr_TargetScope := ""; cr_Priority := 0 |}) "a1" 1 1
     (request "POST" "" [] [] [("id", "c")] "") api).1 = Failure 500 "INTERNAL_ERROR".
Proof. vm_compute. reflexivity. Qed.
End AssignmentWitnesses.
