(* ===== verification/ControlPlane.v ===== *)
(** * ControlPlane: the control plane

    src/internal/interfaces/http/controlplane/handlers.go with
    src/internal/application/services/validation.go, over the PostgreSQL
    repositories as src/cmd/controlplane/main.go wires them: the handlers and
    the rule pack service share one repository and one publisher.  The JSON and
    YAML decoders and the parser of identifiers are arguments.  [StreamUpdates]
    is in [Diagnostics]. *)

From Stdlib Require Import Ascii String.
From S2P Require Import Prelude GoString Unicode Rules Merge Verifiers Complexity Aho Literals Engine Compile Scanner Load Loader Validate Repos RulepackSvc Http RulepacksApi PgRulepacks AuditApi Tenants Assignments.

(** ** The validation service *)

Section Validation.
Context `{RS : RegexpSyntax, RE : RegexpEngine, LL : LruLib, PF : Platform, SL : SchemaLib}.
(** Decoding fills a pack, which may already have fields; a decoder that fails
    may have filled some. *)
Context (json_decode : string -> RulePack * option string) (yaml_decode : string -> RulePack -> result string RulePack).
Context (json_encode : RulePack -> result string string).

Inductive validation_error :=
  | NeitherFormat (e : string)
  | ValidationErrors (errs : list pack_error)
  | NotNormalized (e : string).

(** JSON first, then YAML. *)
Definition decode_dsl (raw : string) : result validation_error RulePack :=
  match json_decode raw with
  | (pack, None) => Ok pack
  | (pack, Some e) => match yaml_decode raw pack with
                      | Ok pack => Ok pack
                      | Err _ => Err (NeitherFormat e)
                      end
  end.

Definition vs_ValidateDSL (raw : string) : option validation_error :=
  match decode_dsl raw with
  | Err e => Some e
  | Ok pack => match ValidatePack pack with
               | [] => None
               | errs => Some (ValidationErrors errs)
               end
  end.

Definition vs_NormalizeDSL (raw : string) : result validation_error string :=
  match decode_dsl raw with
  | Err e => Err e
  | Ok pack => match json_encode pack with
               | Ok s => Ok s
               | Err e => Err (NotNormalized e)
               end
  end.

(** ** The handlers *)

Context `{DG : Digest} (jsonb : string -> option string) (uuid_Parse : string -> option uuid).
#[local] Instance pg_instance : RulepackRepo := postgres_repo jsonb.

Record control_plane := {
  cp_svc : RulepackService;
  cp_assignments : pg_assignments;
  cp_audits : pg_audits;
}.

Definition with_svc (s : RulepackService) (c : control_plane) : control_plane :=
  {| cp_svc := s; cp_assignments := cp_assignments c; cp_audits := cp_audits c |}.
Definition with_cp_repo (r : repo) (c : control_plane) : control_plane := with_svc (with_repo r (cp_svc c)) c.

(** The bodies. *)
Record pack_body := { pb_TenantID : string; pb_Name : string; pb_Description : string }.
Record version_body := { vb_Version : Z; vb_DSL : string }.
Record activate_body := { ab_TenantID : string; ab_DSL : string }.
Record assign_body := { sb_TenantID : string; sb_RulepackID : string; sb_TargetScope : string; sb_Priority : Z }.

Context (decode_pack : string -> option pack_body) (decode_version : string -> option version_body).
Context (decode_activate : string -> option activate_body) (decode_assign : string -> option assign_body).

Definition pack_entry (tenantID id : uuid) : AuditEntry :=
  {| ae_ID := uuid_Nil; ae_TenantID := Some tenantID; ae_ActorID := None; ae_ActorType := ""; ae_ActorEmail := "";
     ae_Action := "create_rulepack"; ae_ObjectType := "rulepack"; ae_ObjectID := id; ae_Before := ""; ae_After := "";
     ae_Metadata := ""; ae_CreatedAt := time_zero; ae_Hash := ""; ae_PrevHash := "" |}.

Definition CreateRulepack (id : uuid) (now : Z) (r : HttpRequest) (c : control_plane) : Reply uuid * control_plane :=
  match decode_pack (RawBody r) with
  | None => (Failure 400 "invalid request body", c)
  | Some req =>
    match uuid_Parse (pb_TenantID req) with
    | None => (Failure 400 "invalid tenant ID", c)
    | Some tenantID =>
      match repo_Create id tenantID (pb_Name req) (pb_Description req) now (svc_repo (cp_svc c)) with
      | (Err _, p) => (Failure 500 "create failed", with_cp_repo p c)
      | (Ok id, p) =>
        (Answer 201 id, {| cp_svc := with_repo p (cp_svc c); cp_assignments := cp_assignments c;
                           cp_audits := (audit_Create now (pack_entry tenantID id) (cp_audits c)).2 |})
      end
    end
  end.

Definition UploadVersion (id : uuid) (now : Z) (r : HttpRequest) (c : control_plane) : Reply uuid * control_plane :=
  match uuid_Parse (URLParam r "id") with
  | None => (Failure 400 "invalid rulepack ID", c)
  | Some packID =>
    match decode_version (RawBody r) with
    | None => (Failure 400 "invalid JSON", c)
    | Some req =>
      match vs_ValidateDSL (vb_DSL req) with
      | Some _ => (Failure 400 "invalid DSL", c)
      | None =>
        match vs_NormalizeDSL (vb_DSL req) with
        | Err _ => (Failure 400 "failed to normalize DSL", c)
        | Ok normalized =>
          match repo_CreateVersion id packID (vb_Version req) normalized "draft" uuid_Nil now (svc_repo (cp_svc c)) with
          | (Err _, p) => (Failure 500 "create failed", with_cp_repo p c)
          | (Ok id, p) => (Answer 201 id, with_cp_repo p c)
          end
        end
      end
    end
  end.

Definition pack_and_version (r : HttpRequest) : result string (uuid * Z) :=
  match uuid_Parse (URLParam r "id") with
  | None => Err "invalid rulepack ID"
  | Some packID => match Atoi (URLParam r "ver") with
                   | None => Err "invalid version"
                   | Some version => Ok (packID, version)
                   end
  end.

Definition approve_repo (packID : uuid) (version : Z) (d : database) : option repo_error * database :=
  lift (pgr_ApproveVersion packID version) (pgr_ApproveVersion_schema packID version) d.

Definition ApproveVersion (r : HttpRequest) (c : control_plane) : Reply unit * control_plane :=
  match pack_and_version r with
  | Err e => (Failure 400 e, c)
  | Ok (packID, version) =>
    match approve_repo packID version (svc_repo (cp_svc c) : database) with
    | (Some _, p) => (Failure 400 "not approved", with_cp_repo p c)
    | (None, p) => (Answer 200 tt, with_cp_repo p c)
    end
  end.

Definition ActivateVersion (ctx_cancelled : option string) (id : uuid) (now : Z) (r : HttpRequest) (c : control_plane) :
    Reply unit * control_plane :=
  match pack_and_version r with
  | Err e => (Failure 400 e, c)
  | Ok (packID, version) =>
    match decode_activate (RawBody r) with
    | None => (Failure 400 "invalid request", c)
    | Some req =>
      match uuid_Parse (ab_TenantID req) with
      | None => (Failure 400 "invalid tenant ID", c)
      | Some tenantID =>
        match CreateVersionActivate ctx_cancelled id now tenantID packID version (ab_DSL req) (cp_svc c) with
        | (Some _, s) => (Failure 500 "activation failed", with_svc s c)
        | (None, s) => (Answer 200 tt, with_svc s c)
        end
      end
    end
  end.

Definition cp_assignment (id t p : uuid) (req : assign_body) (now : Z) : PolicyAssignment :=
  {| pa_ID := id; pa_TenantID := t; pa_PolicyID := p; pa_TargetScope := sb_TargetScope req; pa_Priority := sb_Priority req;
     pa_Enabled := true; pa_CreatedAt := now; pa_UpdatedAt := now |}.

(** The update for an assignment names its scope. *)
Definition scope_update (t p : uuid) (scope : string) (version : Z) (dsl : string) : RuleUpdate :=
  {| ru_TenantID := t; ru_TargetScope := scope; ru_RulepackID := p; ru_Version := version;
     ru_ContentSHA256 := checksumJSON dsl |}.

Definition CreateAssignment (id : uuid) (db_now now : Z) (r : HttpRequest) (c : control_plane) : Reply uuid * control_plane :=
  match decode_assign (RawBody r) with
  | None => (Failure 400 "invalid request body", c)
  | Some req =>
    match uuid_Parse (sb_TenantID req), uuid_Parse (sb_RulepackID req) with
    | None, _ => (Failure 400 "invalid tenant ID", c)
    | Some _, None => (Failure 400 "invalid rulepack ID", c)
    | Some t, Some p =>
      let '(e, a, s) := apg_Create id db_now now (cp_assignment id t p req now) (cp_assignments c) in
      let c := {| cp_svc := cp_svc c; cp_assignments := s; cp_audits := cp_audits c |} in
      match e with
      | Some _ => (Failure 500 "create failed", c)
      | None =>
        (Answer 201 (pa_ID a),
         match repo_GetActive p (svc_repo (cp_svc c)) with
         | Ok (dsl, version) => with_svc (publish (scope_update t p (sb_TargetScope req) version dsl) (cp_svc c)) c
         | Err _ => c
         end)
      end
    end
  end.

Definition GetRulepack (r : HttpRequest) (c : control_plane) : Reply (string * Z) :=
  match uuid_Parse (URLParam r "id") with
  | None => Failure 400 "invalid rulepack ID"
  | Some packID => match repo_GetActive packID (svc_repo (cp_svc c)) with
                   | Err _ => Failure 404 "rulepack not found"
                   | Ok x => Answer 200 x
                   end
  end.

Definition GetRulepackVersion (r : HttpRequest) (c : control_plane) : Reply (string * string) :=
  match pack_and_version r with
  | Err e => Failure 400 e
  | Ok (packID, version) => match repo_GetVersion packID version (svc_repo (cp_svc c)) with
                            | Err _ => Failure 404 "version not found"
                            | Ok x => Answer 200 x
                            end
  end.

(** ** What the endpoints promise *)

Definition cp_db (c : control_plane) : pg_rulepacks := ` (svc_repo (cp_svc c) : database).

Lemma with_svc_same c : with_svc (cp_svc c) c = c.
Proof. by destruct c. Qed.

Lemma with_cp_repo_same c : with_cp_repo (svc_repo (cp_svc c)) c = c.
Proof. unfold with_cp_repo. rewrite with_repo_same. apply with_svc_same. Qed.

Lemma approve_fails p v (d : database) e d' : approve_repo p v d = (Some e, d') -> d' = d.
Proof.
  intros H%lift_eq. apply dsig_eq. unfold pgr_ApproveVersion in H. repeat case_match; by simplify_eq.
Qed.

Lemma CreateVersionActivate_number cancelled id now t p v dsl s s' :
  CreateVersionActivate cancelled id now t p v dsl s = (None, s') -> number_used p v (` (svc_repo s : database)) = false.
Proof.
  intros E. pose proof (CreateVersionActivate_effect cancelled id now t p v dsl s) as H. rewrite E in H.
  destruct H as ((id' & d & Ht) & _). apply lift_eq in Ht. by eapply pgr_CreateVersionActivateTx_number.
Qed.

(** C28. The life of a version in the control plane.  A request that is not
    answered with success changes nothing.  Uploading stores a valid text, in
    the form of the store, as a draft that can be read under its number, and
    activates nothing.  Approving turns a draft into an approved version with
    the same text, and activates nothing.  An activation that is answered with
    success makes the text of the request the active version, with the number of
    the path, and announces it.  (The documentation prescribes to activate the
    version that was uploaded and approved; the code refuses that, see
    [uploaded_version_not_activated].) *)
Theorem control_plane_lifecycle (cancelled : option string) (id : uuid) (now : Z) (r : HttpRequest) (c : control_plane) :
  (forall x c', UploadVersion id now r c = (x, c') ->
     match x with
     | Failure _ _ => c' = c
     | Answer _ _ => exists p req text, uuid_Parse (URLParam r "id") = Some p /\ decode_version (RawBody r) = Some req /\
         vs_ValidateDSL (vb_DSL req) = None /\ vs_NormalizeDSL (vb_DSL req) = Ok text /\
         pgr_GetVersion p (vb_Version req) (cp_db c') = Ok (repo_dsl text, "draft"%string) /\
         forall q, pgr_GetActive q (cp_db c') = pgr_GetActive q (cp_db c)
     end) /\
  (forall x c', ApproveVersion r c = (x, c') ->
     match x with
     | Failure _ _ => c' = c
     | Answer _ _ => exists p v dsl, pack_and_version r = Ok (p, v) /\
         pgr_GetVersion p v (cp_db c) = Ok (dsl, "draft"%string) /\ pgr_GetVersion p v (cp_db c') = Ok (dsl, "approved"%string) /\
         forall q, pgr_GetActive q (cp_db c') = pgr_GetActive q (cp_db c)
     end) /\
  (forall x c', ActivateVersion cancelled id now r c = (x, c') ->
     match x with
     | Failure _ _ => c' = c
     | Answer _ _ => exists p v req t, pack_and_version r = Ok (p, v) /\ decode_activate (RawBody r) = Some req /\
         uuid_Parse (ab_TenantID req) = Some t /\
         pgr_GetActive p (cp_db c') = Ok (repo_dsl (ab_DSL req), v) /\
         announces (rule_update t p v (ab_DSL req)) (cp_svc c) (cp_svc c')
     end).
Proof.
  split_and!; intros x c'.
  - unfold UploadVersion. destruct (uuid_Parse _) as [p|] eqn:Ep; [|by intros [= <- <-]].
    destruct (decode_version _) as [req|]; [|by intros [= <- <-]].
    destruct (vs_ValidateDSL _) eqn:Ev; [by intros [= <- <-]|]. destruct (vs_NormalizeDSL _) as [text|] eqn:En; [|by intros [= <- <-]].
    destruct (repo_CreateVersion _ _ _ _ _ _ _ _) as [[id'|e] d] eqn:E.
    + intros [= <- <-]. exists p, req, text. split_and!; [done..| |].
      * apply lift_eq in E. destruct (pgr_CreateVersion_row _ _ _ _ _ _ _ _ _ _ _ E) as (Hup & _ & _ & _ & Hv).
        assert (Hrow : vers (` (d : database)) !! id = Some (new_version id p (vb_Version req) (repo_dsl text) "draft" uuid_Nil now))
          by (rewrite Hv; apply lookup_insert_eq).
        exact (pgr_GetVersion_row _ _ _ (schema_proof d) Hup Hrow).
      * intros q. apply lift_eq in E. eapply pgr_CreateVersion_active; [apply schema_proof|exact E].
    + intros [= <- <-]. apply repo_CreateVersion_fails in E as ->. apply with_cp_repo_same.
  - unfold ApproveVersion. destruct (pack_and_version r) as [[p v]|e]; [|by intros [= <- <-]].
    destruct (approve_repo p v _) as [[e|] d] eqn:E; intros [= <- <-].
    + apply approve_fails in E as ->. apply with_cp_repo_same.
    + apply lift_eq in E. destruct (pgr_ApproveVersion_row _ _ _ _ (schema_proof _) E) as [(dsl & H1 & H2) H3].
      exists p, v, dsl. done.
  - unfold ActivateVersion. destruct (pack_and_version r) as [[p v]|e]; [|by intros [= <- <-]].
    destruct (decode_activate _) as [req|]; [|by intros [= <- <-]]. destruct (uuid_Parse _) as [t|] eqn:Et; [|by intros [= <- <-]].
    pose proof (CreateVersionActivate_effect cancelled id now t p v (ab_DSL req) (cp_svc c)) as He.
    destruct (CreateVersionActivate _ _ _ _ _ _ _ _) as [[e|] s] eqn:E; intros [= <- <-].
    + rewrite He. apply with_svc_same.
    + destruct He as (_ & Hg & Ha). by exists p, v, req, t.
Qed.

(** A version that was uploaded, and perhaps approved, can never be activated:
    activation stores a version of its own under the same number. *)
Lemma uploaded_version_not_activated cancelled id now r c p v :
  pack_and_version r = Ok (p, v) -> is_ok (pgr_GetVersion p v (cp_db c)) = true ->
  succeeded (ActivateVersion cancelled id now r c).1 = false.
Proof.
  intros Hr Hv. unfold ActivateVersion. rewrite Hr. destruct (decode_activate _) as [req|]; [|done].
  destruct (uuid_Parse _) as [t|]; [|done]. destruct (CreateVersionActivate _ _ _ _ _ _ _ _) as [[e|] s] eqn:E; [done|].
  apply CreateVersionActivate_number in E. unfold pgr_GetVersion, cp_db in Hv. destruct (pg_error _); [done|].
  destruct (numbered p v _) as [|x l] eqn:En; [done|].
  assert (Hx : x ∈ numbered p v (` (svc_repo (cp_svc c) : database))) by (rewrite En; left).
  apply elem_of_numbered in Hx as (i & Hi & <- & <-). pose proof (existsb_values_false _ _ _ _ E Hi) as Hf. simpl in Hf.
  by rewrite !bool_decide_eq_true_2 in Hf.
Qed.
End Validation.

(** The keys of a pack in YAML, from the tags of the struct, and the keys under
    which [json.Marshal] writes it, the names of the fields, since there are no
    tags for JSON. *)
Definition yaml_keys : list string :=
  ["apiVersion"; "kind"; "metadata"; "rules"; "extends"; "imports"; "composition"; "performance"; "overrides"; "context"].
Definition json_keys : list string :=
  ["APIVersion"; "Kind"; "Metadata"; "Rules"; "Extends"; "Imports"; "Composition"; "Performance"; "Overrides"; "Context";
   "SourcePath"].

(** None of the keys of a normalized pack is known to the YAML decoder, which
    the enforcers read the stored text with. *)
Lemma normalized_keys_unknown : Forall (fun k => k ∉ yaml_keys) json_keys.
Proof. apply (bool_decide_unpack _). vm_compute. exact I. Qed.

Module ControlWitnesses.
#[local] Existing Instance literal_syntax.
#[local] Existing Instance literal_engine.
#[local] Existing Instance list_lru.
#[local] Existing Instance bare_platform.
#[local] Existing Instance ValidateWitnesses.open_schema.
#[local] Existing Instance SvcWitnesses.plain_digest.

(** Texts that start with a brace are JSON; every text is a pack. *)
Definition pack : RulePack := pack0 "mine" [] [LoaderWitnesses.rule "a" "" "foo"].
Definition decode (s : string) : RulePack * option string := (pack, None).
Definition yaml (s : string) (p : RulePack) : result string RulePack := Err "yaml".
Definition encode (p : RulePack) : result string string := Ok "{ }"%string.
Definition version2 (body : string) : option version_body := Some {| vb_Version := 4; vb_DSL := body |}.
Definition activate4 (body : string) : option activate_body := Some {| ab_TenantID := "t"; ab_DSL := body |}.

Definition c0 : @control_plane PgWitnesses.objects :=
  {| cp_svc := PgWitnesses.svc;
     cp_assignments := {| arows := ∅; fk_tenants := {[ "t" ]}; fk_policies := ∅; pg_off := None |};
     cp_audits := {| entries := []; audits_down := None |} |}.
Definition at_version (n : string) (body : string) : HttpRequest := request "POST" "" [] [] [("id", "p"); ("ver", n)] body.

Definition upload (c : @control_plane PgWitnesses.objects) :=
  UploadVersion decode yaml encode PgWitnesses.objects Some version2 "v4" 0 (at_version "" "{}") c.
Definition activate (n : string) (c : @control_plane PgWitnesses.objects) :=
  ActivateVersion PgWitnesses.objects Some activate4 None "v5" 0 (at_version n "{ }") c.

Lemma control_plane_lifecycle_witness :
  (upload c0).1 = Answer 201 "v4"%string /\
  pgr_GetVersion "p" 4 (cp_db PgWitnesses.objects (upload c0).2) = Ok ("{}", "draft")%string /\
  pgr_GetActive "p" (cp_db PgWitnesses.objects (upload c0).2) = pgr_GetActive "p" (cp_db PgWitnesses.objects c0).
Proof.
  assert (Hx : (upload c0).1 = Answer 201 "v4"%string) by (vm_compute; reflexivity). split; [exact Hx|].
  pose proof (proj1 (control_plane_lifecycle decode yaml encode PgWitnesses.objects Some version2 activate4
                None "v4" 0 (at_version "" "{}") c0) (upload c0).1 (upload c0).2 (surjective_pairing _)) as H.
  rewrite Hx in H. destruct H as (p & req & text & [= <-] & [= <-] & _ & [= <-] & Hv & Ha). split; [exact Hv|]. exact (Ha "p"%string).
Defined.

(** A number that was never used can be activated, the uploaded one cannot. *)
Lemma approved_never_active :
  succeeded (activate "5" (upload c0).2).1 = true /\ succeeded (activate "4" (upload c0).2).1 = false.
Proof. vm_compute. done. Qed.
End ControlWitnesses.
