(* ===== verification/Usage.v ===== *)
(** * Usage: usage records and quotas

    src/internal/usage/store.go and quota.go, and the in-memory store of
    src/internal/interfaces/http/api/usage_store.go.  Times are nanoseconds
    since the epoch in UTC (the zero time of Go is a whole number of hours before
    it, so truncation to minutes and hours agrees); the start of a day in the
    location of a time and the format of times are arguments.  Counters are 64 bits wide. *)

From Stdlib Require Import Ascii String.
From S2P Require Import Prelude GoString Repos Http.

Record UsageRecord := {
  rec_Tenant : string;
  rec_Route : string;
  rec_Decision : string;
  rec_Bytes : Z;
  rec_PromptTokens : Z;
  rec_CompletionTokens : Z;
  rec_TotalTokens : Z;
  rec_Provider : string;
  rec_Model : string;
  rec_Timestamp : Z;
}.

Record Row := {
  row_Tenant : string;
  row_Route : string;
  row_Decision : string;
  row_Provider : string;
  row_Model : string;
  row_IntervalStart : Z;
  row_Count : Z;
  row_Bytes : Z;
  row_PromptTokens : Z;
  row_CompletionTokens : Z;
  row_TotalTokens : Z;
}.

(** [Interval] and [GroupBy] are strings; other values are [OtherInterval] and
    [OtherGroup]. *)
Inductive Interval :=
  | IntervalMinute
  | IntervalHour
  | IntervalDay
  | OtherInterval.

Inductive GroupBy :=
  | GroupByTenant
  | GroupByRoute
  | GroupByDecision
  | OtherGroup.

Record UsageQuery := {
  uq_Tenant : string;
  uq_Start : Z;
  uq_End : Z;
  uq_Interval : Interval;
  uq_GroupBy : list GroupBy;
}.

Record UsageResult := {
  WindowStart : Z;
  WindowEnd : Z;
  Rows : list Row;
}.

(** ** The in-memory store *)

(** [UsageCache]: the rows in the order in which they were recorded. *)
Definition UsageCache : Type := list Row.
Definition NewUsageCache : UsageCache := [].

Definition Record_usage (tenant route decision : string) (bytes t : Z) (s : UsageCache) : UsageCache :=
  s ++ [{| row_Tenant := tenant; row_Route := route; row_Decision := decision; row_Provider := ""; row_Model := "";
           row_IntervalStart := t; row_Count := 1; row_Bytes := bytes; row_PromptTokens := 0;
           row_CompletionTokens := 0; row_TotalTokens := 0 |}].

Definition RecordTokens (r : UsageRecord) (s : UsageCache) : UsageCache :=
  s ++ [{| row_Tenant := rec_Tenant r; row_Route := rec_Route r; row_Decision := rec_Decision r;
           row_Provider := rec_Provider r; row_Model := rec_Model r; row_IntervalStart := rec_Timestamp r;
           row_Count := 1; row_Bytes := rec_Bytes r; row_PromptTokens := rec_PromptTokens r;
           row_CompletionTokens := rec_CompletionTokens r; row_TotalTokens := rec_TotalTokens r |}].

(** [RecordAPIUsage], when a store is configured. *)
Definition RecordAPIUsage (tenantID route decision : string) (bytes now : Z) (s : option UsageCache) : option UsageCache :=
  Record_usage tenantID route decision bytes now <$> s.

Definition Minute : Z := 60 * 1000000000.
Definition Hour : Z := 60 * Minute.

Section Aggregate.
Context `{RangeOrder} (start_of_day : Z -> Z) (rfc3339 : Z -> string).

Definition Truncate (t d : Z) : Z := (t - t mod d)%Z.

Definition windowStart (q : UsageQuery) (r : Row) : Z :=
  match uq_Interval q with
  | IntervalMinute => Truncate (row_IntervalStart r) Minute
  | IntervalHour => Truncate (row_IntervalStart r) Hour
  | IntervalDay => start_of_day (row_IntervalStart r)
  | OtherInterval => Truncate (row_IntervalStart r) Hour
  end.

Definition group_part (r : Row) (g : GroupBy) : string :=
  match g with
  | GroupByTenant => "|tenant:" +:+ row_Tenant r
  | GroupByRoute => "|route:" +:+ row_Route r
  | GroupByDecision => "|decision:" +:+ row_Decision r
  | OtherGroup => ""
  end.

Definition groupKey (q : UsageQuery) (r : Row) : string :=
  foldl (fun k g => k +:+ group_part r g) (rfc3339 (windowStart q r)) (uq_GroupBy q).

(** The row of a new group, and a row added to a group. *)
Definition new_group (q : UsageQuery) (r : Row) : Row :=
  {| row_Tenant := row_Tenant r; row_Route := row_Route r; row_Decision := row_Decision r; row_Provider := row_Provider r;
     row_Model := row_Model r; row_IntervalStart := windowStart q r; row_Count := row_Count r; row_Bytes := row_Bytes r;
     row_PromptTokens := row_PromptTokens r; row_CompletionTokens := row_CompletionTokens r;
     row_TotalTokens := row_TotalTokens r |}.

Definition add_row (g r : Row) : Row :=
  {| row_Tenant := row_Tenant g; row_Route := row_Route g; row_Decision := row_Decision g; row_Provider := row_Provider g;
     row_Model := row_Model g; row_IntervalStart := row_IntervalStart g;
     row_Count := wrap64 (row_Count g + row_Count r); row_Bytes := wrap64 (row_Bytes g + row_Bytes r);
     row_PromptTokens := wrap64 (row_PromptTokens g + row_PromptTokens r);
     row_CompletionTokens := wrap64 (row_CompletionTokens g + row_CompletionTokens r);
     row_TotalTokens := wrap64 (row_TotalTokens g + row_TotalTokens r) |}.

Definition group_step (q : UsageQuery) (groups : gmap string Row) (r : Row) : gmap string Row :=
  let k := groupKey q r in
  match groups !! k with
  | Some g => <[k := add_row g r]> groups
  | None => <[k := new_group q r]> groups
  end.

Definition aggregateRows (q : UsageQuery) (rows : list Row) : list Row :=
  (range (foldl (group_step q) ∅ rows)).*2.

(** The rows of the window and the tenant. *)
Definition in_query (q : UsageQuery) (r : Row) : bool :=
  negb ((row_IntervalStart r <? uq_Start q) || (uq_End q <? row_IntervalStart r))%Z
  && (bool_decide (uq_Tenant q = "") || bool_decide (row_Tenant r = uq_Tenant q)).

Definition filtered (q : UsageQuery) (s : UsageCache) : list Row := filter (fun r => in_query q r = true) s.

Definition Query_usage (q : UsageQuery) (s : UsageCache) : UsageResult :=
  {| WindowStart := uq_Start q; WindowEnd := uq_End q; Rows := aggregateRows q (filtered q s) |}.

(** ** The groups *)

(** The reference: the rows of a key, and their summary. *)
Definition of_key (q : UsageQuery) (k : string) (rows : list Row) : list Row := filter (fun r => groupKey q r = k) rows.

Definition summary (q : UsageQuery) (rows : list Row) : option Row :=
  match rows with
  | [] => None
  | r :: rows => Some (foldl add_row (new_group q r) rows)
  end.

Lemma of_key_snoc q k rows r :
  of_key q k (rows ++ [r]) = of_key q k rows ++ (if decide (groupKey q r = k) then [r] else []).
Proof. unfold of_key. by rewrite filter_app. Qed.

Lemma summary_snoc q rows r :
  summary q (rows ++ [r]) = Some (match summary q rows with Some g => add_row g r | None => new_group q r end).
Proof. destruct rows as [|r0 rows]; [done|]. simpl. by rewrite foldl_app. Qed.

Lemma groups_spec q rows k : foldl (group_step q) ∅ rows !! k = summary q (of_key q k rows).
Proof.
  induction rows as [|r rows IH] using rev_ind; [apply lookup_empty|]. rewrite foldl_app, of_key_snoc. simpl.
  unfold group_step at 1. destruct (decide (groupKey q r = k)) as [Hk|Hk].
  - rewrite summary_snoc, <-IH, Hk. destruct (foldl (group_step q) ∅ rows !! k); apply lookup_insert_eq.
  - rewrite app_nil_r, <-IH. case_match; by rewrite lookup_insert_ne.
Qed.

(** The aggregation against the reference: one summary per key that occurs. *)
Lemma aggregate_perm q rows :
  map Some (aggregateRows q rows) ≡ₚ map (fun k => summary q (of_key q k rows)) (remove_dups (map (groupKey q) rows)).
Proof.
  unfold aggregateRows. set (g := foldl (group_step q) ∅ rows).
  assert (Hkeys : (map_to_list g).*1 ≡ₚ remove_dups (map (groupKey q) rows)).
  { apply NoDup_Permutation; [apply NoDup_fst_map_to_list|apply NoDup_remove_dups|]. intros k.
    rewrite elem_of_remove_dups, list_elem_of_fmap. split.
    - intros ([k' row] & -> & Hk%elem_of_map_to_list). unfold g in Hk. rewrite groups_spec in Hk. simpl.
      destruct (of_key q k' rows) as [|r l] eqn:E; [done|].
      assert (Hr : r ∈ of_key q k' rows) by (rewrite E; by left). apply list_elem_of_filter in Hr as [<- Hr].
      by apply list_elem_of_fmap_2.
    - intros (r & -> & Hr)%list_elem_of_fmap. destruct (g !! groupKey q r) as [row|] eqn:E.
      + exists (groupKey q r, row). split; [done|]. by apply elem_of_map_to_list.
      + unfold g in E. rewrite groups_spec in E. destruct (of_key q (groupKey q r) rows) as [|r0 l] eqn:E0; [|done].
        assert (Hin : r ∈ of_key q (groupKey q r) rows) by (by apply list_elem_of_filter). rewrite E0 in Hin. set_solver. }
  rewrite <-Hkeys. rewrite range_perm.
  assert (Heq : map Some (map_to_list g).*2 = map (fun k => summary q (of_key q k rows)) (map_to_list g).*1); [|by rewrite Heq].
  rewrite !map_map. apply map_ext_in. intros [k row] Hin%list_elem_of_In%elem_of_map_to_list. simpl.
  unfold g in Hin. by rewrite groups_spec in Hin.
Qed.

(** ** The counters *)

Definition measures : list (Row -> Z) :=
  [row_Count; row_Bytes; row_PromptTokens; row_CompletionTokens; row_TotalTokens].

Definition total (f : Row -> Z) (rows : list Row) : Z := foldr (fun r z => f r + z)%Z 0%Z rows.

Definition row_ok (r : Row) : Prop := forall f, f ∈ measures -> int64_range (f r).

Lemma measures_add f g r : f ∈ measures -> f (add_row g r) = wrap64 (f g + f r).
Proof. unfold measures. rewrite !elem_of_cons, elem_of_nil. intros [->|[->|[->|[->|[->|[]]]]]]; done. Qed.

Lemma measures_new f q r : f ∈ measures -> f (new_group q r) = f r.
Proof. unfold measures. rewrite !elem_of_cons, elem_of_nil. intros [->|[->|[->|[->|[->|[]]]]]]; done. Qed.

Lemma summary_total f q r rows :
  f ∈ measures -> row_ok r -> f (foldl add_row (new_group q r) rows) = wrap64 (total f (r :: rows)).
Proof.
  intros Hf Hr.
  assert (H0 : f (new_group q r) = wrap64 (f r)) by (rewrite measures_new, wrap64_id by auto; done).
  simpl. revert H0. generalize (new_group q r), (f r). clear Hr r.
  induction rows as [|r rows IH]; intros g z Hg; simpl.
  - by rewrite Z.add_0_r.
  - rewrite (IH _ (z + f r)%Z); [by rewrite Z.add_assoc|]. by rewrite measures_add, Hg, wrap64_add_l.
Qed.

Lemma summary_start q r rows : row_IntervalStart (foldl add_row (new_group q r) rows) = windowStart q r.
Proof.
  change (windowStart q r) with (row_IntervalStart (new_group q r)). generalize (new_group q r).
  induction rows as [|r' rows IH]; intros g; [done|]. simpl. by rewrite IH.
Qed.

(** A row of the answer is the summary of the rows of one key. *)
Lemma aggregate_row q rows g :
  g ∈ aggregateRows q rows ->
  exists r rest, of_key q (groupKey q r) rows = r :: rest /\ g = foldl add_row (new_group q r) rest.
Proof.
  intros Hg. assert (Hs : Some g ∈ map Some (aggregateRows q rows)) by (by apply list_elem_of_fmap_2).
  rewrite aggregate_perm in Hs. apply list_elem_of_fmap in Hs as (k & Hk & _).
  destruct (of_key q k rows) as [|r rest] eqn:E; [done|]. simplify_eq/=.
  assert (Hr : r ∈ of_key q k rows) by (rewrite E; by left). apply list_elem_of_filter in Hr as [<- _]. by exists r, rest.
Qed.

Lemma total_app f l1 l2 : total f (l1 ++ l2) = (total f l1 + total f l2)%Z.
Proof. induction l1 as [|r l1 IH]; simpl; [done|]. rewrite IH. lia. Qed.

Lemma total_nonneg f rows : (forall r, r ∈ rows -> (0 <= f r)%Z) -> (0 <= total f rows)%Z.
Proof.
  induction rows as [|r rows IH]; intros Hf; simpl; [done|].
  assert (0 <= f r)%Z by (apply Hf; left). assert (0 <= total f rows)%Z by (apply IH; intros; apply Hf; by right). lia.
Qed.

Lemma total_filter f (P : Row -> Prop) `{forall r, Decision (P r)} rows :
  (forall r, r ∈ rows -> (0 <= f r)%Z) -> (0 <= total f (filter P rows) <= total f rows)%Z.
Proof.
  induction rows as [|r rows IH]; intros Hf; [done|].
  assert (Hr : (0 <= f r)%Z) by (apply Hf; left).
  assert (Hb : (0 <= total f (filter P rows) <= total f rows)%Z) by (apply IH; intros; apply Hf; by right).
  rewrite filter_cons. simpl. case_decide; simpl; lia.
Qed.

(** The keys partition the rows. *)
Definition total_keys (f : Row -> Z) (q : UsageQuery) (ks : list string) (rows : list Row) : Z :=
  foldr (fun k z => total f (of_key q k rows) + z)%Z 0%Z ks.

Lemma total_keys_snoc f q ks rows r :
  NoDup ks ->
  total_keys f q ks (rows ++ [r]) = (total_keys f q ks rows + if decide (groupKey q r ∈ ks) then f r else 0)%Z.
Proof.
  induction ks as [|k ks IH]; intros Hnd; [by rewrite decide_False by apply not_elem_of_nil|].
  apply NoDup_cons in Hnd as [Hk Hnd]. simpl. rewrite of_key_snoc, total_app, (IH Hnd).
  destruct (decide (groupKey q r = k)) as [->|Hne].
  - rewrite (decide_False (P := k ∈ ks)), (decide_True (P := k ∈ k :: ks)) by (done || by left). simpl. lia.
  - simpl. repeat case_decide; try lia; set_solver.
Qed.

Lemma total_keys_nil f q ks : total_keys f q ks [] = 0%Z.
Proof. induction ks; simpl; lia. Qed.

Lemma total_partition f q ks rows :
  NoDup ks -> (forall r, r ∈ rows -> groupKey q r ∈ ks) -> total_keys f q ks rows = total f rows.
Proof.
  intros Hnd. induction rows as [|r rows IH] using rev_ind; intros Hin; [apply total_keys_nil|].
  rewrite total_keys_snoc, total_app by done. rewrite decide_True by (apply Hin; set_solver).
  rewrite IH; [simpl; lia|]. intros; apply Hin; set_solver.
Qed.

(** The counters of the answer, when no group exceeds 64 bits. *)
Lemma aggregate_total f q rows :
  f ∈ measures -> Forall row_ok rows -> (forall k, int64_range (total f (of_key q k rows))) ->
  total f (aggregateRows q rows) = total f rows.
Proof.
  intros Hf Hok Hrange. set (opt := fun o => from_option f 0%Z o).
  assert (Hsome : forall l, total f l = foldr (fun o z => opt o + z)%Z 0%Z (map Some l)).
  { intros l. induction l as [|r l IH]; [done|]. simpl. by rewrite IH. }
  assert (Hcomm : forall (o1 o2 : option Row) (z : Z), (opt o1 + (opt o2 + z) = opt o2 + (opt o1 + z))%Z) by (intros; lia).
  rewrite Hsome, (foldr_permutation_proper eq (fun o z => opt o + z)%Z 0%Z Hcomm _ _ (aggregate_perm q rows)).
  rewrite <-(total_partition f q (remove_dups (map (groupKey q) rows)) rows).
  2: apply NoDup_remove_dups.
  2: { intros r Hr. apply elem_of_remove_dups. by apply list_elem_of_fmap_2. }
  unfold total_keys. induction (remove_dups (map (groupKey q) rows)) as [|k ks IH]; [done|]. simpl. rewrite IH. f_equal.
  destruct (of_key q k rows) as [|r rest] eqn:E; [done|].
  change (f (foldl add_row (new_group q r) rest) = total f (r :: rest)).
  rewrite summary_total, <-E; [by apply wrap64_id|done|]. rewrite Forall_forall in Hok. apply Hok.
  assert (Hr : r ∈ of_key q k rows) by (rewrite E; left). by apply list_elem_of_filter in Hr as [_ Hr].
Qed.

(** A usage query reports exactly the records of its window and tenant: its rows are, in some order, one summary for every
    key (interval and grouping) that occurs among them, each starting at its interval with counters that are the 64-bit sums
    of the records of its key, and a counter that does not overflow adds up over the rows to its sum over those records. *)
Theorem usage_query_exact (q : UsageQuery) (s : UsageCache) :
  Forall row_ok s ->
  map Some (Rows (Query_usage q s)) ≡ₚ
    map (fun k => summary q (of_key q k (filtered q s))) (remove_dups (map (groupKey q) (filtered q s))) /\
  (forall g, g ∈ Rows (Query_usage q s) ->
     exists r, r ∈ s /\ in_query q r = true /\ row_IntervalStart g = windowStart q r /\
       forall f, f ∈ measures -> f g = wrap64 (total f (of_key q (groupKey q r) (filtered q s)))) /\
  (forall f, f ∈ measures -> (forall r, r ∈ s -> (0 <= f r)%Z) -> (total f (filtered q s) < 2^63)%Z ->
     total f (Rows (Query_usage q s)) = total f (filtered q s)).
Proof.
  intros Hok. assert (Hokf : Forall row_ok (filtered q s)) by
    (apply Forall_forall; intros r [_ Hr]%list_elem_of_filter; by apply (proj1 (Forall_forall _ _) Hok)). simpl. split; [apply aggregate_perm|].
  split.
  - intros g (r & rest & Hk & ->)%aggregate_row. exists r.
    assert (Hr : r ∈ filtered q s).
    { assert (Hr : r ∈ of_key q (groupKey q r) (filtered q s)) by (rewrite Hk; left).
      by apply list_elem_of_filter in Hr as [_ Hr]. }
    rewrite Forall_forall in Hokf. pose proof (Hokf r Hr). apply list_elem_of_filter in Hr as [Hq Hr].
    split; [done|]. split; [done|]. split; [apply summary_start|]. intros f Hf. by rewrite summary_total, Hk.
  - intros f Hf Hpos Hlt. apply aggregate_total; [done..|]. intros k.
    assert (Hposf : forall r, r ∈ filtered q s -> (0 <= f r)%Z) by (intros r [_ Hr]%list_elem_of_filter; auto).
    pose proof (total_filter f (fun r => groupKey q r = k) (filtered q s) Hposf). unfold int64_range, of_key. lia.
Qed.
End Aggregate.

(** ** Token buckets per tenant: quota.go *)

Section Buckets.
Context `{Limiter}.

Record inMemoryQuota := { iq_rps : Limit; iq_burst : Z; iq_m : gmap string limiter }.

Definition NewInMemoryQuota (defaultRPS : Limit) (defaultBurst : Z) : inMemoryQuota :=
  {| iq_rps := defaultRPS; iq_burst := if (defaultBurst <=? 0)%Z then 1%Z else defaultBurst; iq_m := ∅ |}.

(** The limiter of a tenant, and the store: a new limiter is asked for its whole burst at once. *)
Definition bucket_get (now : Z) (tenant : string) (q : inMemoryQuota) : limiter * inMemoryQuota :=
  match iq_m q !! tenant with
  | Some l => (l, q)
  | None =>
    let rps := if positive (iq_rps q) then iq_rps q else Inf in
    let l := (limiter_AllowN now (iq_burst q) (NewLimiter rps (iq_burst q))).2 in
    (l, {| iq_rps := rps; iq_burst := iq_burst q; iq_m := <[tenant := l]> (iq_m q) |})
  end.

Definition bucket_Allow (now : Z) (tenant : string) (q : inMemoryQuota) : bool * inMemoryQuota :=
  let '(l, q) := bucket_get now tenant q in
  let '(ok, l) := limiter_Allow now l in
  (ok, {| iq_rps := iq_rps q; iq_burst := iq_burst q; iq_m := <[tenant := l]> (iq_m q) |}).

Definition bucket_Set (tenant : string) (r : Limit) (burst : Z) (q : inMemoryQuota) : inMemoryQuota :=
  {| iq_rps := iq_rps q; iq_burst := iq_burst q;
     iq_m := <[tenant := NewLimiter r (if (burst <=? 0)%Z then 1 else burst)%Z]> (iq_m q) |}.

(** A request is charged to its own tenant only. *)
Lemma bucket_Allow_others now tenant other q :
  tenant <> other -> iq_m (bucket_Allow now tenant q).2 !! other = iq_m q !! other.
Proof.
  intros Hne. unfold bucket_Allow, bucket_get.
  destruct (iq_m q !! tenant); destruct (limiter_Allow _ _); simpl; by rewrite !lookup_insert_ne.
Qed.
End Buckets.

Module UsageWitnesses.
Definition day (t : Z) : Z := Truncate t (24 * Hour).
Definition show (t : Z) : string := if (t =? 0)%Z then "0" else "1".

Definition cache : UsageCache :=
  Record_usage "b" "/check" "deny" 7 (Hour + 1)
    (RecordTokens {| rec_Tenant := "a"; rec_Route := "/scan"; rec_Decision := "allow"; rec_Bytes := 5; rec_PromptTokens := 3;
                     rec_CompletionTokens := 4; rec_TotalTokens := 7; rec_Provider := "p"; rec_Model := "m"; rec_Timestamp := 9 |}
       (Record_usage "a" "/check" "allow" 2 8 NewUsageCache)).

Definition hourly : UsageQuery :=
  {| uq_Tenant := ""; uq_Start := 0; uq_End := 2 * Hour; uq_Interval := IntervalHour; uq_GroupBy := [GroupByTenant] |}.

Lemma cache_rows r : r ∈ cache -> r = nth 0 cache r \/ r = nth 1 cache r \/ r = nth 2 cache r.
Proof. simpl. set_solver. Qed.

Lemma cache_ok : Forall row_ok cache.
Proof.
  apply Forall_forall. intros r [->|[->| ->]]%cache_rows f; unfold measures; rewrite !elem_of_cons, elem_of_nil;
    intros [->|[->|[->|[->|[->|[]]]]]]; vm_compute; split; congruence.
Qed.

Lemma usage_query_exact_witness :
  length (Rows (@Query_usage some_order day show hourly cache)) = 2 /\
  total row_Bytes (Rows (@Query_usage some_order day show hourly cache)) = 14%Z.
Proof.
  split; [vm_compute; reflexivity|].
  rewrite (proj2 (proj2 (@usage_query_exact some_order day show hourly cache cache_ok)) row_Bytes).
  - vm_compute. reflexivity.
  - unfold measures. right. left.
  - intros r [->|[->| ->]]%cache_rows; vm_compute; congruence.
  - vm_compute. reflexivity.
Defined.

(** The parts of a key are not quoted: two tenants share one row. *)
Definition forged : UsageCache :=
  Record_usage "a" "b|route:c" "allow" 1 0 (Record_usage "a|route:b" "c" "allow" 1 0 NewUsageCache).
Definition by_tenant_and_route : UsageQuery :=
  {| uq_Tenant := ""; uq_Start := 0; uq_End := Hour; uq_Interval := IntervalHour; uq_GroupBy := [GroupByTenant; GroupByRoute] |}.

Lemma keys_collide :
  map (fun r => (row_Tenant r, row_Count r)) (Rows (@Query_usage some_order day show by_tenant_and_route forged)) =
  [("a|route:b", 2%Z)]%string.
Proof. vm_compute. reflexivity. Qed.

(** A bucket of whole tokens per second; [None] is no limit. *)
Record bucket := { b_limit : option Z; b_burst : Z; b_tokens : Z; b_last : Z }.

Definition b_AllowN (now n : Z) (b : bucket) : bool * bucket :=
  match b_limit b with
  | None => (true, b)
  | Some r =>
    let tokens := Z.min (b_burst b) (b_tokens b + (now - b_last b) * r / 1000000000)%Z in
    if (n <=? tokens)%Z then (true, {| b_limit := b_limit b; b_burst := b_burst b; b_tokens := tokens - n; b_last := now |})
    else (false, b)
  end.

Definition buckets : Limiter :=
  {| Limit := option Z; Inf := None; positive l := match l with None => true | Some r => (0 <? r)%Z end; limiter := bucket;
     NewLimiter l burst := {| b_limit := l; b_burst := burst; b_tokens := burst; b_last := 0 |};
     limiter_AllowN := b_AllowN; limiter_Limit := b_limit; limiter_Burst := b_burst |}.

(** Asking a full limiter for its whole burst empties it: the first request of a tenant is denied, while one whose quota was
    set gets its burst. *)
Lemma first_request_denied :
  (@bucket_Allow buckets 5 "t" (@NewInMemoryQuota buckets (Some 10%Z) 20)).1 = false /\
  (@bucket_Allow buckets 5 "t" (@bucket_Set buckets "t" (Some 10%Z) 20 (@NewInMemoryQuota buckets (Some 10%Z) 20))).1 = true.
Proof. vm_compute. split; reflexivity. Qed.
End UsageWitnesses.
