(* ===== verification/UsageStores.v ===== *)
(** * UsageStores: the usage stores on redis and SQLite

    src/internal/usage/redis_usage.go and sqlite.go.  The redis server is its
    hashes with their expiry and the documented effect of HINCRBY, EXPIRE,
    SCAN and HMGET; a transaction may fail before or after it is executed.  The
    text of the SQL statements is what the code builds; SQLite is a class that
    says which of them it refuses.  Times are nanoseconds since the epoch in
    UTC, redis keys hold seconds.  Tracing is left out. *)

From Stdlib Require Import Ascii String.
From S2P Require Import Prelude GoString Unicode Repos Http Usage.

(** ** Grouping with a map *)

Section GroupFold.
Context {A V K : Type} `{Countable K} (key : A -> K) (upd : option V -> A -> V).

Definition group_fold (m : gmap K V) (l : list A) : gmap K V :=
  foldl (fun m x => <[key x := upd (m !! key x) x]> m) m l.

Definition of_group (k : K) (l : list A) : list A := filter (fun x => key x = k) l.

Lemma of_group_snoc k l x : of_group k (l ++ [x]) = of_group k l ++ if decide (key x = k) then [x] else [].
Proof. unfold of_group. by rewrite filter_app. Qed.

(** An entry is made of the elements of its group alone, in their order. *)
Lemma group_fold_lookup l k :
  group_fold ∅ l !! k = foldl (fun o x => Some (upd o x)) None (of_group k l).
Proof.
  induction l as [|x l IH] using rev_ind; [apply lookup_empty|]. rewrite of_group_snoc.
  unfold group_fold in *. rewrite !foldl_app. simpl. destruct (decide (key x = k)) as [<-|Hne]; simpl.
  - rewrite lookup_insert_eq, <-IH. done.
  - by rewrite lookup_insert_ne.
Qed.

Lemma group_fold_is_Some l k : is_Some (group_fold ∅ l !! k) <-> k ∈ map key l.
Proof.
  rewrite group_fold_lookup. split.
  - intros [v Hv]. destruct (of_group k l) as [|x xs] eqn:E; [done|].
    assert (Hx : x ∈ of_group k l) by (rewrite E; left). apply list_elem_of_filter in Hx as [<- Hx]. by apply list_elem_of_fmap_2.
  - intros (x & -> & Hx)%list_elem_of_fmap. destruct (of_group (key x) l) as [|y ys] eqn:E using rev_ind.
    + assert (Hin : x ∈ of_group (key x) l) by (by apply list_elem_of_filter). rewrite E in Hin. by apply elem_of_nil in Hin.
    + rewrite foldl_app. by eexists.
Qed.

Lemma group_fold_keys l : (map_to_list (group_fold ∅ l)).*1 ≡ₚ remove_dups (map key l).
Proof.
  apply NoDup_Permutation; [apply NoDup_fst_map_to_list|apply NoDup_remove_dups|]. intros k.
  rewrite elem_of_remove_dups, <-group_fold_is_Some, list_elem_of_fmap. split.
  - intros ([k' v] & -> & Hv%elem_of_map_to_list). by exists v.
  - intros [v Hv]. exists (k, v). split; [done|]. by apply elem_of_map_to_list.
Qed.
End GroupFold.

(** Sums over lists, and over the groups of a list. *)
Definition sumZ {A} (f : A -> Z) (l : list A) : Z := foldr (fun x z => f x + z)%Z 0%Z l.

Lemma sumZ_app {A} (f : A -> Z) l1 l2 : sumZ f (l1 ++ l2) = (sumZ f l1 + sumZ f l2)%Z.
Proof. induction l1 as [|x l1 IH]; simpl; [done|]. rewrite IH. lia. Qed.

Lemma sumZ_ext {A} (f g : A -> Z) l : (forall x, x ∈ l -> f x = g x) -> sumZ f l = sumZ g l.
Proof.
  induction l as [|x l IH]; intros H; simpl; [done|]. rewrite (H x), IH; [done| |by left]. intros; apply H; by right.
Qed.

Lemma sumZ_bounds {A} (f : A -> Z) (P : A -> Prop) `{forall x, Decision (P x)} l :
  (forall x, x ∈ l -> (0 <= f x)%Z) -> (0 <= sumZ f (filter P l) <= sumZ f l)%Z.
Proof.
  induction l as [|x l IH]; intros Hf; [done|]. rewrite filter_cons. simpl.
  assert (0 <= f x)%Z by (apply Hf; left). assert (0 <= sumZ f (filter P l) <= sumZ f l)%Z by (apply IH; intros; apply Hf; by right).
  case_decide; simpl; lia.
Qed.

(** Summing over distinct keys and then over their elements is summing over
    the elements whose key is among them. *)
Lemma sumZ_partition {A K} `{EqDecision K} (key : A -> K) (f : A -> Z) ks l :
  NoDup ks -> sumZ (fun k => sumZ f (filter (fun x => key x = k) l)) ks = sumZ f (filter (fun x => key x ∈ ks) l).
Proof.
  induction ks as [|k ks IH]; intros Hnd; simpl.
  - induction l as [|x l IHl]; [done|]. rewrite filter_cons.
    rewrite decide_False by apply not_elem_of_nil. done.
  - apply NoDup_cons in Hnd as [Hk Hnd]. rewrite (IH Hnd). clear IH. induction l as [|x l IHl]; [done|].
    rewrite !filter_cons. destruct (decide (key x = k)) as [->|Hne].
    + rewrite (decide_False (P := k ∈ ks)), (decide_True (P := k ∈ k :: ks)) by (done || by left). simpl. lia.
    + destruct (decide (key x ∈ ks)), (decide (key x ∈ k :: ks)); simpl; try lia; set_solver.
Qed.

(** ** The redis server *)

Definition Second : Z := 1000000000.

Record rhash := { h_fields : gmap string Z; h_expires : option Z }.
Definition rhash_new : rhash := {| h_fields := ∅; h_expires := None |}.
Notation hashes := (gmap string rhash).

(** A key that has expired does not exist. *)
Definition not_expired (now : Z) (h : rhash) : bool :=
  match h_expires h with Some e => (now <=? e)%Z | None => true end.
Definition live (now : Z) (m : hashes) (k : string) : option rhash :=
  match m !! k with Some h => if not_expired now h then Some h else None | None => None end.

Lemma in_int64 z : int64_range z -> ((- 2 ^ 63 <=? z) && (z <? 2 ^ 63))%Z = true.
Proof. unfold int64_range. lia. Qed.

(** HINCRBY refuses to overflow. *)
Definition hincrby (now : Z) (k f : string) (n : Z) (m : hashes) : option string * hashes :=
  let h := default rhash_new (live now m k) in
  let v := (default 0 (h_fields h !! f) + n)%Z in
  if (- 2^63 <=? v)%Z && (v <? 2^63)%Z
  then (None, <[k := {| h_fields := <[f := v]> (h_fields h); h_expires := h_expires h |}]> m)
  else (Some "ERR increment or decrement would overflow", m).

(** EXPIRE takes whole seconds, and at least one. *)
Definition expire_in (ttl : Z) : Z := if (0 <? ttl)%Z && (ttl <? Second)%Z then Second else (Z.quot ttl Second * Second)%Z.
Definition expire (now : Z) (k : string) (ttl : Z) (m : hashes) : option string * hashes :=
  match live now m k with
  | Some h => (None, <[k := {| h_fields := h_fields h; h_expires := Some (now + expire_in ttl)%Z |}]> m)
  | None => (None, m)
  end.

(** [TxPipeline]: every command is executed, and the first error returned. *)
Definition command : Type := hashes -> option string * hashes.
Definition tx_step (acc : option string * hashes) (c : command) : option string * hashes :=
  let '(err, m) := acc in let '(e, m) := c m in (match err with Some _ => err | None => e end, m).
Inductive exec :=
  | Executed
  | NotSent (e : string)
  | ReplyLost (e : string).
Definition Exec (x : exec) (cmds : list command) (m : hashes) : option string * hashes :=
  match x with
  | Executed => foldl tx_step (None, m) cmds
  | NotSent e => (Some e, m)
  | ReplyLost e => (Some e, (foldl tx_step (None, m) cmds).2)
  end.

(** ** Recording *)

Record RedisUsageStore := { ru_prefix : string; ru_ttl : Z }.

Definition NewRedisUsageStore (prefix : string) (ttl : Z) : RedisUsageStore :=
  {| ru_prefix := if bool_decide (prefix = "") then "ps" else prefix;
     ru_ttl := if (ttl <=? 0)%Z then (35 * 24 * Hour)%Z else ttl |}.

(** The store [Serve] configures from PS_USAGE_REDIS_ADDR, PS_USAGE_PREFIX,
    PS_REGION and PS_USAGE_TTL_DAYS. *)
Definition first_set (l : list string) (d : string) : string := default d (head (filter (fun x => x <> "") (map TrimSpace l))).
Definition ttl_days (v : string) : Z :=
  if bool_decide (TrimSpace v = "") then 35%Z
  else match Atoi (TrimSpace v) with Some n => if (0 <? n)%Z then n else 35%Z | None => 35%Z end.
Definition usage_store_of_env (addr prefix region days : string) : option RedisUsageStore :=
  if bool_decide (TrimSpace addr = "") then None
  else Some (NewRedisUsageStore (first_set [prefix; region] "ps") (wrap64 (wrap64 (ttl_days days * 24) * Hour))).

(** The retention that was asked for is kept as long as it fits 64 bits. *)
Lemma usage_store_ttl addr prefix region days s :
  usage_store_of_env addr prefix region days = Some s ->
  (ttl_days days <= 106751)%Z -> ru_ttl s = (ttl_days days * 24 * Hour)%Z /\ ru_prefix s <> "".
Proof.
  unfold usage_store_of_env. case_bool_decide; [done|]. intros [= <-] Hd.
  assert (Hpos : (0 < ttl_days days)%Z).
  { unfold ttl_days. case_bool_decide; [lia|]. destruct (Atoi _) as [n|]; [|lia]. destruct (Z.ltb_spec 0 n); lia. }
  rewrite (wrap64_id (ttl_days days * 24)) by (unfold int64_range; lia).
  rewrite wrap64_id by (unfold int64_range, Hour, Minute; lia). unfold NewRedisUsageStore. cbn [ru_ttl ru_prefix]. split.
  - rewrite (proj2 (Z.leb_gt _ _)); [done|unfold Hour, Minute; lia].
  - case_bool_decide; done.
Qed.

Definition floorToMinute (t : Z) : Z := Truncate t Minute.
(** [floorToMinute(t).Unix()]. *)
Definition minute (t : Z) : Z := (floorToMinute t / Second)%Z.

Definition key_part (s : string) : string := ReplaceByte ":" "|" (if bool_decide (s = "") then "default" else s).

Definition minute_prefix (prefix : string) (ts : Z) : string := prefix +:+ ":usage:" +:+ Itoa ts +:+ ":".
Definition usageKey (prefix : string) (ts : Z) (tenant route : string) : string :=
  minute_prefix prefix ts +:+ key_part tenant +:+ ":" +:+ key_part route.

Definition column (decision : string) : string :=
  if bool_decide (decision = "quarantine") then "quarantine"
  else if bool_decide (decision = "deny") then "deny" else "allow".

Definition redis_Record (x : exec) (now : Z) (s : RedisUsageStore) (tenant route decision : string) (bytes t : Z) (m : hashes) :
    option string * hashes :=
  let key := usageKey (ru_prefix s) (minute t) tenant route in
  Exec x [hincrby now key (column decision) 1; hincrby now key "bytes" bytes; expire now key (ru_ttl s)] m.

Definition tokensKey (s : RedisUsageStore) (r : UsageRecord) : string :=
  ru_prefix s +:+ ":tokens:" +:+ Itoa (minute (rec_Timestamp r)) +:+ ":" +:+ rec_Tenant r +:+ ":" +:+ rec_Route r +:+ ":"
    +:+ rec_Provider r +:+ ":" +:+ rec_Model r.

Definition when_positive (n : Z) (c : command) : list command := if (0 <? n)%Z then [c] else [].
Definition redis_RecordTokens (x : exec) (now : Z) (s : RedisUsageStore) (r : UsageRecord) (m : hashes) : option string * hashes :=
  let key := tokensKey s r in
  Exec x ([hincrby now key (column (rec_Decision r)) 1; hincrby now key "bytes" (rec_Bytes r)]
          ++ when_positive (rec_PromptTokens r) (hincrby now key "prompt_tokens" (rec_PromptTokens r))
          ++ when_positive (rec_CompletionTokens r) (hincrby now key "completion_tokens" (rec_CompletionTokens r))
          ++ when_positive (rec_TotalTokens r) (hincrby now key "total_tokens" (rec_TotalTokens r))
          ++ [expire now key (ru_ttl s)]) m.

(** ** Querying *)

(** [plain] strings have no byte with a meaning in a pattern. *)
Definition plain (p : string) : bool := forallb_str (fun c => negb (bool_decide (c ∈ ["*"; "?"; "["; "\"]%char))) p.

(** The replies to SCAN up to the cursor 0, one page each, and the error of a
    pipeline of HMGETs.  A complete iteration returns the live keys that match;
    it may return a key more than once. *)
Class RedisScan := {
  redis_Scan : Z -> string -> hashes -> list (result string (list string));
  redis_HMGet_fails : list string -> option string;
  redis_Scan_keys : forall now p m pages k,
    plain p = true -> redis_Scan now (p +:+ "*") m = map Ok pages ->
    k ∈ concat pages <-> is_Some (live now m k) /\ HasPrefix p k = true;
}.

(** The dynamic values [toInt64] is given. *)
Inductive any_value :=
  | AInt64 (n : Z)
  | AInt (n : Z)
  | AString (s : string)
  | ABytes (s : string)
  | ANil
  | AOther.

Definition toInt64 (v : any_value) : Z :=
  match v with
  | AInt64 n => n
  | AInt n => n
  | AString s => if bool_decide (s = "") then 0%Z else default 0%Z (ParseInt s)
  | ABytes s => default 0%Z (ParseInt s)
  | ANil => 0%Z
  | AOther => 0%Z
  end.

Record keyAgg := { ka_bucket : Z; ka_tenant : string; ka_route : string }.
#[export] Instance keyAgg_eq_dec : EqDecision keyAgg.
Proof. solve_decision. Defined.
#[export] Program Instance keyAgg_countable : Countable keyAgg :=
  inj_countable' (fun k => (ka_bucket k, ka_tenant k, ka_route k))
    (fun t => {| ka_bucket := t.1.1; ka_tenant := t.1.2; ka_route := t.2 |}) _.
Next Obligation. by intros []. Qed.

(** The array [[5]int64]. *)
Record agg := { g_count : Z; g_bytes : Z; g_prompt : Z; g_completion : Z; g_total : Z }.
Definition agg0 : agg := {| g_count := 0; g_bytes := 0; g_prompt := 0; g_completion := 0; g_total := 0 |}.
Definition agg_add (a b : agg) : agg :=
  {| g_count := wrap64 (g_count a + g_count b); g_bytes := wrap64 (g_bytes a + g_bytes b);
     g_prompt := wrap64 (g_prompt a + g_prompt b); g_completion := wrap64 (g_completion a + g_completion b);
     g_total := wrap64 (g_total a + g_total b) |}.

Section RedisQuery.
Context `{RedisScan} (acc_order : gmap keyAgg agg -> list (keyAgg * agg)).

Fixpoint scan_loop (pages : list (result string (list string))) (keys : list string) : result string (list string) :=
  match pages with
  | [] => Ok keys
  | Err e :: _ => Err e
  | Ok ks :: pages => scan_loop pages (keys ++ ks)
  end.

(** HMGET of one field. *)
Definition hmget (now : Z) (m : hashes) (key f : string) : any_value :=
  match live now m key with
  | Some h => match h_fields h !! f with Some v => AString (Itoa v) | None => ANil end
  | None => ANil
  end.

Definition bucketSize (i : Interval) : Z :=
  match i with IntervalHour => 3600%Z | IntervalDay => 86400%Z | _ => 60%Z end.

Definition includeTenant (q : UsageQuery) : bool := existsb (fun g => match g with GroupByTenant => true | _ => false end) (uq_GroupBy q).
Definition includeRoute (q : UsageQuery) : bool := existsb (fun g => match g with GroupByRoute => true | _ => false end) (uq_GroupBy q).

(** What a key adds, and to which group; [None] for a key that is passed over. *)
Definition contribution (now : Z) (m : hashes) (q : UsageQuery) (ts : Z) (key : string) : option (keyAgg * agg) :=
  let parts := SplitByte ":" key in
  if List.length parts <? 5 then None
  else
    let kTenant := ReplaceByte "|" ":" (nth (List.length parts - 2) parts "") in
    let kRoute := ReplaceByte "|" ":" (nth (List.length parts - 1) parts "") in
    if negb (bool_decide (uq_Tenant q = "")) && negb (bool_decide (uq_Tenant q = kTenant)) then None
    else
      let v f := toInt64 (hmget now m key f) in
      Some ({| ka_bucket := (Z.quot ts (bucketSize (uq_Interval q)) * bucketSize (uq_Interval q))%Z;
               ka_tenant := if includeTenant q then kTenant else "";
               ka_route := if includeRoute q then kRoute else "" |},
            {| g_count := wrap64 (v "allow" + v "quarantine" + v "deny"); g_bytes := v "bytes"; g_prompt := v "prompt_tokens";
               g_completion := v "completion_tokens"; g_total := v "total_tokens" |}).

Definition key_step (now : Z) (m : hashes) (q : UsageQuery) (ts : Z) (acc : gmap keyAgg agg) (key : string) : gmap keyAgg agg :=
  match contribution now m q ts key with
  | Some (k, v) => <[k := agg_add (default agg0 (acc !! k)) v]> acc
  | None => acc
  end.

Fixpoint minutes_loop (s : RedisUsageStore) (now : Z) (m : hashes) (q : UsageQuery) (tss : list Z) (acc : gmap keyAgg agg) :
    result string (gmap keyAgg agg) :=
  match tss with
  | [] => Ok acc
  | ts :: tss =>
    match scan_loop (redis_Scan now (minute_prefix (ru_prefix s) ts +:+ "*") m) [] with
    | Err e => Err e
    | Ok [] => minutes_loop s now m q tss acc
    | Ok keys =>
      match redis_HMGet_fails keys with
      | Some e => Err e
      | None => minutes_loop s now m q tss (foldl (key_step now m q ts) acc keys)
      end
    end
  end.

(** [for ts := start; ts < end; ts += 60]. *)
Definition minutes (start fin : Z) : list Z :=
  map (fun i => (start + 60 * Z.of_nat i)%Z) (seq 0 (Z.to_nat ((fin - start + 59) / 60))).

Definition agg_row (q : UsageQuery) (e : keyAgg * agg) : Row :=
  {| row_Tenant := if includeTenant q then ka_tenant e.1 else ""; row_Route := if includeRoute q then ka_route e.1 else "";
     row_Decision := ""; row_Provider := ""; row_Model := ""; row_IntervalStart := (ka_bucket e.1 * Second)%Z;
     row_Count := g_count e.2; row_Bytes := g_bytes e.2; row_PromptTokens := g_prompt e.2;
     row_CompletionTokens := g_completion e.2; row_TotalTokens := g_total e.2 |}.

Definition row_before (a b : Row) : Prop := (row_IntervalStart a <= row_IntervalStart b)%Z.
#[export] Instance row_before_dec : RelDecision row_before.
Proof. intros a b. unfold row_before. apply _. Defined.

Definition redis_Query (now : Z) (s : RedisUsageStore) (q : UsageQuery) (m : hashes) : result string UsageResult :=
  if (uq_End q <? uq_Start q)%Z then Err "invalid window"
  else
    match minutes_loop s now m q (minutes (minute (uq_Start q)) (minute (uq_End q))) ∅ with
    | Err e => Err e
    | Ok acc => Ok {| WindowStart := floorToMinute (uq_Start q); WindowEnd := floorToMinute (uq_End q);
                      Rows := merge_sort row_before (map (agg_row q) (acc_order acc)) |}
    end.
End RedisQuery.

(** ** The hashes of recorded events *)

Section RedisRecords.
Context (s : RedisUsageStore).

(** A successful call of [Record], with the time of the server. *)
Record event := { ev_tenant : string; ev_route : string; ev_decision : string; ev_bytes : Z; ev_time : Z; ev_at : Z }.
Inductive op :=
  | Use (e : event)
  | Tokens (at_ : Z) (r : UsageRecord).

Definition apply_op (m : hashes) (o : op) : hashes :=
  match o with
  | Use e => (redis_Record Executed (ev_at e) s (ev_tenant e) (ev_route e) (ev_decision e) (ev_bytes e) (ev_time e) m).2
  | Tokens t r => (redis_RecordTokens Executed t s r m).2
  end.
Definition store_after (ops : list op) : hashes := foldl apply_op ∅ ops.
Definition uses (ops : list op) : list event := omap (fun o => match o with Use e => Some e | _ => None end) ops.

Definition ev_key (e : event) : string := usageKey (ru_prefix s) (minute (ev_time e)) (ev_tenant e) (ev_route e).
(** What an event adds to a field. *)
Definition ev_field (f : string) (e : event) : Z :=
  if bool_decide (f = column (ev_decision e)) then 1%Z else if bool_decide (f = "bytes") then ev_bytes e else 0%Z.

Definition is_usage_key (k : string) : bool := HasPrefix (ru_prefix s +:+ ":usage:") k.

Lemma ev_key_usage e : is_usage_key (ev_key e) = true.
Proof.
  unfold is_usage_key, ev_key, usageKey, minute_prefix. rewrite !sapp_assoc, <-(sapp_assoc (ru_prefix s)). apply HasPrefix_refl.
Qed.

Lemma tokensKey_not_usage r : is_usage_key (tokensKey s r) = false.
Proof.
  apply not_true_is_false. unfold is_usage_key, tokensKey. rewrite HasPrefix_spec. intros [t E].
  rewrite sapp_assoc in E. by apply sapp_inv_head in E.
Qed.

Lemma column_cases d : column d = "allow" \/ column d = "quarantine" \/ column d = "deny".
Proof. unfold column. repeat case_bool_decide; auto. Qed.

(** A transaction on one key leaves the others alone. *)
Definition only_on (k : string) (c : command) : Prop := forall m k', k' <> k -> (c m).2 !! k' = m !! k'.

Lemma hincrby_only now k f n : only_on k (hincrby now k f n).
Proof. intros m k' Hk. unfold hincrby. destruct (_ && _); simpl; [by rewrite lookup_insert_ne by congruence|done]. Qed.
Lemma expire_only now k ttl : only_on k (expire now k ttl).
Proof. intros m k' Hk. unfold expire. case_match; simpl; by rewrite ?lookup_insert_ne by congruence. Qed.

Lemma tx_only k cmds : Forall (only_on k) cmds -> forall acc k', k' <> k -> (foldl tx_step acc cmds).2 !! k' = acc.2 !! k'.
Proof.
  induction 1 as [|c cmds Hc _ IH]; intros [err m] k' Hk; [done|]. simpl. rewrite IH by done.
  specialize (Hc m k' Hk). by destruct (c m).
Qed.

Lemma Tokens_only t r m k : is_usage_key k = true -> apply_op m (Tokens t r) !! k = m !! k.
Proof.
  intros Hk. unfold apply_op, redis_RecordTokens, Exec. cbv zeta.
  refine (tx_only (tokensKey s r) _ _ (None, m) k _); [|intros ->; by rewrite tokensKey_not_usage in Hk].
  unfold when_positive.
  repeat first [apply Forall_nil_2|apply Forall_cons_2|case_match|apply Forall_app_2]; auto using hincrby_only, expire_only.
Qed.

Lemma Use_only e m k : ev_key e <> k -> apply_op m (Use e) !! k = m !! k.
Proof.
  intros Hk. unfold apply_op, redis_Record, Exec. cbv zeta.
  refine (tx_only (ev_key e) _ _ (None, m) k _); [|congruence]. repeat constructor; auto using hincrby_only, expire_only.
Qed.

(** What a key holds at a time; a missing key holds nothing. *)
Definition held (now : Z) (m : hashes) (k : string) : rhash := default rhash_new (live now m k).
Definition field (h : rhash) (f : string) : Z := default 0%Z (h_fields h !! f).

Lemma held_alive now m k : not_expired now (held now m k) = true.
Proof. unfold held, live. destruct (m !! k) as [h|]; [|done]. by destruct (not_expired now h) eqn:E. Qed.

Lemma held_insert now m k h : not_expired now h = true -> held now (<[k := h]> m) k = h.
Proof. intros Hh. unfold held, live. by rewrite lookup_insert_eq, Hh. Qed.

Lemma hincrby_ok now k f n m :
  let h := held now m k in int64_range (field h f + n) ->
  let h' := {| h_fields := <[f := (field h f + n)%Z]> (h_fields h); h_expires := h_expires h |} in
  hincrby now k f n m = (None, <[k := h']> m) /\ not_expired now h' = true.
Proof.
  intros h Hr h'. split; [|exact (held_alive now m k)]. unfold hincrby. fold (held now m k). fold h. fold (field h f).
  by rewrite in_int64.
Qed.

(** [Record], when nothing overflows. *)
Lemma Record_lookup e m :
  let h := held (ev_at e) m (ev_key e) in
  (forall f, int64_range (field h f + ev_field f e)) ->
  exists h', apply_op m (Use e) !! ev_key e = Some h' /\ h_expires h' = Some (ev_at e + expire_in (ru_ttl s))%Z /\
    forall f, field h' f = (field h f + ev_field f e)%Z.
Proof.
  intros h Hr. unfold apply_op, redis_Record, Exec. fold (ev_key e). cbv zeta.
  set (k := ev_key e) in *. set (now := ev_at e) in *. set (c := column (ev_decision e)).
  assert (Hc : c <> "bytes") by (destruct (column_cases (ev_decision e)) as [E|[E|E]]; subst c; rewrite E; done).
  pose proof (Hr c) as Hr1. pose proof (Hr "bytes") as Hr2. unfold ev_field in Hr1, Hr2. fold c in Hr1, Hr2.
  rewrite bool_decide_true in Hr1 by done. rewrite bool_decide_false, bool_decide_true in Hr2 by done.
  cbn [foldl tx_step]. destruct (hincrby_ok now k c 1 m Hr1) as [-> Ha1].
  fold h in Ha1 |- *. set (h1 := {| h_fields := _ |}) in *. cbn [tx_step].
  destruct (hincrby_ok now k "bytes" (ev_bytes e) (<[k := h1]> m)) as [-> Ha2].
  { rewrite held_insert by done. unfold field, h1. simpl. by rewrite lookup_insert_ne. }
  rewrite held_insert in Ha2 |- * by done.
  cbn [tx_step]. unfold expire, live. rewrite lookup_insert_eq, Ha2. cbn [snd]. rewrite lookup_insert_eq.
  eexists. split; [done|]. split; [done|]. intros f. unfold field, ev_field, h1. cbn [h_fields]. fold c.
  destruct (decide (f = "bytes")) as [->|Hf].
  - rewrite lookup_insert_eq, lookup_insert_ne by done.
    rewrite bool_decide_false, bool_decide_true by done. done.
  - rewrite lookup_insert_ne by done. rewrite (bool_decide_false (f = "bytes")) by done. case_bool_decide as Ec.
    + subst f. by rewrite lookup_insert_eq.
    + rewrite lookup_insert_ne by done. lia.
Qed.

(** The events are kept until [now], and their counters fit 64 bits. *)
Record countable_events (now : Z) (es : list event) : Prop := {
  ce_kept : forall e, e ∈ es -> (ev_at e <= now <= ev_at e + expire_in (ru_ttl s))%Z;
  ce_bytes : forall e, e ∈ es -> (0 <= ev_bytes e)%Z;
  ce_sum : (sumZ ev_bytes es < 2 ^ 63)%Z;
  ce_length : (Z.of_nat (length es) < 2 ^ 63)%Z;
}.

Lemma countable_app now es1 es2 : countable_events now (es1 ++ es2) -> countable_events now es1.
Proof.
  intros [H1 H2 H3 H4]. assert (0 <= sumZ ev_bytes es2)%Z.
  { enough (0 <= sumZ ev_bytes (filter (fun _ => False) es2) <= sumZ ev_bytes es2)%Z by lia.
    apply sumZ_bounds. intros e He. apply H2. set_solver. }
  rewrite sumZ_app in H3. rewrite length_app in H4. split; [set_solver..|lia|lia].
Qed.

Lemma ev_field_bounds now es f (P : event -> Prop) `{forall e, Decision (P e)} :
  countable_events now es -> int64_range (sumZ (ev_field f) (filter P es)).
Proof.
  intros [_ H2 H3 H4]. unfold int64_range.
  assert (Hpos : forall e, e ∈ es -> (0 <= ev_field f e)%Z).
  { intros e He. unfold ev_field. specialize (H2 e He). repeat case_bool_decide; lia. }
  pose proof (sumZ_bounds (ev_field f) P es Hpos). enough (sumZ (ev_field f) es < 2 ^ 63)%Z by lia.
  destruct (decide (f = "bytes")) as [->|Hf].
  - rewrite (sumZ_ext _ ev_bytes); [done|]. intros e _. unfold ev_field.
    rewrite bool_decide_false; [by rewrite bool_decide_true|]. destruct (column_cases (ev_decision e)) as [->|[->| ->]]; done.
  - eapply Z.le_lt_trans; [|exact H4]. clear -Hf. induction es as [|e es IH]; [done|]. simpl. unfold ev_field at 1.
    rewrite (bool_decide_false (f = "bytes")) by done. case_bool_decide; lia.
Qed.

(** A usage key holds the counts of its events and is live, and there is no
    other. *)
Lemma store_after_spec now ops k :
  countable_events now (uses ops) -> is_usage_key k = true ->
  let es := filter (fun e => ev_key e = k) (uses ops) in
  match store_after ops !! k with
  | None => es = []
  | Some h => es <> [] /\ (forall t, (t <= now)%Z -> not_expired t h = true) /\ forall f, field h f = sumZ (ev_field f) es
  end.
Proof.
  intros Hc Hk. induction ops as [|o ops IH] using rev_ind; [by unfold store_after; simpl; rewrite lookup_empty|].
  unfold uses in *. rewrite omap_app in *. fold (uses ops) in *. specialize (IH (countable_app _ _ _ Hc)).
  unfold store_after in *. rewrite foldl_app. cbn [foldl]. set (m := foldl apply_op ∅ ops) in *. destruct o as [e|t r].
  2: { cbn [omap list_omap]. rewrite app_nil_r, Tokens_only by done. exact IH. }
  cbn [omap list_omap] in *. rewrite filter_app, filter_cons, filter_nil.
  destruct (decide (ev_key e = k)) as [<-|Hne].
  2: { rewrite app_nil_r, Use_only by done. exact IH. }
  assert (Hat : (ev_at e <= now <= ev_at e + expire_in (ru_ttl s))%Z) by (apply (ce_kept _ _ Hc); set_solver).
  assert (Hold : forall f, field (held (ev_at e) m (ev_key e)) f = sumZ (ev_field f) (filter (fun e' => ev_key e' = ev_key e) (uses ops))).
  { intros f. unfold held, live. destruct (m !! ev_key e) as [h|]; [|by rewrite IH].
    destruct IH as (_ & Hlive & Hf). by rewrite Hlive by lia. }
  destruct (Record_lookup e m) as (h' & -> & Hx & Hf).
  { intros f. rewrite Hold. pose proof (ev_field_bounds now _ f (fun e' => ev_key e' = ev_key e) Hc) as Hb.
    rewrite filter_app, filter_cons, filter_nil, decide_True, sumZ_app in Hb by done. simpl in Hb. by rewrite Z.add_0_r in Hb. }
  split; [by intros [_ ?]%app_nil|]. split.
  - intros t Ht. unfold not_expired. rewrite Hx. lia.
  - intros f. rewrite Hf, Hold, sumZ_app. simpl. lia.
Qed.
End RedisRecords.

(** ** The keys of a minute *)

Lemma Itoa_no_colon z : CountByte ":" (Itoa z) = 0.
Proof. by apply Itoa_no. Qed.

Lemma SplitByte_sep c s t : SplitByte c (s +:+ String c t) = SplitByte c s ++ SplitByte c t.
Proof.
  induction s as [|d s IH]; simpl; [by rewrite bool_decide_true|]. case_bool_decide.
  - by rewrite IH.
  - rewrite IH. by destruct (SplitByte c s) eqn:E; [apply SplitByte_nonempty in E|].
Qed.

Lemma key_part_no_colon s : CountByte ":" (key_part s) = 0.
Proof. apply ReplaceByte_gone. done. Qed.

Lemma usageKey_minute p ts ts' tenant route :
  HasPrefix (minute_prefix p ts) (usageKey p ts' tenant route) = true <-> ts' = ts.
Proof.
  rewrite HasPrefix_spec. unfold usageKey, minute_prefix. split.
  - intros [t E]. rewrite !sapp_assoc in E. do 2 apply sapp_inv_head in E.
    apply (f_equal (SplitByte ":")) in E. simpl in E. rewrite (SplitByte_cons _ (Itoa ts')), (SplitByte_cons _ (Itoa ts)) in E by apply Itoa_no_colon.
    injection E as E _. by apply (inj Itoa).
  - intros ->. by eexists.
Qed.

Lemma minute_prefix_usage s ts k : HasPrefix (minute_prefix (ru_prefix s) ts) k = true -> is_usage_key s k = true.
Proof.
  unfold is_usage_key, minute_prefix. rewrite !HasPrefix_spec. intros [t ->]. eexists. by rewrite !sapp_assoc.
Qed.

Lemma plain_app p t : plain (p +:+ t) = plain p && plain t.
Proof. induction p as [|c p IH]; [done|]. unfold plain in *. simpl. by rewrite IH, andb_assoc. Qed.

Lemma digits_plain p : forall acc v, digits_val acc p = Some v -> plain p = true.
Proof.
  induction p as [|d p IH]; intros acc v; [done|]. unfold plain in *. simpl. destruct (is_digit_byte d) eqn:Ed; [|done].
  intros Hv. rewrite (IH _ _ Hv), bool_decide_false; [done|]. rewrite !elem_of_cons, elem_of_nil.
  intros [->|[->|[->|[->|[]]]]]; discriminate Ed.
Qed.

Lemma plain_Itoa z : plain (Itoa z) = true.
Proof.
  destruct z as [|p|p]; [done|eapply digits_plain, (digits_val_pretty (Npos p))|].
  change (Itoa (Zneg p)) with ("-" +:+ pretty (Npos p)). rewrite plain_app. eapply digits_plain, digits_val_pretty.
Qed.

Lemma plain_minute_prefix p ts : plain p = true -> plain (minute_prefix p ts) = true.
Proof. intros Hp. unfold minute_prefix. by rewrite !plain_app, Hp, plain_Itoa. Qed.

(** The parts that the query looks at. *)
Lemma usageKey_parts p ts tenant route :
  exists l, SplitByte ":" (usageKey p ts tenant route) = l ++ [key_part tenant; key_part route] /\ 3 <= length l.
Proof.
  assert (usageKey p ts tenant route =
    p +:+ String ":" ("usage" +:+ String ":" (Itoa ts +:+ String ":" (key_part tenant +:+ String ":" (key_part route))))) as ->.
  { unfold usageKey, minute_prefix. by rewrite !sapp_assoc. }
  rewrite (SplitByte_sep _ p), (SplitByte_cons _ "usage"), (SplitByte_cons _ (Itoa ts)), (SplitByte_cons _ (key_part tenant)),
    (SplitByte_single _ (key_part route)) by (done || apply Itoa_no_colon || apply key_part_no_colon).
  exists (SplitByte ":" p ++ ["usage"; Itoa ts]). rewrite <-app_assoc. split; [done|]. rewrite length_app. simpl.
  destruct (SplitByte ":" p) eqn:E; [by apply SplitByte_nonempty in E|]. simpl. lia.
Qed.

(** The name under which a tenant or a route is reported. *)
Definition reported (s : string) : string := ReplaceByte "|" ":" (key_part s).

Lemma reported_id s : s <> "" -> CountByte "|" s = 0 -> reported s = s.
Proof. intros Hs Hc. unfold reported, key_part. rewrite bool_decide_false by done. by apply ReplaceByte_undo. Qed.

(** ** The minutes of a window *)

Lemma minute_60 t : exists k, minute t = (60 * k)%Z.
Proof.
  exists (t / Minute)%Z. unfold minute, floorToMinute, Truncate, Minute, Second.
  pose proof (Z.div_mod t (60 * 1000000000) ltac:(done)).
  replace (t - t mod (60 * 1000000000))%Z with (60 * (t / (60 * 1000000000)) * 1000000000)%Z by lia.
  by rewrite Z.div_mul.
Qed.

Lemma elem_of_minutes t1 t2 t : minute t ∈ minutes (minute t1) (minute t2) <-> (minute t1 <= minute t < minute t2)%Z.
Proof.
  destruct (minute_60 t) as [k ->], (minute_60 t1) as [k1 ->], (minute_60 t2) as [k2 ->].
  unfold minutes. rewrite list_elem_of_fmap. split.
  - intros (i & Hi & Hin). apply elem_of_seq in Hin. pose proof (Z.div_mod (60 * k2 - 60 * k1 + 59) 60 ltac:(done)).
    pose proof (Z.mod_pos_bound (60 * k2 - 60 * k1 + 59) 60 ltac:(done)). lia.
  - intros Hk. exists (Z.to_nat (k - k1)). split; [lia|]. apply elem_of_seq.
    pose proof (Z.div_mod (60 * k2 - 60 * k1 + 59) 60 ltac:(done)).
    pose proof (Z.mod_pos_bound (60 * k2 - 60 * k1 + 59) 60 ltac:(done)). lia.
Qed.

Lemma NoDup_minutes a b : NoDup (minutes a b).
Proof. unfold minutes. apply NoDup_fmap_2_strong; [|apply NoDup_seq]. intros x y _ _ H. lia. Qed.

(** ** What a query returns *)

Section RedisExact.
Context `{RedisScan} (s : RedisUsageStore) (now : Z) (q : UsageQuery) (es : list event) (m : hashes).

(** The group of an event, and the events a query is about. *)
Definition ev_group (e : event) : keyAgg :=
  {| ka_bucket := (Z.quot (minute (ev_time e)) (bucketSize (uq_Interval q)) * bucketSize (uq_Interval q))%Z;
     ka_tenant := if includeTenant q then reported (ev_tenant e) else "";
     ka_route := if includeRoute q then reported (ev_route e) else "" |}.
Definition tenant_asked (e : event) : bool :=
  bool_decide (uq_Tenant q = "") || bool_decide (uq_Tenant q = reported (ev_tenant e)).
Definition asked (e : event) : bool :=
  (minute (uq_Start q) <=? minute (ev_time e))%Z && (minute (ev_time e) <? minute (uq_End q))%Z && tenant_asked e.

(** The counters, with what an event adds to them. *)
Definition counters : list ((agg -> Z) * (event -> Z)) :=
  [(g_count, fun _ => 1%Z); (g_bytes, ev_bytes); (g_prompt, fun _ => 0%Z); (g_completion, fun _ => 0%Z); (g_total, fun _ => 0%Z)].

Lemma counters_cases g w (P : (agg -> Z) -> (event -> Z) -> Prop) :
  (g, w) ∈ counters ->
  P g_count (fun _ => 1%Z) -> P g_bytes ev_bytes -> P g_prompt (fun _ => 0%Z) -> P g_completion (fun _ => 0%Z) ->
  P g_total (fun _ => 0%Z) -> P g w.
Proof. unfold counters. rewrite !elem_of_cons, elem_of_nil. intros [E|[E|[E|[E|[E|[]]]]]]; by simplify_eq. Qed.

Lemma ev_field_count e : (ev_field "allow" e + ev_field "quarantine" e + ev_field "deny" e = 1)%Z.
Proof. unfold ev_field. by destruct (column_cases (ev_decision e)) as [->|[->| ->]]. Qed.

Lemma ev_field_none f e : f <> "allow" -> f <> "quarantine" -> f <> "deny" -> f <> "bytes" -> ev_field f e = 0%Z.
Proof.
  intros. unfold ev_field. rewrite (bool_decide_false (f = "bytes")), bool_decide_false; [done| |done].
  by destruct (column_cases (ev_decision e)) as [->|[->| ->]].
Qed.

Lemma sumZ_one {A} (l : list A) : sumZ (fun _ => 1%Z) l = Z.of_nat (length l).
Proof. induction l as [|x l IH]; [done|]. cbn [sumZ foldr length]. change (foldr _ _ l) with (sumZ (fun _ => 1%Z) l). lia. Qed.
Lemma sumZ_zero {A} (l : list A) : sumZ (fun _ => 0%Z) l = 0%Z.
Proof. induction l as [|x l IH]; [done|]. exact IH. Qed.
Lemma sumZ_add {A} (f g : A -> Z) l : (sumZ f l + sumZ g l)%Z = sumZ (fun x => f x + g x)%Z l.
Proof. induction l as [|x l IH]; simpl; [done|]. lia. Qed.

Lemma counters_range es' (P : event -> Prop) `{forall e, Decision (P e)} g w :
  countable_events s now es' -> (g, w) ∈ counters -> int64_range (sumZ w (filter P es')).
Proof.
  intros [_ H2 H3 H4] Hg. unfold int64_range. pattern g, w. apply (counters_cases g w _ Hg); rewrite ?sumZ_zero; try lia.
  - rewrite sumZ_one. pose proof (length_filter P es'). lia.
  - pose proof (sumZ_bounds ev_bytes P es' H2). lia.
Qed.

(** What is stored under the keys of the events. *)
Context (Hm : forall k, is_usage_key s k = true ->
  match m !! k with
  | None => filter (fun e => ev_key s e = k) es = []
  | Some h => filter (fun e => ev_key s e = k) es <> [] /\ (forall t, (t <= now)%Z -> not_expired t h = true) /\
              forall f, field h f = sumZ (ev_field f) (filter (fun e => ev_key s e = k) es)
  end).
Context (Hes : countable_events s now es).

Lemma hmget_spec k f :
  is_usage_key s k = true -> toInt64 (hmget now m k f) = sumZ (ev_field f) (filter (fun e => ev_key s e = k) es).
Proof.
  intros Hk. specialize (Hm k Hk). unfold hmget, live. destruct (m !! k) as [h|]; [|by rewrite Hm].
  destruct Hm as (_ & Hlive & Hf). rewrite Hlive by lia. specialize (Hf f). unfold field in Hf.
  destruct (h_fields h !! f) as [v|]; [|done]. simpl in Hf |- *.
  pose proof (ev_field_bounds s now es f (fun e => ev_key s e = k) Hes) as Hr. rewrite <-Hf in Hr.
  pose proof (ParseInt_Itoa v Hr) as Hp. rewrite bool_decide_false; [by rewrite Hp|]. intros E. by rewrite E in Hp.
Qed.

(** The contribution of the key of an event. *)
Lemma contribution_spec e :
  if tenant_asked e
  then exists v, contribution now m q (minute (ev_time e)) (ev_key s e) = Some (ev_group e, v) /\
         forall g w, (g, w) ∈ counters -> g v = sumZ w (filter (fun e' => ev_key s e' = ev_key s e) es)
  else contribution now m q (minute (ev_time e)) (ev_key s e) = None.
Proof.
  destruct (usageKey_parts (ru_prefix s) (minute (ev_time e)) (ev_tenant e) (ev_route e)) as (l & El & Hl).
  change (usageKey _ _ _ _) with (ev_key s e) in El. unfold contribution. rewrite El.
  assert (Hlen : length (l ++ [key_part (ev_tenant e); key_part (ev_route e)]) = length l + 2) by (by rewrite length_app).
  rewrite Hlen, (proj2 (Nat.ltb_ge _ _)) by lia.
  replace (length l + 2 - 2) with (length l) by lia. replace (length l + 2 - 1) with (length l + 1) by lia.
  rewrite (app_nth2 l _ _ (n := length l)), (app_nth2 l _ _ (n := length l + 1)) by lia.
  replace (length l - length l) with 0 by lia. replace (length l + 1 - length l) with 1 by lia. cbn [nth].
  fold (reported (ev_tenant e)) (reported (ev_route e)). unfold tenant_asked. rewrite <-negb_orb.
  destruct (_ || _); cbn [negb]; [|done]. eexists. split; [done|]. intros g w Hg. pattern g, w.
  pose proof (counters_range es (fun e' => ev_key s e' = ev_key s e)) as Hr.
  apply (counters_cases g w _ Hg); cbn [g_count g_bytes g_prompt g_completion g_total]; rewrite !hmget_spec by apply ev_key_usage.
  - rewrite !sumZ_add, (sumZ_ext _ (fun _ => 1%Z)) by (intros; apply ev_field_count). apply wrap64_id, (Hr g_count); [done|]. left.
  - apply sumZ_ext. intros e' _. unfold ev_field. rewrite bool_decide_false; [done|].
    by destruct (column_cases (ev_decision e')) as [->|[->| ->]].
  - apply sumZ_ext. intros e' _. by apply ev_field_none.
  - apply sumZ_ext. intros e' _. by apply ev_field_none.
  - apply sumZ_ext. intros e' _. by apply ev_field_none.
Qed.

Context (Hp : plain (ru_prefix s) = true).
Context (Hscan : forall ts, ts ∈ minutes (minute (uq_Start q)) (minute (uq_End q)) ->
  exists pages, redis_Scan now (minute_prefix (ru_prefix s) ts +:+ "*") m = map Ok pages /\ NoDup (concat pages)).
Context (Hget : forall keys, redis_HMGet_fails keys = None).

Definition scanned (ts : Z) : list string :=
  match scan_loop (redis_Scan now (minute_prefix (ru_prefix s) ts +:+ "*") m) [] with Ok ks => ks | Err _ => [] end.

Lemma scan_loop_ok pages : forall keys, scan_loop (map Ok pages) keys = Ok (keys ++ concat pages).
Proof.
  induction pages as [|p pages IH]; intros keys; simpl; [by rewrite app_nil_r|]. by rewrite IH, app_assoc.
Qed.

(** The keys a minute has are those of its events, once each. *)
Lemma scanned_spec ts :
  ts ∈ minutes (minute (uq_Start q)) (minute (uq_End q)) ->
  scan_loop (redis_Scan now (minute_prefix (ru_prefix s) ts +:+ "*") m) [] = Ok (scanned ts) /\ NoDup (scanned ts) /\
  forall k, k ∈ scanned ts <-> exists e, e ∈ es /\ minute (ev_time e) = ts /\ ev_key s e = k.
Proof.
  intros Hts. destruct (Hscan ts Hts) as (pages & Hpages & Hnd).
  pose proof (redis_Scan_keys now (minute_prefix (ru_prefix s) ts) m pages) as Hkeys.
  unfold scanned. rewrite Hpages, scan_loop_ok. simpl. split_and!; [done|done|]. intros k.
  rewrite (Hkeys k) by (by apply plain_minute_prefix || done). split.
  - intros [[h Hh] Hpre]. unfold live in Hh. assert (Hu : is_usage_key s k = true) by (by eapply minute_prefix_usage).
    specialize (Hm k Hu). destruct (m !! k) as [h'|]; [|done]. destruct Hm as [Hne _].
    destruct (filter (fun e => ev_key s e = k) es) as [|e l] eqn:E; [done|].
    assert (He : e ∈ filter (fun e => ev_key s e = k) es) by (rewrite E; left).
    apply list_elem_of_filter in He as [<- He]. exists e. split_and!; [done| |done]. by apply usageKey_minute in Hpre.
  - intros (e & He & <- & <-). split; [|by apply usageKey_minute]. specialize (Hm _ (ev_key_usage s e)). unfold live.
    destruct (m !! ev_key s e) as [h|].
    + destruct Hm as (_ & Hlive & _). rewrite Hlive by lia. by eexists.
    + assert (Hin : e ∈ filter (fun e' => ev_key s e' = ev_key s e) es) by (by apply list_elem_of_filter).
      rewrite Hm in Hin. by apply elem_of_nil in Hin.
Qed.

Definition agg_upd (o : option agg) (x : keyAgg * agg) : agg := agg_add (default agg0 o) x.2.
Definition pairs (tss : list Z) : list (Z * string) := tss ≫= (fun ts => pair ts <$> scanned ts).
Definition contribs (l : list (Z * string)) : list (keyAgg * agg) := omap (fun p => contribution now m q p.1 p.2) l.

Lemma keys_fold ts keys : forall acc,
  foldl (key_step now m q ts) acc keys = group_fold fst agg_upd acc (contribs (pair ts <$> keys)).
Proof.
  induction keys as [|k keys IH]; intros acc; [done|]. cbn [foldl]. rewrite IH. unfold contribs at 2, key_step. simpl.
  by destruct (contribution now m q ts k) as [[a v]|].
Qed.

Lemma minutes_loop_ok tss : forall acc,
  (forall ts, ts ∈ tss -> ts ∈ minutes (minute (uq_Start q)) (minute (uq_End q))) ->
  minutes_loop s now m q tss acc = Ok (group_fold fst agg_upd acc (contribs (pairs tss))).
Proof.
  induction tss as [|ts tss IH]; intros acc Htss; [done|]. cbn [minutes_loop].
  destruct (scanned_spec ts) as [-> _]; [apply Htss; left|].
  assert (Hrest : forall ts, ts ∈ tss -> ts ∈ minutes (minute (uq_Start q)) (minute (uq_End q))) by (intros; apply Htss; by right).
  unfold pairs. cbn [mbind list_bind]. unfold contribs at 1. rewrite omap_app. fold (contribs (pair ts <$> scanned ts)).
  unfold group_fold. rewrite foldl_app. fold (group_fold fst agg_upd acc (contribs (pair ts <$> scanned ts))).
  destruct (scanned ts) as [|k ks] eqn:E; [by apply IH|]. rewrite Hget, IH by done. by rewrite keys_fold.
Qed.

Definition ev_pair (e : event) : Z * string := (minute (ev_time e), ev_key s e).
Definition window : list (Z * string) := pairs (minutes (minute (uq_Start q)) (minute (uq_End q))).

Lemma elem_of_window p :
  p ∈ window <-> exists e, e ∈ es /\ (minute (uq_Start q) <= minute (ev_time e) < minute (uq_End q))%Z /\ ev_pair e = p.
Proof.
  unfold window, pairs. rewrite list_elem_of_bind. split.
  - intros (ts & Hp' & Hts). apply list_elem_of_fmap in Hp' as (k & -> & Hk).
    apply scanned_spec in Hk as (e & He & <- & <-); [|done]. exists e. split; [done|]. split; [by apply elem_of_minutes|done].
  - intros (e & He & Hw & <-). apply elem_of_minutes in Hw. exists (minute (ev_time e)). split; [|done].
    apply list_elem_of_fmap. exists (ev_key s e). split; [done|]. apply scanned_spec; [done|]. by exists e.
Qed.

Lemma NoDup_window : NoDup window.
Proof.
  unfold window, pairs. apply NoDup_bind.
  - intros t1 t2 p _ _ (k1 & -> & _)%list_elem_of_fmap (k2 & E & _)%list_elem_of_fmap. by injection E.
  - intros ts Hts. apply NoDup_fmap_2; [intros ? ? E; by injection E|]. by apply scanned_spec.
  - apply NoDup_minutes.
Qed.

Lemma ev_key_minute e e' : ev_key s e = ev_key s e' -> minute (ev_time e) = minute (ev_time e').
Proof.
  intros E. apply (usageKey_minute (ru_prefix s) _ _ (ev_tenant e) (ev_route e)). change (usageKey _ _ _ _) with (ev_key s e).
  rewrite E. by apply usageKey_minute.
Qed.

Lemma same_pair e e' : ev_pair e' = ev_pair e <-> ev_key s e' = ev_key s e.
Proof.
  unfold ev_pair. split; [by intros [= _ ->]|]. intros Hk. by rewrite Hk, (ev_key_minute _ _ Hk).
Qed.

Lemma agg_fold g w xs : (g, w) ∈ counters -> forall o, xs <> [] ->
  exists v, foldl (fun o x => Some (agg_upd o x)) o xs = Some v /\ g v = wrap64 (g (default agg0 o) + sumZ (fun x => g x.2) xs).
Proof.
  intros Hg. assert (Hadd : forall a b, g (agg_add a b) = wrap64 (g a + g b)).
  { intros a b. pattern g, w. by apply (counters_cases g w _ Hg). }
  induction xs as [|x xs IH]; intros o Hne; [done|]. cbn [foldl sumZ foldr]. destruct (decide (xs = [])) as [->|Hxs].
  - eexists. split; [done|]. unfold agg_upd. rewrite Hadd. simpl. by rewrite Z.add_0_r.
  - destruct (IH (Some (agg_upd o x)) Hxs) as (v & -> & Hv). exists v. split; [done|]. rewrite Hv. simpl. unfold agg_upd.
    rewrite Hadd, wrap64_add_l. f_equal. unfold sumZ. lia.
Qed.

Lemma sumZ_contribs (P : keyAgg * agg -> Prop) `{forall x, Decision (P x)} (h : keyAgg * agg -> Z) l :
  sumZ h (filter P (contribs l)) =
  sumZ (fun p => match contribution now m q p.1 p.2 with Some x => if decide (P x) then h x else 0%Z | None => 0%Z end) l.
Proof.
  induction l as [|p l IH]; [done|].
  change (contribs (p :: l)) with (match contribution now m q p.1 p.2 with Some x => x :: contribs l | None => contribs l end).
  cbn [sumZ foldr]. destruct (contribution now m q p.1 p.2) as [x|]; [|exact IH].
  rewrite filter_cons. case_decide; [cbn [sumZ foldr]; by f_equal|exact IH].
Qed.

Lemma same_group e e' :
  ev_pair e' = ev_pair e -> tenant_asked e' = tenant_asked e /\ (tenant_asked e = true -> ev_group e' = ev_group e).
Proof.
  intros [= Em Ek]. pose proof (contribution_spec e) as Hc. pose proof (contribution_spec e') as Hc'. rewrite Em, Ek in Hc'.
  destruct (tenant_asked e), (tenant_asked e'); try done.
  - destruct Hc as (v & Hv & _), Hc' as (v' & Hv' & _). rewrite Hv in Hv'. split; [done|]. congruence.
  - destruct Hc as (v & Hv & _). congruence.
  - destruct Hc' as (v & Hv & _). congruence.
Qed.

Lemma asked_window e : e ∈ es -> asked e = true <-> ev_pair e ∈ window /\ tenant_asked e = true.
Proof.
  intros He. unfold asked. rewrite !andb_true_iff, elem_of_window. split.
  - intros [Hw Ht]. split; [|done]. exists e. split_and!; [done|lia|lia|done].
  - intros [(e' & _ & Hw & [= <- _]) Ht]. split; [lia|done].
Qed.

(** What an event adds to a group. *)
Definition weight (a : keyAgg) (w : event -> Z) (e : event) : Z :=
  if decide (tenant_asked e = true /\ ev_group e = a) then w e else 0%Z.

Lemma weight_window a w l :
  (forall e, e ∈ l -> e ∈ es) ->
  sumZ (weight a w) (filter (fun e => ev_pair e ∈ window) l) = sumZ w (filter (fun e => ev_group e = a /\ asked e = true) l).
Proof.
  intros Hl. induction l as [|e l IH]; [done|]. rewrite !filter_cons. specialize (IH ltac:(intros; apply Hl; by right)).
  pose proof (asked_window e (Hl e ltac:(left))) as Ha.
  destruct (decide (ev_pair e ∈ window)), (decide (ev_group e = a /\ asked e = true)); simpl; rewrite ?IH; try tauto;
    unfold weight; [rewrite decide_True by tauto|rewrite decide_False by tauto]; done.
Qed.

Lemma weight_pair a g w e :
  (g, w) ∈ counters ->
  match contribution now m q (minute (ev_time e)) (ev_key s e) with Some x => if decide (x.1 = a) then g x.2 else 0%Z | None => 0%Z end
  = sumZ (weight a w) (filter (fun e' => ev_pair e' = ev_pair e) es).
Proof.
  intros Hg. pose proof (contribution_spec e) as Hc. destruct (tenant_asked e) eqn:Et.
  - destruct Hc as (v & -> & Hv). cbn [fst snd].
    rewrite (list_filter_iff (fun e' => ev_pair e' = ev_pair e) (fun e' => ev_key s e' = ev_key s e)) by apply same_pair.
    rewrite (sumZ_ext (weight a w) (fun e' => if decide (ev_group e = a) then w e' else 0%Z)).
    + case_decide; [by apply Hv|by rewrite sumZ_zero].
    + intros e' [Hk _]%list_elem_of_filter. apply same_pair in Hk. destruct (same_group e e' Hk) as [Ht Hgr].
      unfold weight. rewrite Ht, (Hgr Et). apply decide_ext. rewrite Et. tauto.
  - rewrite Hc. symmetry. rewrite (sumZ_ext (weight a w) (fun _ => 0%Z)); [apply sumZ_zero|].
    intros e' [Hk _]%list_elem_of_filter. destruct (same_group e e' Hk) as [Ht _]. unfold weight. rewrite decide_False; [done|].
    rewrite Ht, Et. by intros [? _].
Qed.

(** The sum of a counter over the contributions to a group is its sum over the
    events of the group. *)
Lemma group_sum a g w :
  (g, w) ∈ counters ->
  sumZ (fun x => g x.2) (of_group fst a (contribs window)) = sumZ w (of_group ev_group a (filter (fun e => asked e = true) es)).
Proof.
  intros Hg. unfold of_group at 1. rewrite sumZ_contribs.
  rewrite (sumZ_ext _ (fun p => sumZ (weight a w) (filter (fun e => ev_pair e = p) es))).
  - rewrite (sumZ_partition ev_pair (weight a w)) by apply NoDup_window. unfold of_group. rewrite list_filter_filter.
    by apply weight_window.
  - intros p (e & He & _ & <-)%elem_of_window. by apply weight_pair.
Qed.

Definition expected (a : keyAgg) : agg :=
  let l := of_group ev_group a (filter (fun e => asked e = true) es) in
  {| g_count := Z.of_nat (length l); g_bytes := sumZ ev_bytes l; g_prompt := 0; g_completion := 0; g_total := 0 |}.

Lemma expected_counter a g w :
  (g, w) ∈ counters -> g (expected a) = sumZ w (of_group ev_group a (filter (fun e => asked e = true) es)).
Proof.
  intros Hg. pattern g, w. apply (counters_cases g w _ Hg); cbn [expected g_count g_bytes g_prompt g_completion g_total];
    by rewrite ?sumZ_one, ?sumZ_zero.
Qed.

Lemma agg_ext a b : (forall g w, (g, w) ∈ counters -> g a = g b) -> a = b.
Proof.
  intros Hc. assert (Hin : forall g w, (g, w) ∈ counters -> g a = g b) by done. unfold counters in Hin.
  destruct a, b. f_equal; [apply (Hin g_count (fun _ => 1%Z))|apply (Hin g_bytes ev_bytes)|apply (Hin g_prompt (fun _ => 0%Z))
    |apply (Hin g_completion (fun _ => 0%Z))|apply (Hin g_total (fun _ => 0%Z))]; set_solver.
Qed.

(** The groups of the answer. *)
Lemma contribs_keys a : a ∈ map fst (contribs window) <-> a ∈ map ev_group (filter (fun e => asked e = true) es).
Proof.
  unfold contribs. rewrite !list_elem_of_fmap. split.
  - intros ([a' v] & -> & Hx). apply list_elem_of_omap in Hx as (p & Hp' & Hx). apply elem_of_window in Hp' as (e & He & Hw & <-).
    pose proof (contribution_spec e) as Hc. simpl in Hx. rewrite Hx in Hc. destruct (tenant_asked e) eqn:Et; [|done].
    destruct Hc as (v' & E & _). exists e. split; [by simplify_eq|]. apply list_elem_of_filter. split; [|done].
    apply asked_window; [done|]. split; [|done]. apply elem_of_window. by exists e.
  - intros (e & -> & He). apply list_elem_of_filter in He as [Ha He]. apply asked_window in Ha as [Hw Ht]; [|done].
    pose proof (contribution_spec e) as Hc. rewrite Ht in Hc. destruct Hc as (v & Hv & _). exists (ev_group e, v). split; [done|].
    apply list_elem_of_omap. by exists (ev_pair e).
Qed.

Lemma groups_exact :
  map_to_list (group_fold fst agg_upd ∅ (contribs window)) ≡ₚ
  map (fun a => (a, expected a)) (remove_dups (map ev_group (filter (fun e => asked e = true) es))).
Proof.
  set (acc := group_fold fst agg_upd ∅ (contribs window)).
  assert (Hval : forall a v, acc !! a = Some v -> v = expected a).
  { intros a v Hv. apply agg_ext. intros g w Hg. rewrite (expected_counter _ _ _ Hg), <-(group_sum a g w Hg).
    unfold acc in Hv. rewrite group_fold_lookup in Hv.
    destruct (decide (of_group fst a (contribs window) = [])) as [E|Hne]; [by rewrite E in Hv|].
    destruct (agg_fold g w _ Hg None Hne) as (v' & E & Hg'). rewrite E in Hv. simplify_eq. rewrite Hg'.
    assert (H0 : g agg0 = 0%Z) by (pattern g, w; by apply (counters_cases g w _ Hg)). cbn [default from_option]. unfold id. rewrite H0.
    rewrite Z.add_0_l, (group_sum a g w Hg). unfold of_group. rewrite list_filter_filter. by apply wrap64_id, (counters_range _ _ g). }
  assert (Hkeys : (map_to_list acc).*1 ≡ₚ remove_dups (map ev_group (filter (fun e => asked e = true) es))).
  { unfold acc. rewrite group_fold_keys. apply NoDup_Permutation; [apply NoDup_remove_dups..|]. intros a.
    by rewrite !elem_of_remove_dups, contribs_keys. }
  rewrite <-Hkeys. rewrite map_map. rewrite <-(map_id (map_to_list acc)) at 1. erewrite map_ext_in; [done|].
  intros [a v] Hin%list_elem_of_In%elem_of_map_to_list. simpl. by rewrite (Hval a v).
Qed.
End RedisExact.

#[export] Instance row_before_trans : Transitive row_before.
Proof. intros a b c. unfold row_before. lia. Qed.
#[export] Instance row_before_total : Total row_before.
Proof. intros a b. unfold row_before. lia. Qed.

(** The rows are those of the internal groups. *)
Lemma redis_Query_groups `{RedisScan} (acc_order : gmap keyAgg agg -> list (keyAgg * agg)) s now q ops :
  (forall m, acc_order m ≡ₚ map_to_list m) ->
  countable_events s now (uses ops) -> plain (ru_prefix s) = true -> (uq_Start q <= uq_End q)%Z ->
  (forall ts, ts ∈ minutes (minute (uq_Start q)) (minute (uq_End q)) ->
     exists pages, redis_Scan now (minute_prefix (ru_prefix s) ts +:+ "*") (store_after s ops) = map Ok pages /\ NoDup (concat pages)) ->
  (forall keys, redis_HMGet_fails keys = None) ->
  exists rows,
    redis_Query acc_order now s q (store_after s ops) =
      Ok {| WindowStart := floorToMinute (uq_Start q); WindowEnd := floorToMinute (uq_End q); Rows := rows |} /\
    StronglySorted row_before rows /\
    rows ≡ₚ map (fun a => agg_row q (a, expected q (uses ops) a))
                (remove_dups (map (ev_group q) (filter (fun e => asked q e = true) (uses ops)))).
Proof.
  intros Horder Hes Hp Hw Hscan Hget. unfold redis_Query. rewrite (proj2 (Z.ltb_ge _ _)) by lia.
  pose proof (fun k => store_after_spec s now ops k Hes) as Hm.
  rewrite (minutes_loop_ok s now q (uses ops) _ Hm Hp Hscan Hget) by done.
  eexists. split; [done|]. split; [apply StronglySorted_merge_sort; apply _|].
  rewrite merge_sort_Permutation, Horder.
  rewrite (groups_exact s now q (uses ops) _ Hm Hes Hp Hscan Hget). by rewrite map_map.
Qed.

(** ** The answer in terms of the decisions *)

(** The name a tenant or a route has in an answer; the empty one is
    ["default"]. *)
Definition name_of (s : string) : string := if bool_decide (s = "") then "default" else s.
Definition interval_length (i : Interval) : Z :=
  match i with IntervalHour => Hour | IntervalDay => (24 * Hour)%Z | _ => Minute end.

(** Decisions with names that a key can hold, after the epoch. *)
Record ordinary (e : event) : Prop := {
  ord_tenant : CountByte "|" (ev_tenant e) = 0;
  ord_route : CountByte "|" (ev_route e) = 0;
  ord_time : (0 <= ev_time e)%Z;
}.

(** The decisions of the window and the tenant of a query, the group of a
    decision, and that of a row. *)
Definition falls_in (q : UsageQuery) (e : event) : Prop :=
  (floorToMinute (uq_Start q) <= ev_time e < floorToMinute (uq_End q))%Z /\
  (uq_Tenant q = "" \/ uq_Tenant q = name_of (ev_tenant e)).
#[export] Instance falls_in_dec q e : Decision (falls_in q e).
Proof. unfold falls_in. apply _. Defined.
Definition group_of (q : UsageQuery) (e : event) : Z * string * string :=
  (Truncate (ev_time e) (interval_length (uq_Interval q)),
   if includeTenant q then name_of (ev_tenant e) else "", if includeRoute q then name_of (ev_route e) else "").
Definition row_group (r : Row) : Z * string * string := (row_IntervalStart r, row_Tenant r, row_Route r).

Lemma reported_name t : CountByte "|" t = 0 -> reported t = name_of t.
Proof.
  intros Ht. unfold name_of. case_bool_decide as E; [by subst|]. by apply reported_id.
Qed.

Lemma minute_div t : minute t = (60 * (t / Minute))%Z.
Proof.
  unfold minute, floorToMinute, Truncate, Second. pose proof (Z.div_mod t Minute ltac:(done)).
  replace (t - t mod Minute)%Z with (60 * (t / Minute) * 1000000000)%Z by (unfold Minute in *; lia).
  by rewrite Z.div_mul.
Qed.

Lemma bucket_start i t :
  (0 <= t)%Z -> (Z.quot (minute t) (bucketSize i) * bucketSize i * Second)%Z = Truncate t (interval_length i).
Proof.
  intros Ht. rewrite minute_div.
  assert (E : exists d, bucketSize i = (60 * d)%Z /\ interval_length i = (Minute * d)%Z /\ (0 < d)%Z).
  { destruct i; [exists 1%Z|exists 60%Z|exists 1440%Z|exists 1%Z]; done. }
  destruct E as (d & -> & -> & Hd). pose proof (Z.div_pos t Minute Ht ltac:(done)).
  rewrite Z.quot_mul_cancel_l, Z.quot_div_nonneg, Z.div_div by (lia || done). unfold Truncate.
  pose proof (Z.div_mod t (Minute * d)). unfold Minute, Second in *. lia.
Qed.

Lemma asked_falls_in q e : ordinary e -> asked q e = true <-> falls_in q e.
Proof.
  intros [Ht _ _]. unfold asked, falls_in, tenant_asked. rewrite !andb_true_iff, orb_true_iff, !bool_decide_eq_true.
  rewrite Z.leb_le, Z.ltb_lt, (reported_name _ Ht), !minute_div. unfold floorToMinute, Truncate.
  pose proof (Z.div_mod (uq_Start q) Minute ltac:(done)). pose proof (Z.div_mod (uq_End q) Minute ltac:(done)).
  pose proof (Z.div_mod (ev_time e) Minute ltac:(done)). pose proof (Z.mod_pos_bound (ev_time e) Minute ltac:(done)).
  unfold Minute in *. split; intros [? ?]; split; [lia|done|lia|done].
Qed.

(** The groups of the loop are the groups of the rows. *)
Definition shown (a : keyAgg) : Z * string * string := ((ka_bucket a * Second)%Z, ka_tenant a, ka_route a).

Lemma shown_inj : Inj (=) (=) shown.
Proof. intros [b t r] [b' t' r'] [= Hb -> ->]. unfold Second in Hb. f_equal. lia. Qed.

Lemma shown_group q e : ordinary e -> shown (ev_group q e) = group_of q e.
Proof.
  intros [Ht Hr H0]. unfold shown, ev_group, group_of. cbn [ka_bucket ka_tenant ka_route].
  by rewrite (bucket_start _ _ H0), (reported_name _ Ht), (reported_name _ Hr).
Qed.

Lemma row_group_shown q es a v : a ∈ map (ev_group q) es -> row_group (agg_row q (a, v)) = shown a.
Proof.
  intros (e & -> & _)%list_elem_of_fmap. unfold row_group, agg_row, shown. simpl. by destruct (includeTenant q), (includeRoute q).
Qed.

Lemma of_group_asked q es a :
  Forall ordinary es -> of_group (ev_group q) a (filter (fun e => asked q e = true) es) =
  filter (fun e => falls_in q e /\ group_of q e = shown a) es.
Proof.
  intros Hes. unfold of_group. rewrite list_filter_filter. induction Hes as [|e es Ho _ IH]; [done|]. rewrite !filter_cons, IH.
  apply decide_ext. rewrite (asked_falls_in q e Ho), <-(shown_group q e Ho).
  split; intros [H1 H2]; split; try done; [by rewrite H1|by apply shown_inj].
Qed.

Lemma uses_map es : uses (map Use es) = es.
Proof. induction es as [|e es IH]; [done|]. change (e :: uses (map Use es) = e :: es). by rewrite IH. Qed.

(** C32. The redis store counts exactly.  After any sequence of successful
    [Record]s, a query answers with one row for every group (interval, and
    tenant and route as asked for) that has decisions of the window, cut to
    whole minutes, and of the tenant asked for, in the order of the intervals;
    the count and the bytes of a row are the number and the bytes of the
    decisions of its group.  It holds of a query that does not group by
    decision, of which no command fails and whose SCANs return no key twice,
    when the prefix of the keys has no byte that means something in a pattern,
    the names of tenants and routes have no bar (the empty name counts as
    ["default"]), times are after the epoch, the decisions have not expired,
    no size is negative and the counters fit 64 bits. *)
Theorem redis_usage_exact `{RedisScan} (acc_order : gmap keyAgg agg -> list (keyAgg * agg)) s now q es :
  let m := store_after s (map Use es) in
  (forall acc, acc_order acc ≡ₚ map_to_list acc) ->
  countable_events s now es -> Forall ordinary es -> plain (ru_prefix s) = true ->
  (uq_Start q <= uq_End q)%Z -> ~ GroupByDecision ∈ uq_GroupBy q ->
  (forall ts, ts ∈ minutes (minute (uq_Start q)) (minute (uq_End q)) ->
     exists pages, redis_Scan now (minute_prefix (ru_prefix s) ts +:+ "*") m = map Ok pages /\ NoDup (concat pages)) ->
  (forall keys, redis_HMGet_fails keys = None) ->
  exists rows,
    redis_Query acc_order now s q m =
      Ok {| WindowStart := floorToMinute (uq_Start q); WindowEnd := floorToMinute (uq_End q); Rows := rows |} /\
    StronglySorted row_before rows /\ NoDup (map row_group rows) /\
    (forall g, g ∈ map row_group rows <-> exists e, e ∈ es /\ falls_in q e /\ group_of q e = g) /\
    forall r, r ∈ rows ->
      let l := filter (fun e => falls_in q e /\ group_of q e = row_group r) es in
      row_Count r = Z.of_nat (length l) /\ row_Bytes r = sumZ ev_bytes l.
Proof.
  intros m Horder Hes Hord Hp Hw _ Hscan Hget. pose proof (uses_map es) as Hu.
  destruct (redis_Query_groups acc_order s now q (map Use es)) as (rows & Hq & Hs & Hr); rewrite ?Hu; try done.
  rewrite Hu in Hr. set (gs := remove_dups _) in Hr.
  assert (Hgs : forall a, a ∈ gs <-> a ∈ map (ev_group q) (filter (fun e => asked q e = true) es)) by (intros a; apply elem_of_remove_dups).
  assert (Hrg : map row_group rows ≡ₚ map shown gs).
  { rewrite Hr, map_map. erewrite map_ext_in; [done|]. intros a Ha%list_elem_of_In%Hgs. by eapply row_group_shown. }
  exists rows. split_and!; [done|done|rewrite Hrg; apply NoDup_fmap_2; [apply shown_inj|apply NoDup_remove_dups]| |].
  - intros g. rewrite Hrg, list_elem_of_fmap. setoid_rewrite Hgs. setoid_rewrite list_elem_of_fmap. setoid_rewrite list_elem_of_filter. split.
    + intros (a & -> & e & -> & Ha & He). pose proof (proj1 (Forall_forall _ _) Hord e He) as Ho.
      exists e. by rewrite (shown_group q e Ho), <-(asked_falls_in q e Ho).
    + intros (e & He & Ha & <-). pose proof (proj1 (Forall_forall _ _) Hord e He) as Ho.
      exists (ev_group q e). split; [by rewrite shown_group|]. exists e. by rewrite asked_falls_in.
  - intros r Hin l. rewrite Hr in Hin. apply list_elem_of_fmap in Hin as (a & -> & Ha%Hgs).
    subst l. rewrite (row_group_shown q _ a _ Ha). cbn [agg_row row_Count row_Bytes expected g_count g_bytes fst snd].
    by rewrite (of_group_asked q es a Hord).
Qed.

(** Errors: an inverted window, and whatever a command reports. *)
Lemma redis_Query_errors `{RedisScan} acc_order s now q m :
  ((uq_End q < uq_Start q)%Z -> redis_Query acc_order now s q m = Err "invalid window") /\
  (forall ts tss e pages rest, minutes (minute (uq_Start q)) (minute (uq_End q)) = ts :: tss -> (uq_Start q <= uq_End q)%Z ->
     redis_Scan now (minute_prefix (ru_prefix s) ts +:+ "*") m = map Ok pages ++ Err e :: rest ->
     redis_Query acc_order now s q m = Err e).
Proof.
  unfold redis_Query. split.
  - intros Hw. by rewrite (proj2 (Z.ltb_lt _ _)).
  - intros ts tss e pages rest Hts Hw Hs. rewrite (proj2 (Z.ltb_ge _ _)), Hts by lia. cbn [minutes_loop]. rewrite Hs.
    assert (Hl : forall keys, scan_loop (map Ok pages ++ Err e :: rest) keys = Err e).
    { clear Hs. induction pages as [|p pages IH]; intros keys; [done|]. apply IH. }
    by rewrite Hl.
Qed.

Module RedisUsageWitnesses.
(** A longer retention wraps around: 213,504 days become twenty-five
    minutes. *)
Lemma long_ttl_wraps :
  (fun s => (ru_ttl s / Second)%Z) <$> usage_store_of_env "redis:6379" "" "" "213504" = Some 1526%Z /\
  (fun s => (ru_ttl s / Hour)%Z) <$> usage_store_of_env "redis:6379" "" "" "106752" = Some (35 * 24)%Z.
Proof. vm_compute. done. Qed.

(** A server that returns the matching keys in one page, and one that returns
    them twice, as SCAN may. *)
Definition matching (now : Z) (pattern : string) (m : hashes) : list string :=
  filter (fun k => is_Some (live now m k) /\ HasPrefix (stake (String.length pattern - 1) pattern) k = true) (map_to_list m).*1.

Lemma elem_of_matching now p m k :
  k ∈ matching now (p +:+ "*") m <-> is_Some (live now m k) /\ HasPrefix p k = true.
Proof.
  unfold matching. rewrite list_elem_of_filter, length_sapp. simpl.
  replace (String.length p + 1 - 1) with (String.length p) by lia. rewrite stake_app_length. split; [tauto|].
  intros [Hl Hp]. split; [done|]. unfold live in Hl. destruct (m !! k) as [h|] eqn:E; [|by destruct Hl].
  apply list_elem_of_fmap. exists (k, h). split; [done|]. by apply elem_of_map_to_list.
Qed.

Program Definition one_page : RedisScan :=
  {| redis_Scan now pattern m := [Ok (matching now pattern m)]; redis_HMGet_fails _ := None |}.
Next Obligation.
  intros now p m pages k _ E. simpl in E. destruct pages as [|ks [|]]; try discriminate E. injection E as <-.
  simpl. rewrite app_nil_r. apply elem_of_matching.
Qed.
Program Definition returned_twice : RedisScan :=
  {| redis_Scan now pattern m := [Ok (matching now pattern m); Ok (matching now pattern m)]; redis_HMGet_fails _ := None |}.
Next Obligation.
  intros now p m pages k _ E. simpl in E. destruct pages as [|ks [|ks' [|]]]; try discriminate E. injection E as <- <-.
  simpl. rewrite app_nil_r, elem_of_app, !elem_of_matching. tauto.
Qed.

Definition store : RedisUsageStore := NewRedisUsageStore "" 0.
Definition decision (tenant route decision : string) (bytes t : Z) : event :=
  {| ev_tenant := tenant; ev_route := route; ev_decision := decision; ev_bytes := bytes; ev_time := t; ev_at := t |}.
Definition use (tenant route d : string) (bytes t : Z) : op := Use (decision tenant route d bytes t).
Definition tokens (tenant : string) (t : Z) : op :=
  Tokens t {| rec_Tenant := tenant; rec_Route := "/check"; rec_Decision := "allow"; rec_Bytes := 5; rec_PromptTokens := 3;
              rec_CompletionTokens := 4; rec_TotalTokens := 7; rec_Provider := "p"; rec_Model := "m"; rec_Timestamp := t |}.
Definition some_decisions : list event :=
  [decision "a" "/check" "allow" 2 8; decision "b:c" "/check" "deny" 7 (Minute + 1); decision "a" "/scan" "quarantine" 4 (Minute + 2)].
Definition per_tenant : UsageQuery :=
  {| uq_Tenant := ""; uq_Start := 0; uq_End := 2 * Minute; uq_Interval := IntervalHour; uq_GroupBy := [GroupByTenant] |}.
Definition view (r : Row) : string * string * Z * Z := (row_Tenant r, row_Route r, row_Count r, row_Bytes r).

Lemma some_decisions_countable : countable_events store Hour some_decisions /\ Forall ordinary some_decisions.
Proof.
  split; [split; [| |by vm_compute|by vm_compute]|].
  - intros e He. unfold some_decisions in He. rewrite !elem_of_cons, elem_of_nil in He. destruct He as [->|[->|[->|[]]]]; vm_compute; split; congruence.
  - intros e He. unfold some_decisions in He. rewrite !elem_of_cons, elem_of_nil in He. destruct He as [->|[->|[->|[]]]]; vm_compute; congruence.
  - repeat constructor; vm_compute; congruence.
Qed.

Lemma redis_usage_exact_witness :
  exists rows, @redis_Query one_page map_to_list Hour store per_tenant (store_after store (map Use some_decisions)) =
    Ok {| WindowStart := 0; WindowEnd := 2 * Minute; Rows := rows |} /\
  NoDup (map row_group rows) /\ (0%Z, "a", "")%string ∈ map row_group rows /\
  forall r, r ∈ rows -> row_group r = (0%Z, "a", "")%string -> row_Count r = 2%Z /\ row_Bytes r = 6%Z.
Proof.
  destruct (@redis_usage_exact one_page map_to_list store Hour per_tenant some_decisions) as (rows & Hq & _ & Hnd & Hg & Hr).
  - done.
  - apply some_decisions_countable.
  - apply some_decisions_countable.
  - vm_compute. reflexivity.
  - vm_compute. congruence.
  - set_solver.
  - intros ts _. exists [matching Hour (minute_prefix (ru_prefix store) ts +:+ "*") (store_after store (map Use some_decisions))].
    split; [reflexivity|]. cbn [concat]. rewrite app_nil_r. apply NoDup_filter, NoDup_fst_map_to_list.
  - done.
  - exists rows. split; [exact Hq|]. split; [exact Hnd|]. split.
    + apply Hg. exists (decision "a" "/check" "allow" 2 8). split; [left|]. split; [|reflexivity].
      split; [vm_compute; split; congruence|by left].
    + intros r Hin Er. destruct (Hr r Hin) as [-> ->]. rewrite Er. split; vm_compute; reflexivity.
Defined.

Definition rows_of (r : result string UsageResult) : list (string * string * Z * Z) :=
  match r with Ok u => map view (Rows u) | Err _ => [] end.

(** A key that SCAN returns twice is counted twice. *)
Lemma scanned_twice_counted_twice :
  rows_of (@redis_Query returned_twice map_to_list Hour store per_tenant (store_after store [use "a" "/check" "allow" 2 8])) =
  [("a", "", 2%Z, 4%Z)]%string.
Proof. vm_compute. reflexivity. Qed.

(** A bar in a name comes back as a colon, and a query for the name itself
    finds nothing. *)
Lemma bar_becomes_colon :
  rows_of (@redis_Query one_page map_to_list Hour store per_tenant (store_after store [use "a|b" "/check" "allow" 2 8])) =
    [("a:b", "", 1%Z, 2%Z)]%string /\
  rows_of (@redis_Query one_page map_to_list Hour store
             {| uq_Tenant := "a|b"; uq_Start := 0; uq_End := 2 * Minute; uq_Interval := IntervalHour; uq_GroupBy := [GroupByTenant] |}
             (store_after store [use "a|b" "/check" "allow" 2 8])) = [].
Proof. split; vm_compute; reflexivity. Qed.

(** Tokens are recorded but no query reports them. *)
Lemma tokens_not_reported :
  rows_of (@redis_Query one_page map_to_list Hour store per_tenant (store_after store [tokens "a" 9])) = [].
Proof. vm_compute. reflexivity. Qed.
End RedisUsageWitnesses.

(** ** The store on SQLite *)

Inductive sql_value :=
  | SqlText (s : string)
  | SqlInt (n : Z)
  | SqlNull.

(** Nothing in the text is quoted or a comment. *)
Fixpoint bare (t : string) : bool :=
  match t with
  | "" => true
  | String c t => negb (bool_decide (byte_of c ∈ [34; 39; 45; 91; 96]%Z)) && negb (bool_decide (c = "/"%char) && HasPrefix "*" t) && bare t
  end.

(** The first byte of a statement that is not white space is a slash, but not
    that of a comment. *)
Fixpoint leading_slash (t : string) : bool :=
  match t with
  | "" => false
  | String c t => if bool_decide (byte_of c ∈ [9; 10; 12; 13; 32]%Z) then leading_slash t
                  else bool_decide (c = "/"%char) && negb (HasPrefix "*" t)
  end.

(** SQLite: statements that do not begin with a keyword are refused, and so is
    an alias in GROUP BY, whose operands are expressions. *)
Class Sqlite := {
  sqlite_db : Type;
  sqlite_Exec : string -> list sql_value -> sqlite_db -> result string sqlite_db;
  sqlite_Query : string -> list sql_value -> sqlite_db -> result string (list (list sql_value));
  sqlite_slash : forall t args d, leading_slash t = true -> exists e, sqlite_Exec t args d = Err e;
  sqlite_group_alias : forall pre e post args d,
    bare pre = true -> bare e = true -> Contains e "CAST" = false -> Contains e "SELECT" = false ->
    exists err, sqlite_Query (pre +:+ " GROUP BY " +:+ e +:+ " AS " +:+ post) args d = Err err;
}.

Section SQLiteStore.
Context `{Sqlite}.

Definition newline : string := String "010" "".
Definition or_default (s d : string) : string := if bool_decide (s = "") then d else s.

(** The text in front of the statements is part of the raw string. *)
Definition nolint : string :=
  " //nolint:gosec // Column names are from closed set (allow/quarantine/deny), not user input" +:+ newline.

Definition record_sql (col : string) : string :=
  nolint +:+ "INSERT INTO usage_minute(tenant, route, ts_minute, " +:+ col +:+ ", bytes)" +:+ newline
  +:+ "VALUES(?,?,?,?,?)" +:+ newline +:+ "ON CONFLICT(tenant, route, ts_minute)" +:+ newline
  +:+ "DO UPDATE SET " +:+ col +:+ " = " +:+ col +:+ " + excluded." +:+ col
  +:+ ", bytes = usage_minute.bytes + excluded.bytes" +:+ newline.

Definition sqlite_Record (tenant route decision : string) (bytes t : Z) (d : sqlite_db) : result string sqlite_db :=
  match sqlite_Exec (record_sql (column decision))
          [SqlText (or_default tenant "default"); SqlText (or_default route "default"); SqlInt (minute t); SqlInt 1; SqlInt bytes] d with
  | Err e => Err ("record usage: " +:+ e)
  | Ok d => Ok d
  end.

Definition tokens_sql (col : string) : string :=
  nolint +:+ "INSERT INTO usage_tokens(tenant, route, provider, model, ts_minute, " +:+ col
  +:+ ", bytes, prompt_tokens, completion_tokens, total_tokens)" +:+ newline
  +:+ "VALUES(?,?,?,?,?,?,?,?,?,?)" +:+ newline +:+ "ON CONFLICT(tenant, route, provider, model, ts_minute)" +:+ newline
  +:+ "DO UPDATE SET " +:+ newline +:+ String "009" col +:+ " = " +:+ col +:+ " + excluded." +:+ col +:+ "," +:+ newline
  +:+ String "009" "bytes = usage_tokens.bytes + excluded.bytes," +:+ newline
  +:+ String "009" "prompt_tokens = usage_tokens.prompt_tokens + excluded.prompt_tokens," +:+ newline
  +:+ String "009" "completion_tokens = usage_tokens.completion_tokens + excluded.completion_tokens," +:+ newline
  +:+ String "009" "total_tokens = usage_tokens.total_tokens + excluded.total_tokens" +:+ newline.

Definition sqlite_RecordTokens (r : UsageRecord) (d : sqlite_db) : result string sqlite_db :=
  match sqlite_Exec (tokens_sql (column (rec_Decision r)))
          [SqlText (or_default (rec_Tenant r) "default"); SqlText (or_default (rec_Route r) "default");
           SqlText (or_default (rec_Provider r) "unknown"); SqlText (or_default (rec_Model r) "unknown");
           SqlInt (minute (rec_Timestamp r)); SqlInt 1; SqlInt (rec_Bytes r); SqlInt (rec_PromptTokens r);
           SqlInt (rec_CompletionTokens r); SqlInt (rec_TotalTokens r)] d with
  | Err e => Err ("record token usage: " +:+ e)
  | Ok d => Ok d
  end.

Definition bucketExpr (i : Interval) : string :=
  match i with
  | IntervalHour => "(ts_minute/3600)*3600"
  | IntervalDay => "(ts_minute/86400)*86400"
  | _ => "ts_minute"
  end.

(** The loop over [GroupBy]: the columns, or the error. *)
Fixpoint group_columns (gs : list GroupBy) (cols : list string) : result string (list string) :=
  match gs with
  | [] => Ok cols
  | GroupByTenant :: gs => group_columns gs (cols ++ ["tenant"])
  | GroupByRoute :: gs => group_columns gs (cols ++ ["route"])
  | GroupByDecision :: _ => Err "group by decision not supported with current schema"
  | OtherGroup :: gs => group_columns gs cols
  end.

Definition scanCols : string := "SUM(allow) AS allow,SUM(quarantine) AS quarantine,SUM(deny) AS deny,SUM(bytes) AS bytes".
Definition where_clause (q : UsageQuery) : string :=
  "ts_minute >= ? AND ts_minute < ?" +:+ if bool_decide (uq_Tenant q = "") then "" else " AND tenant = ?".
Definition query_sql (q : UsageQuery) (cols : list string) : string :=
  "SELECT " +:+ Join "," cols +:+ ", " +:+ scanCols +:+ " FROM usage_minute WHERE " +:+ where_clause q
  +:+ " GROUP BY " +:+ Join "," cols +:+ " ORDER BY bucket_ts ASC".

(** [rows.Scan]: as many destinations as columns; [sqlNullString] is not a
    [Scanner], so nothing is stored into one. *)
Inductive destination := DInt | DNullString.
Definition destinations (q : UsageQuery) : list destination :=
  [DInt] ++ (if includeTenant q then [DNullString] else []) ++ (if includeRoute q then [DNullString] else []) ++ [DInt; DInt; DInt; DInt].
Fixpoint scan_columns (ds : list destination) (vs : list sql_value) : result string (list Z) :=
  match ds, vs with
  | [], [] => Ok []
  | DInt :: ds, SqlInt n :: vs => match scan_columns ds vs with Ok ns => Ok (n :: ns) | Err e => Err e end
  | DInt :: _, _ :: _ => Err "converting driver.Value type to a int64"
  | DNullString :: _, _ :: _ => Err "unsupported Scan, storing driver.Value type into type *usage.sqlNullString"
  | _, _ => Err "sql: wrong number of destination arguments in Scan"
  end.

Definition sqlite_row (ns : list Z) : Row :=
  {| row_Tenant := ""; row_Route := ""; row_Decision := ""; row_Provider := ""; row_Model := "";
     row_IntervalStart := (nth 0 ns 0 * Second)%Z; row_Count := wrap64 (nth 1 ns 0 + nth 2 ns 0 + nth 3 ns 0)%Z; row_Bytes := nth 4 ns 0%Z;
     row_PromptTokens := 0; row_CompletionTokens := 0; row_TotalTokens := 0 |}.

Fixpoint scan_rows (q : UsageQuery) (rows : list (list sql_value)) : result string (list Row) :=
  match rows with
  | [] => Ok []
  | vs :: rows =>
    match scan_columns (destinations q) vs with
    | Err e => Err ("scan usage: " +:+ e)
    | Ok ns => match scan_rows q rows with Ok rs => Ok (sqlite_row ns :: rs) | Err e => Err e end
    end
  end.

Definition query_args (q : UsageQuery) : list sql_value :=
  [SqlInt (minute (uq_Start q)); SqlInt (minute (uq_End q))] ++ if bool_decide (uq_Tenant q = "") then [] else [SqlText (uq_Tenant q)].

Definition sqlite_Query_usage (q : UsageQuery) (d : sqlite_db) : result string UsageResult :=
  if (uq_End q <? uq_Start q)%Z then Err "invalid window"
  else
    match group_columns (uq_GroupBy q) [bucketExpr (uq_Interval q) +:+ " AS bucket_ts"] with
    | Err e => Err e
    | Ok cols =>
      match sqlite_Query (query_sql q cols) (query_args q) d with
      | Err e => Err ("query usage: " +:+ e)
      | Ok rows =>
        match scan_rows q rows with
        | Err e => Err e
        | Ok rs => Ok {| WindowStart := floorToMinute (uq_Start q); WindowEnd := floorToMinute (uq_End q); Rows := rs |}
        end
      end
    end.

(** ** No operation of this store succeeds *)

Lemma bare_app a b : HasPrefix "*" b = false -> bare (a +:+ b) = bare a && bare b.
Proof.
  intros Hb. induction a as [|c a IH]; [done|]. change (String c a +:+ b) with (String c (a +:+ b)). cbn [bare].
  rewrite IH, andb_assoc. do 5 f_equal. destruct a; [exact Hb|done].
Qed.

(** The columns after the first are names. *)
Lemma group_columns_bare gs : forall c cols cols',
  Forall (fun n => n = "tenant" \/ n = "route") cols -> group_columns gs (c :: cols) = Ok cols' ->
  exists l, cols' = c :: l /\ Forall (fun n => n = "tenant" \/ n = "route") l.
Proof.
  induction gs as [|g gs IH]; intros c cols cols' Hc; simpl; [intros [= <-]; by eexists|].
  destruct g; try done; try apply (IH c (cols ++ _)); try by apply IH.
  - apply Forall_app. split; [done|]. constructor; [by left|done].
  - apply Forall_app. split; [done|]. constructor; [by right|done].
Qed.

Lemma Join_names_bare c l :
  bare c = true -> Forall (fun n => n = "tenant" \/ n = "route") l ->
  exists t, Join "," (c :: l) = c +:+ t /\ bare (c +:+ t) = true.
Proof.
  intros Hc Hl. assert (exists t, Join "," (c :: l) = c +:+ t /\ bare t = true /\ HasPrefix "*" t = false) as (t & Ht & Hb & Hp).
  { revert c Hc. induction Hl as [|n l Hn _ IH]; intros c Hc; [exists ""; by rewrite sapp_nil_r|].
    destruct (IH n ltac:(by destruct Hn as [->| ->])) as (t & Ht & Hb & Hp). exists ("," +:+ n +:+ t).
    rewrite Join_cons, Ht by done. split; [done|]. split; [|done].
    rewrite !bare_app, Hb; [by destruct Hn as [->| ->]|done|by destruct Hn as [->| ->]]. }
  exists t. split; [done|]. by rewrite bare_app, Hc, Hb.
Qed.

(** Whatever the database, nothing is recorded and no query is answered. *)
Lemma sqlite_store_unusable tenant route decision bytes t r q d :
  (exists e, sqlite_Record tenant route decision bytes t d = Err e) /\
  (exists e, sqlite_RecordTokens r d = Err e) /\
  (exists e, sqlite_Query_usage q d = Err e).
Proof.
  split_and!.
  - unfold sqlite_Record. match goal with |- context [sqlite_Exec ?x ?args d] => destruct (sqlite_slash x args d eq_refl) as [e ->] end. by eexists.
  - unfold sqlite_RecordTokens. match goal with |- context [sqlite_Exec ?x ?args d] => destruct (sqlite_slash x args d eq_refl) as [e ->] end. by eexists.
  - unfold sqlite_Query_usage. destruct (uq_End q <? uq_Start q)%Z; [by eexists|].
    destruct (group_columns _ _) as [cols|e] eqn:E; [|by eexists].
    apply group_columns_bare in E as (l & -> & Hl); [|done].
    destruct (Join_names_bare (bucketExpr (uq_Interval q) +:+ " AS bucket_ts") l) as (u & Hu & Hb); [by destruct (uq_Interval q)|done|].
    assert (query_sql q ((bucketExpr (uq_Interval q) +:+ " AS bucket_ts") :: l) =
      ("SELECT " +:+ (bucketExpr (uq_Interval q) +:+ " AS bucket_ts") +:+ u +:+ (", " +:+ scanCols +:+ " FROM usage_minute WHERE ") +:+ where_clause q)
      +:+ " GROUP BY " +:+ bucketExpr (uq_Interval q) +:+ " AS " +:+ ("bucket_ts" +:+ u +:+ " ORDER BY bucket_ts ASC")) as ->.
    { unfold query_sql. rewrite Hu, !sapp_assoc. done. }
    match goal with |- context [sqlite_Query (?pre +:+ _) ?args d] =>
      destruct (sqlite_group_alias pre (bucketExpr (uq_Interval q)) ("bucket_ts" +:+ u +:+ " ORDER BY bucket_ts ASC") args d) as [e ->] end.
    + rewrite bare_app by (by destruct (uq_Interval q)).
      assert (Hbu : bare ((bucketExpr (uq_Interval q) +:+ " AS bucket_ts") +:+ u) = true) by done.
      rewrite <-sapp_assoc, bare_app, Hbu by done. unfold where_clause. by case_bool_decide.
    + by destruct (uq_Interval q).
    + by destruct (uq_Interval q).
    + by destruct (uq_Interval q).
    + by eexists.
Qed.
End SQLiteStore.

(** A database that refuses only these statements. *)
Program Definition some_sqlite : Sqlite :=
  {| sqlite_db := unit;
     sqlite_Exec t _ d := if leading_slash t then Err "syntax error" else Ok d;
     sqlite_Query t _ _ := if Contains t " GROUP BY " then Err "syntax error" else Ok [] |}.
Next Obligation. intros t args d Ht. simpl. rewrite Ht. by eexists. Qed.
Next Obligation.
  intros pre e post args d _ _ _ _. cbv beta. rewrite Contains_app_r; [by eexists|]. apply Contains_app_l. by vm_compute.
Qed.
