(* ===== verification/Errors.v ===== *)
(** * Errors: the domain errors

    src/internal/shared/types/errors.go and src/internal/shared/errors: the
    structured errors of the services, with the status and the retry advice
    they carry.  Values of dynamic type in the details are [detail]s, ids
    their text. *)

From Stdlib Require Import Ascii String.
From S2P Require Import Prelude GoString.

Inductive detail :=
  | DText (s : string)
  | DInt (n : Z)
  | DBool (b : bool)
  | DTexts (l : list string).
Notation details := (gmap string detail).

(** An error is a text or a [DomainError]: code, message, details, cause,
    status and whether to retry. *)
Inductive error :=
  | Plain (msg : string)
  | Domain (code message : string) (ds : details) (cause : option error) (status : Z) (retryable : bool).

Definition Code (e : error) : string := match e with Domain c _ _ _ _ _ => c | Plain _ => "" end.
Definition HTTPStatus (e : error) : Z := match e with Domain _ _ _ _ s _ => s | Plain _ => 0%Z end.
Definition Retryable (e : error) : bool := match e with Domain _ _ _ _ _ r => r | Plain _ => false end.
Definition Details (e : error) : details := match e with Domain _ _ d _ _ _ => d | Plain _ => ∅ end.

Fixpoint Error (e : error) : string :=
  match e with
  | Plain msg => msg
  | Domain _ message _ (Some cause) _ _ => message +:+ ": " +:+ Error cause
  | Domain _ message _ None _ _ => message
  end.

Definition Unwrap (e : error) : option error := match e with Domain _ _ _ cause _ _ => cause | Plain _ => None end.

Definition WithCause (cause : option error) (e : error) : error :=
  match e with Domain c m d _ s r => Domain c m d cause s r | Plain msg => Plain msg end.
Definition WithDetail (key : string) (value : detail) (e : error) : error :=
  match e with Domain c m d cause s r => Domain c m (<[key := value]> d) cause s r | Plain msg => Plain msg end.

(** ** The constructors *)

(** *** auth.go *)
Definition Unauthorized (reason : string) : error :=
  Domain "UNAUTHORIZED" "unauthorized" {["reason" := DText reason]} None 401 false.
Definition Forbidden (reason : string) : error :=
  Domain "FORBIDDEN" "forbidden" {["reason" := DText reason]} None 403 false.
Definition InvalidCredentials : error :=
  Domain "INVALID_CREDENTIALS" "invalid credentials" ∅ None 401 false.
Definition TokenExpired (tokenType : string) : error :=
  Domain "TOKEN_EXPIRED" "token has expired" {["token_type" := DText tokenType]} None 401 false.
Definition InsufficientPermissions (required : string) : error :=
  Domain "INSUFFICIENT_PERMISSIONS" "insufficient permissions" {["required" := DText required]} None 403 false.
Definition APITokenNotFound (tokenID : string) : error :=
  Domain "API_TOKEN_NOT_FOUND" "API token not found" {["token_id" := DText tokenID]} None 404 false.
Definition APITokenRevoked (tokenID : string) : error :=
  Domain "API_TOKEN_REVOKED" "API token is revoked" {["token_id" := DText tokenID]} None 401 false.
Definition APITokenExpired (tokenID : string) : error :=
  Domain "API_TOKEN_EXPIRED" "API token has expired" {["token_id" := DText tokenID]} None 401 false.
Definition APITokenInvalid (reason : string) : error :=
  Domain "API_TOKEN_INVALID" "API token is invalid" {["reason" := DText reason]} None 401 false.
Definition APITokenInsufficientScope (required : list string) : error :=
  Domain "API_TOKEN_INSUFFICIENT_SCOPE" "API token has insufficient scope" {["required_scopes" := DTexts required]} None 403 false.

(** *** tenant.go *)
Definition TenantNotFound (tenantID : string) : error :=
  Domain "TENANT_NOT_FOUND" "tenant not found" {["tenant_id" := DText tenantID]} None 404 false.
Definition TenantSuspended (tenantID : string) : error :=
  Domain "TENANT_SUSPENDED" "tenant is suspended" {["tenant_id" := DText tenantID]} None 403 false.
Definition TenantAlreadyExists (name : string) : error :=
  Domain "TENANT_ALREADY_EXISTS" "tenant already exists" {["name" := DText name]} None 409 false.
Definition TenantInvalid (reason : string) : error :=
  Domain "TENANT_INVALID" "tenant data is invalid" {["reason" := DText reason]} None 400 false.

(** *** policy.go *)
Definition PolicyNotFound (policyID : string) : error :=
  Domain "POLICY_NOT_FOUND" "policy not found" {["policy_id" := DText policyID]} None 404 false.
Definition PolicyValidationFailed (ds : details) : error :=
  Domain "POLICY_VALIDATION_FAILED" "policy validation failed" ds None 400 false.
Definition PolicyAssignmentNotFound (assignmentID : string) : error :=
  Domain "POLICY_ASSIGNMENT_NOT_FOUND" "policy assignment not found" {["assignment_id" := DText assignmentID]} None 404 false.
Definition PolicyConflict (reason : string) : error :=
  Domain "POLICY_CONFLICT" "policy conflict detected" {["reason" := DText reason]} None 409 false.
Definition PolicyInvalidFormat (fmt : string) (expected : string) : error :=
  Domain "POLICY_INVALID_FORMAT" "policy format is invalid" {["format" := DText fmt; "expected" := DText expected]} None 400 false.

(** *** validation.go *)
Definition ValidationFailed (fld : string) (reason : string) : error :=
  Domain "VALIDATION_FAILED" "validation failed" {["field" := DText fld; "reason" := DText reason]} None 400 false.
Definition InvalidRequestFormat (expected : string) (received : string) : error :=
  Domain "INVALID_REQUEST_FORMAT" "invalid request format" {["expected" := DText expected; "received" := DText received]} None 400 false.
Definition MissingRequiredField (fld : string) : error :=
  Domain "MISSING_REQUIRED_FIELD" "missing required field" {["field" := DText fld]} None 400 false.
Definition InvalidFieldValue (fld : string) (value : detail) (expected : string) : error :=
  Domain "INVALID_FIELD_VALUE" "invalid field value" {["field" := DText fld; "value" := value; "expected" := DText expected]} None 400 false.

(** *** scanning.go *)
Definition ScanningTimeout (timeoutMs : Z) : error :=
  Domain "SCANNING_TIMEOUT" "scanning operation timed out" {["timeout_ms" := DInt timeoutMs]} None 408 true.
Definition ScanningFailed (reason : string) : error :=
  Domain "SCANNING_FAILED" "scanning operation failed" {["reason" := DText reason]} None 500 true.
Definition PolicyViolationDetected (ruleID : string) (severity : string) : error :=
  Domain "POLICY_VIOLATION_DETECTED" "policy violation detected" {["rule_id" := DText ruleID; "severity" := DText severity]} None 403 false.
Definition SemanticProviderUnavailable (provider : string) : error :=
  Domain "SEMANTIC_PROVIDER_UNAVAILABLE" "semantic provider unavailable" {["provider" := DText provider]} None 503 true.
Definition RuleCompilationFailed (ruleID : string) (reason : string) : error :=
  Domain "RULE_COMPILATION_FAILED" "failed to compile rule" {["rule_id" := DText ruleID; "reason" := DText reason]} None 500 false.
Definition StreamLimitExceeded (limit : Z) : error :=
  Domain "STREAM_LIMIT_EXCEEDED" "stream byte limit exceeded" {["limit_bytes" := DInt limit]} None 413 false.
Definition SemanticAnalysisFailed (provider : string) (reason : string) : error :=
  Domain "SEMANTIC_ANALYSIS_FAILED" "semantic analysis failed" {["provider" := DText provider; "reason" := DText reason]} None 500 true.
Definition LLMProviderError (provider : string) (message : string) : error :=
  Domain "LLM_PROVIDER_ERROR" "LLM provider error" {["provider" := DText provider; "message" := DText message]} None 502 true.
Definition SemanticCacheMiss (key : string) : error :=
  Domain "SEMANTIC_CACHE_MISS" "semantic cache miss" {["cache_key" := DText key]} None 200 false.
Definition SemanticConfigError (reason : string) : error :=
  Domain "SEMANTIC_CONFIG_ERROR" "semantic configuration error" {["reason" := DText reason]} None 500 false.

(** *** network.go *)
Definition NetworkError (operation : string) (err : option error) : error :=
  Domain "NETWORK_ERROR" "network error" {["operation" := DText operation]} err 503 true.
Definition TimeoutError (operation : string) (timeoutMs : Z) : error :=
  Domain "TIMEOUT_ERROR" "operation timed out" {["operation" := DText operation; "timeout_ms" := DInt timeoutMs]} None 408 true.
Definition ConnectionFailed (target : string) (err : option error) : error :=
  Domain "CONNECTION_FAILED" "connection failed" {["target" := DText target]} err 503 true.
Definition RequestTooLarge (sizeBytes : Z) (maxBytes : Z) : error :=
  Domain "REQUEST_TOO_LARGE" "request too large" {["size_bytes" := DInt sizeBytes; "max_bytes" := DInt maxBytes]} None 413 false.

(** *** system.go *)
Definition InternalError (message : string) : error :=
  Domain "INTERNAL_ERROR" message ∅ None 500 true.
Definition ServiceUnavailable (service : string) : error :=
  Domain "SERVICE_UNAVAILABLE" "service unavailable" {["service" := DText service]} None 503 true.
Definition DatabaseError (operation : string) (err : option error) : error :=
  Domain "DATABASE_ERROR" "database operation failed" {["operation" := DText operation]} err 500 true.
Definition CacheError (operation : string) (err : option error) : error :=
  Domain "CACHE_ERROR" "cache operation failed" {["operation" := DText operation]} err 500 true.
Definition ConfigurationError (component : string) (reason : string) : error :=
  Domain "CONFIGURATION_ERROR" "configuration error" {["component" := DText component; "reason" := DText reason]} None 500 false.
Definition RepositoryError (entity : string) (operation : string) (err : option error) : error :=
  Domain "REPOSITORY_ERROR" "repository operation failed" {["entity" := DText entity; "operation" := DText operation]} err 500 true.
Definition DuplicateEntry (entity : string) (fld : string) (value : detail) : error :=
  Domain "DUPLICATE_ENTRY" "duplicate entry" {["entity" := DText entity; "field" := DText fld; "value" := value]} None 409 false.
Definition ConcurrencyConflict (entity : string) (id : string) : error :=
  Domain "CONCURRENCY_CONFLICT" "concurrency conflict detected" {["entity" := DText entity; "id" := DText id]} None 409 true.
Definition TransactionFailed (reason : string) (err : option error) : error :=
  Domain "TRANSACTION_FAILED" "transaction failed" {["reason" := DText reason]} err 500 true.

(** *** utility_errors.go *)
Definition PoolClosed : error :=
  Domain "POOL_CLOSED" "worker pool is closed" ∅ None 503 false.
Definition NoWorkersAvailable : error :=
  Domain "NO_WORKERS_AVAILABLE" "no workers available" ∅ None 503 true.
Definition BatchFull : error :=
  Domain "BATCH_FULL" "batch is full" ∅ None 503 true.
Definition ProcessorClosed : error :=
  Domain "PROCESSOR_CLOSED" "batch processor is closed" ∅ None 503 false.
Definition CircuitOpen : error :=
  Domain "CIRCUIT_OPEN" "circuit breaker is open" ∅ None 503 true.
Definition CircuitTimeout : error :=
  Domain "CIRCUIT_TIMEOUT" "circuit breaker timeout" ∅ None 408 true.
Definition RateLimitExceeded (requestsPerSecond : Z) : error :=
  Domain "RATE_LIMIT_EXCEEDED" "rate limit exceeded" {["limit" := DInt requestsPerSecond]} None 429 true.
Definition LimiterClosed : error :=
  Domain "LIMITER_CLOSED" "rate limiter is closed" ∅ None 503 false.

(** ** The catalogue *)

Inductive built : error -> Prop :=
  | built_Unauthorized reason : built (Unauthorized reason)
  | built_Forbidden reason : built (Forbidden reason)
  | built_InvalidCredentials : built InvalidCredentials
  | built_TokenExpired tokenType : built (TokenExpired tokenType)
  | built_InsufficientPermissions required : built (InsufficientPermissions required)
  | built_APITokenNotFound tokenID : built (APITokenNotFound tokenID)
  | built_APITokenRevoked tokenID : built (APITokenRevoked tokenID)
  | built_APITokenExpired tokenID : built (APITokenExpired tokenID)
  | built_APITokenInvalid reason : built (APITokenInvalid reason)
  | built_APITokenInsufficientScope required : built (APITokenInsufficientScope required)
  | built_TenantNotFound tenantID : built (TenantNotFound tenantID)
  | built_TenantSuspended tenantID : built (TenantSuspended tenantID)
  | built_TenantAlreadyExists name : built (TenantAlreadyExists name)
  | built_TenantInvalid reason : built (TenantInvalid reason)
  | built_PolicyNotFound policyID : built (PolicyNotFound policyID)
  | built_PolicyValidationFailed ds : built (PolicyValidationFailed ds)
  | built_PolicyAssignmentNotFound assignmentID : built (PolicyAssignmentNotFound assignmentID)
  | built_PolicyConflict reason : built (PolicyConflict reason)
  | built_PolicyInvalidFormat fmt expected : built (PolicyInvalidFormat fmt expected)
  | built_ValidationFailed fld reason : built (ValidationFailed fld reason)
  | built_InvalidRequestFormat expected received : built (InvalidRequestFormat expected received)
  | built_MissingRequiredField fld : built (MissingRequiredField fld)
  | built_InvalidFieldValue fld value expected : built (InvalidFieldValue fld value expected)
  | built_ScanningTimeout timeoutMs : built (ScanningTimeout timeoutMs)
  | built_ScanningFailed reason : built (ScanningFailed reason)
  | built_PolicyViolationDetected ruleID severity : built (PolicyViolationDetected ruleID severity)
  | built_SemanticProviderUnavailable provider : built (SemanticProviderUnavailable provider)
  | built_RuleCompilationFailed ruleID reason : built (RuleCompilationFailed ruleID reason)
  | built_StreamLimitExceeded limit : built (StreamLimitExceeded limit)
  | built_SemanticAnalysisFailed provider reason : built (SemanticAnalysisFailed provider reason)
  | built_LLMProviderError provider message : built (LLMProviderError provider message)
  | built_SemanticCacheMiss key : built (SemanticCacheMiss key)
  | built_SemanticConfigError reason : built (SemanticConfigError reason)
  | built_NetworkError operation err : built (NetworkError operation err)
  | built_TimeoutError operation timeoutMs : built (TimeoutError operation timeoutMs)
  | built_ConnectionFailed target err : built (ConnectionFailed target err)
  | built_RequestTooLarge sizeBytes maxBytes : built (RequestTooLarge sizeBytes maxBytes)
  | built_InternalError message : built (InternalError message)
  | built_ServiceUnavailable service : built (ServiceUnavailable service)
  | built_DatabaseError operation err : built (DatabaseError operation err)
  | built_CacheError operation err : built (CacheError operation err)
  | built_ConfigurationError component reason : built (ConfigurationError component reason)
  | built_RepositoryError entity operation err : built (RepositoryError entity operation err)
  | built_DuplicateEntry entity fld value : built (DuplicateEntry entity fld value)
  | built_ConcurrencyConflict entity id : built (ConcurrencyConflict entity id)
  | built_TransactionFailed reason err : built (TransactionFailed reason err)
  | built_PoolClosed : built PoolClosed
  | built_NoWorkersAvailable : built NoWorkersAvailable
  | built_BatchFull : built BatchFull
  | built_ProcessorClosed : built ProcessorClosed
  | built_CircuitOpen : built CircuitOpen
  | built_CircuitTimeout : built CircuitTimeout
  | built_RateLimitExceeded requestsPerSecond : built (RateLimitExceeded requestsPerSecond)
  | built_LimiterClosed : built LimiterClosed
  | built_WithCause cause e : built e -> built (WithCause cause e)
  | built_WithDetail key value e : built e -> built (WithDetail key value e).

(** The status and the retry advice of each code. *)
Definition catalogue : list (string * (Z * bool)) :=
  [("UNAUTHORIZED", (401%Z, false)); ("FORBIDDEN", (403%Z, false)); ("INVALID_CREDENTIALS", (401%Z, false));
   ("TOKEN_EXPIRED", (401%Z, false)); ("INSUFFICIENT_PERMISSIONS", (403%Z, false)); ("API_TOKEN_NOT_FOUND", (404%Z, false));
   ("API_TOKEN_REVOKED", (401%Z, false)); ("API_TOKEN_EXPIRED", (401%Z, false)); ("API_TOKEN_INVALID", (401%Z, false));
   ("API_TOKEN_INSUFFICIENT_SCOPE", (403%Z, false)); ("TENANT_NOT_FOUND", (404%Z, false)); ("TENANT_SUSPENDED", (403%Z, false));
   ("TENANT_ALREADY_EXISTS", (409%Z, false)); ("TENANT_INVALID", (400%Z, false)); ("POLICY_NOT_FOUND", (404%Z, false));
   ("POLICY_VALIDATION_FAILED", (400%Z, false)); ("POLICY_ASSIGNMENT_NOT_FOUND", (404%Z, false));
   ("POLICY_CONFLICT", (409%Z, false)); ("POLICY_INVALID_FORMAT", (400%Z, false)); ("VALIDATION_FAILED", (400%Z, false));
   ("INVALID_REQUEST_FORMAT", (400%Z, false)); ("MISSING_REQUIRED_FIELD", (400%Z, false));
   ("INVALID_FIELD_VALUE", (400%Z, false)); ("SCANNING_TIMEOUT", (408%Z, true)); ("SCANNING_FAILED", (500%Z, true));
   ("POLICY_VIOLATION_DETECTED", (403%Z, false)); ("SEMANTIC_PROVIDER_UNAVAILABLE", (503%Z, true));
   ("RULE_COMPILATION_FAILED", (500%Z, false)); ("STREAM_LIMIT_EXCEEDED", (413%Z, false));
   ("SEMANTIC_ANALYSIS_FAILED", (500%Z, true)); ("LLM_PROVIDER_ERROR", (502%Z, true)); ("SEMANTIC_CACHE_MISS", (200%Z, false));
   ("SEMANTIC_CONFIG_ERROR", (500%Z, false)); ("NETWORK_ERROR", (503%Z, true)); ("TIMEOUT_ERROR", (408%Z, true));
   ("CONNECTION_FAILED", (503%Z, true)); ("REQUEST_TOO_LARGE", (413%Z, false)); ("INTERNAL_ERROR", (500%Z, true));
   ("SERVICE_UNAVAILABLE", (503%Z, true)); ("DATABASE_ERROR", (500%Z, true)); ("CACHE_ERROR", (500%Z, true));
   ("CONFIGURATION_ERROR", (500%Z, false)); ("REPOSITORY_ERROR", (500%Z, true)); ("DUPLICATE_ENTRY", (409%Z, false));
   ("CONCURRENCY_CONFLICT", (409%Z, true)); ("TRANSACTION_FAILED", (500%Z, true)); ("POOL_CLOSED", (503%Z, false));
   ("NO_WORKERS_AVAILABLE", (503%Z, true)); ("BATCH_FULL", (503%Z, true)); ("PROCESSOR_CLOSED", (503%Z, false));
   ("CIRCUIT_OPEN", (503%Z, true)); ("CIRCUIT_TIMEOUT", (408%Z, true)); ("RATE_LIMIT_EXCEEDED", (429%Z, true));
   ("LIMITER_CLOSED", (503%Z, false))].

Definition entry (code : string) : option (Z * bool) := (list_to_map catalogue : gmap string (Z * bool)) !! code.

Lemma built_entry e : built e -> entry (Code e) = Some (HTTPStatus e, Retryable e).
Proof.
  induction 1; try (vm_compute; reflexivity); by destruct e.
Qed.

(** What an entry may say. *)
Definition entry_ok (x : string * (Z * bool)) : bool :=
  let '(code, (status, retry)) := x in
  ((400 <=? status)%Z && (status <? 600)%Z || bool_decide (x = ("SEMANTIC_CACHE_MISS", (200%Z, false)))) &&
  (negb retry || bool_decide (status ∈ [408; 409; 429; 500; 502; 503]%Z)).

Lemma catalogue_ok : forallb entry_ok catalogue = true.
Proof. vm_compute. reflexivity. Qed.

(** Every domain error has the status and the retry advice of its code, no code stands for two of them, only conditions that
    may pass are worth a retry, and every status is one of an error except that of the cache miss. *)
Lemma domain_errors_consistent e :
  built e ->
  (forall e', built e' -> Code e' = Code e -> HTTPStatus e' = HTTPStatus e /\ Retryable e' = Retryable e) /\
  ((400 <= HTTPStatus e < 600)%Z \/ Code e = "SEMANTIC_CACHE_MISS") /\
  (Retryable e = true -> HTTPStatus e ∈ [408; 409; 429; 500; 502; 503]%Z).
Proof.
  intros He. pose proof (built_entry e He) as E. split.
  { intros e' He' Hc. pose proof (built_entry e' He') as E'. rewrite Hc, E in E'. by simplify_eq. }
  unfold entry in E. apply elem_of_list_to_map_2 in E. pose proof catalogue_ok as Hok. rewrite forallb_forall in Hok.
  apply list_elem_of_In, Hok in E. unfold entry_ok in E. apply andb_true_iff in E as [E1 E2]. split.
  - apply orb_true_iff in E1 as [E1|E1]; [left; lia|right]. apply bool_decide_eq_true in E1. by simplify_eq.
  - intros Hr. rewrite Hr in E2. simpl in E2. by apply bool_decide_eq_true in E2.
Qed.

(** The text of an error is that of its causes, from the outside in. *)
Fixpoint causes (e : error) : list string :=
  match e with
  | Plain msg => [msg]
  | Domain _ message _ (Some cause) _ _ => message :: causes cause
  | Domain _ message _ None _ _ => [message]
  end.

Lemma Error_causes e : Error e = Join ": " (causes e).
Proof.
  revert e. fix IH 1. intros [msg|c m d [cause|] s r]; [done| |done]. cbn [Error causes]. rewrite (IH cause).
  destruct (causes cause) eqn:E; [|done]. by destruct cause as [|? ? ? []].
Qed.
