(* ===== verification/Middleware.v ===== *)
(** * Middleware: responses and what wraps the handlers

    src/internal/interfaces/http/api: response.go, errors.go, middleware_common.go,
    tracing.go, options.go ([writeError], [versionHeader]) and the order in
    which router.go stacks them.  A handler is a function of the request and
    of the response writer and may panic; the writer sends its headers with
    the first status.  Random ids are drawn from a supply.  JSON bodies are
    values; span attributes are left out. *)

From Stdlib Require Import Ascii String.
From S2P Require Import Prelude GoString Errors.

(** ** Errors *)

Record APIError := { ae_Code : string; ae_Message : string; ae_Details : details; ae_StatusCode : Z }.

Definition APIError_Error (e : APIError) : string := ae_Code e +:+ ": " +:+ ae_Message e.

Definition ErrInvalidRequest (msg : string) (d : details) : APIError :=
  {| ae_Code := "INVALID_REQUEST"; ae_Message := msg; ae_Details := d; ae_StatusCode := 400 |}.
Definition ErrInvalidArgument (fld msg : string) : APIError :=
  {| ae_Code := "INVALID_ARGUMENT"; ae_Message := "Invalid " +:+ fld +:+ ": " +:+ msg; ae_Details := {["field" := DText fld]};
     ae_StatusCode := 400 |}.
Definition ErrNotFound (resource id : string) : APIError :=
  {| ae_Code := "NOT_FOUND"; ae_Message := resource +:+ " not found"; ae_Details := {["resource" := DText resource; "id" := DText id]};
     ae_StatusCode := 404 |}.
Definition ErrUnauthorized (msg : string) : APIError :=
  {| ae_Code := "UNAUTHORIZED"; ae_Message := msg; ae_Details := ∅; ae_StatusCode := 401 |}.
Definition ErrForbidden (msg : string) (d : details) : APIError :=
  {| ae_Code := "FORBIDDEN"; ae_Message := msg; ae_Details := d; ae_StatusCode := 403 |}.
Definition ErrConflict (resource msg : string) : APIError :=
  {| ae_Code := "CONFLICT"; ae_Message := resource +:+ " conflict: " +:+ msg; ae_Details := {["resource" := DText resource]};
     ae_StatusCode := 409 |}.
Definition ErrRateLimited (msg : string) (retryAfter : Z) : APIError :=
  {| ae_Code := "RATE_LIMITED"; ae_Message := msg;
     ae_Details := if (0 <? retryAfter)%Z then {["retry_after_seconds" := DInt retryAfter]} else ∅; ae_StatusCode := 429 |}.
Definition ErrInternalError (msg : string) : APIError :=
  {| ae_Code := "INTERNAL_ERROR"; ae_Message := msg; ae_Details := ∅; ae_StatusCode := 500 |}.
Definition ErrNotImplemented (feature : string) : APIError :=
  {| ae_Code := "NOT_IMPLEMENTED"; ae_Message := feature +:+ " not implemented"; ae_Details := {["feature" := DText feature]};
     ae_StatusCode := 501 |}.
Definition ErrServiceUnavailable (service msg : string) : APIError :=
  {| ae_Code := "SERVICE_UNAVAILABLE"; ae_Message := service +:+ " unavailable: " +:+ msg;
     ae_Details := {["service" := DText service]}; ae_StatusCode := 503 |}.
Definition ErrProviderError (provider msg : string) : APIError :=
  {| ae_Code := "PROVIDER_ERROR"; ae_Message := "Provider " +:+ provider +:+ " error: " +:+ msg;
     ae_Details := {["provider" := DText provider]}; ae_StatusCode := 502 |}.
Definition ErrPolicyViolation (rule msg : string) : APIError :=
  {| ae_Code := "POLICY_VIOLATION"; ae_Message := "Policy violation: " +:+ msg; ae_Details := {["rule" := DText rule]};
     ae_StatusCode := 403 |}.

(** ** The response writer *)

Section Middleware.
Context {data : Type} (fresh : nat -> string) (now_rfc3339 : nat -> string).

Record ErrorResponse := { er_Code : string; er_Message : string; er_Details : details }.

Inductive body_part :=
  | Json (d : option data) (e : option ErrorResponse) (meta : gmap string string)
  | Text (s : string).

(** The headers that can still change, and what has been sent. *)
Record writer := {
  w_Header : gmap string string;
  w_sent : option (Z * gmap string string);
  w_body : list body_part;
}.

Inductive log_entry :=
  | Started (correlation method path : string)
  | Completed (correlation : string) (status : Z)
  | PanicRecovered (v method path correlation : string).

(** The writer with the supply of ids, the clock and the log. *)
Record world := { wd_w : writer; wd_ids : nat; wd_clock : nat; wd_log : list log_entry }.

Definition with_w (w : writer) (s : world) : world := {| wd_w := w; wd_ids := wd_ids s; wd_clock := wd_clock s; wd_log := wd_log s |}.
Definition with_log (e : log_entry) (s : world) : world :=
  {| wd_w := wd_w s; wd_ids := wd_ids s; wd_clock := wd_clock s; wd_log := wd_log s ++ [e] |}.

Definition set_header (k v : string) (s : world) : world :=
  with_w {| w_Header := <[k := v]> (w_Header (wd_w s)); w_sent := w_sent (wd_w s); w_body := w_body (wd_w s) |} s.

(** [WriteHeader]: only the first one counts. *)
Definition WriteHeader (status : Z) (s : world) : world :=
  match w_sent (wd_w s) with
  | Some _ => s
  | None => with_w {| w_Header := w_Header (wd_w s); w_sent := Some (status, w_Header (wd_w s)); w_body := w_body (wd_w s) |} s
  end.

Definition Write (p : body_part) (s : world) : world :=
  let s := WriteHeader 200 s in
  with_w {| w_Header := w_Header (wd_w s); w_sent := w_sent (wd_w s); w_body := w_body (wd_w s) ++ [p] |} s.

(** [uuid.New().String()]. *)
Definition new_uuid (s : world) : string * world :=
  (fresh (wd_ids s), {| wd_w := wd_w s; wd_ids := S (wd_ids s); wd_clock := wd_clock s; wd_log := wd_log s |}).
Definition timestamp (s : world) : string * world :=
  (now_rfc3339 (wd_clock s), {| wd_w := wd_w s; wd_ids := wd_ids s; wd_clock := S (wd_clock s); wd_log := wd_log s |}).

(** ** Requests *)

(** What the middleware reads of a request: headers, and the values and the
    trace id of its context. *)
Record mrequest := {
  mr_Method : string;
  mr_Path : string;
  mr_Headers : string -> string;
  mr_correlation : option string;
  mr_tenant : option string;
  mr_trace : option string;
}.

Definition in_context (correlation tenant trace : option string) (r : mrequest) : mrequest :=
  {| mr_Method := mr_Method r; mr_Path := mr_Path r; mr_Headers := mr_Headers r; mr_correlation := correlation;
     mr_tenant := tenant; mr_trace := trace |}.

Definition correlation_header : string := "X-PS-Correlation-ID".

(** [None] is the nil request. *)
Definition getCorrelationID (r : option mrequest) (s : world) : string * world :=
  match r with
  | None => ("", s)
  | Some r =>
    match mr_correlation r with
    | Some id => (id, s)
    | None => if bool_decide (mr_Headers r correlation_header = "") then new_uuid s else (mr_Headers r correlation_header, s)
    end
  end.

Definition getMeta (r : option mrequest) (s : world) : gmap string string * world :=
  let '(t, s) := timestamp s in
  let meta : gmap string string := {["timestamp" := t; "version" := "1"]} in
  match r with
  | None => (meta, s)
  | Some _ =>
    let '(id, s) := getCorrelationID r s in
    (if bool_decide (id = "") then meta else <["correlation_id" := id]> meta, s)
  end.

Definition standard_headers (r : option mrequest) (status : Z) (s : world) : world :=
  let s := set_header "X-PS-API-Version" "1" (set_header "Content-Type" "application/json" s) in
  let '(id, s) := getCorrelationID r s in
  WriteHeader status (if bool_decide (id = "") then s else set_header correlation_header id s).

Definition writeJSON (status : Z) (d : option data) (r : option mrequest) (s : world) : world :=
  let s := standard_headers r status s in
  let '(meta, s) := getMeta r s in
  Write (Json d None meta) s.

Definition writeErrorJSON (status : Z) (code message : string) (ds : details) (r : option mrequest) (s : world) : world :=
  let s := standard_headers r status s in
  let '(meta, s) := getMeta r s in
  Write (Json None (Some {| er_Code := code; er_Message := message; er_Details := ds |}) meta) s.

Definition writeError (status : Z) (code message : string) (ds : details) (s : world) : world :=
  writeErrorJSON status code message ds None s.

(** ** Handlers *)

Inductive completion :=
  | Returned
  | Panicked (v : string).
Definition handler : Type := mrequest -> world -> completion * world.

Definition versionHeader (v : string) (next : handler) : handler := fun r s => next r (set_header "X-PS-API-Version" v s).

Definition errorRecoveryMiddleware (next : handler) : handler := fun r s =>
  match next r s with
  | (Returned, s) => (Returned, s)
  | (Panicked v, s) =>
    let '(id, s) := getCorrelationID (Some r) s in
    let s := with_log (PanicRecovered v (mr_Method r) (mr_Path r) id) s in
    let e := ErrInternalError "Internal server error occurred" in
    let '(id, s) := getCorrelationID (Some r) s in
    (Returned, writeErrorJSON (ae_StatusCode e) (ae_Code e) (ae_Message e)
                 {["correlation_id" := DText id; "recoverable" := DBool true]} (Some r) s)
  end.

(** The span of the request; [propagate] is what the propagator adds to the
    headers of the answer. *)
Definition tracingMiddleware (trace : mrequest -> string) (propagate : string -> list (string * string)) (next : handler) : handler :=
  fun r s =>
    let id := trace r in
    next (in_context (mr_correlation r) (mr_tenant r) (Some id) r)
         (foldl (fun s h => set_header h.1 h.2 s) s (propagate id)).

Definition correlationIDMiddleware (next : handler) : handler := fun r s =>
  let given := mr_Headers r correlation_header in
  let '(id, s) := if negb (bool_decide (given = "")) then (given, s)
                  else match mr_trace r with Some t => (t, s) | None => new_uuid s end in
  next (in_context (Some id) (mr_tenant r) (mr_trace r) r) (set_header correlation_header id s).

Definition tenantContextMiddleware (next : handler) : handler := fun r s =>
  let tenant := mr_Headers r "X-PS-Tenant-ID" in
  if bool_decide (tenant = "") then next r s else next (in_context (mr_correlation r) (Some tenant) (mr_trace r) r) s.

(** [ww.Status()]: 0 when nothing has been written. *)
Definition status_of (s : world) : Z := match w_sent (wd_w s) with Some (c, _) => c | None => 0%Z end.

Definition requestLoggerMiddleware (next : handler) : handler := fun r s =>
  let '(id, s) := getCorrelationID (Some r) s in
  match next r (with_log (Started id (mr_Method r) (mr_Path r)) s) with
  | (Panicked v, s) => (Panicked v, s)
  | (Returned, s) => (Returned, with_log (Completed id (status_of s)) s)
  end.

(** The stack of [NewMux], below the request id and the timeout; tracing only
    when telemetry is configured. *)
Definition stack (tracing : option ((mrequest -> string) * (string -> list (string * string)))) (next : handler) : handler :=
  let inner := correlationIDMiddleware (tenantContextMiddleware (requestLoggerMiddleware next)) in
  versionHeader "1" (errorRecoveryMiddleware
    match tracing with Some (trace, propagate) => tracingMiddleware trace propagate inner | None => inner end).

(** ** What a client gets *)

(** The id of a request: the client's, else that of the trace, else a new one. *)
Definition request_id (trace : option string) (r : mrequest) (s : world) : string :=
  if bool_decide (mr_Headers r correlation_header = "") then default (fresh (wd_ids s)) trace else mr_Headers r correlation_header.

Definition traced (tracing : option ((mrequest -> string) * (string -> list (string * string)))) (r : mrequest) : option string :=
  match tracing with Some (trace, _) => Some (trace r) | None => mr_trace r end.

(** What the handler is given. *)
Record entered (tracing : option ((mrequest -> string) * (string -> list (string * string)))) (r : mrequest) (s : world)
    (r1 : mrequest) (s1 : world) : Prop := {
  en_id : mr_correlation r1 = Some (request_id (traced tracing r) r s);
  en_headers : mr_Headers r1 = mr_Headers r;
  en_tenant : mr_Headers r "X-PS-Tenant-ID" <> "" -> mr_tenant r1 = Some (mr_Headers r "X-PS-Tenant-ID");
  en_header : w_Header (wd_w s1) !! correlation_header = Some (request_id (traced tracing r) r s);
  en_sent : w_sent (wd_w s1) = w_sent (wd_w s);
  en_body : w_body (wd_w s1) = w_body (wd_w s);
  en_log : wd_log s1 = wd_log s ++ [Started (request_id (traced tracing r) r s) (mr_Method r) (mr_Path r)];
}.

Lemma set_headers_sent hs : forall s, let s' := foldl (fun s h => set_header h.1 h.2 s) s hs in
  w_sent (wd_w s') = w_sent (wd_w s) /\ w_body (wd_w s') = w_body (wd_w s) /\ wd_ids s' = wd_ids s /\ wd_log s' = wd_log s.
Proof. induction hs as [|h hs IH]; intros s; [done|]. simpl. by destruct (IH (set_header h.1 h.2 s)) as (-> & -> & -> & ->). Qed.

(** The middleware below the recovery calls the handler once. *)
Definition below (tracing : option ((mrequest -> string) * (string -> list (string * string)))) (next : handler) : handler :=
  let inner := correlationIDMiddleware (tenantContextMiddleware (requestLoggerMiddleware next)) in
  match tracing with Some (trace, propagate) => tracingMiddleware trace propagate inner | None => inner end.

Lemma below_enters tracing next r s :
  exists r1 s1, entered tracing r s r1 s1 /\
    below tracing next r s =
    match next r1 s1 with
    | (Panicked v, s2) => (Panicked v, s2)
    | (Returned, s2) => (Returned, with_log (Completed (request_id (traced tracing r) r s) (status_of s2)) s2)
    end.
Proof.
  assert (Hinner : forall r' s', mr_Headers r' = mr_Headers r -> mr_Method r' = mr_Method r -> mr_Path r' = mr_Path r ->
    w_sent (wd_w s') = w_sent (wd_w s) -> w_body (wd_w s') = w_body (wd_w s) -> wd_ids s' = wd_ids s -> wd_log s' = wd_log s ->
    mr_trace r' = traced tracing r ->
    exists r1 s1, entered tracing r s r1 s1 /\
      correlationIDMiddleware (tenantContextMiddleware (requestLoggerMiddleware next)) r' s' =
      match next r1 s1 with
      | (Panicked v, s2) => (Panicked v, s2)
      | (Returned, s2) => (Returned, with_log (Completed (request_id (traced tracing r) r s) (status_of s2)) s2)
      end).
  { intros r' s' H1 H2 H3 H4 H5 H6 H7 H8.
    unfold correlationIDMiddleware, tenantContextMiddleware, requestLoggerMiddleware, request_id, new_uuid.
    rewrite H1, H8, H6. cbn [mr_Headers in_context getCorrelationID mr_correlation].
    destruct (bool_decide (mr_Headers r correlation_header = "")) eqn:Ec; cbn [negb];
      [destruct (traced tracing r) as [t|] eqn:Et|]; rewrite H1;
      (destruct (bool_decide (mr_Headers r "X-PS-Tenant-ID" = "")) eqn:Ed;
        eexists _, _; (split; [|simpl; rewrite ?H2, ?H3; reflexivity]);
        split; unfold request_id; simpl; rewrite ?Ec, ?Et, ?lookup_insert_eq, ?H7; try done;
        (try by apply bool_decide_eq_true in Ed); try done). }
  unfold below. destruct tracing as [[trace propagate]|].
  - unfold tracingMiddleware. destruct (set_headers_sent (propagate (trace r)) s) as (? & ? & ? & ?). by apply Hinner.
  - by apply Hinner.
Qed.

(** The id that [getCorrelationID] reports for a request: that of its context
    or of its header, and a random one when it has neither. *)
Definition id_for (r : mrequest) (id : string) : Prop :=
  match mr_correlation r with
  | Some given => id = given
  | None => if bool_decide (mr_Headers r correlation_header = "") then exists n, id = fresh n else id = mr_Headers r correlation_header
  end.
Definition with_id (k id : string) (m : gmap string string) : gmap string string :=
  if bool_decide (id = "") then m else <[k := id]> m.

(** Two worlds that differ only in the supply of ids. *)
Definition ids_used (s s' : world) : Prop := wd_w s' = wd_w s /\ wd_clock s' = wd_clock s /\ wd_log s' = wd_log s.

Lemma getCorrelationID_spec r s : let '(id, s') := getCorrelationID (Some r) s in id_for r id /\ ids_used s s'.
Proof. unfold getCorrelationID, id_for, new_uuid, ids_used. repeat case_match; simplify_eq; eauto 10. Qed.

(** The headers of a JSON answer. *)
Definition json_headers (id : string) (h : gmap string string) : gmap string string :=
  with_id correlation_header id (<["X-PS-API-Version" := "1"]> (<["Content-Type" := "application/json"]> h)).

(** Exactly what an error answer sends. *)
Lemma writeErrorJSON_spec r status code message ds s :
  let s' := writeErrorJSON status code message ds (Some r) s in
  exists id id', id_for r id /\ id_for r id' /\
    w_sent (wd_w s') =
      Some match w_sent (wd_w s) with Some sent => sent | None => (status, json_headers id (w_Header (wd_w s))) end /\
    w_body (wd_w s') = w_body (wd_w s) ++
      [Json None (Some {| er_Code := code; er_Message := message; er_Details := ds |})
         (with_id "correlation_id" id' {["timestamp" := now_rfc3339 (wd_clock s); "version" := "1"]})] /\
    wd_log s' = wd_log s.
Proof.
  unfold writeErrorJSON, standard_headers, getMeta, json_headers, with_id. set (s0 := set_header "X-PS-API-Version" _ _).
  pose proof (getCorrelationID_spec r s0) as H0. destruct (getCorrelationID (Some r) s0) as [id s1]. destruct H0 as [Hid (Hw & Hc & Hl)].
  set (s2 := WriteHeader _ _).
  assert (E2 : wd_clock s2 = wd_clock s /\ wd_log s2 = wd_log s /\ w_body (wd_w s2) = w_body (wd_w s) /\ w_sent (wd_w s2) =
    Some match w_sent (wd_w s) with Some sent => sent | None => (status, json_headers id (w_Header (wd_w s))) end).
  { unfold s2, WriteHeader, json_headers, with_id. case_bool_decide; cbn [set_header with_w wd_w w_sent w_Header]; rewrite Hw;
      cbn [s0 set_header with_w wd_w w_sent w_Header w_body]; destruct (w_sent (wd_w s)) eqn:E;
      cbn [set_header with_w wd_w w_sent w_Header w_body wd_clock wd_log]; rewrite ?Hw, ?Hc, ?Hl; done. }
  destruct E2 as (Ec & El & Eb & Es). unfold timestamp. set (s3 := {| wd_w := wd_w s2 |}).
  pose proof (getCorrelationID_spec r s3) as H3. destruct (getCorrelationID (Some r) s3) as [id' s4]. destruct H3 as [Hid' (Hw4 & _ & Hl4)].
  exists id, id'. unfold Write, WriteHeader. rewrite Hw4. change (wd_w s3) with (wd_w s2). rewrite Es.
  cbn [with_w wd_w w_sent w_body wd_log]. rewrite Hw4. change (wd_w s3) with (wd_w s2). rewrite Eb, Es, Hl4, Ec. cbn [s3 wd_log]. by rewrite El.
Qed.

(** C33. Whatever a handler does, the request is answered: the handler is called once, with an id that is the client's, the
    trace's or new, and that is logged and set in the headers before it runs; if it returns, its answer is what the client gets,
    and the completion is logged under the same id; if it panics, the panic does not leave the stack.  Then what had been sent
    stays sent, and otherwise the client gets status 500 with the headers of a JSON answer; in both cases one error object is
    appended, and status, headers and object are given exactly: nothing in them depends on the value of the panic, which is only
    logged.  Each id they carry is that of the request as it reaches the stack (its context's or its header's) or random. *)
Theorem requests_answered tracing next r s :
  exists r1 s1, entered tracing r (set_header "X-PS-API-Version" "1" s) r1 s1 /\
  let id := request_id (traced tracing r) r s in
  let '(o, s') := stack tracing next r s in
  o = Returned /\
  match next r1 s1 with
  | (Returned, s2) => s' = with_log (Completed id (status_of s2)) s2
  | (Panicked v, s2) =>
    exists logged headers_id details_id meta_id, Forall (id_for r) [logged; headers_id; details_id; meta_id] /\
      wd_log s' = wd_log s2 ++ [PanicRecovered v (mr_Method r) (mr_Path r) logged] /\
      w_sent (wd_w s') =
        Some match w_sent (wd_w s2) with Some sent => sent | None => (500%Z, json_headers headers_id (w_Header (wd_w s2))) end /\
      w_body (wd_w s') = w_body (wd_w s2) ++
        [Json None (Some {| er_Code := "INTERNAL_ERROR"; er_Message := "Internal server error occurred";
                            er_Details := {["correlation_id" := DText details_id; "recoverable" := DBool true]} |})
           (with_id "correlation_id" meta_id {["timestamp" := now_rfc3339 (wd_clock s2); "version" := "1"]})]
  end.
Proof.
  destruct (below_enters tracing next r (set_header "X-PS-API-Version" "1" s)) as (r1 & s1 & Hen & Hb).
  exists r1, s1. split; [done|]. cbv zeta. unfold stack, versionHeader, errorRecoveryMiddleware. fold (below tracing next). rewrite Hb.
  change (request_id (traced tracing r) r (set_header "X-PS-API-Version" "1" s)) with (request_id (traced tracing r) r s).
  destruct (next r1 s1) as [[|v] s2]; [done|].
  pose proof (getCorrelationID_spec r s2) as H2. destruct (getCorrelationID (Some r) s2) as [id2 s3]. destruct H2 as [Hid2 (Hw2 & Hc2 & Hl2)].
  set (s4 := with_log _ s3).
  pose proof (getCorrelationID_spec r s4) as H4. destruct (getCorrelationID (Some r) s4) as [id4 s5]. destruct H4 as [Hid4 (Hw4 & Hc4 & Hl4)].
  split; [done|].
  match goal with |- context [writeErrorJSON ?st ?c ?msg ?ds ?rr s5] =>
    destruct (writeErrorJSON_spec r st c msg ds s5) as (id & id' & Hid & Hid' & E1 & E2 & E3) end.
  exists id2, id, id4, id'. rewrite E1, E2, E3, Hw4, Hc4, Hl4. cbn [s4 with_log wd_w wd_clock wd_log]. rewrite Hw2, Hc2, Hl2.
  split_and!; [by repeat constructor|done..].
Qed.
End Middleware.

Module MiddlewareWitnesses.
Definition ids (n : nat) : string := "id-" +:+ pretty n.
Definition clock (_ : nat) : string := "now".
Definition idle : world (data := unit) := {| wd_w := {| w_Header := ∅; w_sent := None; w_body := [] |}; wd_ids := 0; wd_clock := 0; wd_log := [] |}.
Definition plain_request (given : string) : mrequest :=
  {| mr_Method := "GET"; mr_Path := "/check"; mr_Headers k := if bool_decide (k = correlation_header) then given else "";
     mr_correlation := None; mr_tenant := None; mr_trace := None |}.

Definition crash : handler (data := unit) := fun _ s => (Panicked "nil map", s).
Definition crash_late : handler (data := unit) := fun _ s => (Panicked "nil map", Write (Text "half an answer") s).

Definition header_sent (s : world (data := unit)) (k : string) : option string :=
  match w_sent (wd_w s) with Some (_, h) => h !! k | None => None end.
Definition ids_in_body (s : world (data := unit)) : list (option detail * option string) :=
  omap (fun p => match p with Json _ (Some e) meta => Some (er_Details e !! "correlation_id", meta !! "correlation_id") | _ => None end)
    (w_body (wd_w s)).

(** Without an id from the client, the request is logged under one id, its
    panic under a second, and the answer has three more. *)
Lemma panic_ids_differ :
  let s := (stack ids clock None crash (plain_request "") idle).2 in
  wd_log s = [Started "id-0" "GET" "/check"; PanicRecovered "nil map" "GET" "/check" "id-1"] /\
  header_sent s correlation_header = Some "id-3" /\ ids_in_body s = [(Some (DText "id-2"), Some "id-4")].
Proof. vm_compute. done. Qed.

(** A panic in the middle of an answer leaves its status 200 and appends the
    error to it. *)
Lemma late_panic_succeeds :
  let s := (stack ids clock None crash_late (plain_request "c") idle).2 in
  status_of s = 200%Z /\ length (w_body (wd_w s)) = 2.
Proof. vm_compute. done. Qed.

(** [writeError] does not know the request: its meta data has no id. *)
Lemma writeError_without_id :
  exists meta e, w_body (wd_w (writeError (data := unit) ids clock 401 "UNAUTHORIZED" "invalid admin token" ∅ idle)) = [Json None (Some e) meta] /\
    meta !! "correlation_id" = None.
Proof. eexists _, _. split; [vm_compute; reflexivity|]. vm_compute. done. Qed.
End MiddlewareWitnesses.
