(* ===== verification/KafkaProducer.v ===== *)
(** * KafkaProducer: the shared Kafka producer

    src/internal/infrastructure/messaging/kafka/producer.go, and how
    internal/audit/kafka.go creates one.  The writer of kafka-go is outside: what
    [WriteMessages] answers is an argument, and the steps of concurrent use let
    it answer anything.  Two of its documented properties are used, each where it
    is named: closing it waits for the writes in progress, and a topic must not
    be set on the writer and on a message.  The step relation has the sections
    under the lock of the producer as its steps; [Close] keeps the lock while
    the writer closes, and the error callback needs it.  The order of a range
    over headers is an argument. *)

From Stdlib Require Import Ascii String.
From S2P Require Import Prelude GoString Unicode Repos Errors.

(** ** Construction *)

Record TLSConfig := { tls_Enabled : bool; tls_InsecureSkipVerify : bool; tls_CertFile : string; tls_KeyFile : string; tls_CAFile : string }.
Record SASLConfig := { sasl_Enabled : bool; sasl_Username : string; sasl_Password : string; sasl_Mechanism : string }.

Record ProducerConfig := {
  pc_Brokers : list string;
  pc_Topic : string;
  pc_BatchSize : Z;
  pc_BatchTimeout : Z;
  pc_Compression : string;
  pc_RequiredAcks : Z;
  pc_MaxAttempts : Z;
  pc_Async : bool;
  pc_TLS : option TLSConfig;
  pc_SASL : option SASLConfig;
}.

Record Dialer := { dl_InsecureSkipVerify : bool; dl_SASL : option (string * string) }.
Record WriterConfig := {
  wc_Brokers : list string;
  wc_Topic : string;
  wc_RequiredAcks : Z;
  wc_MaxAttempts : Z;
  wc_BatchSize : Z;
  wc_BatchTimeout : Z;
  wc_Async : bool;
  wc_Codec : option string;
  wc_Dialer : option Dialer;
}.

(** The values of the statistics, of dynamic type. *)
Inductive stat :=
  | SInt (n : Z)
  | SBool (b : bool)
  | STime (t : Z)
  | SText (s : string).

Record Producer := {
  p_writer : WriterConfig;
  p_config : ProducerConfig;
  p_stats : gmap string stat;
  p_closed : bool;
}.

Definition or_zero (n d : Z) : Z := if (n =? 0)%Z then d else n.

(** The defaults, written into the configuration of the caller. *)
Definition fill_config (brokers : list string) (c : ProducerConfig) : ProducerConfig :=
  {| pc_Brokers := brokers; pc_Topic := pc_Topic c; pc_BatchSize := or_zero (pc_BatchSize c) 100;
     pc_BatchTimeout := or_zero (pc_BatchTimeout c) (100 * 1000000); pc_Compression := pc_Compression c;
     pc_RequiredAcks := or_zero (pc_RequiredAcks c) 1; pc_MaxAttempts := or_zero (pc_MaxAttempts c) 3; pc_Async := pc_Async c;
     pc_TLS := pc_TLS c; pc_SASL := pc_SASL c |}.

Definition codec (compression : string) : option string :=
  if bool_decide (compression ∈ ["gzip"; "snappy"; "lz4"; "zstd"]) then Some compression else None.

Definition dialer (c : ProducerConfig) : option Dialer :=
  match pc_TLS c with
  | Some t =>
    if tls_Enabled t
    then Some {| dl_InsecureSkipVerify := tls_InsecureSkipVerify t;
                 dl_SASL := match pc_SASL c with
                            | Some a => if sasl_Enabled a then Some (sasl_Username a, sasl_Password a) else None
                            | None => None
                            end |}
    else None
  | None => None
  end.

Definition writer_config (c : ProducerConfig) : WriterConfig :=
  {| wc_Brokers := pc_Brokers c; wc_Topic := pc_Topic c; wc_RequiredAcks := pc_RequiredAcks c; wc_MaxAttempts := pc_MaxAttempts c;
     wc_BatchSize := pc_BatchSize c; wc_BatchTimeout := pc_BatchTimeout c; wc_Async := pc_Async c;
     wc_Codec := codec (pc_Compression c); wc_Dialer := dialer c |}.

(** The brokers: those given, or the variable as one address. *)
Definition brokers_of (env : string) (c : ProducerConfig) : result error (list string) :=
  match pc_Brokers c with
  | [] => if bool_decide (env = "") then Err (ConfigurationError "kafka" "no brokers configured") else Ok [env]
  | bs => Ok bs
  end.

Definition initial_stats (now : Z) : gmap string stat :=
  {["messages_sent" := SInt 0; "bytes_sent" := SInt 0; "errors" := SInt 0; "connected" := SBool true; "started_at" := STime now]}.

Definition NewProducer (env : string) (now : Z) (config : option ProducerConfig) : result error Producer :=
  match config with
  | None => Err (ConfigurationError "kafka" "producer config is required")
  | Some c =>
    match brokers_of env c with
    | Err e => Err e
    | Ok brokers =>
      let c := fill_config brokers c in
      Ok {| p_writer := writer_config c; p_config := c; p_stats := initial_stats now; p_closed := false |}
    end
  end.

(** ** The sections under the lock *)

Definition with_stats (m : gmap string stat) (p : Producer) : Producer :=
  {| p_writer := p_writer p; p_config := p_config p; p_stats := m; p_closed := p_closed p |}.

(** [p.stats[k] = p.stats[k].(int) + n]; [None] when the assertion panics. *)
Definition bump (k : string) (n : Z) (m : gmap string stat) : option (gmap string stat) :=
  match m !! k with Some (SInt v) => Some (<[k := SInt (wrap64 (v + n))]> m) | _ => None end.

Definition closed_error : error := ServiceUnavailable "kafka producer is closed".

Definition Connect (now : Z) (p : Producer) : option error * Producer :=
  if p_closed p then (Some closed_error, p)
  else (None, with_stats (<["connected_at" := STime now]> (<["connected" := SBool true]> (p_stats p))) p).

(** [Close] up to the call of [p.writer.Close]; the flag says that it is made,
    with the lock still held. *)
Definition Close (now : Z) (p : Producer) : bool * Producer :=
  if p_closed p then (false, p)
  else (true,
        {| p_writer := p_writer p; p_config := p_config p;
           p_stats := <["closed_at" := STime now]> (<["connected" := SBool false]> (p_stats p)); p_closed := true |}).

(** [None] when the assertion panics. *)
Definition IsConnected (p : Producer) : option bool :=
  if p_closed p then Some false else match p_stats p !! "connected" with Some (SBool b) => Some b | _ => None end.

(** The callback of the writer. *)
Definition error_logged (msg : string) (now : Z) (p : Producer) : option Producer :=
  m ← bump "errors" 1 (p_stats p);
  Some (with_stats (<["last_error_time" := STime now]> (<["last_error" := SText msg]> m)) p).

(** ** Publishing *)

Record kafka_message := { km_Topic : string; km_Key : string; km_Value : string; km_Headers : list (string * string); km_Time : Z }.
Record QueueMessage := { qm_ID : string; qm_Type : string; qm_Payload : string; qm_Headers : gmap string string; qm_CreatedAt : Z }.
Record PublishResult := { pr_MessageID : string; pr_Topic : string; pr_Timestamp : Z; pr_Error : option error }.

Section Publish.
Context `{RangeOrder}.

Definition message_of (topic message : string) (headers : gmap string string) (now : Z) : kafka_message :=
  {| km_Topic := topic; km_Key := ""; km_Value := message; km_Headers := range headers; km_Time := now |}.
Definition batch_message (m : QueueMessage) : kafka_message :=
  {| km_Topic := qm_Type m; km_Key := qm_ID m; km_Value := qm_Payload m; km_Headers := range (qm_Headers m); km_Time := qm_CreatedAt m |}.

(** The check of [Publish] and [PublishBatch]. *)
Definition publish_check (p : Producer) : option error := if p_closed p then Some closed_error else None.

(** After [WriteMessages]: the statistics and the result. *)
Definition publish_done (topic message : string) (unixNano now : Z) (p : Producer) : option (PublishResult * Producer) :=
  m ← bump "messages_sent" 1 (p_stats p);
  m ← bump "bytes_sent" (Z.of_nat (String.length message)) m;
  Some ({| pr_MessageID := topic +:+ "-" +:+ Itoa unixNano; pr_Topic := topic; pr_Timestamp := now; pr_Error := None |},
        with_stats (<["last_publish_time" := STime now]> m) p).

(** [answer] is what [p.writer.WriteMessages] returns for
    [message_of topic message headers now]. *)
Definition Publish (topic message : string) (headers : gmap string string) (answer : option string) (now : Z) (p : Producer) :
    option (result error PublishResult * Producer) :=
  match publish_check p with
  | Some e => Some (Err e, p)
  | None =>
    match answer with
    | Some e => Some (Err (ServiceUnavailable ("failed to publish to Kafka: " +:+ e)), p)
    | None => '(r, p) ← publish_done topic message now now p; Some (Ok r, p)
    end
  end.

Definition payload_bytes (ms : list QueueMessage) : Z := foldl (fun n m => (n + Z.of_nat (String.length (qm_Payload m)))%Z) 0%Z ms.

Definition batch_result (now : Z) (m : QueueMessage) : PublishResult :=
  {| pr_MessageID := qm_ID m; pr_Topic := qm_Type m; pr_Timestamp := now; pr_Error := None |}.

Definition batch_done (ms : list QueueMessage) (now : Z) (p : Producer) : option (list PublishResult * Producer) :=
  m ← bump "messages_sent" (Z.of_nat (length ms)) (p_stats p);
  m ← bump "bytes_sent" (payload_bytes ms) m;
  Some (map (batch_result now) ms,
        with_stats (<["last_batch_time" := STime now]> (<["last_batch_size" := SInt (Z.of_nat (length ms))]> m)) p).

(** [answer] is what it returns for [map batch_message ms]. *)
Definition PublishBatch (ms : list QueueMessage) (answer : option string) (now : Z) (p : Producer) :
    option (result error (list PublishResult) * Producer) :=
  match publish_check p with
  | Some e => Some (Err e, p)
  | None =>
    match answer with
    | Some e => Some (Err (ServiceUnavailable ("failed to publish batch to Kafka: " +:+ e)), p)
    | None => '(rs, p) ← batch_done ms now p; Some (Ok rs, p)
    end
  end.

(** What [PublishAsync] sends on its channel. *)
Definition PublishAsync (topic message : string) (headers : gmap string string) (answer : option string) (now : Z) (p : Producer) :
    option (list PublishResult * Producer) :=
  '(r, p) ← Publish topic message headers answer now p;
  Some ([match r with
         | Ok r => r
         | Err e => {| pr_MessageID := ""; pr_Topic := topic; pr_Timestamp := now; pr_Error := Some e |}
         end], p).

(** ** Concurrent use *)

Inductive publication :=
  | Single (topic message : string) (headers : gmap string string) (now : Z)
  | Batch (ms : list QueueMessage).

Definition count_of (c : publication) : Z := match c with Single _ _ _ _ => 1%Z | Batch ms => Z.of_nat (length ms) end.
Definition bytes_of (c : publication) : Z := match c with Single _ m _ _ => Z.of_nat (String.length m) | Batch ms => payload_bytes ms end.

Definition finish (c : publication) (now : Z) (p : Producer) : option Producer :=
  match c with
  | Single t m _ _ => snd <$> publish_done t m now now p
  | Batch ms => snd <$> batch_done ms now p
  end.

(** A producer; whether [Close] is in [p.writer.Close], holding the lock; the
    calls past their check, in [WriteMessages], past it and returned; the errors
    whose callback waits for the lock, and the number of those recorded. *)
Record usage := U {
  us_p : Producer;
  us_locked : bool;
  us_checked : list publication;
  us_writing : list publication;
  us_written : list publication;
  us_done : list publication;
  us_logging : list string;
  us_errors : nat;
}.

(** [None] is a panic. *)
Inductive pstep : usage -> option usage -> Prop :=
  | step_connect p ck wr wn dn lg er now :
      pstep (U p false ck wr wn dn lg er) (Some (U (Connect now p).2 false ck wr wn dn lg er))
  | step_close p ck wr wn dn lg er now :
      pstep (U p false ck wr wn dn lg er) (Some (U (Close now p).2 (Close now p).1 ck wr wn dn lg er))
  (* [p.writer.Close] waits for the writes in progress *)
  | step_closed p ck wn dn er :
      pstep (U p true ck [] wn dn [] er) (Some (U p false ck [] wn dn [] er))
  | step_check p ck wr wn dn lg er c :
      publish_check p = None -> pstep (U p false ck wr wn dn lg er) (Some (U p false (c :: ck) wr wn dn lg er))
  | step_write p lk ck1 ck2 wr wn dn lg er c :
      pstep (U p lk (ck1 ++ c :: ck2) wr wn dn lg er) (Some (U p lk (ck1 ++ ck2) (c :: wr) wn dn lg er))
  | step_accepted p lk ck wr1 wr2 wn dn lg er c :
      pstep (U p lk ck (wr1 ++ c :: wr2) wn dn lg er) (Some (U p lk ck (wr1 ++ wr2) (c :: wn) dn lg er))
  | step_refused p lk ck wr1 wr2 wn dn lg er c :
      pstep (U p lk ck (wr1 ++ c :: wr2) wn dn lg er) (Some (U p lk ck (wr1 ++ wr2) wn dn lg er))
  | step_finish p ck wr wn1 wn2 dn lg er c now :
      pstep (U p false ck wr (wn1 ++ c :: wn2) dn lg er)
        ((fun p => U p false ck wr (wn1 ++ wn2) (c :: dn) lg er) <$> finish c now p)
  (* a write fails, now or, when the writer is asynchronous, after its call *)
  | step_error p lk ck wr wn dn lg er msg :
      pstep (U p lk ck wr wn dn lg er) (Some (U p lk ck wr wn dn (msg :: lg) er))
  | step_logged p ck wr wn dn lg1 lg2 er msg now :
      pstep (U p false ck wr wn dn (lg1 ++ msg :: lg2) er)
        ((fun p => U p false ck wr wn dn (lg1 ++ lg2) (S er)) <$> error_logged msg now p).

Definition unused (p : Producer) : usage := U p false [] [] [] [] [] 0.
Inductive reachable (p0 : Producer) : option usage -> Prop :=
  | reach_start : reachable p0 (Some (unused p0))
  | reach_step u o : reachable p0 (Some u) -> pstep u o -> reachable p0 o.

(** ** The statistics *)

Definition total_of (f : publication -> Z) (l : list publication) : Z := foldr (fun c n => f c + n)%Z 0%Z l.

Record accounted (u : usage) : Prop := {
  ac_sent : p_stats (us_p u) !! "messages_sent" = Some (SInt (wrap64 (total_of count_of (us_done u))));
  ac_bytes : p_stats (us_p u) !! "bytes_sent" = Some (SInt (wrap64 (total_of bytes_of (us_done u))));
  ac_errors : p_stats (us_p u) !! "errors" = Some (SInt (wrap64 (Z.of_nat (us_errors u))));
  ac_connected : p_stats (us_p u) !! "connected" = Some (SBool (negb (p_closed (us_p u))));
}.

Lemma bump_at k n m v : m !! k = Some (SInt v) -> bump k n m = Some (<[k := SInt (wrap64 (v + n))]> m).
Proof. intros Hk. unfold bump. by rewrite Hk. Qed.

(** Both ends of a publication update the same three statistics. *)
Lemma finish_stats c now p sent bytes :
  p_stats p !! "messages_sent" = Some (SInt sent) -> p_stats p !! "bytes_sent" = Some (SInt bytes) ->
  exists p', finish c now p = Some p' /\ p_closed p' = p_closed p /\
    p_stats p' !! "messages_sent" = Some (SInt (wrap64 (sent + count_of c))) /\
    p_stats p' !! "bytes_sent" = Some (SInt (wrap64 (bytes + bytes_of c))) /\
    forall k, k ∈ ["errors"; "connected"] -> p_stats p' !! k = p_stats p !! k.
Proof.
  intros Hs Hb. destruct c as [t msg h at_|ms]; unfold finish, publish_done, batch_done; rewrite (bump_at _ _ _ _ Hs); simpl;
    rewrite (bump_at _ _ _ bytes) by (by rewrite lookup_insert_ne); simpl; eexists; (split; [done|]); simpl; split_and!; try done;
    try (by rewrite !lookup_insert_ne by done; rewrite ?lookup_insert_eq, ?lookup_insert_ne, ?lookup_insert_eq by done);
    intros k Hk; by rewrite !lookup_insert_ne by set_solver.
Qed.

Lemma wrap64_count z n : wrap64 (wrap64 z + n) = wrap64 (n + z).
Proof. rewrite wrap64_add_l. f_equal. lia. Qed.

Lemma step_accounted u o : pstep u o -> accounted u -> exists u', o = Some u' /\ accounted u'.
Proof.
  intros Hst [H1 H2 H3 H4]. destruct Hst; cbn [us_p us_done us_errors] in *; try (eexists; split; [done|]; by split).
  - eexists. split; [done|]. unfold Connect. destruct (p_closed p) eqn:Ec; [by split; simpl; rewrite ?Ec|].
    split; simpl; rewrite ?lookup_insert_ne, ?Ec by done; try done. by rewrite lookup_insert_eq.
  - eexists. split; [done|]. unfold Close. destruct (p_closed p) eqn:Ec; [by split; simpl; rewrite ?Ec|].
    split; simpl; rewrite ?lookup_insert_ne by done; try done. by rewrite lookup_insert_eq.
  - destruct (finish_stats c now p _ _ H1 H2) as (p' & -> & E3 & E4 & E5 & E6). eexists. split; [done|].
    split; simpl.
    + by rewrite E4, wrap64_count.
    + by rewrite E5, wrap64_count.
    + rewrite E6 by set_solver. done.
    + rewrite E6, E3 by set_solver. done.
  - unfold error_logged. rewrite (bump_at _ _ _ _ H3). simpl. eexists. split; [done|].
    split; simpl; rewrite ?lookup_insert_ne by done; try done. rewrite lookup_insert_eq, wrap64_count. do 3 f_equal. lia.
Qed.

Lemma reachable_accounted env t0 c p0 o :
  NewProducer env t0 (Some c) = Ok p0 -> reachable p0 o -> exists u, o = Some u /\ accounted u.
Proof.
  intros H0 Hr. induction Hr as [|u o Hr IH Hst].
  - eexists. split; [done|]. unfold NewProducer in H0. destruct (brokers_of env c); [|done]. injection H0 as <-. by split.
  - destruct IH as (u' & [= <-] & Hu). by eapply step_accounted.
Qed.

(** C34. However a producer is used concurrently and whatever the writer answers, its statistics never panic and are exact: the
    messages and the bytes sent are those of the calls that have returned without an error (batches included), the errors those
    whose callback has run, both wrapping around at 64 bits; the producer is connected until it is closed, and once it is closed
    no publication starts.  That [Close] returns is not claimed: the error callback needs the lock that it holds. *)
Theorem producer_accounts env t0 c p0 o :
  NewProducer env t0 (Some c) = Ok p0 -> reachable p0 o ->
  exists u, o = Some u /\
    p_stats (us_p u) !! "messages_sent" = Some (SInt (wrap64 (total_of count_of (us_done u)))) /\
    p_stats (us_p u) !! "bytes_sent" = Some (SInt (wrap64 (total_of bytes_of (us_done u)))) /\
    p_stats (us_p u) !! "errors" = Some (SInt (wrap64 (Z.of_nat (us_errors u)))) /\
    IsConnected (us_p u) = Some (negb (p_closed (us_p u))) /\
    (p_closed (us_p u) = true -> forall u', pstep u (Some u') -> p_closed (us_p u') = true /\ length (us_checked u') <= length (us_checked u)).
Proof.
  intros H0 Hr. destruct (reachable_accounted _ _ _ _ _ H0 Hr) as (u & -> & [A1 A2 A3 A4]).
  exists u. split_and!; try done.
  - unfold IsConnected. rewrite A4. by destruct (p_closed (us_p u)).
  - intros Hc u' Hst. inversion Hst; subst; cbn [us_p us_checked] in *; try done; rewrite ?length_app; simpl; try (split; [done|lia]).
    + unfold Connect. by rewrite Hc.
    + unfold Close. by rewrite Hc.
    + unfold publish_check in *. by rewrite Hc in *.
    + destruct (finish_stats c0 now p _ _ A1 A2) as (p' & E & E3 & _). rewrite E in *. simplify_eq/=. split; [congruence|lia].
    + unfold error_logged in *. rewrite (bump_at _ _ _ _ A3) in *. by simplify_eq/=.
Qed.

(** [Close] keeps the lock while the writer waits for its writes, and a write
    that fails calls back for the lock: from then on neither goes on. *)
Lemma close_deadlocks u o msg :
  rtc (fun a b => exists u, a = Some u /\ pstep u b) (Some u) o -> us_locked u = true -> msg ∈ us_logging u ->
  exists u', o = Some u' /\ us_locked u' = true /\ msg ∈ us_logging u'.
Proof.
  remember (Some u) as o0 eqn:E. intros Hr. revert u E. induction Hr as [o|o0 o1 o (u0 & E0 & Hst) Hr IH]; intros u -> Hl Hm; [by exists u|].
  injection E0 as <-. destruct Hst; cbn [us_locked us_logging] in *; try done; try (by apply elem_of_nil in Hm);
    (eapply IH; [done..|simpl; set_solver]).
Qed.

(** ** Calls on their own *)

Lemma Publish_cases topic message headers answer now p sent bytes :
  p_stats p !! "messages_sent" = Some (SInt sent) -> p_stats p !! "bytes_sent" = Some (SInt bytes) ->
  match publish_check p, answer with
  | Some e, _ => Publish topic message headers answer now p = Some (Err e, p)
  | None, Some e => Publish topic message headers answer now p = Some (Err (ServiceUnavailable ("failed to publish to Kafka: " +:+ e)), p)
  | None, None => exists r p', Publish topic message headers answer now p = Some (Ok r, p') /\
                    finish (Single topic message headers now) now p = Some p' /\ pr_Topic r = topic /\ pr_Error r = None
  end.
Proof.
  intros Hs Hb. unfold Publish. destruct (publish_check p); [done|]. destruct answer; [done|].
  unfold finish, publish_done. rewrite (bump_at _ _ _ _ Hs). simpl. rewrite (bump_at _ _ _ bytes) by (by rewrite lookup_insert_ne). simpl.
  by eexists _, _.
Qed.

(** ** The audit log on Kafka *)

(** The configuration of [NewKafkaLogger]. *)
Definition audit_config (brokers : list string) (topic : string) : ProducerConfig :=
  {| pc_Brokers := brokers; pc_Topic := topic; pc_BatchSize := 100; pc_BatchTimeout := 100 * 1000000; pc_Compression := "snappy";
     pc_RequiredAcks := -1; pc_MaxAttempts := 5; pc_Async := false; pc_TLS := None; pc_SASL := None |}.

(** [NewKafkaLogger]: the producer of the logger. *)
Definition NewKafkaLogger (env : string) (now : Z) (brokers : list string) (topic : string) : result error Producer :=
  if bool_decide (brokers = []) || bool_decide (TrimSpace topic = "")
  then Err (ConfigurationError "kafka" "brokers and topic are required")
  else
    match NewProducer env now (Some (audit_config brokers topic)) with
    | Err e => Err (Plain ("failed to create Kafka producer: " +:+ Error e))
    | Ok producer =>
      match Connect now producer with
      | (Some e, _) => Err (Plain ("failed to connect to Kafka: " +:+ Error e))
      | (None, producer) => Ok producer
      end
    end.

(** Nothing about the brokers is checked: the logger is created whenever there
    is a broker and a topic. *)
Lemma NewKafkaLogger_succeeds env now brokers topic :
  is_ok (NewKafkaLogger env now brokers topic) = negb (bool_decide (brokers = []) || bool_decide (TrimSpace topic = "")).
Proof.
  unfold NewKafkaLogger, NewProducer, brokers_of. destruct brokers as [|b brokers]; [done|]. simpl.
  by case_bool_decide.
Qed.

(** The audit log publishes to the topic that its writer already has.  For a
    writer that refuses such messages, as kafka-go documents for
    [Writer.Topic], no event is published. *)
Lemma audit_never_published (WriteMessages : WriterConfig -> list kafka_message -> option string) env t0 brokers topic p0 :
  (forall w m ms, wc_Topic w <> "" -> km_Topic m <> "" -> is_Some (WriteMessages w (m :: ms))) ->
  topic <> "" -> NewProducer env t0 (Some (audit_config brokers topic)) = Ok p0 ->
  (forall message headers now, exists e, Publish topic message headers (WriteMessages (p_writer p0) [message_of topic message headers now]) now p0
     = Some (Err e, p0)) /\
  (forall ms now, ms <> [] -> Forall (fun m => qm_Type m = topic) ms ->
     exists e, PublishBatch ms (WriteMessages (p_writer p0) (map batch_message ms)) now p0 = Some (Err e, p0)).
Proof.
  intros Hlaw Ht H0. assert (Hw : wc_Topic (p_writer p0) = topic /\ p_closed p0 = false).
  { unfold NewProducer in H0. destruct (brokers_of env _); [|done]. by injection H0 as <-. }
  destruct Hw as [Hw Hc]. unfold Publish, PublishBatch, publish_check. rewrite Hc. split.
  - intros message headers now. destruct (Hlaw (p_writer p0) (message_of topic message headers now) []) as [e ->]; [by rewrite Hw|done|by eexists].
  - intros [|m ms] now Hne Hf; [done|]. assert (Hm : qm_Type m = topic) by (by inversion Hf).
    destruct (Hlaw (p_writer p0) (batch_message m) (map batch_message ms)) as [e E]; [by rewrite Hw|simpl; by rewrite Hm|].
    simpl map. rewrite E. by eexists.
Qed.
End Publish.

Module KafkaWitnesses.
#[local] Existing Instance some_order.

Definition config (topic : string) : ProducerConfig :=
  {| pc_Brokers := ["localhost:9092"]; pc_Topic := topic; pc_BatchSize := 0; pc_BatchTimeout := 0; pc_Compression := "";
     pc_RequiredAcks := 0; pc_MaxAttempts := 0; pc_Async := false; pc_TLS := None;
     pc_SASL := Some {| sasl_Enabled := true; sasl_Username := "u"; sasl_Password := "p"; sasl_Mechanism := "scram-sha-512" |} |}.
Definition producer (topic : string) : Producer :=
  {| p_writer := writer_config (fill_config ["localhost:9092"] (config topic));
     p_config := fill_config ["localhost:9092"] (config topic); p_stats := initial_stats 0; p_closed := false |}.
Definition hello : publication := Single "events" "hello" ∅ 1.

(** One message has been sent, and the producer closed. *)
Definition after_hello : Producer :=
  with_stats (<["last_publish_time" := STime 2]> (<["bytes_sent" := SInt 5]> (<["messages_sent" := SInt 1]> (initial_stats 0)))) (producer "").
Definition used : usage := U (Close 3 after_hello).2 false [] [] [] [hello] [] 0.

Lemma used_reachable : reachable (producer "") (Some used).
Proof.
  eapply reach_step; [|apply step_closed].
  eapply reach_step; [|apply (step_close after_hello [] [] [] [hello] [] 0 3)].
  eapply reach_step; [|apply (step_finish (producer "") [] [] [] [] [] [] 0 hello 2)].
  eapply reach_step; [|apply (step_accepted _ _ _ [] [])].
  eapply reach_step; [|apply (step_write _ _ [] [])].
  eapply reach_step; [apply reach_start|]. by apply step_check.
Qed.

(** A producer that is closed while a write fails never is. *)
Lemma closing_can_hang :
  exists u, reachable (producer "") (Some u) /\
    forall o, rtc (fun a b => exists u, a = Some u /\ pstep u b) (Some u) o -> exists u', o = Some u' /\ us_locked u' = true.
Proof.
  exists (U (Close 3 (producer "")).2 true [] [hello] [] [] ["leader not available"] 0). split.
  - eapply reach_step; [|apply step_error].
    eapply reach_step; [|apply (step_close (producer "") [] [hello] [] [] [] 0 3)].
    eapply reach_step; [|apply (step_write _ _ [] [])].
    eapply reach_step; [apply reach_start|]. by apply step_check.
  - intros o Hr. destruct (close_deadlocks _ _ "leader not available" Hr) as (u' & -> & Hl & _); [done|by left|]. by exists u'.
Qed.

Lemma producer_accounts_witness :
  p_stats (us_p used) !! "bytes_sent" = Some (SInt 5) /\ IsConnected (us_p used) = Some false.
Proof.
  destruct (producer_accounts "" 0 (config "") (producer "") (Some used) eq_refl used_reachable)
    as (u & Hu & _ & Hb & _ & Hc & _). injection Hu as <-. split; [exact Hb|exact Hc].
Defined.

(** Credentials are only used with TLS; the mechanism is never looked at. *)
Lemma sasl_dropped_without_tls : wc_Dialer (p_writer (producer "")) = None.
Proof. reflexivity. Qed.

(** No acknowledgement cannot be asked for. *)
Lemma acks_none_becomes_leader : wc_RequiredAcks (p_writer (producer "")) = 1%Z.
Proof. reflexivity. Qed.

(** A list of brokers in the environment is taken for one address. *)
Lemma broker_list_not_split :
  brokers_of "a:9092,b:9092" {| pc_Brokers := []; pc_Topic := ""; pc_BatchSize := 0; pc_BatchTimeout := 0; pc_Compression := "";
     pc_RequiredAcks := 0; pc_MaxAttempts := 0; pc_Async := false; pc_TLS := None; pc_SASL := None |} = Ok ["a:9092,b:9092"].
Proof. reflexivity. Qed.
End KafkaWitnesses.
