(* ===== verification/Telemetry.v ===== *)
(** * Telemetry: the collector of telemetry events

    src/internal/observability/telemetry, and [buildTelemetryCollector] of
    internal/interfaces/http/enforcer/api_options.go.  The OpenTelemetry SDK
    is what its constructors answer, with the connections they open; counters
    are what has been added to them.  Values of dynamic type are the
    constructors of [pvalue].  Spans are left out. *)

From Stdlib Require Import Ascii String.
From Stdlib Require Import Floats.SpecFloat.
From S2P Require Import Prelude GoString Unicode Repos Decisions.

Record TelemetryConfig := {
  tc_Enabled : bool;
  tc_Endpoint : string;
  tc_File : string;
  tc_Sample : spec_float;
  tc_MachineID : string;
  tc_Timeout : Z;
  tc_Service : string;
  tc_Version : string;
}.

(** ** attributes.go *)

Inductive pvalue :=
  | PString (s : string)
  | PBool (b : bool)
  | PInt (n : Z)
  | PInt64 (n : Z)
  | PFloat (x : spec_float)
  | POther.
Definition scalar (v : pvalue) : bool := match v with POther => false | _ => true end.

Section Telemetry.
Context `{RangeOrder} (url_host : string -> option string).

Definition toAttributes (m : gmap string pvalue) (allow : list string) : list (string * pvalue) :=
  filter (fun kv => kv.1 ∈ allow /\ scalar kv.2 = true) (range m).

Definition TrimPrefix (p s : string) : string := if HasPrefix p s then sdrop (String.length p) s else s.

(** [url.Parse], with the host it finds; [None] is an error. *)
Definition sanitizeEndpoint (s : string) : string :=
  if bool_decide (TrimSpace s = "") then ""
  else match url_host s with
       | Some h => if bool_decide (h = "") then TrimPrefix "https://" (TrimPrefix "http://" s) else h
       | None => TrimPrefix "https://" (TrimPrefix "http://" s)
       end.

Definition orDefault (s def : string) : string := if bool_decide (TrimSpace s = "") then def else s.

(** ** exporter.go *)

Record TelemetryEvent := { te_Type : string; te_Timestamp : Z; te_MachineID : string; te_Payload : gmap string pvalue }.

(** What has been added to a counter, and what has been written to the file. *)
Record sink := { sk_counts : list (string * list (string * pvalue)); sk_file : list TelemetryEvent }.

Record eventExporter := { ee_config : TelemetryConfig; ee_counters : bool }.

Definition newEventExporter (config : TelemetryConfig) (meter : bool) : eventExporter := {| ee_config := config; ee_counters := meter |}.

(** [int64(x)]: truncation; what the processor makes of values out of range is
    the smallest number. *)
Definition int_trunc (x : spec_float) : Z :=
  match x with
  | S754_zero _ => 0%Z
  | S754_finite s m e =>
    let n := cond_Zopp s (if (0 <=? e)%Z then (Zpos m * 2 ^ e)%Z else (Zpos m / 2 ^ (- e))%Z) in
    if (- 2^63 <=? n)%Z && (n <? 2^63)%Z then n else (- 2^63)%Z
  | _ => (- 2^63)%Z
  end.

Definition sampled_out (sample : spec_float) (unixNano : Z) : bool :=
  SFltb sample (float_of_int 1) && (int_trunc (float_mul sample (float_of_int 1000)) <? Z.rem unixNano 1000)%Z.

Definition allowed_keys : list string := ["version"; "os"; "arch"; "ci"; "json_out"; "output_format"; "workers"; "fail_on"; "kind"].

Definition counter_of (type : string) : option string :=
  if bool_decide (type ∈ ["startup"; "setup"]) then Some "ps_startups_total"
  else if bool_decide (type = "scan_summary") then Some "ps_scans_total"
  else if bool_decide (type = "error_summary") then Some "ps_errors_total" else None.

Definition recordToMetrics (e : eventExporter) (ev : TelemetryEvent) (k : sink) : sink :=
  let attrs := toAttributes (te_Payload ev) allowed_keys in
  match counter_of (te_Type ev) with
  | Some c => if ee_counters e then {| sk_counts := sk_counts k ++ [(c, attrs)]; sk_file := sk_file k |} else k
  | None => k
  end.

(** [write_err] is an error of encoding, opening or writing. *)
Definition exportToFile (write_err : option string) (ev : TelemetryEvent) (k : sink) : option string * sink :=
  match write_err with
  | Some err => (Some err, k)
  | None => (None, {| sk_counts := sk_counts k; sk_file := sk_file k ++ [ev] |})
  end.

(** [None] is a nil exporter. *)
Definition exportEvent (e : option eventExporter) (unixNano : Z) (write_err : option string) (ev : TelemetryEvent) (k : sink) :
    option string * sink :=
  match e with
  | None => (None, k)
  | Some e =>
    if negb (tc_Enabled (ee_config e)) then (None, k)
    else if sampled_out (tc_Sample (ee_config e)) unixNano then (None, k)
    else
      let k := recordToMetrics e ev k in
      if bool_decide (tc_File (ee_config e) = "") then (None, k) else exportToFile write_err ev k
  end.

(** ** provider.go *)

(** What the libraries answer, as errors. *)
Record sdk := { sdk_dial : option string; sdk_metrics : option string; sdk_traces : option string }.

Definition no_provider (c : TelemetryConfig) : bool := negb (tc_Enabled c) || bool_decide (tc_Endpoint c = "").

(** Whether there is a provider; with the connections that are open. *)
Definition createMeterProvider (x : sdk) (c : TelemetryConfig) (conns : Z) : result string bool * Z :=
  if no_provider c then (Ok false, conns)
  else match sdk_dial x with
       | Some e => (Err e, conns)
       | None =>
         match sdk_metrics x with
         | Some e => (Err e, conns)
         | None => (Ok true, (conns + 1)%Z)
         end
       end.

Definition trace_sample (sample : spec_float) : spec_float :=
  let sample := if SFleb sample (float_of_int 0) then float_of_int 1 else sample in
  if SFltb (float_of_int 1) sample then float_of_int 1 else sample.

Definition createTracerProvider (x : sdk) (c : TelemetryConfig) : result string (option spec_float) :=
  if no_provider c then Ok None
  else match sdk_traces x with Some e => Err e | None => Ok (Some (trace_sample (tc_Sample c))) end.

Definition createResource (c : TelemetryConfig) : list (string * string) :=
  [("service.name", orDefault (tc_Service c) "promptshield"); ("service.version", orDefault (tc_Version c) "dev")]
  ++ if bool_decide (tc_MachineID c = "") then [] else [("service.instance.id", tc_MachineID c)].

(** ** collector.go *)

(** [co_tracer] is the ratio of the sampler. *)
Record Collector := {
  co_config : option TelemetryConfig;
  co_meter : bool;
  co_tracer : option spec_float;
  co_conn : bool;
  co_exporter : option eventExporter;
}.

Definition NewCollector (c : option TelemetryConfig) : Collector :=
  {| co_config := c; co_meter := false; co_tracer := None; co_conn := false; co_exporter := None |}.

Definition with_timeout (c : TelemetryConfig) : TelemetryConfig :=
  {| tc_Enabled := tc_Enabled c; tc_Endpoint := tc_Endpoint c; tc_File := tc_File c; tc_Sample := tc_Sample c;
     tc_MachineID := tc_MachineID c; tc_Timeout := if (tc_Timeout c <=? 0)%Z then (2 * 1000000000)%Z else tc_Timeout c;
     tc_Service := tc_Service c; tc_Version := tc_Version c |}.

Definition Initialize (x : sdk) (config : TelemetryConfig) (c : Collector) (conns : Z) : option string * Collector * Z :=
  let set k := {| co_config := Some k; co_meter := co_meter c; co_tracer := co_tracer c; co_conn := co_conn c; co_exporter := co_exporter c |} in
  if negb (tc_Enabled config) then (None, set config, conns)
  else
    let config := with_timeout config in
    if bool_decide (sanitizeEndpoint (tc_Endpoint config) = "") then (None, set config, conns)
    else
      match createMeterProvider x config conns with
      | (Err e, conns) => (Some e, set config, conns)
      | (Ok meter, conns) =>
        let meter' := meter || co_meter c in
        if meter
        then match createTracerProvider x config with
             | Err e => (Some e, {| co_config := Some config; co_meter := meter; co_tracer := co_tracer c; co_conn := true;
                                    co_exporter := co_exporter c |}, conns)
             | Ok tp => (None, {| co_config := Some config; co_meter := meter; co_tracer := tp; co_conn := true;
                                  co_exporter := Some (newEventExporter config true) |}, conns)
             end
        else (None, {| co_config := Some config; co_meter := false; co_tracer := co_tracer c; co_conn := false;
                       co_exporter := Some (newEventExporter config meter') |}, conns)
      end.

Definition RecordEvent (unixNano : Z) (write_err : option string) (ev : TelemetryEvent) (c : Collector) (k : sink) : option string * sink :=
  match co_exporter c with None => (None, k) | Some e => exportEvent (Some e) unixNano write_err ev k end.

Definition first_error (es : list (option string)) : option string := head (omap id es).

(** [Flush], with the errors of the providers that are there. *)
Definition Flush (meter_err tracer_err : option string) (c : Collector) : option string :=
  first_error [if co_meter c then meter_err else None; match co_tracer c with Some _ => tracer_err | None => None end].

Definition Shutdown (meter_err tracer_err conn_err : option string) (c : Collector) (conns : Z) : option string * Z :=
  (first_error [if co_meter c then meter_err else None; match co_tracer c with Some _ => tracer_err | None => None end;
                if co_conn c then conn_err else None],
   if co_conn c then (conns - 1)%Z else conns).

Definition Close (meter_err tracer_err conn_err : option string) (c : option Collector) (conns : Z) : option string * Z :=
  match c with None => (None, conns) | Some c => Shutdown meter_err tracer_err conn_err c conns end.

(** [buildTelemetryCollector], on the three variables; the three programs have
    a copy each, which differ in the name of the service. *)
Definition build_collector (service : string) (x : sdk) (telemetry endpoint sample version : string) (ParseFloat : string -> option spec_float) (conns : Z) :
    option Collector * Z :=
  if EqualFold telemetry "false" || bool_decide (telemetry = "0") then (None, conns)
  else if bool_decide (TrimSpace endpoint = "") then (None, conns)
  else
    let s := if bool_decide (sample = "") then float_of_int 1 else default (float_of_int 1) (ParseFloat sample) in
    let config := {| tc_Enabled := true; tc_Endpoint := endpoint; tc_File := ""; tc_Sample := s; tc_MachineID := ""; tc_Timeout := 0;
                     tc_Service := service; tc_Version := version |} in
    match Initialize x config (NewCollector (Some config)) conns with
    | (Some _, _, conns) => (None, conns)
    | (None, c, conns) => (Some c, conns)
    end.
Definition buildTelemetryCollector := build_collector "ps-enforcer-http".
Definition gateway_buildTelemetryCollector := build_collector "ps-gateway".
Definition controlplane_buildTelemetryCollector := build_collector "ps-control-plane".

(** [grpcTelemetryAdapter.Collect], which drops the error. *)
Definition Collect (unixNano now : Z) (write_err : option string) (eventType : string) (payload : gmap string pvalue) (c : option Collector)
    (k : sink) : sink :=
  match c with
  | None => k
  | Some c => (RecordEvent unixNano write_err {| te_Type := eventType; te_Timestamp := now; te_MachineID := ""; te_Payload := payload |} c k).2
  end.

(** The start of src/enforcer/main.go: telemetry unless it is switched off, to a
    file when no destination is configured, and the event of the start.  A
    failure to initialize is logged only. *)
Definition telemetry_off (telemetry : string) : bool :=
  bool_decide (ToLower (TrimSpace telemetry) ∈ ["0"; "false"; "off"]).
Definition enforcer_config (endpoint file sample version : string) (ParseFloat : string -> option spec_float) : TelemetryConfig :=
  {| tc_Enabled := true; tc_Endpoint := endpoint;
     tc_File := if bool_decide (endpoint = "") && bool_decide (file = "") then "spans.ndjson" else file;
     tc_Sample := if bool_decide (sample = "") then float_of_int 1 else default (float_of_int 1) (ParseFloat sample);
     tc_MachineID := ""; tc_Timeout := 0; tc_Service := "ps-enforcer"; tc_Version := version |}.
Definition startup_event (now : Z) (version commit build : string) : TelemetryEvent :=
  {| te_Type := "startup"; te_Timestamp := now; te_MachineID := "";
     te_Payload := {["version" := PString version; "commit" := PString commit; "build_date" := PString build]} |}.
Definition enforcer_telemetry (x : sdk) (telemetry endpoint file sample version commit build : string)
    (ParseFloat : string -> option spec_float) (unixNano now : Z) (write_err : option string) (conns : Z) (k : sink) :
    option Collector * Z * sink :=
  if telemetry_off telemetry then (None, conns, k)
  else
    let config := enforcer_config endpoint file sample version ParseFloat in
    let '(_, c, conns) := Initialize x config (NewCollector (Some config)) conns in
    (Some c, conns, (RecordEvent unixNano write_err (startup_event now version commit build) c k).2).

(** ** What leaves the process *)

Lemma toAttributes_spec m allow k v : (k, v) ∈ toAttributes m allow <-> m !! k = Some v /\ k ∈ allow /\ scalar v = true.
Proof. unfold toAttributes. rewrite list_elem_of_filter, elem_of_range. simpl. tauto. Qed.

(** An event adds at most once to at most one counter, with attributes that are scalar values of the listed keys of its
    payload; nothing that is disabled, sampled out or unknown is counted. *)
Lemma exportEvent_counts e t err ev k :
  exists added, sk_counts (exportEvent e t err ev k).2 = sk_counts k ++ added /\ length added <= 1 /\
    (forall c attrs, (c, attrs) ∈ added ->
       counter_of (te_Type ev) = Some c /\
       (exists x, e = Some x /\ tc_Enabled (ee_config x) = true /\ sampled_out (tc_Sample (ee_config x)) t = false /\ ee_counters x = true) /\
       forall key v, (key, v) ∈ attrs <-> te_Payload ev !! key = Some v /\ key ∈ allowed_keys /\ scalar v = true).
Proof.
  assert (Hnone : exists added : list (string * list (string * pvalue)), sk_counts k = sk_counts k ++ added /\ length added <= 1 /\
    (forall c attrs, (c, attrs) ∈ added -> False)).
  { exists []. rewrite app_nil_r. split_and!; [done|simpl; lia|]. intros c attrs Hc. by apply elem_of_nil in Hc. }
  unfold exportEvent. destruct e as [x|]; [|destruct Hnone as (a & ? & ? & Ha); exists a; naive_solver].
  destruct (tc_Enabled (ee_config x)) eqn:E1; simpl; [|destruct Hnone as (a & ? & ? & Ha); exists a; naive_solver].
  destruct (sampled_out _ _) eqn:E2; [destruct Hnone as (a & ? & ? & Ha); exists a; naive_solver|].
  assert (Hrec : forall k', (if bool_decide (tc_File (ee_config x) = "") then (None, recordToMetrics x ev k) else exportToFile err ev (recordToMetrics x ev k)) = k' ->
    sk_counts k'.2 = sk_counts (recordToMetrics x ev k)).
  { intros k' <-. case_bool_decide; [done|]. unfold exportToFile. by destruct err. }
  rewrite (Hrec _ eq_refl). unfold recordToMetrics. destruct (counter_of (te_Type ev)) as [c|] eqn:Ec;
    [|destruct Hnone as (a & ? & ? & Ha); exists a; naive_solver].
  destruct (ee_counters x) eqn:E3; [|destruct Hnone as (a & ? & ? & Ha); exists a; naive_solver].
  exists [(c, toAttributes (te_Payload ev) allowed_keys)]. split_and!; [done|simpl; lia|]. intros c' attrs Hin.
  apply list_elem_of_singleton in Hin. simplify_eq. split; [done|]. split; [by exists x|]. intros. apply toAttributes_spec.
Qed.

(** Connections: a collector that is built holds one, which [Close] gives
    back. *)
Lemma collector_connections service x telemetry endpoint sample version ParseFloat conns c conns' :
  build_collector service x telemetry endpoint sample version ParseFloat conns = (Some c, conns') ->
  conns' = (conns + if co_conn c then 1 else 0)%Z /\
  forall e1 e2 e3, (Close e1 e2 e3 (Some c) conns').2 = conns.
Proof.
  unfold build_collector, Initialize, createMeterProvider, createTracerProvider. intros E. simpl in E.
  repeat (case_match; simplify_eq/=; try done); (split; [|intros]; simpl; lia).
Qed.

(** Without an endpoint nothing is exported: the exporter is only created with
    the providers, so no event reaches the file that is the default. *)
Lemma file_sink_never_written x telemetry file sample version commit build ParseFloat t now err conns k c conns' k' :
  enforcer_telemetry x telemetry "" file sample version commit build ParseFloat t now err conns k = (Some c, conns', k') ->
  k' = k /\ forall t' err' ev k2, RecordEvent t' err' ev c k2 = (None, k2).
Proof.
  unfold enforcer_telemetry, Initialize. destruct (telemetry_off telemetry); [done|]. simpl.
  intros E. by simplify_eq/=.
Qed.
End Telemetry.

Module TelemetryWitnesses.
Definition no_host (_ : string) : option string := None.
Definition works : sdk := {| sdk_dial := None; sdk_metrics := None; sdk_traces := None |}.
Definition traces_fail : sdk := {| sdk_dial := None; sdk_metrics := None; sdk_traces := Some "no exporter" |}.
Definition number (s : string) : option spec_float := if bool_decide (s = "0") then Some (float_of_int 0) else None.

(** When the tracer cannot be created, the collector is dropped with its
    connection open. *)
Lemma failed_tracer_leaks_connection :
  buildTelemetryCollector no_host traces_fail "" "collector:4317" "" "v1" number 0 = (None, 1%Z).
Proof. vm_compute. reflexivity. Qed.

(** A sample of 0 traces every request, and still exports an event now and
    then. *)
Lemma sample_zero_exports :
  co_tracer <$> (buildTelemetryCollector no_host works "" "collector:4317" "0" "v1" number 0).1 = Some (Some (float_of_int 1)) /\
  sampled_out (float_of_int 0) 5000 = false /\ sampled_out (float_of_int 0) 5001 = true.
Proof. vm_compute. done. Qed.

(** The endpoint is sanitized only to see whether it is empty: the address
    that is dialled keeps its scheme. *)
Lemma endpoint_not_sanitized :
  sanitizeEndpoint no_host "http://collector:4317" = "collector:4317" /\
  (c ← (buildTelemetryCollector no_host works "" "http://collector:4317" "" "v1" number 0).1; tc_Endpoint <$> co_config c) = Some "http://collector:4317".
Proof. vm_compute. done. Qed.
End TelemetryWitnesses.
