(* ===== verification/UpdateGroup.v ===== *)
(** * UpdateGroup: the consumer group of rule updates

    The part of src/internal/infrastructure/messaging/nats/subscriber.go that
    [Updates] leaves out: how the group is created in the background, how the
    loop of [Start] reads with it, and how pending entries are reclaimed.  The
    server is one stream with one group, with the documented effect of XADD,
    XGROUP CREATE, XREADGROUP, XACK and XAUTOCLAIM; trimming at 10,000 entries
    is left out. *)

From Stdlib Require Import Ascii String.
From S2P Require Import Prelude GoString Backoff.

(** ** The stream *)

(** The entries, if the key exists; how many the group has been given, if it
    exists; and the entries that were given out and not acknowledged, with
    their consumer. *)
Record stream := {
  sm_entries : option (list string);
  sm_group : option nat;
  sm_pending : list (string * string);
}.

Definition entries (s : stream) : list string := default [] (sm_entries s).

Definition XAdd (id : string) (s : stream) : stream :=
  {| sm_entries := Some (entries s ++ [id]); sm_group := sm_group s; sm_pending := sm_pending s |}.

Definition busygroup : string := "BUSYGROUP Consumer Group name already exists".
Definition XGroupCreate (s : stream) : option string * stream :=
  match sm_entries s with
  | None => (Some "ERR The XGROUP subcommand requires the key to exist", s)
  | Some _ =>
    match sm_group s with
    | Some _ => (Some busygroup, s)
    | None => (None, {| sm_entries := sm_entries s; sm_group := Some 0; sm_pending := sm_pending s |})
    end
  end.

(** XREADGROUP with ">" and a count of 1: the next entry, [None] for none. *)
Definition XReadGroup (consumer : string) (s : stream) : result string (option string) * stream :=
  match sm_group s with
  | None => (Err "NOGROUP No such key or consumer group", s)
  | Some n =>
    match entries s !! n with
    | None => (Ok None, s)
    | Some id => (Ok (Some id), {| sm_entries := sm_entries s; sm_group := Some (S n); sm_pending := sm_pending s ++ [(id, consumer)] |})
    end
  end.

Definition XAck_entry (id : string) (s : stream) : stream :=
  {| sm_entries := sm_entries s; sm_group := sm_group s; sm_pending := filter (fun p => p.1 <> id) (sm_pending s) |}.

(** XAUTOCLAIM of the entries that are idle. *)
Definition XAutoClaim (idle : string -> bool) (consumer : string) (s : stream) : list string * stream :=
  (filter (fun id => idle id = true) (sm_pending s).*1,
   {| sm_entries := sm_entries s; sm_group := sm_group s;
      sm_pending := map (fun p => if idle p.1 then (p.1, consumer) else p) (sm_pending s) |}).

(** ** Creating the group *)

(** The five attempts: whether Redis answers (both the ping and the command;
    the context of ten seconds makes it stop answering), and the random source of
    the delay.  The result is whether the group is there, and the delays. *)
Fixpoint init_loop (attempt : Z) (pings : list (bool * Z)) (s : stream) : bool * list (option Z) * stream :=
  match pings with
  | [] => (false, [], s)
  | (up, source) :: pings =>
    let delay := FullJitter source (100 * Millisecond) (3 * Second) attempt in
    let again s := let '(ok, ds, s) := init_loop (attempt + 1) pings s in (ok, delay :: ds, s) in
    if negb up then again s
    else
      match XGroupCreate s with
      | (Some e, s) => if bool_decide (e = busygroup) then (true, [], s) else again s
      | (None, s) => (true, [], s)
      end
  end.

Definition initializeConsumerGroup (configured : bool) (pings : list (bool * Z)) (s : stream) : bool * list (option Z) * stream :=
  if configured then init_loop 0 (take 5 pings) s else (false, [], s).

(** One tick of [recoverPending]: the entries are claimed, and nothing else is
    done with them. *)
Definition recoverPending (idle : string -> bool) (consumer : string) (s : stream) : stream := (XAutoClaim idle consumer s).2.

(** ** Running *)

(** The stream, the entries [Start] has been given, and those it has
    acknowledged. *)
Record running := { rn_stream : stream; rn_read : list string; rn_acked : list string }.

Inductive rstep (consumer : string) : running -> running -> Prop :=
  | rstep_publish s id :
      id ∉ entries (rn_stream s) ->
      rstep consumer s {| rn_stream := XAdd id (rn_stream s); rn_read := rn_read s; rn_acked := rn_acked s |}
  | rstep_read s st id :
      XReadGroup consumer (rn_stream s) = (Ok (Some id), st) ->
      rstep consumer s {| rn_stream := st; rn_read := rn_read s ++ [id]; rn_acked := rn_acked s |}
  | rstep_ack s id :
      id ∈ rn_read s ->
      rstep consumer s {| rn_stream := XAck_entry id (rn_stream s); rn_read := rn_read s; rn_acked := id :: rn_acked s |}
  | rstep_recover s idle :
      rstep consumer s {| rn_stream := recoverPending idle consumer (rn_stream s); rn_read := rn_read s; rn_acked := rn_acked s |}.

Definition begun (s : stream) : running := {| rn_stream := s; rn_read := []; rn_acked := [] |}.

(** ** A stream that does not exist yet *)

Lemma init_loop_no_stream pings : forall attempt s, sm_entries s = None -> (init_loop attempt pings s).1.1 = false /\ (init_loop attempt pings s).2 = s.
Proof.
  induction pings as [|[up source] pings IH]; intros attempt s Hs; [done|]. cbn [init_loop].
  destruct (IH (attempt + 1)%Z s Hs) as [H1 H2]. destruct (init_loop (attempt + 1) pings s) as [[ok ds] s'] eqn:E. simpl in H1, H2. subst.
  destruct up; cbn [negb]; [|done]. unfold XGroupCreate. rewrite Hs. rewrite bool_decide_false by done. rewrite E. done.
Qed.

(** When a subscriber starts before the first update of its tenant, no attempt
    creates the group, nothing else does, and no update is ever read, however
    many are published. *)
Lemma early_subscriber_deaf consumer configured pings s r :
  sm_entries s = None -> sm_group s = None ->
  rtc (rstep consumer) (begun (initializeConsumerGroup configured pings s).2) r ->
  (initializeConsumerGroup configured pings s).1.1 = false /\ rn_read r = [] /\
  exists e, (XReadGroup consumer (rn_stream r)).1 = Err e.
Proof.
  intros Hs Hg Hr. assert (Hinit : (initializeConsumerGroup configured pings s).1.1 = false /\ (initializeConsumerGroup configured pings s).2 = s).
  { unfold initializeConsumerGroup. destruct configured; [by apply init_loop_no_stream|done]. }
  destruct Hinit as [H1 H2]. rewrite H2 in Hr. split; [done|].
  assert (Hinv : sm_group (rn_stream r) = None /\ rn_read r = []).
  { assert (H0 : sm_group (rn_stream (begun s)) = None /\ rn_read (begun s) = []) by done. clear H1 H2 Hs Hg.
    induction Hr as [|r1 r2 r3 Hst _ IH]; [done|]. apply IH. clear IH. destruct H0 as [Hg0 Hr0].
    destruct Hst as [r1 id _|r1 st id Hx|r1 id Hin|r1 idle]; simpl; try done.
    unfold XReadGroup in Hx. by rewrite Hg0 in Hx. }
  destruct Hinv as [Hi1 Hi2]. split; [done|]. unfold XReadGroup. rewrite Hi1. by eexists.
Qed.

(** ** A group that exists *)

Record delivering (r : running) : Prop := {
  dl_group : sm_group (rn_stream r) = Some (length (rn_read r));
  dl_read : rn_read r = take (length (rn_read r)) (entries (rn_stream r));
  dl_nodup : NoDup (entries (rn_stream r));
  dl_pending : forall id, id ∈ rn_read r -> id ∈ (sm_pending (rn_stream r)).*1 \/ id ∈ rn_acked r;
}.

Lemma rstep_delivering consumer r r' : rstep consumer r r' -> delivering r -> delivering r'.
Proof.
  intros Hst [H1 H2 H3 H4]. destruct Hst as [r id Hid|r st id Hx|r id Hin|r idle].
  - split; simpl; [done| | |done].
    + unfold entries, XAdd at 1. simpl. rewrite take_app_le; [done|]. rewrite H2, length_take. lia.
    + apply NoDup_app. split_and!; [done| |apply NoDup_singleton]. set_solver.
  - unfold XReadGroup in Hx. rewrite H1 in Hx. destruct (entries (rn_stream r) !! length (rn_read r)) as [id'|] eqn:E; [|done].
    simplify_eq. split; simpl.
    + by rewrite length_app, Nat.add_comm.
    + change (entries _) with (entries (rn_stream r)). rewrite length_app. simpl. rewrite Nat.add_1_r.
      erewrite take_S_r by exact E. by rewrite <-H2.
    + done.
    + intros x [Hx|Hx%list_elem_of_singleton]%elem_of_app; rewrite fmap_app; [|left; set_solver].
      destruct (H4 x Hx); [left; set_solver|by right].
  - split; simpl; [done..|]. intros x Hx. destruct (decide (x = id)) as [->|Hne]; [right; left|].
    destruct (H4 x Hx) as [Hp|Hp]; [left|right; by right]. apply list_elem_of_fmap in Hp as ([x' c] & -> & Hp). simpl in *.
    apply list_elem_of_fmap. exists (x', c). split; [done|]. by apply list_elem_of_filter.
  - split; simpl; [done..|]. intros x Hx. destruct (H4 x Hx) as [Hp|Hp]; [left|by right].
    apply list_elem_of_fmap in Hp as ([x' c] & -> & Hp). apply list_elem_of_fmap.
    exists (if idle x' then (x', consumer) else (x', c)). split; [by destruct (idle x')|].
    apply list_elem_of_fmap. exists (x', c). split; [done|done].
Qed.

Lemma init_loop_creates pings : forall attempt s l,
  sm_entries s = Some l -> sm_group s = None -> (exists p, p ∈ pings /\ p.1 = true) ->
  (init_loop attempt pings s).1.1 = true /\
  (init_loop attempt pings s).2 = {| sm_entries := Some l; sm_group := Some 0; sm_pending := sm_pending s |}.
Proof.
  induction pings as [|[up source] pings IH]; intros attempt s l Hs Hg (p & Hp & Hup); [by apply elem_of_nil in Hp|]. cbn [init_loop].
  destruct up; cbn [negb].
  - unfold XGroupCreate. by rewrite Hs, Hg.
  - apply elem_of_cons in Hp as [->|Hp]; [done|].
    destruct (IH (attempt + 1)%Z s l Hs Hg) as [H1 H2]; [by exists p|].
    destruct (init_loop (attempt + 1) pings s) as [[ok ds] s']. simpl in *. by subst.
Qed.

(** When the stream exists and Redis answers one of the five attempts, the group is created and the subscriber is given the updates
    in the order in which they were published, from the first one on and none twice, and it is given the next one as long as there
    is one.  An update it was given and did not acknowledge stays pending for good: reclaiming it never gives it out again. *)
Theorem updates_read_in_order consumer pings s l r :
  sm_entries s = Some l -> sm_group s = None -> NoDup l -> (exists p, p ∈ take 5 pings /\ p.1 = true) ->
  rtc (rstep consumer) (begun (initializeConsumerGroup true pings s).2) r ->
  rn_read r = take (length (rn_read r)) (entries (rn_stream r)) /\ NoDup (rn_read r) /\
  (forall id, entries (rn_stream r) !! length (rn_read r) = Some id -> (XReadGroup consumer (rn_stream r)).1 = Ok (Some id)) /\
  (forall id r', id ∈ rn_read r -> id ∉ rn_acked r' -> rtc (rstep consumer) r r' -> id ∈ (sm_pending (rn_stream r')).*1).
Proof.
  intros Hs Hg Hnd Hp Hr. destruct (init_loop_creates (take 5 pings) 0 s l Hs Hg Hp) as [_ Hinit].
  unfold initializeConsumerGroup in Hr. rewrite Hinit in Hr.
  assert (Hsteps : forall r1 r2, rtc (rstep consumer) r1 r2 -> delivering r1 -> delivering r2).
  { induction 1; [done|]. eauto using rstep_delivering. }
  assert (Hd : delivering r) by (eapply Hsteps; [exact Hr|]; split; simpl; try done; intros ? []%elem_of_nil).
  destruct (Hd) as [H1 H2 H3 H4]. split_and!; [done|rewrite <-(take_drop (length (rn_read r)) (entries (rn_stream r))), <-H2 in H3; by apply NoDup_app in H3 as [? _]| |].
  - intros id Hid. unfold XReadGroup. by rewrite H1, Hid.
  - intros id r' Hin Hna Hr'. pose proof (Hsteps _ _ Hr' Hd) as [_ _ _ H4'].
    assert (Hread : id ∈ rn_read r').
    { clear -Hin Hr'. induction Hr' as [|r1 r2 r3 Hst _ IH]; [done|]. apply IH. destruct Hst; simpl; [done|set_solver|done|done]. }
    by destruct (H4' id Hread).
Qed.

Module UpdateGroupWitnesses.
Definition one_update : stream := {| sm_entries := Some ["1-0"]; sm_group := None; sm_pending := [] |}.
Definition pings : list (bool * Z) := [(false, 1%Z); (true, 2%Z)].
Definition created : stream := {| sm_entries := Some ["1-0"]; sm_group := Some 0; sm_pending := [] |}.
Definition read_one : running :=
  {| rn_stream := {| sm_entries := Some ["1-0"]; sm_group := Some 1; sm_pending := [("1-0", "gateway")] |}; rn_read := ["1-0"]; rn_acked := [] |}.
(** After a crash of the handler and a tick of the recovery. *)
Definition reclaimed : running :=
  {| rn_stream := recoverPending (fun _ => true) "gateway" (rn_stream read_one); rn_read := ["1-0"]; rn_acked := [] |}.

Lemma read_one_reachable : rtc (rstep "gateway") (begun (initializeConsumerGroup true pings one_update).2) read_one.
Proof. apply rtc_once. exact (rstep_read "gateway" (begun created) (rn_stream read_one) "1-0" eq_refl). Qed.

Lemma updates_read_in_order_witness :
  NoDup (rn_read read_one) /\ "1-0" ∈ (sm_pending (rn_stream reclaimed)).*1.
Proof.
  destruct (updates_read_in_order "gateway" pings one_update ["1-0"] read_one eq_refl eq_refl (NoDup_singleton _)) as (_ & Hnd & _ & Hp).
  - exists (true, 2%Z). split; [right; left|reflexivity].
  - exact read_one_reachable.
  - split; [exact Hnd|]. apply (Hp "1-0" reclaimed).
    + left.
    + apply not_elem_of_nil.
    + apply rtc_once. exact (rstep_recover "gateway" read_one (fun _ => true)).
Defined.
End UpdateGroupWitnesses.
