(* ===== verification/Dashboard.v ===== *)
(** * Dashboard: serving the operator dashboard

    src/internal/interfaces/http/dashboard/handler.go, over the embedded file
    system.  [http.FileServer] is what net/http documents of it for a name that
    is a file: a redirect for a URL that ends in /index.html or in a slash, and
    the content otherwise; ranges and conditional requests are left out. *)

From Stdlib Require Import Ascii String.
From S2P Require Import Prelude GoString Unicode Rules Merge Verifiers Complexity Aho Literals Engine Compile Scanner Load Loader.

(** A file with its content, or a directory. *)
Inductive entry := File (content : string) | Directory.
Notation fsys := (gmap string entry).

(** [fs.ValidPath]: no empty element, no "." and no "..". *)
Definition ValidPath (name : string) : bool :=
  bool_decide (name = ".") || forallb (fun e => negb (bool_decide (e ∈ [""; "."; ".."]))) (SplitByte "/" name).

Definition fs_Stat (f : fsys) (name : string) : option entry := if ValidPath name then f !! name else None.

Definition fileExists (f : fsys) (name : string) : bool :=
  match fs_Stat f name with Some (File _) => true | _ => false end.

Definition contentSecurityPolicy : string :=
  "default-src 'self'; script-src 'self'; style-src 'self'; " ++
  "img-src 'self' data:; connect-src 'self'; frame-ancestors 'none'; base-uri 'none'; form-action 'self'".

Definition setSecurityHeaders (h : gmap string string) : gmap string string :=
  <["X-Frame-Options" := "DENY"]> (<["Referrer-Policy" := "no-referrer"]>
    (<["X-Content-Type-Options" := "nosniff"]> (<["Content-Security-Policy" := contentSecurityPolicy]> h))).

Record page := { pg_status : Z; pg_header : gmap string string; pg_body : string }.

(** [http.Error]. *)
Definition http_Error (status : Z) (msg : string) (h : gmap string string) : page :=
  {| pg_status := status;
     pg_header := <["X-Content-Type-Options" := "nosniff"]> (<["Content-Type" := "text/plain; charset=utf-8"]> h); pg_body := msg |}.

Definition not_built : string := "dashboard assets are not built; run `make dashboard` and rebuild the gateway".

Definition serveIndex (f : fsys) (h : gmap string string) : page :=
  match fs_Stat f "index.html" with
  | Some (File index) =>
    {| pg_status := 200; pg_header := <["Cache-Control" := "no-cache"]> (<["Content-Type" := "text/html; charset=utf-8"]> h); pg_body := index |}
  | _ => http_Error 503 not_built h
  end.

(** [strings.HasSuffix]. *)
Definition HasSuffix (p s : string) : bool :=
  (String.length p <=? String.length s) && bool_decide (sdrop (String.length s - String.length p) s = p).

(** The file server, on a file. *)
Definition redirect (target : string) (h : gmap string string) : page :=
  {| pg_status := 301; pg_header := <["Location" := target]> h; pg_body := "" |}.
Definition FileServer (type_of : string -> string) (path name content : string) (h : gmap string string) : page :=
  if HasSuffix "/index.html" path then redirect "./" h
  else if HasSuffix "/" path then redirect ("../" ++ Base path) h
  else {| pg_status := 200; pg_header := <["Content-Type" := type_of name]> h; pg_body := content |}.

(** [strings.TrimPrefix(path.Clean("/"+r.URL.Path), "/")]. *)
Definition asset_name (path : string) : string := sdrop 1 (Clean ("/" ++ path)).

Definition immutable : string := "public, max-age=31536000, immutable".

(** [NewHandler] on a method and a path. *)
Definition dashboard_handler (type_of : string -> string) (f : fsys) (method path : string) : page :=
  let h := setSecurityHeaders ∅ in
  if negb (bool_decide (method = "GET")) && negb (bool_decide (method = "HEAD"))
  then http_Error 405 "method not allowed" (<["Allow" := "GET, HEAD"]> h)
  else
    let name := asset_name path in
    if negb (bool_decide (name = "")) && negb (bool_decide (name = "index.html")) && fileExists f name
    then
      let h := if HasPrefix "assets/" name then <["Cache-Control" := immutable]> h else h in
      FileServer type_of (if HasPrefix "/" path then path else "/" ++ path) name
        match fs_Stat f name with Some (File c) => c | _ => "" end h
    else serveIndex f h.

(** ** Names *)

(** The elements that cleaning a rooted path keeps. *)
Definition plain_element (e : string) : Prop := e <> "" /\ e <> "." /\ e <> ".." /\ CountByte "/" e = 0.

Lemma clean_plain es stack :
  Forall (fun e => CountByte "/" e = 0) es -> Forall plain_element stack -> Forall plain_element (foldl (clean_step true) stack es).
Proof.
  intros He. revert stack. induction He as [|e es Hc _ IH]; intros stack Hst; simpl; [done|]. apply IH. unfold clean_step.
  repeat case_bool_decide; simpl; try done; [|by repeat constructor].
  destruct stack as [|top rest]; [constructor|]. apply Forall_cons in Hst as [Ht Hst].
  case_bool_decide; [by destruct Ht as (_ & _ & ? & _)|done].
Qed.

Lemma asset_name_elements path :
  exists es, asset_name path = Join "/" es /\ Forall plain_element es.
Proof.
  unfold asset_name, Clean. change (IsAbs ("/" ++ path)) with true. cbv zeta iota. eexists. split; [reflexivity|].
  apply Forall_rev, clean_plain; [apply SplitByte_no_sep|constructor].
Qed.

Lemma fileExists_file f name : fileExists f name = true -> exists c, fs_Stat f name = Some (File c).
Proof. unfold fileExists. destruct (fs_Stat f name) as [[c|]|]; intros; try done. by exists c. Qed.

(** The security headers are on whatever is answered. *)
Definition hardened (h : gmap string string) : Prop :=
  h !! "Content-Security-Policy" = Some contentSecurityPolicy /\ h !! "X-Content-Type-Options" = Some "nosniff" /\
  h !! "Referrer-Policy" = Some "no-referrer" /\ h !! "X-Frame-Options" = Some "DENY".

Lemma hardened_insert k v h :
  bool_decide (k ∈ ["Content-Security-Policy"; "X-Content-Type-Options"; "Referrer-Policy"; "X-Frame-Options"]) = false ->
  hardened h -> hardened (<[k := v]> h).
Proof. intros Hk%bool_decide_eq_false (? & ? & ? & ?). split_and!; (rewrite lookup_insert_ne; [done|set_solver]). Qed.

Lemma hardened_nosniff h : hardened h -> hardened (<["X-Content-Type-Options" := "nosniff"]> h).
Proof. intros (? & ? & ? & ?). split_and!; first [by rewrite lookup_insert_eq|by rewrite lookup_insert_ne]. Qed.

Lemma hardened_set : hardened (setSecurityHeaders ∅).
Proof. split_and!; vm_compute; reflexivity. Qed.

#[local] Hint Resolve hardened_set hardened_nosniff : core.
#[local] Hint Extern 2 (hardened (<[_ := _]> _)) => apply hardened_insert; [reflexivity|] : core.
#[local] Opaque setSecurityHeaders contentSecurityPolicy immutable.

Lemma http_Error_hardened status msg h : hardened h -> hardened (pg_header (http_Error status msg h)).
Proof. intros. unfold http_Error. simpl. auto. Qed.
Lemma serveIndex_hardened f h : hardened h -> hardened (pg_header (serveIndex f h)).
Proof. intros. unfold serveIndex. repeat case_match; simpl; auto using http_Error_hardened. Qed.
Lemma FileServer_hardened type_of path name content h : hardened h -> hardened (pg_header (FileServer type_of path name content h)).
Proof. intros. unfold FileServer, redirect. repeat case_match; simpl; auto. Qed.

(** A page is an error, a redirect, the index or a file of the build: nothing
    else is ever sent, and the name that is looked up has no "..", no empty
    and no "." element.  Only files under assets/ may be cached for good, and
    every page has the security headers. *)
Lemma dashboard_pages type_of f method path :
  let p := dashboard_handler type_of f method path in
  hardened (pg_header p) /\
  (exists es, asset_name path = Join "/" es /\ Forall plain_element es) /\
  (p.(pg_status) = 405%Z <-> method <> "GET" /\ method <> "HEAD") /\
  (pg_status p = 200%Z ->
     fs_Stat f "index.html" = Some (File (pg_body p)) /\ pg_header p !! "Cache-Control" = Some "no-cache" \/
     fs_Stat f (asset_name path) = Some (File (pg_body p))) /\
  (pg_header p !! "Cache-Control" = Some immutable -> HasPrefix "assets/" (asset_name path) = true /\ fileExists f (asset_name path) = true).
Proof.
  cbv zeta. split; [|split; [apply asset_name_elements|]].
  - unfold dashboard_handler. cbv zeta.
    repeat case_match; auto using http_Error_hardened, serveIndex_hardened, FileServer_hardened.
  - unfold dashboard_handler. destruct (negb (bool_decide (method = "GET")) && _) eqn:Em; cbv zeta.
    { apply andb_true_iff in Em as [E1%negb_true_iff%bool_decide_eq_false E2%negb_true_iff%bool_decide_eq_false]. simpl. split; [done|]. split; [done|].
      intros E. vm_compute in E. done. }
    assert (Hm : ~ (method <> "GET" /\ method <> "HEAD")).
    { intros [H1 H2]. rewrite !bool_decide_false in Em by done. done. }
    destruct (negb (bool_decide (asset_name path = "")) && _ && fileExists f (asset_name path)) eqn:Ef.
    + apply andb_true_iff in Ef as [_ Ef]. destruct (fileExists_file _ _ Ef) as [c Hc]. rewrite Hc.
      unfold FileServer, redirect. split; [repeat case_match; simpl; split; (done || by intros)|]. split.
      * intros E. right. repeat case_match; simplify_eq/=; done.
      * intros E. split; [|done]. destruct (HasPrefix "assets/" (asset_name path)); [done|].
        repeat case_match; simpl in E; rewrite lookup_insert_ne in E by done; vm_compute in E; done.
    + unfold serveIndex, http_Error. destruct (fs_Stat f "index.html") as [[c|]|]; simpl.
      all: split; [split; [done|by intros]|]; split; [intros E; try done; left; by rewrite lookup_insert_eq|].
      all: intros E; vm_compute in E; done.
Qed.

(** A file of the build is served under its own path. *)
Lemma asset_served type_of f name c :
  fs_Stat f name = Some (File c) -> asset_name ("/" ++ name) = name -> name <> "" -> name <> "index.html" ->
  HasSuffix "/index.html" ("/" ++ name) = false -> HasSuffix "/" ("/" ++ name) = false ->
  pg_status (dashboard_handler type_of f "GET" ("/" ++ name)) = 200%Z /\ pg_body (dashboard_handler type_of f "GET" ("/" ++ name)) = c.
Proof.
  intros Hf Hn He Hi Hs1 Hs2. unfold dashboard_handler, fileExists, FileServer. rewrite Hn, Hf.
  change (HasPrefix "/" ("/" ++ name)) with true. cbv zeta iota. rewrite Hs1, Hs2.
  by rewrite (bool_decide_false (name = "")), (bool_decide_false (name = "index.html")).
Qed.

Module DashboardWitnesses.
Definition dist : fsys := {["index.html" := File "<html>"; "assets" := Directory; "assets/app-1.js" := File "code"]}.
Definition text (_ : string) : string := "text/javascript".
Definition fetch (path : string) : Z * string * option string :=
  let p := dashboard_handler text dist "GET" path in (pg_status p, pg_body p, pg_header p !! "Cache-Control").

Lemma dashboard_examples :
  map fetch [""; "/"; "/decisions/42"; "/assets/app-1.js"; "/assets/../../secret"; "/assets/app-2.js"; "/assets"; "/assets/app-1.js/"] =
  [(200%Z, "<html>", Some "no-cache"); (200%Z, "<html>", Some "no-cache"); (200%Z, "<html>", Some "no-cache"); (200%Z, "code", Some immutable);
   (200%Z, "<html>", Some "no-cache"); (200%Z, "<html>", Some "no-cache"); (200%Z, "<html>", Some "no-cache"); (301%Z, "", Some immutable)].
Proof. vm_compute. reflexivity. Qed.
End DashboardWitnesses.
