(* ===== verification/Diagnostics.v ===== *)
(** * Diagnostics: system information, the debug routes and the update stream

    The routes of src/internal/interfaces/http/api/system.go that [SystemApi]
    leaves out, with the audit entries they write, and [StreamUpdates] of
    src/internal/interfaces/http/controlplane/handlers.go under the time-outs of
    src/cmd/controlplane/main.go.  What the Go runtime reports, the build
    information, the JSON encoder and the format of times are arguments. *)

From Stdlib Require Import Ascii String.
From Stdlib Require Import Floats.SpecFloat.
From S2P Require Import Prelude GoString Unicode Rules Merge Verifiers Complexity Aho Literals Engine Compile Scanner Load ScanIO Rulesets Decisions Check Http Hub Server SystemApi Repos AuditApi.

(** ** System information *)

Record build_info := { bi_Version : string; bi_Commit : string; bi_BuildDate : string; bi_GoVersion : string; bi_GOOS : string; bi_GOARCH : string }.
Record SystemInfo := {
  si_Version : string;
  si_Commit : string;
  si_BuildDate : string;
  si_GoVersion : string;
  si_Platform : string;
  si_StartTime : Z;
  si_Uptime : Z;
  si_Features : SystemFeatures;
}.

Definition getSystemInfoHandler (b : build_info) (systemStartTime now : Z) (d : dependencies) : Reply SystemInfo :=
  Answer 200
    {| si_Version := bi_Version b; si_Commit := bi_Commit b; si_BuildDate := bi_BuildDate b; si_GoVersion := bi_GoVersion b;
       si_Platform := bi_GOOS b +:+ "/" +:+ bi_GOARCH b; si_StartTime := systemStartTime; si_Uptime := (now - systemStartTime)%Z;
       si_Features := {| AsyncJobs := true; L3Semantic := true; TenantManagement := has_tenants d; AuditLogging := has_audit d;
                         UsageTracking := has_usage d; QuotaManagement := has_quota d |} |}.

(** ** Debug routes *)

Section Debug.
(** The encoder of the metadata: the endpoint, and whether stacks were asked
    for. *)
Context (Marshal : string -> option bool -> string).

(** The entry of an access; its identifier is not set. *)
Definition debug_entry (action metadata : string) (object : uuid) (now : Z) : AuditEntry :=
  {| ae_ID := uuid_Nil; ae_TenantID := None; ae_ActorID := None; ae_ActorType := ""; ae_ActorEmail := "";
     ae_Action := action; ae_ObjectType := "debug_endpoint"; ae_ObjectID := object; ae_Before := ""; ae_After := "";
     ae_Metadata := metadata; ae_CreatedAt := now; ae_Hash := ""; ae_PrevHash := "" |}.

(** Nothing is written without a repository; an error is dropped. *)
Definition log_access (e : AuditEntry) (clock : Z) (repo : option pg_audits) : option pg_audits :=
  (fun s => (audit_Create clock e s).2) <$> repo.

Definition stack_buffer : nat := 1024 * 1024.

(** The count and, when they are asked for, the stacks. *)
Definition getGoroutinesHandler (goroutines : Z) (stacks : string) (object : uuid) (now clock : Z) (r : HttpRequest) (repo : option pg_audits) :
    Reply (Z * option string) * option pg_audits :=
  let requested := bool_decide (Query r "stacks" = "true") in
  (Answer 200 (goroutines, if requested then Some (stake stack_buffer stacks) else None),
   log_access (debug_entry "debug.goroutines_accessed" (Marshal "debug/goroutines" (Some requested)) object now) clock repo).

Record MemStats := {
  ms_Alloc : Z; ms_TotalAlloc : Z; ms_Sys : Z; ms_NumGC : Z; ms_PauseTotalNs : Z; ms_HeapObjects : Z; ms_HeapInuse : Z;
  ms_HeapReleased : Z; ms_StackInuse : Z;
}.
Definition mb (n : Z) : spec_float := float_div (float_div (float_of_int n) (float_of_int 1024)) (float_of_int 1024).
Definition memory_response (m : MemStats) : list (string * spec_float) * list (string * Z) :=
  ([("alloc_mb", mb (ms_Alloc m)); ("total_alloc_mb", mb (ms_TotalAlloc m)); ("sys_mb", mb (ms_Sys m));
    ("heap_in_use_mb", mb (ms_HeapInuse m)); ("heap_released_mb", mb (ms_HeapReleased m)); ("stack_in_use_mb", mb (ms_StackInuse m))],
   [("num_gc", ms_NumGC m); ("gc_pause_ns", ms_PauseTotalNs m); ("heap_objects", ms_HeapObjects m)]).
Definition getMemoryStatsHandler (m : MemStats) (object : uuid) (now clock : Z) (repo : option pg_audits) :
    Reply (list (string * spec_float) * list (string * Z)) * option pg_audits :=
  (Answer 200 (memory_response m),
   log_access (debug_entry "debug.memory_accessed" (Marshal "debug/memory" None) object now) clock repo).

(** An access to one of the two routes. *)
Inductive access :=
  | Goroutines (goroutines : Z) (stacks : string) (object : uuid) (now clock : Z) (r : HttpRequest)
  | Memory (m : MemStats) (object : uuid) (now clock : Z).
Definition serve_access (repo : option pg_audits) (a : access) : option pg_audits :=
  match a with
  | Goroutines g st o now clock r => (getGoroutinesHandler g st o now clock r repo).2
  | Memory m o now clock => (getMemoryStatsHandler m o now clock repo).2
  end.

Lemma serve_access_logged repo a : exists e clock, ae_ID e = uuid_Nil /\ serve_access repo a = log_access e clock repo.
Proof. destruct a; eexists _, _; (split; [|reflexivity]); reflexivity. Qed.

(** The entries have no identifier of their own: the first access of all is
    recorded, and every later one collides with it and is dropped, whatever
    route, however many. *)
Lemma debug_audited_once l : forall a s,
  audits_down s = None -> uuid_Nil ∉ map ae_ID (entries s) ->
  exists e, foldl serve_access (serve_access (Some s) a) l = Some {| entries := entries s ++ [e]; audits_down := None |} /\ ae_ID e = uuid_Nil.
Proof.
  assert (Hcol : forall e clock s, audits_down s = None -> uuid_Nil ∈ map ae_ID (entries s) -> ae_ID e = uuid_Nil ->
    log_access e clock (Some s) = Some s).
  { intros e clock s Hd Hin He. unfold log_access, audit_Create. simpl. rewrite Hd, He.
    rewrite (proj2 (existsb_exists _ _)); [done|]. apply list_elem_of_fmap in Hin as (x & Hx & Hin). exists x.
    split; [by apply list_elem_of_In|]. by apply bool_decide_eq_true. }
  assert (Hrest : forall l s, audits_down s = None -> uuid_Nil ∈ map ae_ID (entries s) -> foldl serve_access (Some s) l = Some s).
  { clear l. induction l as [|b l IH]; intros s Hd Hin; [done|]. simpl. destruct (serve_access_logged (Some s) b) as (e & clock & He & ->).
    rewrite Hcol by done. by apply IH. }
  intros a s Hd Hin. destruct (serve_access_logged (Some s) a) as (e & clock & He & ->).
  assert (Hnew : log_access e clock (Some s) = Some {| entries := entries s ++ [stored clock e]; audits_down := None |}).
  { unfold log_access, audit_Create. simpl. rewrite Hd, He. destruct (existsb _ _) eqn:E; [|done]. exfalso. apply Hin.
    apply existsb_exists in E as (x & Hx & Hid%bool_decide_eq_true). apply list_elem_of_fmap. exists x. by rewrite list_elem_of_In. }
  rewrite Hnew. exists (stored clock e). split; [|done]. apply Hrest; [done|]. simpl. rewrite map_app. set_solver.
Qed.
End Debug.

(** ** The stream of the control plane *)

Section Stream.
Context (RFC3339 : Z -> string).

Definition Second : Z := 1000000000.
Definition quoted (s : string) : string := String "034" (s +:+ String "034" "").
Definition sse (event data : string) : string := "event: " +:+ event +:+ lf +:+ "data: " +:+ data +:+ lf +:+ lf.
Definition connected (t : Z) : string :=
  sse "connected" ("{" +:+ quoted "status" +:+ ":" +:+ quoted "connected" +:+ "," +:+ quoted "time" +:+ ":" +:+ quoted (RFC3339 t) +:+ "}").
Definition heartbeat (t : Z) : string := sse "heartbeat" ("{" +:+ quoted "time" +:+ ":" +:+ quoted (RFC3339 t) +:+ "}").

(** What [StreamUpdates] has written, and when, after [n] ticks. *)
Definition StreamUpdates (start : Z) (n : nat) : list (Z * string) :=
  (start, connected start) :: map (fun k => let t := (start + 30 * Second * Z.of_nat k)%Z in (t, heartbeat t)) (seq 1 n).

(** The server stops writing this long after it has read the request. *)
Definition WriteTimeout : Z := 15 * Second.
Definition received (accepted : Z) (frames : list (Z * string)) : list string :=
  snd <$> filter (fun f => (f.1 < accepted + WriteTimeout)%Z) frames.

(** No heartbeat arrives, let alone an update: the client gets the first frame
    at most. *)
Lemma stream_cut accepted start n :
  (accepted <= start)%Z -> exists k, received accepted (StreamUpdates start n) = take k [connected start].
Proof.
  intros Ha. unfold received, StreamUpdates. rewrite filter_cons. set (ticks := map _ (seq 1 n)).
  destruct (filter _ ticks) as [|x l] eqn:E.
  - case_decide; [by exists 1|by exists 0].
  - exfalso. assert (Hx : x ∈ x :: l) by left. rewrite <-E in Hx. apply list_elem_of_filter in Hx as [Hlt Hx].
    apply list_elem_of_fmap in Hx as (k & -> & Hk). apply elem_of_seq in Hk. simpl in Hlt. unfold WriteTimeout, Second in Hlt. lia.
Qed.
End Stream.

Module DiagnosticsWitnesses.
Definition json (endpoint : string) (stacks : option bool) : string := endpoint.
Definition audits0 : pg_audits := {| entries := []; audits_down := None |}.
Definition asked : access := Goroutines 12 "goroutine 1" "o1" 0 1 (request "GET" "" [] [("stacks", "true")] [] "").
Definition asked_again : access := Memory {| ms_Alloc := 1048576; ms_TotalAlloc := 0; ms_Sys := 0; ms_NumGC := 0; ms_PauseTotalNs := 0;
  ms_HeapObjects := 0; ms_HeapInuse := 0; ms_HeapReleased := 0; ms_StackInuse := 0 |} "o2" 5 6.

Lemma second_access_not_audited :
  (map ae_Action ∘ entries) <$> foldl (serve_access json) (Some audits0) [asked; asked_again] = Some ["debug.goroutines_accessed"].
Proof. vm_compute. reflexivity. Qed.

Lemma half_a_megabyte : mb 524288 = S754_finite false 4503599627370496 (-53).
Proof. vm_compute. reflexivity. Qed.
End DiagnosticsWitnesses.
