(* ===== verification/DecisionsApi.v ===== *)
(** * DecisionsApi: recording decisions and the routes that show them

    [RecordDecision] and the routes of
    src/internal/interfaces/http/api/decisions.go, over the log of [Decisions]
    and the hub of [Hub], with [EventData] of application/decisions/record.go.
    A request adds its record to the log and then publishes an event, under two
    locks, so requests may overtake each other in between.  The format of times
    is an argument. *)

From Stdlib Require Import Ascii String SpecFloat.
From S2P Require Import Prelude GoString Unicode Rules Scanner Decisions Http Hub.

(** ** The event of a decision *)

Inductive json_value :=
  | JInt (n : Z)
  | JText (s : string)
  | JFloat (x : spec_float)
  | JMatches (l : list Match).

Section DecisionsApi.
Context (RFC3339Nano : Z -> string).

Definition EventData (r : Record') : gmap string json_value :=
  {["seq" := JInt (Seq r); "request_id" := JText (RequestID r); "time" := JText (RFC3339Nano (Time r)); "path" := JText (Decisions.Path r);
    "decision" := JText (Decision' r); "reason" := JText (Reason r); "status" := JInt (Status r); "latency_ms" := JFloat (LatencyMs r);
    "bytes_in" := JInt (BytesIn r); "violations" := JInt (Violations r); "matches" := JMatches (Matches r)]}.

Definition decision_event (r : Record') : Event (gmap string json_value) :=
  {| ev_Type := "decision"; ev_Data := EventData r; ev_Time := if (Time r =? 0)%Z then None else Some (Time r) |}.

Notation Hub := (EventHub (D := gmap string json_value)).

(** The record is passed by value: the number and the time [Add] gives it are
    not those of the event. *)
Definition RecordDecision (now : Z) (rec : Record') (s : option Log * option Hub) : option Log * option Hub :=
  (Add now rec <$> s.1, Publish (decision_event rec) <$> s.2).

(** ** The routes *)

Definition list_decisions (r : HttpRequest) (l : Log) : Reply (list Record' * option Z) :=
  match parseDecisionQuery (Http.Query r) with
  | Err _ => Failure 400 "INVALID_ARGUMENT"
  | Ok q => let page := Page l q in Answer 200 (Records page, if (0 <? Next page)%Z then Some (Next page) else None)
  end.

(** [None] is a panic. *)
Definition decision_stats (l0 l : Log) (now : Z) : option (Reply Stats') := Answer 200 <$> Stats l0 l now.

(** [url.PathUnescape]. *)
Definition hex_digit (c : ascii) : option Z :=
  let b := byte_of c in
  if ((48 <=? b) && (b <=? 57))%Z then Some (b - 48)%Z
  else if ((97 <=? b) && (b <=? 102))%Z then Some (b - 97 + 10)%Z
  else if ((65 <=? b) && (b <=? 70))%Z then Some (b - 65 + 10)%Z
  else None.
Definition escape_error : string := "invalid URL escape".
Fixpoint PathUnescape (s : string) : result string string :=
  match s with
  | "" => Ok ""
  | String "%" (String h (String l s)) =>
    match hex_digit h, hex_digit l with
    | Some h, Some l => match PathUnescape s with Ok t => Ok (String (ascii_of_N (Z.to_N (16 * h + l))) t) | Err e => Err e end
    | _, _ => Err escape_error
    end
  | String "%" _ => Err escape_error
  | String c s => match PathUnescape s with Ok t => Ok (String c t) | Err e => Err e end
  end.

Definition get_decision (r : HttpRequest) (l : Log) : Reply Record' :=
  match PathUnescape (URLParam r "requestID") with
  | Err _ => Failure 400 "INVALID_ARGUMENT"
  | Ok id => match Get l id with Some rec => Answer 200 rec | None => Failure 404 "NOT_FOUND" end
  end.

(** ** Escaped identifiers *)

(** A client may escape any bytes it likes, but must escape "%" and "/". *)
Definition hex_char (n : Z) : ascii := ascii_of_N (Z.to_N (if (n <? 10)%Z then 48 + n else 55 + n)).
Definition escape_byte (c : ascii) : string := String "%" (String (hex_char (byte_of c / 16)) (String (hex_char (byte_of c mod 16)) "")).
Fixpoint escape (must : ascii -> bool) (s : string) : string :=
  match s with
  | "" => ""
  | String c s => (if must c || bool_decide (c = "%"%char) then escape_byte c else String c "") +:+ escape must s
  end.

Definition all_bytes : list ascii := map (fun n => ascii_of_nat n) (seq 0 256).
Lemma all_bytes_complete c : c ∈ all_bytes.
Proof.
  apply list_elem_of_fmap. exists (nat_of_ascii c). split; [by rewrite ascii_nat_embedding|]. apply elem_of_seq.
  pose proof (nat_ascii_bounded c). lia.
Qed.

(** Both digits of every byte, by enumeration. *)
Lemma hex_digits c :
  hex_digit (hex_char (byte_of c / 16)) = Some (byte_of c / 16)%Z /\ hex_digit (hex_char (byte_of c mod 16)) = Some (byte_of c mod 16)%Z /\
  ascii_of_N (Z.to_N (16 * (byte_of c / 16) + byte_of c mod 16)) = c.
Proof.
  assert (H : forallb (fun c => bool_decide (hex_digit (hex_char (byte_of c / 16)) = Some (byte_of c / 16)%Z /\
    hex_digit (hex_char (byte_of c mod 16)) = Some (byte_of c mod 16)%Z /\ ascii_of_N (Z.to_N (16 * (byte_of c / 16) + byte_of c mod 16)) = c)) all_bytes = true)
    by (vm_compute; reflexivity).
  rewrite forallb_forall in H. specialize (H c). rewrite bool_decide_eq_true in H. apply H, list_elem_of_In, all_bytes_complete.
Qed.

Lemma PathUnescape_plain c s : c <> "%"%char -> PathUnescape (String c s) = match PathUnescape s with Ok t => Ok (String c t) | Err e => Err e end.
Proof. intros Hc. destruct c as [[] [] [] [] [] [] [] []]; try reflexivity. by destruct Hc. Qed.

(** An identifier comes back from the path as it was, whatever is escaped in
    it. *)
Lemma PathUnescape_escape must s : PathUnescape (escape must s) = Ok s.
Proof.
  induction s as [|c s IH]; [done|]. cbn [escape]. destruct (must c || bool_decide (c = "%"%char)) eqn:E.
  - unfold escape_byte. cbn [String.append]. simpl (_ +:+ _). cbn [PathUnescape]. destruct (hex_digits c) as (-> & -> & Hc). by rewrite IH, Hc.
  - apply orb_false_iff in E as [_ E%bool_decide_eq_false]. simpl (_ +:+ _). by rewrite PathUnescape_plain, IH.
Qed.

(** ** What is recorded is shown *)

Lemma Get_history l h id : implements l h -> Get l id = head (filter (fun r => RequestID r = id) (retained (cap l) h)).
Proof. intros Hl. unfold Get. by rewrite (Recent_all l h Hl), list_find_ext. Qed.

(** The handlers, interleaved: a record is in the log, and its event is yet to
    be published. *)
Record recorder := { rc_log : Log; rc_hub : Hub; rc_pending : list Record' }.
Inductive recorder_step : recorder -> recorder -> Prop :=
  | rec_add s now r :
      recorder_step s {| rc_log := Add now r (rc_log s); rc_hub := rc_hub s; rc_pending := r :: rc_pending s |}
  | rec_publish s r p1 p2 :
      rc_pending s = p1 ++ r :: p2 ->
      recorder_step s {| rc_log := rc_log s; rc_hub := Publish (decision_event r) (rc_hub s); rc_pending := p1 ++ p2 |}.

Definition recorder0 (capacity now : Z) : recorder := {| rc_log := NewLog capacity now; rc_hub := NewEventHub; rc_pending := [] |}.

(** The identifiers of the events, and of the records of a history. *)
Definition event_id (e : Event (gmap string json_value)) : option json_value := ev_Data e !! "request_id".
Definition id_value (r : Record') : option json_value := Some (JText (RequestID r)).

Record shown (s : recorder) (h : history) : Prop := {
  sh_log : implements (rc_log s) h;
  sh_events : map event_id (published (rc_hub s)) ++ map id_value (rc_pending s) ≡ₚ map id_value h;
}.

Lemma id_value_push now r h : map id_value (push now r h) = id_value r :: map id_value h.
Proof. unfold push, stamp_time. by destruct (Time r =? 0)%Z. Qed.

Lemma event_id_decision r : event_id (decision_event r) = id_value r.
Proof. reflexivity. Qed.

Lemma recorder_step_shown s s' h :
  recorder_step s s' -> shown s h -> (Z.of_nat (length h) + 1 < 2 ^ 62)%Z -> exists h', shown s' h' /\ length h' <= S (length h).
Proof.
  intros Hst [Hl He] Hb. destruct Hst as [s now r|s r p1 p2 Hp].
  - exists (push now r h). split; [|done]. split; cbn [rc_log rc_hub rc_pending]; [by apply Add_implements|].
    rewrite id_value_push, <-He. cbn [map]. by rewrite <-Permutation_middle.
  - exists h. split; [|lia]. split; simpl; [done|]. rewrite <-He, Hp, !map_app. simpl.
    rewrite event_id_decision, <-app_assoc. simpl. f_equiv. by rewrite Permutation_middle.
Qed.

(** After any interleaving (of fewer than 2^62 steps), every event stands for a record of the log's history and every record has
    had its event or is about to; and the route of an identifier, however it is escaped, gives the newest retained decision of
    that identifier, with its number in the log, or 404 when it has none. *)
Lemma decisions_shown capacity t0 n s :
  nsteps recorder_step n (recorder0 capacity t0) s -> (Z.of_nat n < 2 ^ 62)%Z ->
  exists h, implements (rc_log s) h /\
    map event_id (published (rc_hub s)) ++ map id_value (rc_pending s) ≡ₚ map id_value h /\
    forall must r id, URLParam r "requestID" = escape must id ->
      get_decision r (rc_log s) =
        match head (filter (fun x => RequestID x = id) (retained (cap (rc_log s)) h)) with
        | Some rec => Answer 200 rec
        | None => Failure 404 "NOT_FOUND"
        end.
Proof.
  intros Hs Hn.
  assert (Hinv : exists h, shown s h /\ length h <= n).
  { revert s Hs Hn. induction n as [|n IH]; intros s Hs Hn.
    - inversion Hs; subst. exists []. split; [|done]. split; simpl; [apply NewLog_implements|done].
    - apply nsteps_inv_r in Hs as (s1 & Hs & Hst). destruct (IH s1 Hs ltac:(lia)) as (h & Hsh & Hlen).
      destruct (recorder_step_shown s1 s h Hst Hsh ltac:(lia)) as (h' & Hsh' & Hlen'). exists h'. split; [done|lia]. }
  destruct Hinv as (h & [Hl He] & _). exists h. split_and!; [done..|]. intros must r id Hr.
  unfold get_decision. by rewrite Hr, PathUnescape_escape, (Get_history _ h).
Qed.
End DecisionsApi.

Module DecisionsApiWitnesses.
Definition format (_ : Z) : string := "now".
Definition decided (id : string) : Record' :=
  {| Seq := 0; RequestID := id; Time := 5; Decisions.Path := "/check"; Decision' := Allow; Reason := ""; Status := 200;
     LatencyMs := S754_zero false; BytesIn := 3; Violations := 0; Matches := [] |}.
Definition recorded := RecordDecision format 9 (decided "host/a-1") (Some (NewLog 10 0), Some NewEventHub).

(** The event of the first decision says it has number 0; the log numbers it
    1. *)
Lemma event_has_no_number :
  (map (fun e => ev_Data e !! "seq") ∘ published) <$> recorded.2 = Some [Some (JInt 0)] /\
  (fun l => (fun rec => Seq rec) <$> Get l "host/a-1") <$> recorded.1 = Some (Some 1%Z).
Proof. vm_compute. done. Qed.

Lemma escaped_id_found :
  (fun l => StatusOf (get_decision (request "GET" "" [] [] [("requestID", "host%2Fa-1")] "") l)) <$> recorded.1 = Some 200%Z /\
  (fun l => StatusOf (get_decision (request "GET" "" [] [] [("requestID", "host%2")] "") l)) <$> recorded.1 = Some 400%Z.
Proof. vm_compute. done. Qed.
End DecisionsApiWitnesses.
