(* ===== verification/LiveUpdates.v ===== *)
(** * LiveUpdates: gateways that reload their rules

    The end of [NewWithOptions] in src/internal/interfaces/grpc/enforcer/ctor.go:
    a server with a tenant and a redis address subscribes to the updates of its
    tenant, and its handler reloads the rules.  A fleet is the gateways of one
    tenant: each is a process with its own server, subscriber, package variables
    and cache, and all of them read the stream of [UpdateGroup] with the one
    group "ps-enforcers", under names of their own. *)

From Stdlib Require Import Ascii String.
From S2P Require Import Prelude GoString Unicode Rules Merge Verifiers Complexity Aho Literals Engine Compile Scanner Load ScanIO Setters Loader Decisions Check Repos Redact ExtProc Streams RulepackSvc Backoff Updates UpdateGroup.

Definition consumerGroup : string := "ps-enforcers".

(** Whether a server subscribes. *)
Definition subscribes (redisAddr : string) (tenantID : uuid) : bool :=
  negb (bool_decide (redisAddr = "")) && negb (bool_decide (tenantID = uuid_Nil)).

Section Live.
Context `{RegexpSyntax, RegexpEngine, LruLib, AhoLib, Platform, Sources, RulepackRepo, JsonUpdates}.

(** A gateway, and the updates it has been given. *)
Record live_gateway := {
  gw_server : Server;
  gw_sub : Subscriber;
  gw_globals : Globals;
  gw_cache : regex_cache;
  gw_read : list string;
}.

Definition handled (f : fate) : bool := match f with Failed | Applied => true | _ => false end.
Definition succeeds {E} (err : option E) : bool := match err with None => true | Some _ => false end.

(** The loop of the subscriber on one message, whose handler is [ReloadRules]
    on the repository as it is then; [None] is a panic. *)
Definition on_message (fuel : nat) (r : option repo) (now : Z) (id : string) (msg : XMessage) (gw : live_gateway) : option (fate * live_gateway) :=
  let '(err, srv, g, c) := ReloadRules fuel r (gw_server gw) (gw_globals gw) (gw_cache gw) in
  '(f, sub) ← process_message (fun _ => succeeds err) now msg (gw_sub gw);
  Some (f, if handled f
           then {| gw_server := srv; gw_sub := sub; gw_globals := g; gw_cache := c; gw_read := gw_read gw ++ [id] |}
           else {| gw_server := gw_server gw; gw_sub := sub; gw_globals := gw_globals gw; gw_cache := gw_cache gw;
                   gw_read := gw_read gw ++ [id] |}).

(** ** One gateway *)

(** An update that is applied leaves the server with the rules the repository
    held when it was handled; any other leaves the server as it was. *)
Lemma on_message_server fuel r now id msg gw f gw' :
  on_message fuel r now id msg gw = Some (f, gw') ->
  gw_server gw' = (if was_applied f then (ReloadRules fuel r (gw_server gw) (gw_globals gw) (gw_cache gw)).1.1.2 else gw_server gw) /\
  gw_read gw' = gw_read gw ++ [id] /\ settings_of (gw_server gw') = settings_of (gw_server gw) /\
  (server_ok (gw_server gw) -> server_ok (gw_server gw')).
Proof.
  unfold on_message. destruct (ReloadRules_keeps fuel r (gw_server gw) (gw_globals gw) (gw_cache gw)) as (Hfail & Hset & Hok).
  destruct (ReloadRules _ _ _ _ _) as [[[err srv] g] c]. cbn [fst snd] in *. intros E.
  destruct (process_message _ _ _ _) as [[f' sub]|] eqn:Ep; [|done]. simpl in E. injection E as -> <-.
  assert (Hf : f = Failed -> err <> None).
  { intros -> ->. unfold process_message in Ep. repeat (case_match; simplify_option_eq; try done). }
  destruct f; simpl; try done. destruct (Hfail (Hf eq_refl)) as (-> & _). done.
Qed.

(** ** A fleet *)

Record fleet := { fl_stream : stream; fl_gateways : gmap string live_gateway }.

Section Fleet.
(** The messages of the stream, by their identifiers. *)
Context (content : string -> XMessage).

Inductive fleet_step : fleet -> fleet -> Prop :=
  | fleet_publish s id :
      id ∉ entries (fl_stream s) ->
      fleet_step s {| fl_stream := XAdd id (fl_stream s); fl_gateways := fl_gateways s |}
  | fleet_read s name gw st id fuel r now f gw' :
      fl_gateways s !! name = Some gw ->
      XReadGroup name (fl_stream s) = (Ok (Some id), st) ->
      on_message fuel r now id (content id) gw = Some (f, gw') ->
      fleet_step s {| fl_stream := st; fl_gateways := <[name := gw']> (fl_gateways s) |}
  | fleet_ack s id :
      fleet_step s {| fl_stream := XAck_entry id (fl_stream s); fl_gateways := fl_gateways s |}
  | fleet_recover s idle name :
      fleet_step s {| fl_stream := recoverPending idle name (fl_stream s); fl_gateways := fl_gateways s |}.

(** The group has given out a prefix, each entry to one gateway; a gateway that
    was given nothing is as it was. *)
Record fleet_ok (init : gmap string live_gateway) (s : fleet) : Prop := {
  fo_group : exists n, sm_group (fl_stream s) = Some n /\
    (forall name gw id, fl_gateways s !! name = Some gw -> id ∈ gw_read gw -> id ∈ take n (entries (fl_stream s)));
  fo_nodup : NoDup (entries (fl_stream s));
  fo_apart : forall n1 n2 g1 g2 id, fl_gateways s !! n1 = Some g1 -> fl_gateways s !! n2 = Some g2 -> n1 <> n2 ->
    id ∈ gw_read g1 -> id ∉ gw_read g2;
  fo_untouched : forall name gw, fl_gateways s !! name = Some gw -> gw_read gw = [] -> init !! name = Some gw;
}.

Lemma fleet_step_ok init s s' : fleet_step s s' -> fleet_ok init s -> fleet_ok init s'.
Proof.
  intros Hst [(n & Hg & Hr) Hnd Hap Hun]. destruct Hst as [s id Hid|s name gw st id fuel r now f gw' Hgw Hx Hm|s id|s idle name].
  - split; simpl; [|apply NoDup_app; split_and!; [done|set_solver|apply NoDup_singleton]|done|done].
    exists n. split; [done|]. intros name gw x Hgw Hin. specialize (Hr name gw x Hgw Hin). unfold entries at 1, XAdd. simpl.
    rewrite take_app. set_solver.
  - unfold XReadGroup in Hx. rewrite Hg in Hx. destruct (entries (fl_stream s) !! n) as [id'|] eqn:E; [|done].
    injection Hx as <- <-. destruct (on_message_server _ _ _ _ _ _ _ _ Hm) as (_ & Hread & _).
    assert (Hnew : id' ∉ take n (entries (fl_stream s))).
    { intros Hin. apply list_elem_of_lookup in Hin as (i & Hi). apply lookup_take_Some in Hi as [Hi Hlt].
      pose proof (NoDup_lookup _ _ _ _ Hnd Hi E). lia. }
    split; simpl.
    + exists (S n). split; [done|]. change (entries _) with (entries (fl_stream s)). intros x g y Hxg Hin. erewrite take_S_r by exact E.
      apply lookup_insert_Some in Hxg as [[<- <-]|[_ Hxg]]; [|apply elem_of_app; left; by apply (Hr x g)].
      rewrite Hread in Hin. apply elem_of_app in Hin as [Hin|Hin]; [apply elem_of_app; left; by apply (Hr name gw)|set_solver].
    + done.
    + intros n1 n2 g1 g2 y Hg1 Hg2 Hne Hin.
      apply lookup_insert_Some in Hg1 as [[<- <-]|[Hn1 Hg1]]; apply lookup_insert_Some in Hg2 as [[<- <-]|[Hn2 Hg2]]; [done|..].
      * rewrite Hread in Hin. apply elem_of_app in Hin as [Hin|Hin%list_elem_of_singleton]; [by apply (Hap name n2 gw g2)|].
        subst y. intros Hin. by apply Hnew, (Hr n2 g2).
      * rewrite Hread. intros [Hin'|Hin'%list_elem_of_singleton]%elem_of_app; [by apply (Hap n1 name g1 gw y)|].
        subst y. by apply Hnew, (Hr n1 g1).
      * by apply (Hap n1 n2 g1 g2).
    + intros x g Hxg Hnil. apply lookup_insert_Some in Hxg as [[<- <-]|[_ Hxg]]; [|by apply Hun].
      rewrite Hread in Hnil. by destruct (gw_read gw).
  - split; simpl; [by exists n|done..].
  - split; simpl; [by exists n|done..].
Qed.

(** However an update is published, read, acknowledged and reclaimed, it
    reaches one gateway of the fleet at most: the others go on with the rules
    they started with. *)
Lemma one_gateway_updated s0 s :
  sm_group (fl_stream s0) = Some 0 -> entries (fl_stream s0) = [] ->
  (forall name gw, fl_gateways s0 !! name = Some gw -> gw_read gw = []) ->
  rtc fleet_step s0 s ->
  (forall n1 n2 g1 g2 id, fl_gateways s !! n1 = Some g1 -> fl_gateways s !! n2 = Some g2 -> n1 <> n2 -> id ∈ gw_read g1 -> id ∉ gw_read g2) /\
  (length (entries (fl_stream s)) <= 1 ->
   forall n1 n2 g1 g2, fl_gateways s !! n1 = Some g1 -> fl_gateways s !! n2 = Some g2 -> n1 <> n2 ->
     fl_gateways s0 !! n1 = Some g1 \/ fl_gateways s0 !! n2 = Some g2).
Proof.
  intros Hg He Hnone Hs.
  assert (Hok : fleet_ok (fl_gateways s0) s0).
  { split; [|rewrite He; apply NoDup_nil_2| |done].
    - exists 0. split; [done|]. intros name gw id Hgw Hin. rewrite (Hnone name gw Hgw) in Hin. by apply elem_of_nil in Hin.
    - intros n1 n2 g1 g2 id Hg1 _ _ Hin. rewrite (Hnone n1 g1 Hg1) in Hin. by apply elem_of_nil in Hin. }
  assert (Hok' : fleet_ok (fl_gateways s0) s).
  { revert Hok. generalize (fl_gateways s0) as init. intros init. clear Hg He Hnone.
    induction Hs as [|s1 s2 s3 Hst _ IH]; [done|]. intros Hok. apply IH. by eapply fleet_step_ok. }
  destruct Hok' as [(n & Hgn & Hr) Hnd Hap Hun]. split; [done|]. intros Hlen n1 n2 g1 g2 Hg1 Hg2 Hne.
  destruct (gw_read g1) as [|x l1] eqn:E1; [left; by apply Hun|]. destruct (gw_read g2) as [|y l2] eqn:E2; [right; by apply Hun|].
  exfalso. assert (Hx : x ∈ gw_read g1) by (rewrite E1; left). assert (Hy : y ∈ gw_read g2) by (rewrite E2; left).
  pose proof (proj1 (elem_of_take _ _ _) (Hr n1 g1 x Hg1 Hx)) as (i & Hx' & _).
  pose proof (proj1 (elem_of_take _ _ _) (Hr n2 g2 y Hg2 Hy)) as (j & Hy' & _).
  destruct (entries (fl_stream s)) as [|z [|]]; simpl in Hlen; [done| |lia].
  apply list_elem_of_lookup_2, list_elem_of_singleton in Hx', Hy'. subst. by apply (Hap n1 n2 g1 g2 z Hg1 Hg2 Hne).
Qed.
End Fleet.
End Live.
